(** * Route exposure: a shallow embedding of the two exposure scripts

    The repository holds two generations of one offline computation:

    - [scripts/compute_route_exposure.py] (v1): log-scaled fetch score;
    - [scripts/compute_route_exposure_v2.py] (v2): threshold shelter ratio,
      with two validators that gate the output file.

    Numbers.  Python floats are modelled as real numbers ([R]): every
    arithmetic operation is exact, [math.log], [math.sin], [math.cos],
    [math.sqrt] and [math.atan2] are the real functions, and [round(x, k)]
    rounds the exact value half to even at the k-th decimal.  Python
    integers are [Z].  The scripts compute in binary64; where its rounding
    can change what a run shows, the statements are written so that they
    hold of the doubles as well:

    - [np.arange] takes its length from a quotient of doubles.  The model
      and numpy agree on whole-number steps and ranges, as both scripts
      ship them ([whole_numbers]), and statements about the probes of a
      ray assume such values;
    - [round] sees the double, so a value on a decimal tie can be stored
      one unit of the last decimal away from the model's; statements about
      a stored decimal say that it is a nearest one ([nearest_decimal]);
    - the interpolation of the sample points is not symmetric in its two
      endpoints; the module [Binary64] computes it, and the ray loop, in
      doubles;
    - the second square root of the haversine formula sees a double that
      can exceed 1 for points that are nearly antipodal; statements about
      the distance assume points within a quarter turn of each other.

    The one float that is not a real number and that the scripts can
    store, nan, is the constructor [NaN] of [PyFloat].

    Exceptions.  A function that can raise returns a [Result]; the exception
    is a value of [PyExn].

    Collaborators.  The coordinate transform ([pyproj]) and the land geometry
    ([shapely]) are not part of the repository: the transform is a function
    [R -> R -> R * R], the land mask a predicate [R * R -> bool], both taken
    as parameters. *)

From Stdlib Require Import Reals Lra Lia ZArith List String Bool.
From Stdlib Require Import Permutation Sorted.
From Stdlib Require Floats.
Import ListNotations.

Local Open Scope R_scope.

(* ================================================================== *)
(** * Exceptions and results *)

Inductive PyExn : Type :=
| KeyError (key : string)
| ZeroDivisionError
| ValueError
| FileNotFoundError
| SystemExit (code : Z)
| NanValue.

Inductive Result (A : Type) : Type :=
| Ok (a : A)
| Raise (e : PyExn).

Arguments Ok {A} a.
Arguments Raise {A} e.

Definition bind {A B : Type} (c : Result A) (k : A -> Result B) : Result B :=
  match c with
  | Ok a => k a
  | Raise e => Raise e
  end.

Notation "x <- c ;; k" := (bind c (fun x => k))
  (at level 61, c at next level, right associativity).

(** A [for] loop that appends one value per element; an exception raised in
    the body leaves the loop at once. *)
Fixpoint for_each {A B : Type} (f : A -> Result B) (l : list A)
  : Result (list B) :=
  match l with
  | [] => Ok []
  | a :: l' =>
      b <- f a ;;
      bs <- for_each f l' ;;
      Ok (b :: bs)
  end.

Definition is_ok {A : Type} (r : Result A) : Prop :=
  exists a, r = Ok a.

(* ================================================================== *)
(** * Python and numpy primitives over the reals *)

Definition Rle_bool (x y : R) : bool := if Rle_dec x y then true else false.
Definition Rlt_bool (x y : R) : bool := if Rlt_dec x y then true else false.
Definition Req_bool (x y : R) : bool := if Req_dec_T x y then true else false.

(** [x / y] on floats. *)
Definition py_div (x y : R) : Result R :=
  if Req_bool y 0 then Raise ZeroDivisionError else Ok (x / y).

(** [math.log]. *)
Definition math_log (x : R) : Result R :=
  if Rlt_bool 0 x then Ok (ln x) else Raise ValueError.

(** [math.sqrt]. *)
Definition math_sqrt (x : R) : Result R :=
  if Rle_bool 0 x then Ok (sqrt x) else Raise ValueError.

(** [math.radians]. *)
Definition math_radians (deg : R) : R := deg * PI / 180.

(** [math.atan2 y x]. *)
Definition math_atan2 (y x : R) : R :=
  if Rlt_bool 0 x then atan (y / x)
  else if Rlt_bool x 0 then
         (if Rle_bool 0 y then atan (y / x) + PI else atan (y / x) - PI)
  else if Rlt_bool 0 y then PI / 2
  else if Rlt_bool y 0 then - (PI / 2)
  else 0.

(** [range(n)]. *)
Definition py_range (n : Z) : list Z := map Z.of_nat (seq 0 (Z.to_nat n)).

(** [max(a, b)] and [min(a, b)] of two floats: the first argument unless
    the second is strictly greater (resp. smaller). *)
Definition py_max (a b : R) : R := if Rlt_bool a b then b else a.
Definition py_min (a b : R) : R := if Rlt_bool b a then b else a.

(** [round(x, k)]: the multiple of [10^-k] nearest to [x], a tie going to
    the even multiple. *)
Definition round_half_even (y : R) : Z :=
  let f := Zfloor y in
  let r := y - IZR f in
  if Rlt_bool r (1 / 2) then f
  else if Rlt_bool (1 / 2) r then (f + 1)%Z
  else if Z.even f then f else (f + 1)%Z.

Definition py_round (x : R) (ndigits : nat) : R :=
  IZR (round_half_even (x * 10 ^ ndigits)) / 10 ^ ndigits.

(** [sum] of a list of floats. *)
Definition py_sum (l : list R) : R := fold_right Rplus 0 l.

(** [np.arange(start, stop, step)]: [ceil((stop - start) / step)] values
    [start + i * step]; a zero step raises [ZeroDivisionError].  The
    quotient is the exact one here and a quotient of doubles in numpy; the
    two give the same length when start, stop and step are whole numbers. *)
Definition np_arange (start stop step : R) : Result (list R) :=
  if Req_bool step 0 then Raise ZeroDivisionError
  else Ok (map (fun i : nat => start + INR i * step)
               (seq 0 (Z.to_nat (Zceil ((stop - start) / step))))).

(** [np.mean]: the sum over the length.  Of no value it is nan, which
    numpy returns with a warning: [NanValue] reports it to the caller, who
    decides how nan goes on.  Both scripts take the mean of the 16 scores,
    never of no value. *)
Definition np_mean (l : list R) : Result R :=
  match l with
  | [] => Raise NanValue
  | _ => Ok (py_sum l / INR (List.length l))
  end.

(** Ascending sort, as [np.median] applies it before picking the middle. *)
Fixpoint insert_asc (x : R) (l : list R) : list R :=
  match l with
  | [] => [x]
  | y :: l' => if Rle_bool x y then x :: l else y :: insert_asc x l'
  end.

Definition sort_asc (l : list R) : list R := fold_right insert_asc [] l.

(** [np.median]: the middle value of the sorted data, the mean of the two
    middle values when their number is even.  Of no value it is nan,
    reported as [NanValue]: v1 goes on with it ([V1.direction_step]); v2
    has divided by the number of values before and never gets there. *)
Definition np_median (l : list R) : Result R :=
  let s := sort_asc l in
  let n := List.length s in
  match n with
  | O => Raise NanValue
  | _ =>
      if Nat.even n
      then Ok ((nth (n / 2 - 1) s 0 + nth (n / 2) s 0) / 2)
      else Ok (nth (n / 2) s 0)
  end.

(* ================================================================== *)
(** * Dictionaries

    A Python [dict] keeps its keys in insertion order; assigning to a key
    that is present replaces the value in place. *)

Section Dict.
Context {K V : Type}.
Variable eqb : K -> K -> bool.

Fixpoint dict_get (d : list (K * V)) (k : K) : option V :=
  match d with
  | [] => None
  | (k', v) :: d' => if eqb k k' then Some v else dict_get d' k
  end.

Fixpoint dict_set (d : list (K * V)) (k : K) (v : V) : list (K * V) :=
  match d with
  | [] => [(k, v)]
  | (k', v') :: d' =>
      if eqb k k' then (k', v) :: d' else (k', v') :: dict_set d' k v
  end.

Definition dict_keys (d : list (K * V)) : list K := map fst d.
Definition dict_values (d : list (K * V)) : list V := map snd d.

End Dict.

(* ================================================================== *)
(** * Static tables shared by the two scripts

    Both scripts open with the same [PORTS], [ROUTES] and
    [COMPASS_DIRECTIONS]; the first two are configuration and are passed
    around in a [Config], with [PORTS_table] and [ROUTES_table] the values
    the scripts ship. *)

Record Port : Type := {
  lat : R;
  lon : R;
  name : string
}.

Record Route : Type := mkRoute {
  route_id : string;
  origin : string;
  dest : string
}.

Definition PortTable : Type := list (string * Port).

(** [PORTS[slug]]. *)
Definition ports_get (ports : PortTable) (slug : string) : Result Port :=
  match dict_get String.eqb ports slug with
  | Some p => Ok p
  | None => Raise (KeyError slug)
  end.

Definition PORTS_table : PortTable := [
  ("woods-hole"%string,
     {| lat := 41.5234; lon := -70.6693; name := "Woods Hole" |});
  ("hyannis"%string,
     {| lat := 41.6362; lon := -70.2826; name := "Hyannis" |});
  ("vineyard-haven"%string,
     {| lat := 41.4535; lon := -70.6036; name := "Vineyard Haven" |});
  ("oak-bluffs"%string,
     {| lat := 41.4571; lon := -70.5566; name := "Oak Bluffs" |});
  ("nantucket"%string,
     {| lat := 41.2835; lon := -70.0995; name := "Nantucket" |})
].

Definition ROUTES_table : list Route := [
  mkRoute "wh-vh-ssa" "woods-hole" "vineyard-haven";
  mkRoute "vh-wh-ssa" "vineyard-haven" "woods-hole";
  mkRoute "wh-ob-ssa" "woods-hole" "oak-bluffs";
  mkRoute "ob-wh-ssa" "oak-bluffs" "woods-hole";
  mkRoute "hy-nan-ssa" "hyannis" "nantucket";
  mkRoute "nan-hy-ssa" "nantucket" "hyannis";
  mkRoute "hy-nan-hlc" "hyannis" "nantucket";
  mkRoute "nan-hy-hlc" "nantucket" "hyannis";
  mkRoute "hy-vh-hlc" "hyannis" "vineyard-haven";
  mkRoute "vh-hy-hlc" "vineyard-haven" "hyannis"
].

(** The 16 wind-from directions, in the order of the [COMPASS_DIRECTIONS]
    dictionary.  The names stay qualified ([Compass.N], [Compass.S]). *)
Module Compass.

Inductive Direction : Type :=
| N | NNE | NE | ENE | E | ESE | SE | SSE
| S | SSW | SW | WSW | W | WNW | NW | NNW.

Definition index (d : Direction) : nat :=
  match d with
  | N => 0 | NNE => 1 | NE => 2 | ENE => 3
  | E => 4 | ESE => 5 | SE => 6 | SSE => 7
  | S => 8 | SSW => 9 | SW => 10 | WSW => 11
  | W => 12 | WNW => 13 | NW => 14 | NNW => 15
  end%nat.

Definition eqb (a b : Direction) : bool := Nat.eqb (index a) (index b).

(** The key of the direction in the dictionaries of the scripts. *)
Definition key (d : Direction) : string :=
  match d with
  | N => "N" | NNE => "NNE" | NE => "NE" | ENE => "ENE"
  | E => "E" | ESE => "ESE" | SE => "SE" | SSE => "SSE"
  | S => "S" | SSW => "SSW" | SW => "SW" | WSW => "WSW"
  | W => "W" | WNW => "WNW" | NW => "NW" | NNW => "NNW"
  end%string.

End Compass.

Definition CompassDirection : Type := Compass.Direction.

Definition COMPASS_DIRECTIONS : list (CompassDirection * R) := [
  (Compass.N, 0); (Compass.NNE, 22.5); (Compass.NE, 45); (Compass.ENE, 67.5);
  (Compass.E, 90); (Compass.ESE, 112.5); (Compass.SE, 135);
  (Compass.SSE, 157.5);
  (Compass.S, 180); (Compass.SSW, 202.5); (Compass.SW, 225);
  (Compass.WSW, 247.5);
  (Compass.W, 270); (Compass.WNW, 292.5); (Compass.NW, 315);
  (Compass.NNW, 337.5)
].

Definition all_directions : list CompassDirection :=
  dict_keys COMPASS_DIRECTIONS.

(* ================================================================== *)
(** * Route sampling and ray casting (the same text in both scripts) *)

Definition PlanarPoint : Type := (R * R)%type.

Section Geometry.

(** [wgs84_to_utm(lon, lat)]: the projection, a collaborator. *)
Variable wgs84_to_utm : R -> R -> PlanarPoint.

(** The point at parameter [t] of the segment from [p1] to [p2]. *)
Definition interpolate (p1 p2 : PlanarPoint) (t : R) : PlanarPoint :=
  (fst p1 + t * (fst p2 - fst p1), snd p1 + t * (snd p2 - snd p1)).

(** [sample_route_points(origin, dest, n_points)]. *)
Definition sample_route_points (origin dest : Port) (n_points : Z)
  : Result (list PlanarPoint) :=
  let p1 := wgs84_to_utm (lon origin) (lat origin) in
  let p2 := wgs84_to_utm (lon dest) (lat dest) in
  for_each
    (fun i : Z =>
       t <- py_div (IZR i + 0.5) (IZR n_points) ;;
       Ok (interpolate p1 p2 t))
    (py_range n_points).

(** [land_geom.contains(Point(x, y))]: the land mask, a collaborator. *)
Definition LandMask : Type := PlanarPoint -> bool.

(** The body of the ray loop: the first distance of [dists] whose test
    point lies on land. *)
Fixpoint first_land (land_geom : LandMask) (x y dx dy : R) (dists : list R)
  : option R :=
  match dists with
  | [] => None
  | dist :: rest =>
      let test_x := x + dx * dist in
      let test_y := y + dy * dist in
      if land_geom (test_x, test_y) then Some dist
      else first_land land_geom x y dx dy rest
  end.

(** [cast_ray_to_land(point_utm, wind_from_degrees, land_geom,
    max_distance_m)] of v2 and [compute_fetch_distance] of v1: one text, with
    the module constant [RAY_STEP_M] as the argument [step_m]. *)
Definition cast_ray_to_land (step_m : R) (point_utm : PlanarPoint)
  (wind_from_degrees : R) (land_geom : LandMask) (max_distance_m : R)
  : Result R :=
  let '(x, y) := point_utm in
  let angle_rad := math_radians wind_from_degrees in
  let dx := sin angle_rad in
  let dy := cos angle_rad in
  dists <- np_arange step_m (max_distance_m + step_m) step_m ;;
  match first_land land_geom x y dx dy dists with
  | Some dist => Ok (dist / 1000)
  | None => Ok (max_distance_m / 1000)
  end.

End Geometry.

(** [sorted(d.items(), key=lambda x: x[1], reverse=True)]: Python's sort is
    stable, and [reverse=True] keeps items of equal value in their original
    order. *)
Fixpoint insert_desc {K : Type} (x : K * R) (l : list (K * R))
  : list (K * R) :=
  match l with
  | [] => [x]
  | y :: l' =>
      if Rlt_bool (snd x) (snd y) then y :: insert_desc x l' else x :: l
  end.

Definition sorted_by_value_desc {K : Type} (items : list (K * R))
  : list (K * R) :=
  fold_right insert_desc [] items.

(** A loop that threads a state through its iterations. *)
Fixpoint for_fold {A St : Type} (body : St -> A -> Result St)
  (l : list A) (s : St) : Result St :=
  match l with
  | [] => Ok s
  | a :: l' => s' <- body s a ;; for_fold body l' s'
  end.

(** [next((r for r in results if p(r)), None)]. *)
Definition py_next {A : Type} (p : A -> bool) (results : list A)
  : option A :=
  find p results.

(** The two per-direction dictionaries a signature is built from. *)
Definition DirDict : Type := list (CompassDirection * R).

(** A float that a script stores: a real number, or nan. *)
Inductive PyFloat : Type :=
| Finite (x : R)
| NaN.

(** The per-direction dictionary of v1's median fetches, which can hold
    nan. *)
Definition FetchDict : Type := list (CompassDirection * PyFloat).

(** [d[k]] on a direction dictionary. *)
Definition dir_lookup (d : DirDict) (k : CompassDirection) : Result R :=
  match dict_get Compass.eqb d k with
  | Some v => Ok v
  | None => Raise (KeyError (Compass.key k))
  end.

(* ================================================================== *)
(** * The process: standard output and the output file *)

Inductive Event : Type :=
| PrintBanner
| PrintError (message : string)
| PrintDistanceReport (all_pass : bool)
| PrintLandMaskLoaded
| PrintRoute (route : string) (mean : R)
| PrintExposureTables
| PrintOrderingReport (check : bool)
| PrintOutputWritten.

Section Process.
(** The content written to [OUTPUT_FILE]. *)
Variable Output : Type.

Record World : Type := {
  stdout : list Event;
  output_file : option Output
}.

Definition Prog (A : Type) : Type := World -> Result A * World.

Definition pret {A : Type} (a : A) : Prog A := fun w => (Ok a, w).

Definition pbind {A B : Type} (c : Prog A) (k : A -> Prog B) : Prog B :=
  fun w =>
    match c w with
    | (Ok a, w') => k a w'
    | (Raise e, w') => (Raise e, w')
    end.

(** A pure computation inside the process; its exception propagates. *)
Definition lift {A : Type} (r : Result A) : Prog A := fun w => (r, w).

(** [print(...)]. *)
Definition print (e : Event) : Prog unit :=
  fun w => (Ok tt, {| stdout := stdout w ++ [e];
                      output_file := output_file w |}).

(** [with open(OUTPUT_FILE, 'w') as f: json.dump(output, f)]. *)
Definition write_output (o : Output) : Prog unit :=
  fun w => (Ok tt, {| stdout := stdout w; output_file := Some o |}).

(** [sys.exit(code)]. *)
Definition sys_exit {A : Type} (code : Z) : Prog A :=
  fun w => (Raise (SystemExit code), w).

(** The loop of [main] over [ROUTES]. *)
Fixpoint for_each_prog {A B : Type} (f : A -> Prog B) (l : list A)
  : Prog (list B) :=
  match l with
  | [] => pret []
  | a :: l' =>
      pbind (f a) (fun b =>
      pbind (for_each_prog f l') (fun bs =>
      pret (b :: bs)))
  end.

End Process.

Arguments stdout {Output} w.
Arguments output_file {Output} w.
Arguments pret {Output A} a.
Arguments pbind {Output A B} c k.
Arguments lift {Output A} r.
Arguments print {Output} e.
Arguments write_output {Output} o.
Arguments sys_exit {Output A} code.
Arguments for_each_prog {Output A B} f l.

Notation "x <~ c ;; k" := (pbind c (fun x => k))
  (at level 61, c at next level, right associativity).
Notation "c ;;; k" := (pbind c (fun _ => k))
  (at level 61, right associativity).

(** [(a, b) == (c, d)] on pairs of slugs. *)
Definition pair_eqb (a b : string * string) : bool :=
  (String.eqb (fst a) (fst b) && String.eqb (snd a) (snd b))%bool.

(* ================================================================== *)
(** * v1: [scripts/compute_route_exposure.py] *)

Module V1.

Record Config : Type := {
  PORTS : PortTable;
  ROUTES : list Route;
  SAMPLE_POINTS_PER_ROUTE : Z;
  MAX_FETCH_KM : R;
  RAY_STEP_M : R
}.

(** The constants of the script. *)
Definition shipped : Config := {|
  PORTS := PORTS_table;
  ROUTES := ROUTES_table;
  SAMPLE_POINTS_PER_ROUTE := 10;
  MAX_FETCH_KM := 50.0;
  RAY_STEP_M := 100
|}.

(** The dictionary [compute_route_exposure] returns. *)
Record Exposure : Type := {
  route_id : string;
  origin_port : string;
  destination_port : string;
  exposure_by_dir : DirDict;
  fetch_km_by_dir : FetchDict;
  avg_exposure : R;
  top_exposure_dirs : list CompassDirection
}.

(** The dictionary [main] dumps to [route_exposure.json]. *)
Record Output : Type := {
  version : string;
  computed_at : string;
  sample_points : Z;
  max_fetch_km : R;
  ray_step_m : R;
  routes : list (string * Exposure)
}.

Section Script.
Variable cfg : Config.
Variable wgs84_to_utm : R -> R -> PlanarPoint.

(** [compute_fetch_distance(point_utm, wind_from_degrees, land_geom,
    max_distance_m)]. *)
Definition compute_fetch_distance (point_utm : PlanarPoint)
  (wind_from_degrees : R) (land_geom : LandMask) (max_distance_m : R)
  : Result R :=
  cast_ray_to_land (RAY_STEP_M cfg) point_utm wind_from_degrees land_geom
    max_distance_m.

(** The log-fetch score of a median fetch:
    [exposure = math.log(median_fetch + 1) / math.log(MAX_FETCH_KM + 1)],
    then [exposure = max(0.0, min(1.0, exposure))]. *)
Definition log_fetch_exposure (median_fetch : R) : Result R :=
  num <- math_log (median_fetch + 1) ;;
  den <- math_log (MAX_FETCH_KM cfg + 1) ;;
  exposure <- py_div num den ;;
  Ok (py_max 0 (py_min 1 exposure)).

(** The same two lines when [median_fetch] is nan: [nan + 1] and its
    logarithm are nan and raise nothing, the logarithm of the denominator
    and the division raise as they do for a number, the quotient is nan,
    and [min(1.0, nan)] is [1.0], its first argument. *)
Definition log_fetch_exposure_of_nan : Result R :=
  den <- math_log (MAX_FETCH_KM cfg + 1) ;;
  _ <- py_div 0 den ;;
  Ok (py_max 0 1).

(** One turn of the loop over [COMPASS_DIRECTIONS.items()].  With no sample
    point, [float(np.median([]))] is nan and the turn goes on:
    [round(nan, 2)] is nan. *)
Definition direction_step (land_geom : LandMask)
  (sample_points : list PlanarPoint) (dicts : FetchDict * DirDict)
  (item : CompassDirection * R) : Result (FetchDict * DirDict) :=
  let '(fetch_km_by_dir, exposure_by_dir) := dicts in
  let '(dir_name, degrees) := item in
  fetch_distances <-
    for_each
      (fun point =>
         compute_fetch_distance point degrees land_geom
           (MAX_FETCH_KM cfg * 1000))
      sample_points ;;
  match np_median fetch_distances with
  | Ok median_fetch =>
      let fetch_km_by_dir :=
        dict_set Compass.eqb fetch_km_by_dir dir_name
          (Finite (py_round median_fetch 2)) in
      exposure <- log_fetch_exposure median_fetch ;;
      let exposure_by_dir :=
        dict_set Compass.eqb exposure_by_dir dir_name (py_round exposure 3) in
      Ok (fetch_km_by_dir, exposure_by_dir)
  | Raise NanValue =>
      let fetch_km_by_dir :=
        dict_set Compass.eqb fetch_km_by_dir dir_name NaN in
      exposure <- log_fetch_exposure_of_nan ;;
      let exposure_by_dir :=
        dict_set Compass.eqb exposure_by_dir dir_name (py_round exposure 3) in
      Ok (fetch_km_by_dir, exposure_by_dir)
  | Raise e => Raise e
  end.

(** [compute_route_exposure(route_id, origin_slug, dest_slug, land_geom)]. *)
Definition compute_route_exposure (route_id origin_slug dest_slug : string)
  (land_geom : LandMask) : Result Exposure :=
  origin <- ports_get (PORTS cfg) origin_slug ;;
  dest <- ports_get (PORTS cfg) dest_slug ;;
  sample_points <-
    sample_route_points wgs84_to_utm origin dest
      (SAMPLE_POINTS_PER_ROUTE cfg) ;;
  dicts <-
    for_fold (direction_step land_geom sample_points) COMPASS_DIRECTIONS
      ([], []) ;;
  let '(fetch_km_by_dir, exposure_by_dir) := dicts in
  avg_exposure <- np_mean (dict_values exposure_by_dir) ;;
  let sorted_dirs := sorted_by_value_desc exposure_by_dir in
  let top_dirs := map fst (firstn 3 sorted_dirs) in
  Ok {| route_id := route_id;
        origin_port := origin_slug;
        destination_port := dest_slug;
        exposure_by_dir := exposure_by_dir;
        fetch_km_by_dir := fetch_km_by_dir;
        avg_exposure := py_round avg_exposure 3;
        top_exposure_dirs := top_dirs |}.

(** The lookups [result['exposure_by_dir'][d]] of the exposure tables that
    [validate_results] prints. *)
Definition print_tables (results : list Exposure) : Result unit :=
  _ <- for_each
         (fun id : string =>
            match py_next (fun r => String.eqb (route_id r) id) results with
            | None => Ok tt
            | Some result =>
                _ <- for_each (dir_lookup (exposure_by_dir result))
                       all_directions ;;
                Ok tt
            end)
         ["wh-vh-ssa"; "hy-nan-ssa"; "hy-vh-hlc"]%string ;;
  Ok tt.

(** The dictionary [route_exposures] of [validate_results]. *)
Definition route_exposures (results : list Exposure)
  : list (string * string * R) :=
  fold_left
    (fun d r =>
       dict_set pair_eqb d (origin_port r, destination_port r)
         (avg_exposure r))
    results [].

(** [d.get(key, 0)]. *)
Definition get_or_zero (d : list (string * string * R))
  (key : string * string) : R :=
  match dict_get pair_eqb d key with
  | Some v => v
  | None => 0
  end.

(** [validate_results(results)]: returns [check1 = hy_nan > wh_vh]. *)
Definition validate_results (results : list Exposure) : Result bool :=
  let hy_nan :=
    get_or_zero (route_exposures results) ("hyannis", "nantucket")%string in
  let wh_vh :=
    get_or_zero (route_exposures results)
      ("woods-hole", "vineyard-haven")%string in
  let check1 := Rlt_bool wh_vh hy_nan in
  _ <- print_tables results ;;
  Ok check1.

(** [{r['route_id']: r for r in results}]. *)
Definition routes_dict (results : list Exposure) : list (string * Exposure) :=
  fold_left (fun d r => dict_set String.eqb d (route_id r) r) results [].

(** One turn of the loop of [main] over [ROUTES]. *)
Definition route_step (land_geom : LandMask) (route : Route)
  : Prog Output Exposure :=
  let 'mkRoute id origin_slug dest_slug := route in
  exposure <~
    lift (compute_route_exposure id origin_slug dest_slug land_geom) ;;
  print (PrintRoute id (avg_exposure exposure)) ;;;
  pret exposure.

(** [main()].  [load_land_mask] and the clock are the environment: the
    first is the outcome of reading the shapefile, the second the value of
    [datetime.now(timezone.utc).isoformat()].  The value [validate_results]
    returns is dropped. *)
Definition main (load_land_mask : Result LandMask) (now : string)
  : Prog Output unit :=
  print PrintBanner ;;;
  match load_land_mask with
  | Raise FileNotFoundError =>
      print (PrintError "land mask not found") ;;;
      pret tt
  | Raise e => lift (Raise e)
  | Ok land_geom =>
      print PrintLandMaskLoaded ;;;
      results <~ for_each_prog (route_step land_geom) (ROUTES cfg) ;;
      check1 <~ lift (validate_results results) ;;
      print (PrintOrderingReport check1) ;;;
      write_output
        {| version := "1.0";
           computed_at := now;
           sample_points := SAMPLE_POINTS_PER_ROUTE cfg;
           max_fetch_km := MAX_FETCH_KM cfg;
           ray_step_m := RAY_STEP_M cfg;
           routes := routes_dict results |} ;;;
      print PrintOutputWritten ;;;
      pret tt
  end.

End Script.

End V1.

(* ================================================================== *)
(** * v2: [scripts/compute_route_exposure_v2.py] *)

Module V2.

(** An entry of [EXPECTED_DISTANCES]. *)
Record Window : Type := {
  min_km : R;
  max_km : R;
  expected_km : R
}.

Record Config : Type := {
  PORTS : PortTable;
  ROUTES : list Route;
  SAMPLE_POINTS_PER_ROUTE : Z;
  MAX_RAY_KM : R;
  SHELTER_THRESHOLD_KM : R;
  RAY_STEP_M : R;
  EXPECTED_DISTANCES : list (string * string * Window)
}.

Definition EXPECTED_DISTANCES_table : list (string * string * Window) := [
  (("woods-hole", "vineyard-haven")%string,
     {| min_km := 8; max_km := 12; expected_km := 10 |});
  (("woods-hole", "oak-bluffs")%string,
     {| min_km := 8; max_km := 14; expected_km := 11 |});
  (("hyannis", "nantucket")%string,
     {| min_km := 40; max_km := 48; expected_km := 44 |});
  (("hyannis", "vineyard-haven")%string,
     {| min_km := 35; max_km := 45; expected_km := 40 |})
].

(** The constants of the script. *)
Definition shipped : Config := {|
  PORTS := PORTS_table;
  ROUTES := ROUTES_table;
  SAMPLE_POINTS_PER_ROUTE := 50;
  MAX_RAY_KM := 30.0;
  SHELTER_THRESHOLD_KM := 3.0;
  RAY_STEP_M := 50;
  EXPECTED_DISTANCES := EXPECTED_DISTANCES_table
|}.

(** The dictionary [compute_shelter_signature] returns. *)
Record Signature : Type := {
  route_id : string;
  origin_port : string;
  destination_port : string;
  shelter_ratio_by_dir : DirDict;
  effective_open_fetch_km_by_dir : DirDict;
  mean_shelter_ratio : R;
  top_exposure_dirs : list CompassDirection
}.

(** The dictionary [main] dumps to [route_exposure_v2.json]. *)
Record Output : Type := {
  version : string;
  algorithm : string;
  computed_at : string;
  sample_points : Z;
  max_ray_km : R;
  shelter_threshold_km : R;
  ray_step_m : R;
  compass_buckets : Z;
  routes : list (string * Signature)
}.

(** [haversine_km(lat1, lon1, lat2, lon2)]. *)
Definition haversine_km (lat1 lon1 lat2 lon2 : R) : Result R :=
  let R_earth := 6371 in
  let lat1_rad := math_radians lat1 in
  let lat2_rad := math_radians lat2 in
  let delta_lat := math_radians (lat2 - lat1) in
  let delta_lon := math_radians (lon2 - lon1) in
  let a := sin (delta_lat / 2) ^ 2
           + cos lat1_rad * cos lat2_rad * sin (delta_lon / 2) ^ 2 in
  root_a <- math_sqrt a ;;
  root_1a <- math_sqrt (1 - a) ;;
  let c := 2 * math_atan2 root_a root_1a in
  Ok (R_earth * c).

(** [sum(flags)] of a list of booleans. *)
Definition count_true (flags : list bool) : nat :=
  List.length (filter (fun b => b) flags).

Section Script.
Variable cfg : Config.
Variable wgs84_to_utm : R -> R -> PlanarPoint.

(** The threshold-shelter score of the per-point distances:
    [is_sheltered = dist_km <= SHELTER_THRESHOLD_KM] for each, then
    [shelter_ratio = 1.0 - (sum(sheltered_flags) / len(sheltered_flags))]. *)
Definition is_sheltered (dist_km : R) : bool :=
  Rle_bool dist_km (SHELTER_THRESHOLD_KM cfg).

Definition shelter_ratio_of (intersection_distances : list R) : Result R :=
  let sheltered_flags := map is_sheltered intersection_distances in
  q <- py_div (INR (count_true sheltered_flags))
         (INR (List.length sheltered_flags)) ;;
  Ok (1.0 - q).

(** [effective_fetch = float(np.median(capped_distances))] with
    [capped_distances = [min(d, MAX_RAY_KM) for d in ...]]. *)
Definition effective_fetch_of (intersection_distances : list R) : Result R :=
  let capped_distances :=
    map (fun d => py_min d (MAX_RAY_KM cfg)) intersection_distances in
  np_median capped_distances.

(** One turn of the loop over [COMPASS_DIRECTIONS.items()]. *)
Definition direction_step (land_geom : LandMask)
  (sample_points : list PlanarPoint) (dicts : DirDict * DirDict)
  (item : CompassDirection * R) : Result (DirDict * DirDict) :=
  let '(shelter_ratio_by_dir, effective_fetch_by_dir) := dicts in
  let '(dir_name, degrees) := item in
  intersection_distances <-
    for_each
      (fun point =>
         cast_ray_to_land (RAY_STEP_M cfg) point degrees land_geom
           (MAX_RAY_KM cfg * 1000))
      sample_points ;;
  shelter_ratio <- shelter_ratio_of intersection_distances ;;
  let shelter_ratio_by_dir :=
    dict_set Compass.eqb shelter_ratio_by_dir dir_name
      (py_round shelter_ratio 3) in
  effective_fetch <- effective_fetch_of intersection_distances ;;
  let effective_fetch_by_dir :=
    dict_set Compass.eqb effective_fetch_by_dir dir_name
      (py_round effective_fetch 2) in
  Ok (shelter_ratio_by_dir, effective_fetch_by_dir).

(** [compute_shelter_signature(route_id, origin_slug, dest_slug,
    land_geom)]. *)
Definition compute_shelter_signature
  (route_id origin_slug dest_slug : string) (land_geom : LandMask)
  : Result Signature :=
  origin <- ports_get (PORTS cfg) origin_slug ;;
  dest <- ports_get (PORTS cfg) dest_slug ;;
  sample_points <-
    sample_route_points wgs84_to_utm origin dest
      (SAMPLE_POINTS_PER_ROUTE cfg) ;;
  dicts <-
    for_fold (direction_step land_geom sample_points) COMPASS_DIRECTIONS
      ([], []) ;;
  let '(shelter_ratio_by_dir, effective_fetch_by_dir) := dicts in
  mean_shelter_ratio <- np_mean (dict_values shelter_ratio_by_dir) ;;
  let sorted_dirs := sorted_by_value_desc shelter_ratio_by_dir in
  let top_dirs := map fst (firstn 3 sorted_dirs) in
  Ok {| route_id := route_id;
        origin_port := origin_slug;
        destination_port := dest_slug;
        shelter_ratio_by_dir := shelter_ratio_by_dir;
        effective_open_fetch_km_by_dir := effective_fetch_by_dir;
        mean_shelter_ratio := py_round mean_shelter_ratio 3;
        top_exposure_dirs := top_dirs |}.

(** The test [expected['min'] <= dist <= expected['max']]. *)
Definition in_window (w : Window) (dist : R) : bool :=
  (Rle_bool (min_km w) dist && Rle_bool dist (max_km w))%bool.

(** [validate_route_distances()]. *)
Definition validate_route_distances : Result bool :=
  for_fold
    (fun (all_pass : bool) (item : string * string * Window) =>
       let '((origin, dest), expected) := item in
       p1 <- ports_get (PORTS cfg) origin ;;
       p2 <- ports_get (PORTS cfg) dest ;;
       dist <- haversine_km (lat p1) (lon p1) (lat p2) (lon p2) ;;
       Ok (if in_window expected dist then all_pass else false))
    (EXPECTED_DISTANCES cfg) true.

(** [validate_exposure_ordering(results)]. *)
Definition validate_exposure_ordering (results : list Signature) : bool :=
  let hy_nan :=
    py_next (fun r => String.eqb (route_id r) "hy-nan-ssa") results in
  let wh_vh :=
    py_next (fun r => String.eqb (route_id r) "wh-vh-ssa") results in
  match hy_nan, wh_vh with
  | Some hy_nan, Some wh_vh =>
      let hy_nan_ratio := mean_shelter_ratio hy_nan in
      let wh_vh_ratio := mean_shelter_ratio wh_vh in
      let diff := hy_nan_ratio - wh_vh_ratio in
      Rle_bool 0.2 diff
  | _, _ => false
  end.

(** The lookups [result['shelter_ratio_by_dir'][d]] of
    [print_exposure_tables(results)]. *)
Definition print_exposure_tables (results : list Signature) : Result unit :=
  _ <- for_each
         (fun id : string =>
            match py_next (fun r => String.eqb (route_id r) id) results with
            | None => Ok tt
            | Some result =>
                _ <- for_each (dir_lookup (shelter_ratio_by_dir result))
                       all_directions ;;
                Ok tt
            end)
         ["wh-vh-ssa"; "hy-nan-ssa"; "hy-vh-hlc"]%string ;;
  Ok tt.

(** [{r['route_id']: r for r in results}]. *)
Definition routes_dict (results : list Signature)
  : list (string * Signature) :=
  fold_left (fun d r => dict_set String.eqb d (route_id r) r) results [].

(** One turn of the loop of [main] over [ROUTES]. *)
Definition route_step (land_geom : LandMask) (route : Route)
  : Prog Output Signature :=
  let 'mkRoute id origin_slug dest_slug := route in
  signature <~
    lift (compute_shelter_signature id origin_slug dest_slug land_geom) ;;
  print (PrintRoute id (mean_shelter_ratio signature)) ;;;
  pret signature.

(** [main()], with the environment of [V1.main]. *)
Definition main (load_land_mask : Result LandMask) (now : string)
  : Prog Output unit :=
  print PrintBanner ;;;
  all_pass <~ lift validate_route_distances ;;
  print (PrintDistanceReport all_pass) ;;;
  if negb all_pass then
    print (PrintError "Route distance validation failed!") ;;;
    sys_exit 1
  else
  match load_land_mask with
  | Raise FileNotFoundError =>
      print (PrintError "land mask not found") ;;;
      sys_exit 1
  | Raise e => lift (Raise e)
  | Ok land_geom =>
      print PrintLandMaskLoaded ;;;
      results <~ for_each_prog (route_step land_geom) (ROUTES cfg) ;;
      lift (print_exposure_tables results) ;;;
      print PrintExposureTables ;;;
      let check := validate_exposure_ordering results in
      print (PrintOrderingReport check) ;;;
      if negb check then
        print (PrintError "Exposure ordering validation failed!") ;;;
        sys_exit 1
      else
        write_output
          {| version := "2.0";
             algorithm := "shelter_signature";
             computed_at := now;
             sample_points := SAMPLE_POINTS_PER_ROUTE cfg;
             max_ray_km := MAX_RAY_KM cfg;
             shelter_threshold_km := SHELTER_THRESHOLD_KM cfg;
             ray_step_m := RAY_STEP_M cfg;
             compass_buckets := 16;
             routes := routes_dict results |} ;;;
        print PrintOutputWritten ;;;
        pret tt
  end.

End Script.

End V2.

(* ================================================================== *)
(** * The sampler and the ray caster in binary64

    The kernel's floats are IEEE 754 binary64 with rounding to nearest
    even, as Python's are.  This module is the text of the sampler, of the
    ray loop and of the shelter ratio over them, for the runs in which the
    rounding shows.  [math.sin] and [math.cos] are not among the kernel's
    operations: the caster takes their values [dx] and [dy] as arguments
    (for the bearing 0 they are exactly 0 and 1). *)

Module Binary64.
Import PrimFloat.
Local Open Scope float_scope.
Local Set Warnings "-inexact-float".

Definition PlanarPoint : Type := (float * float)%type.
Definition LandMask : Type := PlanarPoint -> bool.

Record Port : Type := {
  lat : float;
  lon : float
}.

(** [float(i)] of a Python integer; exact below 2^53. *)
Definition of_int (i : Z) : float :=
  if (i <? 0)%Z then - of_uint63 (Uint63.of_Z (- i))
  else of_uint63 (Uint63.of_Z i).

(** [sample_route_points(origin, dest, n_points)]. *)
Definition sample_route_points (wgs84_to_utm : float -> float -> PlanarPoint)
  (origin dest : Port) (n_points : Z) : Result (list PlanarPoint) :=
  let '(x1, y1) := wgs84_to_utm (lon origin) (lat origin) in
  let '(x2, y2) := wgs84_to_utm (lon dest) (lat dest) in
  for_each
    (fun i : Z =>
       if (n_points =? 0)%Z then Raise ZeroDivisionError
       else
         let t := (of_int i + 0.5) / of_int n_points in
         Ok (x1 + t * (x2 - x1), y1 + t * (y2 - y1)))
    (py_range n_points).

(** The least integer at or above a finite double. *)
Definition ceil (x : float) : option Z :=
  match FloatOps.Prim2SF x with
  | SpecFloat.S754_zero _ => Some 0%Z
  | SpecFloat.S754_finite negative m e =>
      let v := if negative then Z.neg m else Z.pos m in
      Some (if (0 <=? e)%Z then v * 2 ^ e else - ((- v) / 2 ^ (- e)))%Z
  | _ => None
  end.

(** [np.arange(start, stop, step)] on doubles: the length is the ceiling
    of the double quotient [(stop - start) / step]; the first two values
    are [start] and [start + step], and the i-th is [start + i * delta]
    with [delta] their difference. *)
Definition np_arange (start stop step : float) : Result (list float) :=
  if step =? 0 then Raise ZeroDivisionError
  else
    match ceil ((stop - start) / step) with
    | None => Raise ValueError
    | Some length =>
        let next := start + step in
        let delta := next - start in
        Ok (map (fun i : nat =>
                   match i with
                   | O => start
                   | S O => next
                   | _ => start + of_int (Z.of_nat i) * delta
                   end)
                (seq 0 (Z.to_nat length)))
    end.

(** The body of the ray loop. *)
Fixpoint first_land (land_geom : LandMask) (x y dx dy : float)
  (dists : list float) : option float :=
  match dists with
  | [] => None
  | dist :: rest =>
      let test_x := x + dx * dist in
      let test_y := y + dy * dist in
      if land_geom (test_x, test_y) then Some dist
      else first_land land_geom x y dx dy rest
  end.

(** [cast_ray_to_land] and [compute_fetch_distance], with [dx] and [dy]
    the sine and the cosine of the bearing. *)
Definition cast_ray_to_land (step_m : float) (point_utm : PlanarPoint)
  (dx dy : float) (land_geom : LandMask) (max_distance_m : float)
  : Result float :=
  let '(x, y) := point_utm in
  dists <- np_arange step_m (max_distance_m + step_m) step_m ;;
  match first_land land_geom x y dx dy dists with
  | Some dist => Ok (dist / 1000)
  | None => Ok (max_distance_m / 1000)
  end.

(** [1.0 - (sum(sheltered_flags) / len(sheltered_flags))] of v2. *)
Definition shelter_ratio_of (shelter_threshold_km : float)
  (intersection_distances : list float) : Result float :=
  let sheltered_flags :=
    map (fun dist_km => dist_km <=? shelter_threshold_km)
      intersection_distances in
  let sheltered := List.length (filter (fun b : bool => b) sheltered_flags) in
  match List.length sheltered_flags with
  | O => Raise ZeroDivisionError
  | S _ as count =>
      Ok (1 - of_int (Z.of_nat sheltered) / of_int (Z.of_nat count))
  end.

(** One direction of the loop of [compute_shelter_signature], before the
    score is rounded. *)
Definition direction_shelter_ratio
  (ray_step_m max_ray_km shelter_threshold_km : float)
  (land_geom : LandMask) (sample_points : list PlanarPoint) (dx dy : float)
  : Result float :=
  intersection_distances <-
    for_each
      (fun point =>
         cast_ray_to_land ray_step_m point dx dy land_geom
           (max_ray_km * 1000))
      sample_points ;;
  shelter_ratio_of shelter_threshold_km intersection_distances.

(** The stand-in projection and the two ports of the scenario. *)
Definition flat_projection (lon lat : float) : PlanarPoint :=
  (lon * 111320, lat * 110574).

Definition port_a : Port := {| lat := 0; lon := 0 |}.
Definition port_b : Port := {| lat := 0; lon := 0.1 |}.

(** Land is everything west of the meridian [x = x0]. *)
Definition land_west_of (x0 : float) : LandMask :=
  fun p => fst p <? x0.

(** Land is everything at or north of the line [y = y0]. *)
Definition land_north_of (y0 : float) : LandMask :=
  fun p => y0 <=? snd p.

End Binary64.

(* ================================================================== *)
(** * Concrete instances

    Values at which the statements below are instantiated. *)

(** A linear stand-in for the coordinate transform: metres per degree of
    longitude and of latitude at the equator. *)
Definition flat_projection (lon lat : R) : PlanarPoint :=
  (lon * 111320, lat * 110574).

Definition woods_hole : Port :=
  {| lat := 41.5234; lon := -70.6693; name := "Woods Hole" |}.

Definition vineyard_haven : Port :=
  {| lat := 41.4535; lon := -70.6036; name := "Vineyard Haven" |}.

(** No land anywhere, and land everywhere. *)
Definition open_water : LandMask := fun _ => false.
Definition all_land : LandMask := fun _ => true.

(** Land is everything at or north of the line [y = y0]. *)
Definition land_north_of (y0 : R) : LandMask :=
  fun p => Rle_bool y0 (snd p).

(** The synthetic port table of the specification's scenarios: two ports
    on the equator, 0.1 degree of longitude apart. *)
Definition port_a : Port := {| lat := 0; lon := 0; name := "A" |}.
Definition port_b : Port := {| lat := 0; lon := 0.1; name := "B" |}.

Definition scenario_ports : PortTable :=
  [("a"%string, port_a); ("b"%string, port_b)].

(** The constants of v2 with the synthetic ports. *)
Definition shelter_scenario : V2.Config := {|
  V2.PORTS := scenario_ports;
  V2.ROUTES := [mkRoute "a-b" "a" "b"];
  V2.SAMPLE_POINTS_PER_ROUTE := 50;
  V2.MAX_RAY_KM := 30.0;
  V2.SHELTER_THRESHOLD_KM := 3.0;
  V2.RAY_STEP_M := 50;
  V2.EXPECTED_DISTANCES := []
|}.

(** A route whose sample points binary64 holds exactly: 16 points between
    two ports on the equator, a quarter of a degree apart. *)
Definition port_q : Port := {| lat := 0; lon := 0.25; name := "Q" |}.

Definition dyadic_scenario : V2.Config := {|
  V2.PORTS := [("a"%string, port_a); ("q"%string, port_q)];
  V2.ROUTES := [mkRoute "a-q" "a" "q"; mkRoute "q-a" "q" "a"];
  V2.SAMPLE_POINTS_PER_ROUTE := 16;
  V2.MAX_RAY_KM := 30.0;
  V2.SHELTER_THRESHOLD_KM := 3.0;
  V2.RAY_STEP_M := 50;
  V2.EXPECTED_DISTANCES := []
|}.

(** Land north of the route, 75 m away along its western half and 125 m
    away along its eastern half. *)
Definition staircase : LandMask :=
  fun p =>
    if Rlt_bool (fst p) 5566 then Rle_bool 75 (snd p)
    else Rle_bool 125 (snd p).

(** The scenario with a distance window that its two ports, about 11 km
    apart, do not meet. *)
Definition misplaced_scenario : V2.Config := {|
  V2.PORTS := scenario_ports;
  V2.ROUTES := [mkRoute "a-b" "a" "b"];
  V2.SAMPLE_POINTS_PER_ROUTE := 50;
  V2.MAX_RAY_KM := 30.0;
  V2.SHELTER_THRESHOLD_KM := 3.0;
  V2.RAY_STEP_M := 50;
  V2.EXPECTED_DISTANCES :=
    [(("a", "b")%string,
      {| V2.min_km := 40; V2.max_km := 48; V2.expected_km := 44 |})]
|}.

(** The constants of v2 with no distance window configured. *)
Definition unwindowed : V2.Config := {|
  V2.PORTS := PORTS_table;
  V2.ROUTES := ROUTES_table;
  V2.SAMPLE_POINTS_PER_ROUTE := 50;
  V2.MAX_RAY_KM := 30.0;
  V2.SHELTER_THRESHOLD_KM := 3.0;
  V2.RAY_STEP_M := 50;
  V2.EXPECTED_DISTANCES := []
|}.

(** The port of a slug in the shipped table (any port when absent). *)
Definition shipped_port (slug : string) : Port :=
  match dict_get String.eqb PORTS_table slug with
  | Some p => p
  | None => woods_hole
  end.

(** An empty process state. *)
Definition fresh_world (Output : Type) : World Output :=
  {| stdout := []; output_file := None |}.

(** ** Whole-number configurations

    Both scripts ship a ray step of a whole number of metres (100, 50) and
    a range of a whole number of kilometres (50, 30).  On such values the
    doubles of the ray loop are the exact numbers: the length that
    [np.arange] computes, the probes [start + i * delta] and the range
    [MAX * 1000] carry no rounding (2^53 = 9007199254740992 bounds the
    integers that binary64 holds exactly). *)
Definition whole_numbers (step_m max_km : R) : Prop :=
  exists s M : Z,
    (0 < s)%Z /\ (0 < M)%Z /\
    step_m = IZR s /\ max_km = IZR M /\
    (M * 1000 + s <= 9007199254740992)%Z.

(** A whole-number configuration whose range is [K] steps long. *)
Definition whole_steps (step_m max_km : R) (K : nat) : Prop :=
  whole_numbers step_m max_km /\ max_km * 1000 = INR K * step_m.

(** [v] is a multiple of [10^-k] nearest to [x]; on a tie both neighbours
    are. *)
Definition nearest_decimal (k : nat) (x v : R) : Prop :=
  (exists z : Z, v = IZR z / 10 ^ k) /\ Rabs (v - x) <= 1 / (2 * 10 ^ k).

Lemma whole_numbers_intro (s M : Z) :
  (0 < s)%Z -> (0 < M)%Z -> (M * 1000 + s <= 9007199254740992)%Z ->
  whole_numbers (IZR s) (IZR M).
Proof. intros Hs HM Hb. exists s, M. auto. Qed.

(** The constants of v2 and of the scenarios: 50 m, 30 km, 600 steps. *)
Lemma shelter_scenario_whole_steps :
  whole_steps (V2.RAY_STEP_M shelter_scenario) (V2.MAX_RAY_KM shelter_scenario)
    600.
Proof.
  split.
  - exists 50%Z, 30%Z.
    cbn [V2.RAY_STEP_M V2.MAX_RAY_KM shelter_scenario].
    repeat split; try lia; lra.
  - cbn [V2.RAY_STEP_M V2.MAX_RAY_KM shelter_scenario].
    rewrite INR_IZR_INZ. simpl Z.of_nat. lra.
Qed.

Lemma shipped_shelter_whole_steps :
  whole_steps (V2.RAY_STEP_M V2.shipped) (V2.MAX_RAY_KM V2.shipped) 600.
Proof. exact shelter_scenario_whole_steps. Qed.

(** The constants of v1: 100 m, 50 km, 500 steps. *)
Lemma shipped_exposure_whole_steps :
  whole_steps (V1.RAY_STEP_M V1.shipped) (V1.MAX_FETCH_KM V1.shipped) 500.
Proof.
  split.
  - exists 100%Z, 50%Z.
    cbn [V1.RAY_STEP_M V1.MAX_FETCH_KM V1.shipped].
    repeat split; try lia; lra.
  - cbn [V1.RAY_STEP_M V1.MAX_FETCH_KM V1.shipped].
    rewrite INR_IZR_INZ. simpl Z.of_nat. lra.
Qed.

(* ================================================================== *)
(** * Facts about the primitives *)

Lemma Rle_bool_true (x y : R) : x <= y -> Rle_bool x y = true.
Proof. intros H. unfold Rle_bool. destruct (Rle_dec x y); [reflexivity | lra]. Qed.

Lemma Rle_bool_false (x y : R) : y < x -> Rle_bool x y = false.
Proof. intros H. unfold Rle_bool. destruct (Rle_dec x y); [lra | reflexivity]. Qed.

Lemma Rlt_bool_true (x y : R) : x < y -> Rlt_bool x y = true.
Proof. intros H. unfold Rlt_bool. destruct (Rlt_dec x y); [reflexivity | lra]. Qed.

Lemma Rlt_bool_false (x y : R) : y <= x -> Rlt_bool x y = false.
Proof. intros H. unfold Rlt_bool. destruct (Rlt_dec x y); [lra | reflexivity]. Qed.

Lemma Req_bool_true (x y : R) : x = y -> Req_bool x y = true.
Proof. intros H. unfold Req_bool. destruct (Req_dec_T x y); [reflexivity | lra]. Qed.

Lemma Req_bool_false (x y : R) : x <> y -> Req_bool x y = false.
Proof.
  intros H. unfold Req_bool. destruct (Req_dec_T x y); [contradiction | reflexivity].
Qed.

Lemma Rle_bool_spec (x y : R) : Rle_bool x y = true <-> x <= y.
Proof.
  split; [| apply Rle_bool_true].
  unfold Rle_bool. destruct (Rle_dec x y); [auto | discriminate].
Qed.

Lemma Rlt_bool_spec (x y : R) : Rlt_bool x y = true <-> x < y.
Proof.
  split; [| apply Rlt_bool_true].
  unfold Rlt_bool. destruct (Rlt_dec x y); [auto | discriminate].
Qed.

(** Decide the comparisons of a goal whose operands are known. *)
Ltac rbool :=
  repeat first
    [ rewrite Rle_bool_true by lra
    | rewrite Rle_bool_false by lra
    | rewrite Rlt_bool_true by lra
    | rewrite Rlt_bool_false by lra
    | rewrite Req_bool_true by lra
    | rewrite Req_bool_false by lra ].

Lemma py_div_ok (x y : R) : y <> 0 -> py_div x y = Ok (x / y).
Proof. intros H. unfold py_div. now rewrite Req_bool_false. Qed.

Lemma math_log_ok (x : R) : 0 < x -> math_log x = Ok (ln x).
Proof. intros H. unfold math_log. now rewrite Rlt_bool_true. Qed.

Lemma py_max_Rmax (a b : R) : py_max a b = Rmax a b.
Proof.
  unfold py_max, Rlt_bool, Rmax.
  destruct (Rlt_dec a b), (Rle_dec a b); try reflexivity; lra.
Qed.

Lemma py_min_Rmin (a b : R) : py_min a b = Rmin a b.
Proof.
  unfold py_min, Rlt_bool, Rmin.
  destruct (Rlt_dec b a), (Rle_dec a b); try reflexivity; lra.
Qed.

(** ** Loops *)

Lemma for_each_ok_map {A B : Type} (f : A -> Result B) (g : A -> B)
  (l : list A) :
  (forall a, In a l -> f a = Ok (g a)) -> for_each f l = Ok (map g l).
Proof.
  induction l as [| a l IH]; intros H; simpl.
  - reflexivity.
  - rewrite (H a) by (left; reflexivity). simpl.
    rewrite IH by (intros; apply H; right; assumption).
    reflexivity.
Qed.

Lemma for_each_inv {A B : Type} (f : A -> Result B) (l : list A)
  (bs : list B) :
  for_each f l = Ok bs -> Forall2 (fun a b => f a = Ok b) l bs.
Proof.
  revert bs. induction l as [| a l IH]; intros bs H; simpl in H.
  - injection H as <-. constructor.
  - destruct (f a) as [b |] eqn:Ha; simpl in H; [| discriminate].
    destruct (for_each f l) as [bs' |] eqn:Hl; simpl in H; [| discriminate].
    injection H as <-. constructor; auto.
Qed.

Lemma for_each_ext {A B : Type} (f g : A -> Result B) (l : list A) :
  (forall a, In a l -> f a = g a) -> for_each f l = for_each g l.
Proof.
  induction l as [| a l IH]; intros H; simpl.
  - reflexivity.
  - rewrite (H a) by (left; reflexivity).
    rewrite IH by (intros; apply H; right; assumption).
    reflexivity.
Qed.

Lemma py_range_length (n : Z) : List.length (py_range n) = Z.to_nat n.
Proof. unfold py_range. now rewrite length_map, length_seq. Qed.

Lemma py_range_In (n i : Z) : In i (py_range n) <-> (0 <= i < n)%Z.
Proof.
  unfold py_range. rewrite in_map_iff. split.
  - intros (k & <- & Hk). apply in_seq in Hk. lia.
  - intros H. exists (Z.to_nat i). split; [lia |]. apply in_seq. lia.
Qed.

Lemma py_range_nth (n i : Z) :
  (0 <= i < n)%Z -> nth_error (py_range n) (Z.to_nat i) = Some i.
Proof.
  intros H. unfold py_range.
  rewrite nth_error_map, nth_error_seq.
  destruct (Nat.ltb_spec (Z.to_nat i) (Z.to_nat n)); [| lia].
  simpl. f_equal. lia.
Qed.

Lemma py_range_nonpos (n : Z) : (n <= 0)%Z -> py_range n = [].
Proof.
  intros H. unfold py_range.
  replace (Z.to_nat n) with 0%nat by lia. reflexivity.
Qed.

(* ================================================================== *)
(** * The route sampler *)

Section SamplerFacts.
Variable wgs84_to_utm : R -> R -> PlanarPoint.

(** The points the sampler returns for a positive count. *)
Definition sample_points_of (origin dest : Port) (n : Z) : list PlanarPoint :=
  map (fun i : Z =>
         interpolate (wgs84_to_utm (lon origin) (lat origin))
           (wgs84_to_utm (lon dest) (lat dest))
           ((IZR i + 0.5) / IZR n))
      (py_range n).

Lemma sample_route_points_ok (origin dest : Port) (n : Z) :
  (1 <= n)%Z ->
  sample_route_points wgs84_to_utm origin dest n
  = Ok (sample_points_of origin dest n).
Proof.
  intros Hn. unfold sample_route_points, sample_points_of.
  apply for_each_ok_map. intros i _.
  rewrite py_div_ok; [reflexivity |].
  apply not_0_IZR. lia.
Qed.




(** C4, as the code has it.  With n = 0 the sampler raises nothing: it
    returns the empty sequence. *)
Theorem sample_route_points_zero (origin dest : Port) :
  sample_route_points wgs84_to_utm origin dest 0 = Ok [].
Proof. reflexivity. Qed.

End SamplerFacts.


(** C4, as the claim states it, fails: at n = 0 the sampler returns a
    value, the empty list, and signals no error. *)
Lemma sample_route_points_zero_no_error :
  sample_route_points flat_projection woods_hole vineyard_haven 0 = Ok [] /\
  ~ (exists e,
       sample_route_points flat_projection woods_hole vineyard_haven 0
       = Raise e).
Proof.
  split; [reflexivity |].
  intros (e & He). discriminate He.
Qed.

(* ================================================================== *)
(** * The ray caster *)

Lemma Zceil_INR (k : nat) : Zceil (INR k) = Z.of_nat k.
Proof. rewrite INR_IZR_INZ. apply Zceil_eq. lra. Qed.

(** When the range is a whole number of steps, [np.arange] yields the
    multiples [step, 2 * step, ..., K * step]. *)
Lemma np_arange_multiples (step : R) (K : nat) :
  0 < step ->
  np_arange step (INR K * step + step) step
  = Ok (map (fun k : nat => INR k * step) (seq 1 K)).
Proof.
  intros Hstep. unfold np_arange. rewrite Req_bool_false by lra.
  replace ((INR K * step + step - step) / step) with (INR K)
    by (field; lra).
  rewrite Zceil_INR, Nat2Z.id. f_equal.
  rewrite <- seq_shift, map_map. apply map_ext.
  intros i. rewrite S_INR. ring.
Qed.

Lemma nth_map_seq {A : Type} (f : nat -> A) (a n i : nat) (d : A) :
  (i < n)%nat -> nth i (map f (seq a n)) d = f (a + i)%nat.
Proof.
  intros Hi.
  rewrite (nth_indep _ d (f 0%nat)) by (now rewrite length_map, length_seq).
  rewrite (map_nth f (seq a n) 0%nat i), seq_nth by assumption.
  reflexivity.
Qed.

Section RayFacts.
Variable land_geom : LandMask.
Variables x y dx dy : R.

(** The containment test of the loop at cumulative distance [dist]. *)
Definition on_land (dist : R) : bool :=
  land_geom (x + dx * dist, y + dy * dist).

Lemma first_land_none (dists : list R) :
  (forall d, In d dists -> on_land d = false) ->
  first_land land_geom x y dx dy dists = None.
Proof.
  induction dists as [| d rest IH]; intros H; simpl.
  - reflexivity.
  - fold (on_land d). rewrite (H d) by (left; reflexivity).
    apply IH. intros d' Hd'. apply H. now right.
Qed.

Lemma first_land_some (before after : list R) (d : R) :
  (forall d', In d' before -> on_land d' = false) ->
  on_land d = true ->
  first_land land_geom x y dx dy (before ++ d :: after) = Some d.
Proof.
  induction before as [| b before IH]; intros Hb Hd; simpl.
  - fold (on_land d). now rewrite Hd.
  - fold (on_land b). rewrite (Hb b) by (left; reflexivity).
    apply IH; [| exact Hd]. intros d' Hd'. apply Hb. now right.
Qed.

Lemma first_land_cases (dists : list R) :
  (first_land land_geom x y dx dy dists = None /\
   forall d, In d dists -> on_land d = false)
  \/
  (exists before d after,
     dists = before ++ d :: after /\
     first_land land_geom x y dx dy dists = Some d /\
     on_land d = true /\
     forall d', In d' before -> on_land d' = false).
Proof.
  induction dists as [| d rest IH]; simpl.
  - left. split; [reflexivity | intros ? []].
  - fold (on_land d). destruct (on_land d) eqn:Hd.
    + right. exists [], d, rest. repeat split; auto. intros ? [].
    + destruct IH as [[Hn Hall] | (before & d0 & after & -> & Hs & Hd0 & Hb)].
      * left. split; [exact Hn |]. intros d' [<- | Hin]; auto.
      * right. exists (d :: before), d0, after. repeat split; auto.
        intros d' [<- | Hin]; auto.
Qed.

End RayFacts.

Section CastFacts.
Variable step : R.
Variable point : PlanarPoint.
Variable deg : R.
Variable land_geom : LandMask.
Variable K : nat.
Hypothesis step_pos : 0 < step.

(** The test of the mask at the k-th step of the ray. *)
Definition probe (k : nat) : bool :=
  land_geom (fst point + sin (math_radians deg) * (INR k * step),
             snd point + cos (math_radians deg) * (INR k * step)).

Lemma cast_unfold :
  cast_ray_to_land step point deg land_geom (INR K * step)
  = match first_land land_geom (fst point) (snd point)
            (sin (math_radians deg)) (cos (math_radians deg))
            (map (fun k : nat => INR k * step) (seq 1 K)) with
    | Some dist => Ok (dist / 1000)
    | None => Ok (INR K * step / 1000)
    end.
Proof.
  unfold cast_ray_to_land. destruct point as [px py]. simpl fst; simpl snd.
  rewrite np_arange_multiples by exact step_pos. reflexivity.
Qed.

Lemma cast_no_land :
  (forall k, (1 <= k <= K)%nat -> probe k = false) ->
  cast_ray_to_land step point deg land_geom (INR K * step)
  = Ok (INR K * step / 1000).
Proof.
  intros H. rewrite cast_unfold.
  rewrite first_land_none; [reflexivity |].
  intros d Hd. apply in_map_iff in Hd. destruct Hd as (k & <- & Hk).
  apply in_seq in Hk. apply H. lia.
Qed.

Lemma cast_first_hit (k : nat) :
  (1 <= k <= K)%nat ->
  probe k = true ->
  (forall j, (1 <= j < k)%nat -> probe j = false) ->
  cast_ray_to_land step point deg land_geom (INR K * step)
  = Ok (INR k * step / 1000).
Proof.
  intros Hk Hhit Hbefore. rewrite cast_unfold.
  assert (Hsplit : seq 1 K = seq 1 (k - 1) ++ k :: seq (S k) (K - k)).
  { assert (HK : K = ((k - 1) + S (K - k))%nat) by lia.
    rewrite HK at 1. rewrite seq_app. simpl.
    replace (S (k - 1)) with k by lia. reflexivity. }
  rewrite Hsplit.
  rewrite map_app. simpl map.
  rewrite first_land_some; [reflexivity | | exact Hhit].
  intros d Hd. apply in_map_iff in Hd. destruct Hd as (j & <- & Hj).
  apply in_seq in Hj. apply Hbefore. lia.
Qed.

Lemma cast_cases :
  (cast_ray_to_land step point deg land_geom (INR K * step)
   = Ok (INR K * step / 1000) /\
   forall k, (1 <= k <= K)%nat -> probe k = false)
  \/
  (exists k, (1 <= k <= K)%nat /\
     cast_ray_to_land step point deg land_geom (INR K * step)
     = Ok (INR k * step / 1000) /\
     probe k = true /\
     forall j, (1 <= j < k)%nat -> probe j = false).
Proof.
  destruct (first_land_cases land_geom (fst point) (snd point)
              (sin (math_radians deg)) (cos (math_radians deg))
              (map (fun k : nat => INR k * step) (seq 1 K)))
    as [[Hn Hall] | (before & d & after & Hsplit & Hs & Hd & Hb)].
  - left. split.
    + rewrite cast_unfold, Hn. reflexivity.
    + intros k Hk. apply (Hall (INR k * step)).
      apply in_map_iff. exists k. split; [reflexivity |]. apply in_seq. lia.
  - right.
    assert (Hlen : (List.length before < K)%nat).
    { apply (f_equal (@List.length R)) in Hsplit.
      rewrite length_map, length_seq, length_app in Hsplit. simpl in Hsplit. lia. }
    assert (Hnth : forall i, (i < K)%nat ->
              nth i (map (fun k : nat => INR k * step) (seq 1 K)) 0
              = INR (S i) * step).
    { intros i Hi. now rewrite nth_map_seq. }
    exists (S (List.length before)).
    assert (Hd_eq : d = INR (S (List.length before)) * step).
    { rewrite <- Hnth by assumption. rewrite Hsplit.
      rewrite app_nth2 by lia. now rewrite Nat.sub_diag. }
    split; [lia |]. split; [| split].
    + rewrite cast_unfold, Hs, Hd_eq. reflexivity.
    + unfold probe. rewrite <- Hd_eq. exact Hd.
    + intros j Hj. unfold probe. apply Hb.
      replace (INR j * step) with
        (nth (j - 1) (map (fun k : nat => INR k * step) (seq 1 K)) 0).
      2:{ rewrite Hnth by lia. repeat f_equal. lia. }
      rewrite Hsplit, app_nth1 by lia. apply nth_In. lia.
Qed.

End CastFacts.

(** C5, amended.  For a step of a whole number of metres and a range of
    K >= 1 whole steps, numbers that binary64 holds exactly, the caster
    tests the mask at step, 2 * step, ..., K * step = max range and nowhere
    else; it returns the distance of the first increment on land, or the
    range when none is; the value, in kilometres, lies between one step
    and the range. *)
Theorem cast_ray_to_land_contract (step_m : Z) (point : PlanarPoint)
  (deg : R) (land_geom : LandMask) (K : nat) :
  (0 < step_m)%Z -> (1 <= K)%nat ->
  (Z.of_nat K * step_m + step_m <= 9007199254740992)%Z ->
  let step := IZR step_m in
  let max_distance_m := INR K * step in
  np_arange step (max_distance_m + step) step
  = Ok (map (fun k : nat => INR k * step) (seq 1 K)) /\
  (forall other : LandMask,
     (forall k, (1 <= k <= K)%nat ->
        probe step point deg other k = probe step point deg land_geom k) ->
     cast_ray_to_land step point deg other max_distance_m
     = cast_ray_to_land step point deg land_geom max_distance_m) /\
  exists r,
    cast_ray_to_land step point deg land_geom max_distance_m = Ok r /\
    ((forall k, (1 <= k <= K)%nat -> probe step point deg land_geom k = false)
     -> r = max_distance_m / 1000) /\
    (forall k, (1 <= k <= K)%nat ->
       probe step point deg land_geom k = true ->
       (forall j, (1 <= j < k)%nat -> probe step point deg land_geom j = false) ->
       r = INR k * step / 1000) /\
    step / 1000 <= r <= max_distance_m / 1000.
Proof.
  intros Hs HK _ step max_distance_m. subst max_distance_m.
  assert (Hstep : 0 < step) by (apply IZR_lt; exact Hs).
  split; [now apply np_arange_multiples |].
  split.
  { intros other Hagree.
    destruct (cast_cases step point deg land_geom K Hstep)
      as [[Heq Hall] | (k & Hk & Heq & Hhit & Hbefore)].
    - rewrite Heq. apply cast_no_land; [exact Hstep |].
      intros k Hk. rewrite Hagree by exact Hk. now apply Hall.
    - rewrite Heq. apply cast_first_hit; [exact Hstep | exact Hk | |].
      + now rewrite Hagree.
      + intros j Hj. rewrite Hagree by lia. now apply Hbefore. }
  assert (HK1 : 1 <= INR K) by (replace 1 with (INR 1) by reflexivity; now apply le_INR).
  destruct (cast_cases step point deg land_geom K Hstep)
    as [[Heq Hall] | (k & Hk & Heq & Hhit & Hbefore)].
  - exists (INR K * step / 1000). split; [exact Heq |].
    split; [reflexivity |]. split.
    + intros k Hk Hhit _. rewrite Hall in Hhit by exact Hk. discriminate.
    + nra.
  - exists (INR k * step / 1000). split; [exact Heq |].
    assert (Hk1 : 1 <= INR k) by (replace 1 with (INR 1) by reflexivity; apply le_INR; lia).
    assert (HkK : INR k <= INR K) by (apply le_INR; lia).
    split; [| split].
    + intros Hall. rewrite Hall in Hhit by exact Hk. discriminate.
    + intros k' Hk' Hhit' Hbefore'.
      destruct (Nat.lt_trichotomy k k') as [Hlt | [-> | Hgt]].
      * rewrite Hbefore' in Hhit by lia. discriminate.
      * reflexivity.
      * rewrite Hbefore in Hhit' by lia. discriminate.
    + nra.
Qed.

Lemma math_radians_0 : math_radians 0 = 0.
Proof. unfold math_radians. lra. Qed.

Lemma Zceil_between (z : Z) (x : R) : IZR z - 1 < x <= IZR z -> Zceil x = z.
Proof. apply Zceil_eq. Qed.

(** C5, as the claim states it, fails for a range that is no whole number
    of steps.  With step 100 and range 250 the mask is tested at 300, past
    the range, and land there gives 0.3 km, more than the range; with step
    100 and range 30 over open water the value is 0.03 km, less than one
    step. *)
Lemma cast_ray_to_land_off_grid :
  0 < 100 /\ 0 < 250 /\ 0 < 30 /\
  np_arange 100 (250 + 100) 100 = Ok [100; 200; 300] /\
  cast_ray_to_land 100 (0, 0) 0 (land_north_of 300) 250 = Ok (300 / 1000) /\
  250 < 300 / 1000 * 1000 /\
  cast_ray_to_land 100 (0, 0) 0 open_water 30 = Ok (30 / 1000) /\
  30 / 1000 * 1000 < 100.
Proof.
  assert (H250 : np_arange 100 (250 + 100) 100 = Ok [100; 200; 300]).
  { unfold np_arange. rbool.
    rewrite (Zceil_between 3) by (simpl; lra).
    simpl. repeat f_equal; lra. }
  assert (H30 : np_arange 100 (30 + 100) 100 = Ok [100]).
  { unfold np_arange. rbool.
    rewrite (Zceil_between 1) by (simpl; lra).
    simpl. repeat f_equal; lra. }
  repeat split; try lra.
  - exact H250.
  - unfold cast_ray_to_land. rewrite H250. simpl.
    rewrite math_radians_0, sin_0, cos_0.
    unfold land_north_of; simpl. rbool. reflexivity.
  - unfold cast_ray_to_land. rewrite H30. reflexivity.
Qed.

(** The contract at the constants of v2, with land 120 m to the north: the
    ray stops at its third probe, 150 m out. *)
Lemma cast_ray_to_land_contract_witness :
  (0 < 50)%Z /\ (1 <= 600)%nat /\
  (Z.of_nat 600 * 50 + 50 <= 9007199254740992)%Z /\
  cast_ray_to_land 50 (0, 0) 0 (land_north_of 120) (INR 600 * 50)
  = Ok (INR 3 * 50 / 1000).
Proof.
  split; [lia |]. split; [lia |]. split; [lia |].
  destruct (cast_ray_to_land_contract 50 (0, 0) 0 (land_north_of 120) 600
              ltac:(lia) ltac:(lia) ltac:(lia))
    as (_ & _ & r & Hr & _ & Hhit & _).
  rewrite Hr. f_equal. apply Hhit.
  - lia.
  - unfold probe, land_north_of. cbn [fst snd].
    rewrite math_radians_0, cos_0. apply Rle_bool_true. simpl. lra.
  - intros j Hj. unfold probe, land_north_of. cbn [fst snd].
    rewrite math_radians_0, cos_0. apply Rle_bool_false.
    assert (Hj2 : INR j <= 2).
    { replace 2 with (INR 2) by (simpl; lra). apply le_INR. lia. }
    nra.
Defined.

(* ================================================================== *)
(** * Rounding *)

Lemma round_half_even_IZR (z : Z) : round_half_even (IZR z) = z.
Proof.
  unfold round_half_even. rewrite ZfloorZ.
  replace (IZR z - IZR z) with 0 by lra. now rbool.
Qed.

Lemma round_half_even_bounds (y : R) :
  (Zfloor y <= round_half_even y <= Zfloor y + 1)%Z.
Proof.
  unfold round_half_even.
  destruct (Rlt_bool (y - IZR (Zfloor y)) (1 / 2)); [lia |].
  destruct (Rlt_bool (1 / 2) (y - IZR (Zfloor y))); [lia |].
  destruct (Z.even (Zfloor y)); lia.
Qed.

Lemma round_half_even_mono (x y : R) :
  x <= y -> (round_half_even x <= round_half_even y)%Z.
Proof.
  intros Hxy.
  pose proof (Zfloor_le x y Hxy) as Hf.
  destruct (Z.eq_dec (Zfloor x) (Zfloor y)) as [Heq | Hne].
  - unfold round_half_even. rewrite <- Heq.
    assert (Hr : x - IZR (Zfloor x) <= y - IZR (Zfloor x)) by lra.
    destruct (Rlt_dec (x - IZR (Zfloor x)) (1 / 2)) as [Hx | Hx].
    + rewrite (Rlt_bool_true _ _ Hx).
      destruct (Rlt_bool (y - IZR (Zfloor x)) (1 / 2)); [lia |].
      destruct (Rlt_bool (1 / 2) (y - IZR (Zfloor x))); [lia |].
      destruct (Z.even (Zfloor x)); lia.
    + rewrite (Rlt_bool_false (x - IZR (Zfloor x))) by lra.
      rewrite (Rlt_bool_false (y - IZR (Zfloor x))) by lra.
      destruct (Rlt_dec (1 / 2) (x - IZR (Zfloor x))) as [Hx' | Hx'].
      * rewrite (Rlt_bool_true _ _ Hx').
        rewrite (Rlt_bool_true (1 / 2) (y - IZR (Zfloor x))) by lra. lia.
      * rewrite (Rlt_bool_false (1 / 2) (x - IZR (Zfloor x))) by lra.
        destruct (Rlt_bool (1 / 2) (y - IZR (Zfloor x)));
          destruct (Z.even (Zfloor x)); lia.
  - pose proof (round_half_even_bounds x). pose proof (round_half_even_bounds y).
    lia.
Qed.

Lemma pow10_pos (k : nat) : 0 < 10 ^ k.
Proof. apply pow_lt. lra. Qed.

Lemma py_round_mono (x y : R) (k : nat) :
  x <= y -> py_round x k <= py_round y k.
Proof.
  intros Hxy. unfold py_round. pose proof (pow10_pos k) as Hk.
  apply Rmult_le_compat_r; [left; now apply Rinv_0_lt_compat |].
  apply IZR_le, round_half_even_mono. nra.
Qed.

Lemma py_round_fixed (z : Z) (k : nat) :
  py_round (IZR z / 10 ^ k) k = IZR z / 10 ^ k.
Proof.
  unfold py_round. pose proof (pow10_pos k) as Hk.
  replace (IZR z / 10 ^ k * 10 ^ k) with (IZR z) by (field; lra).
  now rewrite round_half_even_IZR.
Qed.

Lemma py_round_0 (k : nat) : py_round 0 k = 0.
Proof.
  replace 0 with (IZR 0 / 10 ^ k) at 1 by (unfold Rdiv; lra).
  rewrite py_round_fixed. unfold Rdiv; lra.
Qed.

Lemma py_round_1 (k : nat) : py_round 1 k = 1.
Proof.
  pose proof (pow10_pos k) as Hk.
  replace 1 with (IZR (10 ^ Z.of_nat k) / 10 ^ k) at 1.
  2:{ rewrite <- pow_IZR. field. lra. }
  rewrite py_round_fixed. rewrite <- pow_IZR. field. lra.
Qed.

Lemma py_round_unit (x : R) (k : nat) :
  0 <= x <= 1 -> 0 <= py_round x k <= 1.
Proof.
  intros [H0 H1]. split.
  - rewrite <- (py_round_0 k). now apply py_round_mono.
  - rewrite <- (py_round_1 k). now apply py_round_mono.
Qed.

(** The value of a rounding, from an enclosure of the scaled argument. *)
Lemma round_half_even_down (y : R) (z : Z) :
  IZR z <= y < IZR z + 1 / 2 -> round_half_even y = z.
Proof.
  intros H. unfold round_half_even.
  rewrite (Zfloor_eq z) by lra. now rbool.
Qed.

Lemma round_half_even_up (y : R) (z : Z) :
  IZR z + 1 / 2 < y < IZR z + 1 -> round_half_even y = (z + 1)%Z.
Proof.
  intros H. unfold round_half_even.
  rewrite (Zfloor_eq z) by lra. now rbool.
Qed.

Lemma round_half_even_tie (z : Z) :
  round_half_even (IZR z + 1 / 2) = if Z.even z then z else (z + 1)%Z.
Proof.
  unfold round_half_even.
  rewrite (Zfloor_eq z) by lra.
  replace (IZR z + 1 / 2 - IZR z) with (1 / 2) by lra. now rbool.
Qed.

(** [round] returns a nearest multiple of the unit of the last decimal. *)
Lemma round_half_even_near (y : R) :
  Rabs (IZR (round_half_even y) - y) <= 1 / 2.
Proof.
  unfold round_half_even.
  destruct (base_Int_part y) as [Hlo Hhi].
  pose proof (Zfloor_bound y) as [Hf1 Hf2].
  destruct (Rlt_dec (y - IZR (Zfloor y)) (1 / 2)) as [Hr | Hr].
  - rewrite (Rlt_bool_true _ _ Hr).
    rewrite Rabs_left1 by lra. lra.
  - rewrite (Rlt_bool_false (y - IZR (Zfloor y))) by lra.
    destruct (Rlt_dec (1 / 2) (y - IZR (Zfloor y))) as [Hr' | Hr'].
    + rewrite (Rlt_bool_true _ _ Hr'). rewrite plus_IZR.
      rewrite Rabs_right by lra. lra.
    + rewrite (Rlt_bool_false (1 / 2)) by lra.
      destruct (Z.even (Zfloor y)).
      * rewrite Rabs_left1 by lra. lra.
      * rewrite plus_IZR. rewrite Rabs_right by lra. lra.
Qed.

Lemma py_round_nearest (x : R) (k : nat) : nearest_decimal k x (py_round x k).
Proof.
  pose proof (pow10_pos k) as Hk. split.
  - exists (round_half_even (x * 10 ^ k)). reflexivity.
  - unfold py_round.
    pose proof (round_half_even_near (x * 10 ^ k)) as Hn.
    replace (IZR (round_half_even (x * 10 ^ k)) / 10 ^ k - x)
      with ((IZR (round_half_even (x * 10 ^ k)) - x * 10 ^ k) / 10 ^ k)
      by (field; lra).
    unfold Rdiv at 1. rewrite Rabs_mult, (Rabs_right (/ 10 ^ k)).
    2:{ apply Rle_ge. left. now apply Rinv_0_lt_compat. }
    replace (1 / (2 * 10 ^ k)) with (1 / 2 * / 10 ^ k) by (field; lra).
    apply Rmult_le_compat_r; [left; now apply Rinv_0_lt_compat | exact Hn].
Qed.

Lemma py_round_IZR (z : Z) (k : nat) : py_round (IZR z) k = IZR z.
Proof.
  pose proof (pow10_pos k) as Hk. unfold py_round.
  replace (IZR z * 10 ^ k) with (IZR (z * 10 ^ Z.of_nat k)).
  - rewrite round_half_even_IZR, mult_IZR, <- pow_IZR. field. lra.
  - now rewrite mult_IZR, <- pow_IZR.
Qed.

(** What a whole-number configuration gives. *)
Lemma whole_steps_facts (step_m max_km : R) (K : nat) :
  whole_steps step_m max_km K ->
  0 < step_m /\ 1 <= max_km /\ max_km * 1000 = INR K * step_m /\
  py_round max_km 2 = max_km.
Proof.
  intros [(s & M & Hs & HM & -> & -> & _) Hgrid].
  split; [now apply IZR_lt |].
  split; [apply IZR_le; lia |].
  split; [exact Hgrid | apply py_round_IZR].
Qed.

(* ================================================================== *)
(** * The log-fetch score model (v1) *)

(** [clamp01] of the specification. *)
Definition clamp01 (x : R) : R := Rmax 0 (Rmin 1 x).

Lemma clamp01_mono (x y : R) : x <= y -> clamp01 x <= clamp01 y.
Proof.
  intros H. unfold clamp01, Rmin.
  destruct (Rle_dec 1 x), (Rle_dec 1 y); unfold Rmax;
    repeat match goal with
           | |- context [Rle_dec ?a ?b] => destruct (Rle_dec a b)
           end; lra.
Qed.

Lemma clamp01_unit (x : R) : 0 <= clamp01 x <= 1.
Proof.
  unfold clamp01, Rmin.
  destruct (Rle_dec 1 x); unfold Rmax;
    match goal with
    | |- context [Rle_dec ?a ?b] => destruct (Rle_dec a b)
    end; lra.
Qed.

Lemma clamp01_id (x : R) : 0 <= x <= 1 -> clamp01 x = x.
Proof.
  intros H. unfold clamp01, Rmin.
  destruct (Rle_dec 1 x); unfold Rmax;
    match goal with
    | |- context [Rle_dec ?a ?b] => destruct (Rle_dec a b)
    end; lra.
Qed.

Lemma ln_nonneg (x : R) : 1 <= x -> 0 <= ln x.
Proof.
  intros [H | <-].
  - left. rewrite <- ln_1. apply ln_increasing; lra.
  - rewrite ln_1. lra.
Qed.

Lemma ln_le (x y : R) : 0 < x -> x <= y -> ln x <= ln y.
Proof.
  intros Hx [H | <-]; [left; now apply ln_increasing | lra].
Qed.

Section LogFetchFacts.
Variable cfg : V1.Config.
Hypothesis max_fetch_pos : 0 < V1.MAX_FETCH_KM cfg.

Lemma ln_max_fetch_pos : 0 < ln (V1.MAX_FETCH_KM cfg + 1).
Proof. rewrite <- ln_1. apply ln_increasing; lra. Qed.

Lemma log_fetch_exposure_ok (d : R) :
  -1 < d ->
  V1.log_fetch_exposure cfg d
  = Ok (clamp01 (ln (d + 1) / ln (V1.MAX_FETCH_KM cfg + 1))).
Proof.
  intros Hd. pose proof ln_max_fetch_pos as Hl.
  unfold V1.log_fetch_exposure.
  rewrite !math_log_ok by lra. simpl.
  rewrite py_div_ok by lra. simpl.
  now rewrite py_max_Rmax, py_min_Rmin.
Qed.

Lemma log_fetch_ratio_mono (d1 d2 : R) :
  -1 < d1 -> d1 <= d2 ->
  ln (d1 + 1) / ln (V1.MAX_FETCH_KM cfg + 1)
  <= ln (d2 + 1) / ln (V1.MAX_FETCH_KM cfg + 1).
Proof.
  intros H1 H12. pose proof ln_max_fetch_pos as Hl.
  apply Rmult_le_compat_r; [left; now apply Rinv_0_lt_compat |].
  apply ln_le; lra.
Qed.

End LogFetchFacts.

(* ================================================================== *)
(** * Sorting and the median *)

Lemma insert_asc_perm (x : R) (l : list R) :
  Permutation (insert_asc x l) (x :: l).
Proof.
  induction l as [| y l IH]; simpl.
  - apply Permutation_refl.
  - destruct (Rle_bool x y).
    + apply Permutation_refl.
    + eapply perm_trans; [apply perm_skip, IH | apply perm_swap].
Qed.

Lemma sort_asc_perm (l : list R) : Permutation (sort_asc l) l.
Proof.
  induction l as [| x l IH]; simpl.
  - apply perm_nil.
  - eapply perm_trans; [apply insert_asc_perm | now apply perm_skip].
Qed.

Lemma sort_asc_length (l : list R) :
  List.length (sort_asc l) = List.length l.
Proof. apply Permutation_length, sort_asc_perm. Qed.

Lemma insert_asc_sorted (x : R) (l : list R) :
  StronglySorted Rle l -> StronglySorted Rle (insert_asc x l).
Proof.
  induction l as [| y l IH]; intros Hs; simpl.
  - constructor; constructor.
  - inversion Hs as [| ? ? Hl Hy]; subst.
    destruct (Rle_bool x y) eqn:Hxy.
    + apply Rle_bool_spec in Hxy.
      constructor; [exact Hs |].
      constructor; [exact Hxy |].
      eapply Forall_impl; [| exact Hy]. simpl. intros; lra.
    + assert (Hyx : y <= x).
      { destruct (Rle_dec x y) as [H | H]; [| lra].
        rewrite (Rle_bool_true _ _ H) in Hxy. discriminate. }
      constructor; [now apply IH |].
      apply (Permutation_Forall (Permutation_sym (insert_asc_perm x l))).
      constructor; assumption.
Qed.

Lemma sort_asc_sorted (l : list R) : StronglySorted Rle (sort_asc l).
Proof.
  induction l as [| x l IH]; simpl.
  - constructor.
  - now apply insert_asc_sorted.
Qed.

(** Two sorted lists with the same elements are the same list. *)
Lemma sorted_perm_eq (l1 l2 : list R) :
  StronglySorted Rle l1 -> StronglySorted Rle l2 -> Permutation l1 l2 ->
  l1 = l2.
Proof.
  revert l2. induction l1 as [| a l1 IH]; intros l2 H1 H2 Hp.
  - apply Permutation_nil in Hp. now subst.
  - destruct l2 as [| b l2].
    { apply Permutation_sym, Permutation_nil in Hp. discriminate. }
    inversion H1 as [| ? ? Hs1 Ha]; subst.
    inversion H2 as [| ? ? Hs2 Hb]; subst.
    assert (Hab : a = b).
    { assert (Hin_a : In a (b :: l2))
        by (eapply Permutation_in; [exact Hp | now left]).
      assert (Hin_b : In b (a :: l1))
        by (eapply Permutation_in; [apply Permutation_sym, Hp | now left]).
      rewrite Forall_forall in Ha, Hb.
      destruct Hin_a as [-> | Hin_a]; [reflexivity |].
      destruct Hin_b as [-> | Hin_b]; [reflexivity |].
      specialize (Ha _ Hin_b). specialize (Hb _ Hin_a). lra. }
    subst b. f_equal. apply IH; try assumption.
    eapply Permutation_cons_inv; exact Hp.
Qed.

Lemma sort_asc_permutation_invariant (l1 l2 : list R) :
  Permutation l1 l2 -> sort_asc l1 = sort_asc l2.
Proof.
  intros Hp. apply sorted_perm_eq; try apply sort_asc_sorted.
  eapply perm_trans; [apply sort_asc_perm |].
  eapply perm_trans; [exact Hp | apply Permutation_sym, sort_asc_perm].
Qed.

Lemma sort_asc_of_sorted (l : list R) : StronglySorted Rle l -> sort_asc l = l.
Proof.
  intros Hs. apply sorted_perm_eq; [apply sort_asc_sorted | exact Hs |].
  apply sort_asc_perm.
Qed.

(** The value [np.median] returns on data that are not empty. *)
Definition median_value (l : list R) : R :=
  let s := sort_asc l in
  let n := List.length s in
  if Nat.even n
  then (nth (n / 2 - 1) s 0 + nth (n / 2) s 0) / 2
  else nth (n / 2) s 0.

Lemma np_median_ok (l : list R) :
  l <> [] -> np_median l = Ok (median_value l).
Proof.
  intros Hne. unfold np_median, median_value.
  pose proof (sort_asc_length l) as Hlen.
  destruct (List.length (sort_asc l)) as [| n] eqn:Hn.
  - destruct l; [contradiction | discriminate].
  - destruct (Nat.even (S n)); reflexivity.
Qed.

Lemma np_median_empty : np_median [] = Raise NanValue.
Proof. reflexivity. Qed.

Lemma median_value_permutation_invariant (l1 l2 : list R) :
  Permutation l1 l2 -> median_value l1 = median_value l2.
Proof.
  intros Hp. unfold median_value.
  now rewrite (sort_asc_permutation_invariant l1 l2 Hp).
Qed.

Lemma median_value_bounds (l : list R) (a b : R) :
  l <> [] -> (forall x, In x l -> a <= x <= b) ->
  a <= median_value l <= b.
Proof.
  intros Hne Hall.
  assert (Hs : forall i, (i < List.length (sort_asc l))%nat ->
                a <= nth i (sort_asc l) 0 <= b).
  { intros i Hi. apply Hall.
    eapply Permutation_in; [apply sort_asc_perm | now apply nth_In]. }
  assert (Hpos : (0 < List.length (sort_asc l))%nat).
  { rewrite sort_asc_length. destruct l; [contradiction | simpl; lia]. }
  unfold median_value.
  set (n := List.length (sort_asc l)) in *.
  assert (Hhalf : (n / 2 < n)%nat) by (apply Nat.div_lt; lia).
  destruct (Nat.even n).
  - pose proof (Hs (n / 2 - 1)%nat ltac:(lia)).
    pose proof (Hs (n / 2)%nat Hhalf). lra.
  - exact (Hs (n / 2)%nat Hhalf).
Qed.

Lemma median_value_constant (l : list R) (c : R) :
  l <> [] -> (forall x, In x l -> x = c) -> median_value l = c.
Proof.
  intros Hne Hall.
  assert (c <= median_value l <= c); [| lra].
  apply median_value_bounds; [exact Hne |].
  intros x Hx. rewrite (Hall x Hx). lra.
Qed.

(** ** Counting *)

Lemma count_true_bound (flags : list bool) :
  (V2.count_true flags <= List.length flags)%nat.
Proof. unfold V2.count_true. apply filter_length_le. Qed.

Lemma count_true_all (flags : list bool) :
  (forall b, In b flags -> b = true) ->
  V2.count_true flags = List.length flags.
Proof.
  unfold V2.count_true. induction flags as [| b flags IH]; intros H; simpl.
  - reflexivity.
  - rewrite (H b) by now left. simpl. f_equal. apply IH.
    intros b' Hb'. apply H. now right.
Qed.

Lemma count_true_none (flags : list bool) :
  (forall b, In b flags -> b = false) -> V2.count_true flags = 0%nat.
Proof.
  unfold V2.count_true. induction flags as [| b flags IH]; intros H; simpl.
  - reflexivity.
  - rewrite (H b) by now left. simpl. apply IH.
    intros b' Hb'. apply H. now right.
Qed.

Lemma count_true_permutation_invariant (l1 l2 : list bool) :
  Permutation l1 l2 -> V2.count_true l1 = V2.count_true l2.
Proof.
  intros Hp. unfold V2.count_true.
  induction Hp; simpl.
  - reflexivity.
  - destruct x; simpl; congruence.
  - destruct x, y; reflexivity.
  - congruence.
Qed.

(** ** Dictionaries *)

Lemma dict_set_fresh {K V : Type} (eqb : K -> K -> bool)
  (d : list (K * V)) (k : K) (v : V) :
  (forall k', In k' (dict_keys d) -> eqb k k' = false) ->
  dict_set eqb d k v = d ++ [(k, v)].
Proof.
  induction d as [| [k' v'] d IH]; intros H; simpl.
  - reflexivity.
  - rewrite (H k') by now left. f_equal. apply IH.
    intros k'' Hk''. apply H. now right.
Qed.

Lemma compass_eqb_eq (a b : CompassDirection) :
  Compass.eqb a b = true <-> a = b.
Proof.
  split; [| intros ->; unfold Compass.eqb; apply Nat.eqb_refl].
  destruct a, b; simpl; intros H; (reflexivity || discriminate).
Qed.

Lemma compass_eqb_neq (a b : CompassDirection) :
  a <> b -> Compass.eqb a b = false.
Proof.
  intros H. destruct (Compass.eqb a b) eqn:E; [| reflexivity].
  apply compass_eqb_eq in E. contradiction.
Qed.

Lemma all_directions_NoDup : NoDup all_directions.
Proof.
  unfold all_directions, dict_keys. simpl.
  repeat (constructor; [simpl; intuition discriminate |]).
  constructor.
Qed.

Lemma all_directions_complete (d : CompassDirection) : In d all_directions.
Proof. unfold all_directions, dict_keys. destruct d; simpl; tauto. Qed.

Lemma all_directions_length : List.length all_directions = 16%nat.
Proof. reflexivity. Qed.

(* ================================================================== *)
(** * The loop over the 16 directions *)

Lemma for_fold_two_dicts {A B : Type}
  (body : list (CompassDirection * A) * list (CompassDirection * B)
          -> CompassDirection * R
          -> Result (list (CompassDirection * A)
                     * list (CompassDirection * B)))
  (a : CompassDirection * R -> A) (b : CompassDirection * R -> B)
  (items : list (CompassDirection * R)) :
  (forall d1 d2 item, In item items ->
     body (d1, d2) item
     = Ok (dict_set Compass.eqb d1 (fst item) (a item),
           dict_set Compass.eqb d2 (fst item) (b item))) ->
  NoDup (map fst items) ->
  forall d1 d2,
    (forall item, In item items ->
       ~ In (fst item) (dict_keys d1) /\ ~ In (fst item) (dict_keys d2)) ->
    for_fold body items (d1, d2)
    = Ok (d1 ++ map (fun item => (fst item, a item)) items,
          d2 ++ map (fun item => (fst item, b item)) items).
Proof.
  intros Hbody. induction items as [| item items IH]; intros Hnd d1 d2 Hfresh.
  - simpl. now rewrite !app_nil_r.
  - simpl. rewrite Hbody by now left. simpl.
    destruct (Hfresh item ltac:(now left)) as [Hf1 Hf2].
    rewrite !dict_set_fresh.
    2:{ intros k' Hk'. apply compass_eqb_neq. intros <-. contradiction. }
    2:{ intros k' Hk'. apply compass_eqb_neq. intros <-. contradiction. }
    inversion Hnd as [| ? ? Hnotin Hnd']; subst.
    rewrite IH.
    + now rewrite <- !app_assoc.
    + intros; apply Hbody; now right.
    + exact Hnd'.
    + intros item' Hin'. unfold dict_keys. rewrite !map_app. simpl.
      destruct (Hfresh item' ltac:(now right)) as [Hg1 Hg2].
      split; intros Hin; apply in_app_or in Hin;
        destruct Hin as [Hin | [Heq | []]]; try contradiction;
        apply Hnotin; simpl in Heq; rewrite Heq; now apply in_map.
Qed.

Lemma compass_keys_NoDup : NoDup (map fst COMPASS_DIRECTIONS).
Proof. exact all_directions_NoDup. Qed.

(** The dictionary the loop builds from one value per direction. *)
Definition dir_dict {V : Type} (value : R -> V)
  : list (CompassDirection * V) :=
  map (fun item : CompassDirection * R => (fst item, value (snd item)))
    COMPASS_DIRECTIONS.

Lemma dir_dict_keys {V : Type} (value : R -> V) :
  dict_keys (dir_dict value) = all_directions.
Proof.
  unfold dir_dict, dict_keys, all_directions, dict_keys.
  rewrite map_map. reflexivity.
Qed.

Lemma dir_dict_values {V : Type} (value : R -> V) :
  dict_values (dir_dict value) = map value (dict_values COMPASS_DIRECTIONS).
Proof.
  unfold dir_dict, dict_values. now rewrite !map_map.
Qed.

Lemma dir_dict_length {V : Type} (value : R -> V) :
  List.length (dir_dict value) = 16%nat.
Proof. reflexivity. Qed.

Lemma for_fold_directions {A B : Type}
  (body : list (CompassDirection * A) * list (CompassDirection * B)
          -> CompassDirection * R
          -> Result (list (CompassDirection * A)
                     * list (CompassDirection * B)))
  (a : R -> A) (b : R -> B) :
  (forall d1 d2 dir degrees,
     body (d1, d2) (dir, degrees)
     = Ok (dict_set Compass.eqb d1 dir (a degrees),
           dict_set Compass.eqb d2 dir (b degrees))) ->
  for_fold body COMPASS_DIRECTIONS ([], []) = Ok (dir_dict a, dir_dict b).
Proof.
  intros Hbody.
  rewrite (for_fold_two_dicts body (fun item => a (snd item))
             (fun item => b (snd item))).
  - reflexivity.
  - intros d1 d2 [dir degrees] _. apply Hbody.
  - exact compass_keys_NoDup.
  - intros item _. split; intros [].
Qed.

(** The value of a ray cast, when the step is not zero. *)
Definition ray_km (step : R) (point : PlanarPoint) (deg : R)
  (land_geom : LandMask) (max_distance_m : R) : R :=
  match cast_ray_to_land step point deg land_geom max_distance_m with
  | Ok r => r
  | Raise _ => 0
  end.

Lemma cast_ray_to_land_total (step : R) (point : PlanarPoint) (deg : R)
  (land_geom : LandMask) (max_distance_m : R) :
  step <> 0 ->
  cast_ray_to_land step point deg land_geom max_distance_m
  = Ok (ray_km step point deg land_geom max_distance_m).
Proof.
  intros Hstep. unfold ray_km, cast_ray_to_land, np_arange.
  destruct point as [px py]. rewrite Req_bool_false by exact Hstep. simpl.
  match goal with |- context [first_land ?l ?a ?b ?c ?d ?e] =>
    destruct (first_land l a b c d e) end; reflexivity.
Qed.

(** The measurements of one direction: a ray from every sample point. *)
Definition ray_distances (step : R) (land_geom : LandMask)
  (max_distance_m : R) (points : list PlanarPoint) (deg : R) : list R :=
  map (fun p => ray_km step p deg land_geom max_distance_m) points.

Lemma for_each_cast (step : R) (land_geom : LandMask) (max_distance_m : R)
  (points : list PlanarPoint) (deg : R) :
  step <> 0 ->
  for_each
    (fun p => cast_ray_to_land step p deg land_geom max_distance_m) points
  = Ok (ray_distances step land_geom max_distance_m points deg).
Proof.
  intros Hstep. apply for_each_ok_map.
  intros p _. now apply cast_ray_to_land_total.
Qed.

Lemma np_mean_16 (value : R -> R) :
  np_mean (dict_values (dir_dict value))
  = Ok (py_sum (dict_values (dir_dict value)) / 16).
Proof.
  unfold np_mean.
  destruct (dict_values (dir_dict value)) as [| v vs] eqn:E;
    [discriminate |].
  rewrite <- E. f_equal. f_equal.
  unfold dict_values. rewrite length_map, dir_dict_length.
  simpl. lra.
Qed.

Lemma first_land_In (land_geom : LandMask) (x y dx dy : R) (dists : list R)
  (d : R) :
  first_land land_geom x y dx dy dists = Some d -> In d dists.
Proof.
  induction dists as [| d0 rest IH]; simpl; [discriminate |].
  destruct (land_geom (x + dx * d0, y + dy * d0)).
  - intros H. injection H as ->. now left.
  - intros H. right. now apply IH.
Qed.

Lemma ray_km_nonneg (step : R) (point : PlanarPoint) (deg : R)
  (land_geom : LandMask) (max_distance_m : R) :
  0 < step -> 0 <= max_distance_m ->
  0 <= ray_km step point deg land_geom max_distance_m.
Proof.
  intros Hstep Hmax. unfold ray_km, cast_ray_to_land, np_arange.
  destruct point as [px py]. rewrite Req_bool_false by lra. simpl.
  match goal with |- context [first_land ?l ?a ?b ?c ?d ?e] =>
    destruct (first_land l a b c d e) as [dist |] eqn:E end; [| lra].
  apply first_land_In in E. apply in_map_iff in E.
  destruct E as (i & <- & _). pose proof (pos_INR i). nra.
Qed.

Lemma sample_points_of_length (wgs84_to_utm : R -> R -> PlanarPoint)
  (origin dest : Port) (n : Z) :
  List.length (sample_points_of wgs84_to_utm origin dest n) = Z.to_nat n.
Proof. unfold sample_points_of. now rewrite length_map, py_range_length. Qed.

(* ================================================================== *)
(** * The shelter signature (v2) *)

Section ShelterFacts.
Variable cfg : V2.Config.
Variable wgs84_to_utm : R -> R -> PlanarPoint.

(** The score of the threshold-shelter model on measurements [ds]. *)
Definition shelter_ratio_value (ds : list R) : R :=
  1 - INR (V2.count_true (map (V2.is_sheltered cfg) ds))
      / INR (List.length ds).

(** The median of the range-capped measurements [ds]. *)
Definition effective_fetch_value (ds : list R) : R :=
  median_value (map (fun d => py_min d (V2.MAX_RAY_KM cfg)) ds).

(** The raw measurements of one direction. *)
Definition shelter_distances (land_geom : LandMask)
  (points : list PlanarPoint) (deg : R) : list R :=
  ray_distances (V2.RAY_STEP_M cfg) land_geom (V2.MAX_RAY_KM cfg * 1000)
    points deg.

Definition shelter_ratio_dict (land_geom : LandMask)
  (points : list PlanarPoint) : DirDict :=
  dir_dict (fun deg =>
    py_round (shelter_ratio_value (shelter_distances land_geom points deg)) 3).

Definition effective_fetch_dict (land_geom : LandMask)
  (points : list PlanarPoint) : DirDict :=
  dir_dict (fun deg =>
    py_round (effective_fetch_value (shelter_distances land_geom points deg))
      2).

(** The signature of a route in terms of its sample points. *)
Definition signature_of (land_geom : LandMask) (id origin_slug dest_slug : string)
  (points : list PlanarPoint) : V2.Signature :=
  {| V2.route_id := id;
     V2.origin_port := origin_slug;
     V2.destination_port := dest_slug;
     V2.shelter_ratio_by_dir := shelter_ratio_dict land_geom points;
     V2.effective_open_fetch_km_by_dir := effective_fetch_dict land_geom points;
     V2.mean_shelter_ratio :=
       py_round
         (py_sum (dict_values (shelter_ratio_dict land_geom points)) / 16) 3;
     V2.top_exposure_dirs :=
       map fst
         (firstn 3 (sorted_by_value_desc (shelter_ratio_dict land_geom points)))
  |}.

Lemma shelter_ratio_of_ok (ds : list R) :
  ds <> [] -> V2.shelter_ratio_of cfg ds = Ok (shelter_ratio_value ds).
Proof.
  intros Hne. unfold V2.shelter_ratio_of, shelter_ratio_value.
  rewrite py_div_ok.
  - simpl. f_equal. rewrite length_map. lra.
  - rewrite length_map. apply not_0_INR.
    destruct ds; [contradiction | discriminate].
Qed.

Lemma effective_fetch_of_ok (ds : list R) :
  ds <> [] -> V2.effective_fetch_of cfg ds = Ok (effective_fetch_value ds).
Proof.
  intros Hne. unfold V2.effective_fetch_of, effective_fetch_value.
  apply np_median_ok. destruct ds; [contradiction | discriminate].
Qed.

Lemma shelter_direction_step_ok (land_geom : LandMask)
  (points : list PlanarPoint) (d1 d2 : DirDict) (dir : CompassDirection)
  (degrees : R) :
  V2.RAY_STEP_M cfg <> 0 -> points <> [] ->
  V2.direction_step cfg land_geom points (d1, d2) (dir, degrees)
  = Ok (dict_set Compass.eqb d1 dir
          (py_round
             (shelter_ratio_value (shelter_distances land_geom points degrees))
             3),
        dict_set Compass.eqb d2 dir
          (py_round
             (effective_fetch_value
                (shelter_distances land_geom points degrees)) 2)).
Proof.
  intros Hstep Hne. unfold V2.direction_step.
  rewrite for_each_cast by exact Hstep. simpl.
  assert (Hds : ray_distances (V2.RAY_STEP_M cfg) land_geom
                  (V2.MAX_RAY_KM cfg * 1000) points degrees <> []).
  { unfold ray_distances. destruct points; [contradiction | discriminate]. }
  rewrite shelter_ratio_of_ok by exact Hds. simpl.
  rewrite effective_fetch_of_ok by exact Hds. reflexivity.
Qed.

Lemma compute_shelter_signature_ok (land_geom : LandMask)
  (id origin_slug dest_slug : string) (origin dest : Port) :
  ports_get (V2.PORTS cfg) origin_slug = Ok origin ->
  ports_get (V2.PORTS cfg) dest_slug = Ok dest ->
  (1 <= V2.SAMPLE_POINTS_PER_ROUTE cfg)%Z ->
  V2.RAY_STEP_M cfg <> 0 ->
  V2.compute_shelter_signature cfg wgs84_to_utm id origin_slug dest_slug
    land_geom
  = Ok (signature_of land_geom id origin_slug dest_slug
          (sample_points_of wgs84_to_utm origin dest
             (V2.SAMPLE_POINTS_PER_ROUTE cfg))).
Proof.
  intros Ho Hd Hn Hstep. unfold V2.compute_shelter_signature.
  rewrite Ho, Hd. cbn [bind].
  rewrite sample_route_points_ok by exact Hn. cbn [bind].
  set (points := sample_points_of wgs84_to_utm origin dest
                   (V2.SAMPLE_POINTS_PER_ROUTE cfg)).
  assert (Hne : points <> []).
  { intros E. apply (f_equal (@List.length PlanarPoint)) in E.
    unfold points in E. rewrite sample_points_of_length in E. simpl in E. lia. }
  rewrite (for_fold_directions _
             (fun deg => py_round (shelter_ratio_value
                                     (shelter_distances land_geom points deg)) 3)
             (fun deg => py_round (effective_fetch_value
                                     (shelter_distances land_geom points deg)) 2)).
  2:{ intros. now apply shelter_direction_step_ok. }
  cbn [bind].
  rewrite (np_mean_16 _). reflexivity.
Qed.

Lemma whole_numbers_shelter :
  whole_numbers (V2.RAY_STEP_M cfg) (V2.MAX_RAY_KM cfg) ->
  0 < V2.RAY_STEP_M cfg /\ 1 <= V2.MAX_RAY_KM cfg.
Proof.
  intros (s & M & Hs & HM & -> & -> & _). split.
  - now apply IZR_lt.
  - apply IZR_le. lia.
Qed.

(** With at least one sample point and a whole-number configuration the
    signature is returned. *)
Lemma compute_shelter_signature_returns (land_geom : LandMask)
  (id origin_slug dest_slug : string) (origin dest : Port) :
  ports_get (V2.PORTS cfg) origin_slug = Ok origin ->
  ports_get (V2.PORTS cfg) dest_slug = Ok dest ->
  (1 <= V2.SAMPLE_POINTS_PER_ROUTE cfg)%Z ->
  whole_numbers (V2.RAY_STEP_M cfg) (V2.MAX_RAY_KM cfg) ->
  exists sig,
    V2.compute_shelter_signature cfg wgs84_to_utm id origin_slug dest_slug
      land_geom = Ok sig.
Proof.
  intros Ho Hd Hn Hw. destruct (whole_numbers_shelter Hw) as [Hstep _].
  eexists. apply (compute_shelter_signature_ok land_geom id origin_slug
                    dest_slug origin dest Ho Hd Hn). lra.
Qed.

End ShelterFacts.

(* ================================================================== *)
(** * The exposure record (v1) *)

Section ExposureFacts.
Variable cfg : V1.Config.
Variable wgs84_to_utm : R -> R -> PlanarPoint.

(** The log-fetch score of a median fetch. *)
Definition exposure_value (median_fetch : R) : R :=
  clamp01 (ln (median_fetch + 1) / ln (V1.MAX_FETCH_KM cfg + 1)).

(** The raw measurements of one direction. *)
Definition fetch_distances (land_geom : LandMask)
  (points : list PlanarPoint) (deg : R) : list R :=
  ray_distances (V1.RAY_STEP_M cfg) land_geom (V1.MAX_FETCH_KM cfg * 1000)
    points deg.

Definition exposure_dict (land_geom : LandMask)
  (points : list PlanarPoint) : DirDict :=
  dir_dict (fun deg =>
    py_round
      (exposure_value (median_value (fetch_distances land_geom points deg)))
      3).

Definition fetch_km_dict (land_geom : LandMask)
  (points : list PlanarPoint) : FetchDict :=
  dir_dict (fun deg =>
    Finite (py_round (median_value (fetch_distances land_geom points deg)) 2)).

(** The record of a route in terms of its sample points. *)
Definition exposure_of (land_geom : LandMask) (id origin_slug dest_slug : string)
  (points : list PlanarPoint) : V1.Exposure :=
  {| V1.route_id := id;
     V1.origin_port := origin_slug;
     V1.destination_port := dest_slug;
     V1.exposure_by_dir := exposure_dict land_geom points;
     V1.fetch_km_by_dir := fetch_km_dict land_geom points;
     V1.avg_exposure :=
       py_round (py_sum (dict_values (exposure_dict land_geom points)) / 16) 3;
     V1.top_exposure_dirs :=
       map fst
         (firstn 3 (sorted_by_value_desc (exposure_dict land_geom points)))
  |}.

Hypothesis step_pos : 0 < V1.RAY_STEP_M cfg.
Hypothesis max_fetch_pos : 0 < V1.MAX_FETCH_KM cfg.

Lemma fetch_median_nonneg (land_geom : LandMask)
  (points : list PlanarPoint) (deg : R) :
  points <> [] ->
  0 <= median_value (fetch_distances land_geom points deg).
Proof.
  intros Hne.
  set (ds := fetch_distances land_geom points deg).
  assert (Hall : forall d, In d ds -> 0 <= d <= Rmax 0 (fold_right Rmax 0 ds)).
  { intros d Hd. split.
    - unfold ds, fetch_distances, ray_distances in Hd.
      apply in_map_iff in Hd. destruct Hd as (p & <- & _).
      apply ray_km_nonneg; [exact step_pos | lra].
    - apply Rle_trans with (fold_right Rmax 0 ds); [| apply Rmax_r].
      clear -Hd. induction ds as [| a l IH]; [destruct Hd |].
      simpl. destruct Hd as [-> | Hd]; [apply Rmax_l |].
      eapply Rle_trans; [now apply IH | apply Rmax_r]. }
  apply (median_value_bounds ds 0 (Rmax 0 (fold_right Rmax 0 ds))); [| exact Hall].
  unfold ds, fetch_distances, ray_distances.
  destruct points; [contradiction | discriminate].
Qed.

Lemma exposure_direction_step_ok (land_geom : LandMask)
  (points : list PlanarPoint) (d1 : FetchDict) (d2 : DirDict)
  (dir : CompassDirection) (degrees : R) :
  points <> [] ->
  V1.direction_step cfg land_geom points (d1, d2) (dir, degrees)
  = Ok (dict_set Compass.eqb d1 dir
          (Finite
             (py_round
                (median_value (fetch_distances land_geom points degrees)) 2)),
        dict_set Compass.eqb d2 dir
          (py_round
             (exposure_value
                (median_value (fetch_distances land_geom points degrees))) 3)).
Proof.
  intros Hne. unfold V1.direction_step, V1.compute_fetch_distance.
  rewrite for_each_cast by lra. simpl.
  fold (fetch_distances land_geom points degrees).
  rewrite np_median_ok.
  2:{ unfold fetch_distances, ray_distances.
      destruct points; [contradiction | discriminate]. }
  simpl.
  pose proof (fetch_median_nonneg land_geom points degrees Hne).
  rewrite log_fetch_exposure_ok by lra. reflexivity.
Qed.

Lemma compute_route_exposure_ok (land_geom : LandMask)
  (id origin_slug dest_slug : string) (origin dest : Port) :
  ports_get (V1.PORTS cfg) origin_slug = Ok origin ->
  ports_get (V1.PORTS cfg) dest_slug = Ok dest ->
  (1 <= V1.SAMPLE_POINTS_PER_ROUTE cfg)%Z ->
  V1.compute_route_exposure cfg wgs84_to_utm id origin_slug dest_slug
    land_geom
  = Ok (exposure_of land_geom id origin_slug dest_slug
          (sample_points_of wgs84_to_utm origin dest
             (V1.SAMPLE_POINTS_PER_ROUTE cfg))).
Proof.
  intros Ho Hd Hn. unfold V1.compute_route_exposure.
  rewrite Ho, Hd. cbn [bind].
  rewrite sample_route_points_ok by exact Hn. cbn [bind].
  set (points := sample_points_of wgs84_to_utm origin dest
                   (V1.SAMPLE_POINTS_PER_ROUTE cfg)).
  assert (Hne : points <> []).
  { intros E. apply (f_equal (@List.length PlanarPoint)) in E.
    unfold points in E. rewrite sample_points_of_length in E. simpl in E. lia. }
  rewrite (for_fold_directions _
             (fun deg => Finite (py_round (median_value
                                     (fetch_distances land_geom points deg)) 2))
             (fun deg => py_round
                           (exposure_value
                              (median_value
                                 (fetch_distances land_geom points deg))) 3)).
  2:{ intros. now apply exposure_direction_step_ok. }
  cbn [bind].
  rewrite (np_mean_16 _). reflexivity.
Qed.

(** With no sample point every median is nan: the record holds nan for
    every fetch and the score 1 for every direction. *)
Definition exposure_without_samples (id origin_slug dest_slug : string)
  : V1.Exposure :=
  {| V1.route_id := id;
     V1.origin_port := origin_slug;
     V1.destination_port := dest_slug;
     V1.exposure_by_dir := dir_dict (fun _ => py_round (py_max 0 1) 3);
     V1.fetch_km_by_dir := dir_dict (fun _ => NaN);
     V1.avg_exposure :=
       py_round
         (py_sum (dict_values
                    (dir_dict (fun _ : R => py_round (py_max 0 1) 3))) / 16) 3;
     V1.top_exposure_dirs :=
       map fst
         (firstn 3
            (sorted_by_value_desc
               (dir_dict (fun _ : R => py_round (py_max 0 1) 3))))
  |}.

Lemma log_fetch_exposure_of_nan_ok :
  V1.log_fetch_exposure_of_nan cfg = Ok (py_max 0 1).
Proof.
  unfold V1.log_fetch_exposure_of_nan.
  rewrite math_log_ok by lra. cbn [bind].
  rewrite py_div_ok; [reflexivity |].
  assert (H : 0 < ln (V1.MAX_FETCH_KM cfg + 1)).
  { rewrite <- ln_1. apply ln_increasing; lra. }
  lra.
Qed.

Lemma exposure_direction_step_no_samples (land_geom : LandMask)
  (d1 : FetchDict) (d2 : DirDict) (dir : CompassDirection) (degrees : R) :
  V1.direction_step cfg land_geom [] (d1, d2) (dir, degrees)
  = Ok (dict_set Compass.eqb d1 dir NaN,
        dict_set Compass.eqb d2 dir (py_round (py_max 0 1) 3)).
Proof.
  unfold V1.direction_step. cbn [for_each bind].
  rewrite np_median_empty, log_fetch_exposure_of_nan_ok. reflexivity.
Qed.

Lemma compute_route_exposure_no_samples (land_geom : LandMask)
  (id origin_slug dest_slug : string) (origin dest : Port) :
  ports_get (V1.PORTS cfg) origin_slug = Ok origin ->
  ports_get (V1.PORTS cfg) dest_slug = Ok dest ->
  (V1.SAMPLE_POINTS_PER_ROUTE cfg <= 0)%Z ->
  V1.compute_route_exposure cfg wgs84_to_utm id origin_slug dest_slug
    land_geom
  = Ok (exposure_without_samples id origin_slug dest_slug).
Proof.
  intros Ho Hd Hn. unfold V1.compute_route_exposure.
  rewrite Ho, Hd. cbn [bind].
  unfold sample_route_points. rewrite py_range_nonpos by exact Hn.
  cbn [for_each bind].
  rewrite (for_fold_directions _ (fun _ => NaN)
             (fun _ => py_round (py_max 0 1) 3)).
  2:{ intros. apply exposure_direction_step_no_samples. }
  cbn [bind].
  rewrite (np_mean_16 _). reflexivity.
Qed.

(** The record is returned whatever the number of sample points. *)
Lemma compute_route_exposure_returns (land_geom : LandMask)
  (id origin_slug dest_slug : string) (origin dest : Port) :
  ports_get (V1.PORTS cfg) origin_slug = Ok origin ->
  ports_get (V1.PORTS cfg) dest_slug = Ok dest ->
  exists e,
    V1.compute_route_exposure cfg wgs84_to_utm id origin_slug dest_slug
      land_geom = Ok e.
Proof.
  intros Ho Hd.
  destruct (Z_le_gt_dec 1 (V1.SAMPLE_POINTS_PER_ROUTE cfg)) as [Hn | Hn].
  - eexists. apply (compute_route_exposure_ok land_geom id origin_slug
                      dest_slug origin dest Ho Hd Hn).
  - eexists. apply (compute_route_exposure_no_samples land_geom id origin_slug
                      dest_slug origin dest Ho Hd). lia.
Qed.

End ExposureFacts.

Lemma whole_numbers_exposure (cfg : V1.Config) :
  whole_numbers (V1.RAY_STEP_M cfg) (V1.MAX_FETCH_KM cfg) ->
  0 < V1.RAY_STEP_M cfg /\ 1 <= V1.MAX_FETCH_KM cfg.
Proof.
  intros (s & M & Hs & HM & -> & -> & _). split.
  - now apply IZR_lt.
  - apply IZR_le. lia.
Qed.

(* ================================================================== *)
(** * Every signature has the 16 directions and scores in [0, 1] *)

Definition values_satisfy {V : Type} (P : V -> Prop)
  (d : list (CompassDirection * V)) : Prop :=
  Forall (fun kv : CompassDirection * V => P (snd kv)) d.

Lemma dict_set_keys_fresh {V : Type} (d : list (CompassDirection * V))
  (k : CompassDirection) (v : V) :
  ~ In k (dict_keys d) ->
  dict_keys (dict_set Compass.eqb d k v) = dict_keys d ++ [k].
Proof.
  intros Hk. rewrite dict_set_fresh.
  - unfold dict_keys. now rewrite map_app.
  - intros k' Hk'. apply compass_eqb_neq. intros <-. contradiction.
Qed.

Lemma dict_set_values_satisfy {V : Type} (P : V -> Prop)
  (d : list (CompassDirection * V)) (k : CompassDirection) (v : V) :
  values_satisfy P d -> P v -> values_satisfy P (dict_set Compass.eqb d k v).
Proof.
  intros Hd Hv. unfold values_satisfy in *.
  induction d as [| [k' v'] d IH]; simpl.
  - constructor; [exact Hv | constructor].
  - inversion Hd; subst. destruct (Compass.eqb k k').
    + constructor; assumption.
    + constructor; [assumption | now apply IH].
Qed.

Lemma for_fold_dicts_inv {A B : Type}
  (body : list (CompassDirection * A) * list (CompassDirection * B)
          -> CompassDirection * R
          -> Result (list (CompassDirection * A)
                     * list (CompassDirection * B)))
  (P1 : A -> Prop) (P2 : B -> Prop) :
  (forall d1 d2 dir deg r,
     body (d1, d2) (dir, deg) = Ok r ->
     exists v1 v2,
       r = (dict_set Compass.eqb d1 dir v1, dict_set Compass.eqb d2 dir v2) /\
       P1 v1 /\ P2 v2) ->
  forall items d1 d2 r1 r2,
    NoDup (map fst items) ->
    (forall item, In item items ->
       ~ In (fst item) (dict_keys d1) /\ ~ In (fst item) (dict_keys d2)) ->
    values_satisfy P1 d1 -> values_satisfy P2 d2 ->
    for_fold body items (d1, d2) = Ok (r1, r2) ->
    dict_keys r1 = dict_keys d1 ++ map fst items /\
    dict_keys r2 = dict_keys d2 ++ map fst items /\
    values_satisfy P1 r1 /\ values_satisfy P2 r2.
Proof.
  intros Hbody. induction items as [| [dir deg] items IH];
    intros d1 d2 r1 r2 Hnd Hfresh H1 H2 Hrun; simpl in Hrun.
  - injection Hrun as <- <-. simpl. rewrite !app_nil_r. auto.
  - destruct (body (d1, d2) (dir, deg)) as [r |] eqn:Hb; [| discriminate].
    simpl in Hrun.
    destruct (Hbody _ _ _ _ _ Hb) as (v1 & v2 & -> & Hv1 & Hv2).
    destruct (Hfresh (dir, deg) ltac:(now left)) as [Hf1 Hf2]. simpl in Hf1, Hf2.
    inversion Hnd as [| ? ? Hnotin Hnd']; subst.
    apply IH in Hrun; try assumption.
    + rewrite !dict_set_keys_fresh in Hrun by assumption.
      rewrite <- !app_assoc in Hrun. exact Hrun.
    + intros item Hin. rewrite !dict_set_keys_fresh by assumption.
      destruct (Hfresh item ltac:(now right)) as [Hg1 Hg2].
      split; intros Hin'; apply in_app_or in Hin';
        destruct Hin' as [Hin' | [Heq | []]]; try contradiction;
        apply Hnotin; simpl; rewrite Heq; now apply in_map.
    + now apply dict_set_values_satisfy.
    + now apply dict_set_values_satisfy.
Qed.

Definition unit_interval (v : R) : Prop := 0 <= v <= 1.

Lemma shelter_ratio_of_unit (cfg : V2.Config) (ds : list R) (s : R) :
  V2.shelter_ratio_of cfg ds = Ok s -> 0 <= s <= 1.
Proof.
  unfold V2.shelter_ratio_of, py_div. rewrite length_map.
  destruct (Req_bool (INR (List.length ds)) 0) eqn:E; simpl; [discriminate |].
  intros H. injection H as <-.
  assert (Hlen : 0 < INR (List.length ds)).
  { destruct (Req_dec_T (INR (List.length ds)) 0) as [H0 | H0].
    - rewrite (Req_bool_true _ _ H0) in E. discriminate.
    - pose proof (pos_INR (List.length ds)). lra. }
  pose proof (pos_INR (V2.count_true (map (V2.is_sheltered cfg) ds))) as Hc.
  assert (Hle : INR (V2.count_true (map (V2.is_sheltered cfg) ds))
                <= INR (List.length ds)).
  { apply le_INR. rewrite <- (length_map (V2.is_sheltered cfg) ds).
    apply count_true_bound. }
  assert (Hq : 0 <= INR (V2.count_true (map (V2.is_sheltered cfg) ds))
                    / INR (List.length ds) <= 1).
  { split.
    - apply Rmult_le_pos; [exact Hc | left; now apply Rinv_0_lt_compat].
    - apply Rmult_le_reg_r with (INR (List.length ds)); [exact Hlen |].
      unfold Rdiv. rewrite Rmult_assoc, Rinv_l by lra. lra. }
  lra.
Qed.

Lemma shelter_direction_step_inv (cfg : V2.Config) (land_geom : LandMask)
  (points : list PlanarPoint) (d1 d2 : DirDict) (dir : CompassDirection)
  (deg : R) (r : DirDict * DirDict) :
  V2.direction_step cfg land_geom points (d1, d2) (dir, deg) = Ok r ->
  exists v1 v2,
    r = (dict_set Compass.eqb d1 dir v1, dict_set Compass.eqb d2 dir v2) /\
    unit_interval v1 /\ True.
Proof.
  unfold V2.direction_step.
  destruct (for_each _ points) as [ds |]; simpl; [| discriminate].
  destruct (V2.shelter_ratio_of cfg ds) as [s |] eqn:Hs; simpl; [| discriminate].
  destruct (V2.effective_fetch_of cfg ds) as [f |]; simpl; [| discriminate].
  intros H. injection H as <-.
  exists (py_round s 3), (py_round f 2). split; [reflexivity |].
  split; [| exact I].
  apply py_round_unit. eapply shelter_ratio_of_unit; exact Hs.
Qed.

Lemma log_fetch_exposure_unit (cfg : V1.Config) (m e : R) :
  V1.log_fetch_exposure cfg m = Ok e -> 0 <= e <= 1.
Proof.
  unfold V1.log_fetch_exposure.
  destruct (math_log (m + 1)) as [num |]; simpl; [| discriminate].
  destruct (math_log (V1.MAX_FETCH_KM cfg + 1)) as [den |]; simpl;
    [| discriminate].
  destruct (py_div num den) as [q |]; simpl; [| discriminate].
  intros H. injection H as <-.
  rewrite py_max_Rmax, py_min_Rmin. apply clamp01_unit.
Qed.

Lemma log_fetch_exposure_of_nan_unit (cfg : V1.Config) (e : R) :
  V1.log_fetch_exposure_of_nan cfg = Ok e -> e = 1.
Proof.
  unfold V1.log_fetch_exposure_of_nan.
  destruct (math_log (V1.MAX_FETCH_KM cfg + 1)) as [den |]; simpl;
    [| discriminate].
  destruct (py_div 0 den) as [q |]; simpl; [| discriminate].
  intros H. injection H as <-.
  rewrite py_max_Rmax. unfold Rmax. destruct (Rle_dec 0 1); lra.
Qed.

Lemma exposure_direction_step_inv (cfg : V1.Config) (land_geom : LandMask)
  (points : list PlanarPoint) (d1 : FetchDict) (d2 : DirDict)
  (dir : CompassDirection) (deg : R) (r : FetchDict * DirDict) :
  V1.direction_step cfg land_geom points (d1, d2) (dir, deg) = Ok r ->
  exists v1 v2,
    r = (dict_set Compass.eqb d1 dir v1, dict_set Compass.eqb d2 dir v2) /\
    True /\ unit_interval v2.
Proof.
  unfold V1.direction_step.
  destruct (for_each _ points) as [ds |]; simpl; [| discriminate].
  destruct (np_median ds) as [m | [| | | | |]]; simpl; try discriminate.
  - destruct (V1.log_fetch_exposure cfg m) as [e |] eqn:He; simpl;
      [| discriminate].
    intros H. injection H as <-.
    exists (Finite (py_round m 2)), (py_round e 3). split; [reflexivity |].
    split; [exact I |].
    apply py_round_unit. eapply log_fetch_exposure_unit; exact He.
  - destruct (V1.log_fetch_exposure_of_nan cfg) as [e |] eqn:He; simpl;
      [| discriminate].
    intros H. injection H as <-.
    exists NaN, (py_round e 3). split; [reflexivity |].
    split; [exact I |].
    apply py_round_unit. rewrite (log_fetch_exposure_of_nan_unit _ _ He).
    unfold unit_interval. lra.
Qed.

Lemma shelter_signature_invariant (cfg : V2.Config)
  (wgs84_to_utm : R -> R -> PlanarPoint) (id origin_slug dest_slug : string)
  (land_geom : LandMask) (sig : V2.Signature) :
  V2.compute_shelter_signature cfg wgs84_to_utm id origin_slug dest_slug
    land_geom = Ok sig ->
  dict_keys (V2.shelter_ratio_by_dir sig) = all_directions /\
  dict_keys (V2.effective_open_fetch_km_by_dir sig) = all_directions /\
  values_satisfy unit_interval (V2.shelter_ratio_by_dir sig).
Proof.
  unfold V2.compute_shelter_signature.
  destruct (ports_get (V2.PORTS cfg) origin_slug) as [po |]; cbn [bind];
    [| discriminate].
  destruct (ports_get (V2.PORTS cfg) dest_slug) as [pd |]; cbn [bind];
    [| discriminate].
  destruct (sample_route_points _ _ _ _) as [points |]; cbn [bind];
    [| discriminate].
  destruct (for_fold (V2.direction_step cfg land_geom points)
              COMPASS_DIRECTIONS ([], [])) as [[r1 r2] |] eqn:Hf;
    cbn [bind]; [| discriminate].
  destruct (np_mean (dict_values r1)) as [m |]; cbn [bind]; [| discriminate].
  intros H. injection H as <-. cbn.
  apply (for_fold_dicts_inv _ unit_interval (fun _ => True)) in Hf.
  - destruct Hf as (K1 & K2 & V1 & _). auto.
  - intros. eapply shelter_direction_step_inv; eassumption.
  - exact compass_keys_NoDup.
  - intros item _. split; intros [].
  - constructor.
  - constructor.
Qed.

Lemma exposure_invariant (cfg : V1.Config)
  (wgs84_to_utm : R -> R -> PlanarPoint) (id origin_slug dest_slug : string)
  (land_geom : LandMask) (e : V1.Exposure) :
  V1.compute_route_exposure cfg wgs84_to_utm id origin_slug dest_slug
    land_geom = Ok e ->
  dict_keys (V1.exposure_by_dir e) = all_directions /\
  dict_keys (V1.fetch_km_by_dir e) = all_directions /\
  values_satisfy unit_interval (V1.exposure_by_dir e).
Proof.
  unfold V1.compute_route_exposure.
  destruct (ports_get (V1.PORTS cfg) origin_slug) as [po |]; cbn [bind];
    [| discriminate].
  destruct (ports_get (V1.PORTS cfg) dest_slug) as [pd |]; cbn [bind];
    [| discriminate].
  destruct (sample_route_points _ _ _ _) as [points |]; cbn [bind];
    [| discriminate].
  destruct (for_fold (V1.direction_step cfg land_geom points)
              COMPASS_DIRECTIONS ([], [])) as [[r1 r2] |] eqn:Hf;
    cbn [bind]; [| discriminate].
  destruct (np_mean (dict_values r2)) as [m |]; cbn [bind]; [| discriminate].
  intros H. injection H as <-. cbn.
  apply (for_fold_dicts_inv _ (fun _ => True) unit_interval) in Hf.
  - destruct Hf as (K1 & K2 & _ & V2). auto.
  - intros. eapply exposure_direction_step_inv; eassumption.
  - exact compass_keys_NoDup.
  - intros item _. split; intros [].
  - constructor.
  - constructor.
Qed.

(** C8.  A signature is returned, by v2 for any route between two known
    ports sampled at one point or more, and by v1 for any route between two
    known ports and any sample count (with none its fetches are nan), in a
    whole-number configuration; and every signature that v1 or v2 returns,
    in any configuration, has its scores keyed by exactly the 16 compass
    directions, each once and none missing, every score in [0, 1]. *)
Theorem signature_directions_and_scores :
  List.length all_directions = 16%nat /\
  NoDup all_directions /\
  (forall dir : CompassDirection, In dir all_directions) /\
  (forall cfg wgs84_to_utm id origin_slug dest_slug land_geom origin dest,
     ports_get (V2.PORTS cfg) origin_slug = Ok origin ->
     ports_get (V2.PORTS cfg) dest_slug = Ok dest ->
     (1 <= V2.SAMPLE_POINTS_PER_ROUTE cfg)%Z ->
     whole_numbers (V2.RAY_STEP_M cfg) (V2.MAX_RAY_KM cfg) ->
     exists sig,
       V2.compute_shelter_signature cfg wgs84_to_utm id origin_slug dest_slug
         land_geom = Ok sig /\
       dict_keys (V2.shelter_ratio_by_dir sig) = all_directions /\
       forall dir score,
         In (dir, score) (V2.shelter_ratio_by_dir sig) -> 0 <= score <= 1) /\
  (forall cfg wgs84_to_utm id origin_slug dest_slug land_geom sig,
     V2.compute_shelter_signature cfg wgs84_to_utm id origin_slug dest_slug
       land_geom = Ok sig ->
     dict_keys (V2.shelter_ratio_by_dir sig) = all_directions /\
     forall dir score,
       In (dir, score) (V2.shelter_ratio_by_dir sig) -> 0 <= score <= 1) /\
  (forall cfg wgs84_to_utm id origin_slug dest_slug land_geom origin dest,
     ports_get (V1.PORTS cfg) origin_slug = Ok origin ->
     ports_get (V1.PORTS cfg) dest_slug = Ok dest ->
     whole_numbers (V1.RAY_STEP_M cfg) (V1.MAX_FETCH_KM cfg) ->
     exists e,
       V1.compute_route_exposure cfg wgs84_to_utm id origin_slug dest_slug
         land_geom = Ok e /\
       dict_keys (V1.exposure_by_dir e) = all_directions /\
       forall dir score,
         In (dir, score) (V1.exposure_by_dir e) -> 0 <= score <= 1) /\
  (forall cfg wgs84_to_utm id origin_slug dest_slug land_geom e,
     V1.compute_route_exposure cfg wgs84_to_utm id origin_slug dest_slug
       land_geom = Ok e ->
     dict_keys (V1.exposure_by_dir e) = all_directions /\
     forall dir score,
       In (dir, score) (V1.exposure_by_dir e) -> 0 <= score <= 1).
Proof.
  assert (Hv2 : forall cfg wgs84_to_utm id origin_slug dest_slug land_geom sig,
             V2.compute_shelter_signature cfg wgs84_to_utm id origin_slug
               dest_slug land_geom = Ok sig ->
             dict_keys (V2.shelter_ratio_by_dir sig) = all_directions /\
             forall dir score,
               In (dir, score) (V2.shelter_ratio_by_dir sig) ->
               0 <= score <= 1).
  { intros cfg wgs id o d land sig H.
    destruct (shelter_signature_invariant _ _ _ _ _ _ _ H) as (K & _ & V).
    split; [exact K |]. intros dir score Hin.
    unfold values_satisfy in V. rewrite Forall_forall in V.
    exact (V _ Hin). }
  assert (Hv1 : forall cfg wgs84_to_utm id origin_slug dest_slug land_geom e,
             V1.compute_route_exposure cfg wgs84_to_utm id origin_slug
               dest_slug land_geom = Ok e ->
             dict_keys (V1.exposure_by_dir e) = all_directions /\
             forall dir score,
               In (dir, score) (V1.exposure_by_dir e) -> 0 <= score <= 1).
  { intros cfg wgs id o d land e H.
    destruct (exposure_invariant _ _ _ _ _ _ _ H) as (K & _ & V).
    split; [exact K |]. intros dir score Hin.
    unfold values_satisfy in V. rewrite Forall_forall in V.
    exact (V _ Hin). }
  split; [exact all_directions_length |].
  split; [exact all_directions_NoDup |].
  split; [exact all_directions_complete |].
  split.
  { intros cfg wgs id o d land po pd Ho Hd Hn Hw.
    destruct (compute_shelter_signature_returns cfg wgs land id o d po pd
                Ho Hd Hn Hw) as (sig & Hsig).
    exists sig. split; [exact Hsig |]. exact (Hv2 _ _ _ _ _ _ _ Hsig). }
  split; [exact Hv2 |].
  split; [| exact Hv1].
  intros cfg wgs id o d land po pd Ho Hd Hw.
  destruct (whole_numbers_exposure cfg Hw) as [Hstep Hmax].
  destruct (compute_route_exposure_returns cfg wgs Hstep ltac:(lra) land id
              o d po pd Ho Hd) as (e & He).
  exists e. split; [exact He |]. exact (Hv1 _ _ _ _ _ _ _ He).
Qed.

(* ================================================================== *)
(** * The aggregate score and the three most exposed directions *)

(** [a] ranks before [b]: a higher score, or the same score and an earlier
    place in the enumeration of the compass directions. *)
Definition ranks_before (a b : CompassDirection * R) : Prop :=
  snd b < snd a \/
  (snd a = snd b /\ (Compass.index (fst a) < Compass.index (fst b))%nat).

(** What holds of a signature with per-direction [scores]: the aggregate
    is a multiple of 0.001 nearest to their mean, and [top] lists the first
    three of the scores ranked by [ranks_before]. *)
Definition mean_and_top3 (scores : DirDict) (aggregate : R)
  (top : list CompassDirection) : Prop :=
  List.length scores = 16%nat /\
  nearest_decimal 3 (py_sum (dict_values scores) / 16) aggregate /\
  exists ranked,
    Permutation ranked scores /\
    StronglySorted ranks_before ranked /\
    top = map fst (firstn 3 ranked) /\
    List.length top = 3%nat /\
    (forall a b, In a (firstn 3 ranked) -> In b (skipn 3 ranked) ->
                 ranks_before a b).

Lemma insert_desc_perm {K : Type} (x : K * R) (l : list (K * R)) :
  Permutation (insert_desc x l) (x :: l).
Proof.
  induction l as [| y l IH]; simpl.
  - apply Permutation_refl.
  - destruct (Rlt_bool (snd x) (snd y)).
    + eapply perm_trans; [apply perm_skip, IH | apply perm_swap].
    + apply Permutation_refl.
Qed.

Lemma sorted_by_value_desc_perm {K : Type} (l : list (K * R)) :
  Permutation (sorted_by_value_desc l) l.
Proof.
  induction l as [| x l IH]; simpl.
  - apply perm_nil.
  - eapply perm_trans; [apply insert_desc_perm | now apply perm_skip].
Qed.

Definition enumerated_before (a b : CompassDirection * R) : Prop :=
  (Compass.index (fst a) < Compass.index (fst b))%nat.

Lemma insert_desc_ranked (x : CompassDirection * R) (l : DirDict) :
  StronglySorted ranks_before l ->
  Forall (enumerated_before x) l ->
  StronglySorted ranks_before (insert_desc x l).
Proof.
  induction l as [| y l IH]; intros Hs Hx; simpl.
  - constructor; constructor.
  - inversion Hs as [| ? ? Hl Hy]; subst.
    inversion Hx as [| ? ? Hxy Hxl]; subst.
    destruct (Rlt_bool (snd x) (snd y)) eqn:E.
    + apply Rlt_bool_spec in E.
      constructor; [now apply IH |].
      apply (Permutation_Forall (Permutation_sym (insert_desc_perm x l))).
      constructor; [now left | exact Hy].
    + assert (Hge : snd y <= snd x).
      { destruct (Rlt_dec (snd x) (snd y)) as [H | H]; [| lra].
        rewrite (Rlt_bool_true _ _ H) in E. discriminate. }
      constructor; [exact Hs |].
      constructor.
      * destruct Hge as [Hlt | Heq]; [now left | right; split; [lra | exact Hxy]].
      * rewrite Forall_forall in Hy, Hxl |- *. intros z Hz.
        specialize (Hy z Hz). specialize (Hxl z Hz).
        destruct Hy as [Hyz | [Hyz _]].
        -- left. lra.
        -- destruct Hge as [Hlt | Heq]; [left; lra | right; split; [lra | exact Hxl]].
Qed.

Lemma sorted_by_value_desc_ranked (l : DirDict) :
  StronglySorted enumerated_before l ->
  StronglySorted ranks_before (sorted_by_value_desc l).
Proof.
  induction l as [| x l IH]; intros Hs; simpl.
  - constructor.
  - inversion Hs as [| ? ? Hl Hx]; subst.
    apply insert_desc_ranked; [now apply IH |].
    apply (Permutation_Forall (Permutation_sym (sorted_by_value_desc_perm l))).
    exact Hx.
Qed.

Lemma keys_enumerated (keys : list CompassDirection) (d : DirDict) :
  dict_keys d = keys ->
  StronglySorted lt (map Compass.index keys) ->
  StronglySorted enumerated_before d.
Proof.
  revert keys. induction d as [| [k v] d IH]; intros keys Hk Hs.
  - constructor.
  - destruct keys as [| k' keys]; [discriminate |].
    simpl in Hk. injection Hk as -> Hk.
    simpl in Hs. inversion Hs as [| ? ? Hs' Hall]; subst.
    constructor; [now apply (IH (dict_keys d)) |].
    rewrite Forall_forall in Hall |- *. intros [k2 v2] Hin.
    unfold enumerated_before; simpl. apply Hall.
    apply in_map. change k2 with (fst (k2, v2)). now apply in_map.
Qed.

Lemma all_directions_enumerated :
  StronglySorted lt (map Compass.index all_directions).
Proof.
  unfold all_directions, dict_keys. simpl.
  repeat (constructor; [| repeat (constructor; [lia |]); constructor]).
  constructor.
Qed.

Lemma mean_and_top3_of_scores (scores : DirDict) :
  dict_keys scores = all_directions ->
  mean_and_top3 scores
    (py_round (py_sum (dict_values scores) / 16) 3)
    (map fst (firstn 3 (sorted_by_value_desc scores))).
Proof.
  intros Hk.
  assert (Hlen : List.length scores = 16%nat).
  { rewrite <- (length_map fst scores). fold (dict_keys scores).
    now rewrite Hk. }
  assert (Hp := sorted_by_value_desc_perm scores).
  assert (Hs : StronglySorted ranks_before (sorted_by_value_desc scores)).
  { apply sorted_by_value_desc_ranked.
    eapply keys_enumerated; [exact Hk | exact all_directions_enumerated]. }
  split; [exact Hlen |]. split; [apply py_round_nearest |].
  exists (sorted_by_value_desc scores).
  split; [exact Hp |]. split; [exact Hs |]. split; [reflexivity |].
  split.
  { rewrite length_map, length_firstn, (Permutation_length Hp), Hlen.
    reflexivity. }
  intros a b Ha Hb.
  rewrite <- (firstn_skipn 3 (sorted_by_value_desc scores)) in Hs.
  set (front := firstn 3 (sorted_by_value_desc scores)) in *.
  set (back := skipn 3 (sorted_by_value_desc scores)) in *.
  clearbody front back. clear -Hs Ha Hb.
  induction front as [| f front IH]; [destruct Ha |].
  simpl in Hs. inversion Hs as [| ? ? Hs' Hall]; subst.
  destruct Ha as [-> | Ha].
  - rewrite Forall_forall in Hall. apply Hall. apply in_or_app. now right.
  - now apply IH.
Qed.

Lemma np_mean_inv (l : list R) (m : R) :
  np_mean l = Ok m -> m = py_sum l / INR (List.length l).
Proof.
  unfold np_mean. destruct l; [discriminate |].
  intros H. now injection H as <-.
Qed.

Lemma shelter_signature_shape (cfg : V2.Config)
  (wgs84_to_utm : R -> R -> PlanarPoint) (id origin_slug dest_slug : string)
  (land_geom : LandMask) (sig : V2.Signature) :
  V2.compute_shelter_signature cfg wgs84_to_utm id origin_slug dest_slug
    land_geom = Ok sig ->
  V2.mean_shelter_ratio sig
  = py_round (py_sum (dict_values (V2.shelter_ratio_by_dir sig))
              / INR (List.length (V2.shelter_ratio_by_dir sig))) 3 /\
  V2.top_exposure_dirs sig
  = map fst (firstn 3 (sorted_by_value_desc (V2.shelter_ratio_by_dir sig))).
Proof.
  unfold V2.compute_shelter_signature.
  destruct (ports_get (V2.PORTS cfg) origin_slug) as [po |]; cbn [bind];
    [| discriminate].
  destruct (ports_get (V2.PORTS cfg) dest_slug) as [pd |]; cbn [bind];
    [| discriminate].
  destruct (sample_route_points _ _ _ _) as [points |]; cbn [bind];
    [| discriminate].
  destruct (for_fold (V2.direction_step cfg land_geom points)
              COMPASS_DIRECTIONS ([], [])) as [[r1 r2] |];
    cbn [bind]; [| discriminate].
  destruct (np_mean (dict_values r1)) as [m |] eqn:Hm; cbn [bind];
    [| discriminate].
  intros H. injection H as <-.
  cbn [V2.mean_shelter_ratio V2.top_exposure_dirs V2.shelter_ratio_by_dir].
  split; [| reflexivity].
  rewrite (np_mean_inv _ _ Hm). unfold dict_values. now rewrite length_map.
Qed.

Lemma exposure_shape (cfg : V1.Config)
  (wgs84_to_utm : R -> R -> PlanarPoint) (id origin_slug dest_slug : string)
  (land_geom : LandMask) (e : V1.Exposure) :
  V1.compute_route_exposure cfg wgs84_to_utm id origin_slug dest_slug
    land_geom = Ok e ->
  V1.avg_exposure e
  = py_round (py_sum (dict_values (V1.exposure_by_dir e))
              / INR (List.length (V1.exposure_by_dir e))) 3 /\
  V1.top_exposure_dirs e
  = map fst (firstn 3 (sorted_by_value_desc (V1.exposure_by_dir e))).
Proof.
  unfold V1.compute_route_exposure.
  destruct (ports_get (V1.PORTS cfg) origin_slug) as [po |]; cbn [bind];
    [| discriminate].
  destruct (ports_get (V1.PORTS cfg) dest_slug) as [pd |]; cbn [bind];
    [| discriminate].
  destruct (sample_route_points _ _ _ _) as [points |]; cbn [bind];
    [| discriminate].
  destruct (for_fold (V1.direction_step cfg land_geom points)
              COMPASS_DIRECTIONS ([], [])) as [[r1 r2] |];
    cbn [bind]; [| discriminate].
  destruct (np_mean (dict_values r2)) as [m |] eqn:Hm; cbn [bind];
    [| discriminate].
  intros H. injection H as <-.
  cbn [V1.avg_exposure V1.top_exposure_dirs V1.exposure_by_dir].
  split; [| reflexivity].
  rewrite (np_mean_inv _ _ Hm). unfold dict_values. now rewrite length_map.
Qed.

(** C9, amended.  In every computed signature, of v1 and of v2, the
    aggregate score is the arithmetic mean of the 16 per-direction scores
    rounded to 3 decimals: a multiple of 0.001 at most 0.0005 away from the
    mean; and the top-3 list holds the three directions that rank first by
    score, descending, equal scores in the enumeration order of the compass
    directions.  Such a signature is returned for any route between two
    known ports of a whole-number configuration (v2: sampled at one point
    or more). *)
Theorem aggregate_is_rounded_mean_and_top3 :
  (forall cfg wgs84_to_utm id origin_slug dest_slug land_geom sig,
     V2.compute_shelter_signature cfg wgs84_to_utm id origin_slug dest_slug
       land_geom = Ok sig ->
     mean_and_top3 (V2.shelter_ratio_by_dir sig) (V2.mean_shelter_ratio sig)
       (V2.top_exposure_dirs sig)) /\
  (forall cfg wgs84_to_utm id origin_slug dest_slug land_geom e,
     V1.compute_route_exposure cfg wgs84_to_utm id origin_slug dest_slug
       land_geom = Ok e ->
     mean_and_top3 (V1.exposure_by_dir e) (V1.avg_exposure e)
       (V1.top_exposure_dirs e)) /\
  (forall cfg wgs84_to_utm id origin_slug dest_slug land_geom origin dest,
     ports_get (V2.PORTS cfg) origin_slug = Ok origin ->
     ports_get (V2.PORTS cfg) dest_slug = Ok dest ->
     (1 <= V2.SAMPLE_POINTS_PER_ROUTE cfg)%Z ->
     whole_numbers (V2.RAY_STEP_M cfg) (V2.MAX_RAY_KM cfg) ->
     exists sig,
       V2.compute_shelter_signature cfg wgs84_to_utm id origin_slug dest_slug
         land_geom = Ok sig /\
       mean_and_top3 (V2.shelter_ratio_by_dir sig) (V2.mean_shelter_ratio sig)
         (V2.top_exposure_dirs sig)) /\
  (forall cfg wgs84_to_utm id origin_slug dest_slug land_geom origin dest,
     ports_get (V1.PORTS cfg) origin_slug = Ok origin ->
     ports_get (V1.PORTS cfg) dest_slug = Ok dest ->
     whole_numbers (V1.RAY_STEP_M cfg) (V1.MAX_FETCH_KM cfg) ->
     exists e,
       V1.compute_route_exposure cfg wgs84_to_utm id origin_slug dest_slug
         land_geom = Ok e /\
       mean_and_top3 (V1.exposure_by_dir e) (V1.avg_exposure e)
         (V1.top_exposure_dirs e)).
Proof.
  assert (Hv2 : forall cfg wgs84_to_utm id origin_slug dest_slug land_geom sig,
             V2.compute_shelter_signature cfg wgs84_to_utm id origin_slug
               dest_slug land_geom = Ok sig ->
             mean_and_top3 (V2.shelter_ratio_by_dir sig)
               (V2.mean_shelter_ratio sig) (V2.top_exposure_dirs sig)).
  { intros cfg wgs id o d land sig H.
    destruct (shelter_signature_invariant _ _ _ _ _ _ _ H) as (K & _ & _).
    destruct (shelter_signature_shape _ _ _ _ _ _ _ H) as (Hm & Ht).
    pose proof (mean_and_top3_of_scores _ K) as Hspec.
    rewrite Hm, Ht.
    replace (INR (List.length (V2.shelter_ratio_by_dir sig))) with 16.
    + exact Hspec.
    + destruct Hspec as (-> & _). simpl. lra. }
  assert (Hv1 : forall cfg wgs84_to_utm id origin_slug dest_slug land_geom e,
             V1.compute_route_exposure cfg wgs84_to_utm id origin_slug
               dest_slug land_geom = Ok e ->
             mean_and_top3 (V1.exposure_by_dir e) (V1.avg_exposure e)
               (V1.top_exposure_dirs e)).
  { intros cfg wgs id o d land e H.
    destruct (exposure_invariant _ _ _ _ _ _ _ H) as (K & _ & _).
    destruct (exposure_shape _ _ _ _ _ _ _ H) as (Hm & Ht).
    pose proof (mean_and_top3_of_scores _ K) as Hspec.
    rewrite Hm, Ht.
    replace (INR (List.length (V1.exposure_by_dir e))) with 16.
    + exact Hspec.
    + destruct Hspec as (-> & _). simpl. lra. }
  split; [exact Hv2 |]. split; [exact Hv1 |]. split.
  - intros cfg wgs id o d land po pd Ho Hd Hn Hw.
    destruct (compute_shelter_signature_returns cfg wgs land id o d po pd
                Ho Hd Hn Hw) as (sig & Hsig).
    exists sig. split; [exact Hsig |]. exact (Hv2 _ _ _ _ _ _ _ Hsig).
  - intros cfg wgs id o d land po pd Ho Hd Hw.
    destruct (whole_numbers_exposure cfg Hw) as [Hstep Hmax].
    destruct (compute_route_exposure_returns cfg wgs Hstep ltac:(lra) land id
                o d po pd Ho Hd) as (e & He).
    exists e. split; [exact He |]. exact (Hv1 _ _ _ _ _ _ _ He).
Qed.

(* ================================================================== *)
(** * The threshold-shelter score model (v2) *)

Lemma dir_dict_get {V : Type} (value : R -> V) (dir : CompassDirection)
  (deg : R) :
  In (dir, deg) COMPASS_DIRECTIONS ->
  dict_get Compass.eqb (dir_dict value) dir = Some (value deg).
Proof.
  intros H. unfold COMPASS_DIRECTIONS in H. cbn [In] in H.
  repeat (destruct H as [H | H]; [injection H as <- <-; reflexivity |]).
  destruct H.
Qed.

Lemma py_round_exact (x : R) (z : Z) (k : nat) :
  x * 10 ^ k = IZR z -> py_round x k = x.
Proof.
  intros H. unfold py_round. rewrite H, round_half_even_IZR, <- H.
  pose proof (pow10_pos k). field. lra.
Qed.

Section ThresholdFacts.
Variable cfg : V2.Config.

Lemma is_sheltered_spec (dist : R) :
  V2.is_sheltered cfg dist = true <-> dist <= V2.SHELTER_THRESHOLD_KM cfg.
Proof. unfold V2.is_sheltered. apply Rle_bool_spec. Qed.

Lemma shelter_ratio_all_sheltered (ds : list R) :
  ds <> [] ->
  (forall x, In x ds -> x <= V2.SHELTER_THRESHOLD_KM cfg) ->
  shelter_ratio_value cfg ds = 0.
Proof.
  intros Hne Hall. unfold shelter_ratio_value.
  rewrite count_true_all, length_map.
  - assert (INR (List.length ds) <> 0).
    { apply not_0_INR. destruct ds; [contradiction | discriminate]. }
    field. assumption.
  - intros b Hb. apply in_map_iff in Hb. destruct Hb as (x & <- & Hx).
    apply is_sheltered_spec. now apply Hall.
Qed.

Lemma shelter_ratio_none_sheltered (ds : list R) :
  (forall x, In x ds -> ~ x <= V2.SHELTER_THRESHOLD_KM cfg) ->
  shelter_ratio_value cfg ds = 1.
Proof.
  intros Hall. unfold shelter_ratio_value.
  rewrite count_true_none.
  - simpl. unfold Rdiv. lra.
  - intros b Hb. apply in_map_iff in Hb. destruct Hb as (x & <- & Hx).
    destruct (V2.is_sheltered cfg x) eqn:E; [| reflexivity].
    apply is_sheltered_spec in E. now apply Hall in Hx.
Qed.

(** The stored score is the exact ratio when the number of sample points
    divides 1000, as the shipped 50 does. *)
Lemma shelter_ratio_round_exact (ds : list R) (per_point : Z) :
  (Z.of_nat (List.length ds) * per_point = 1000)%Z ->
  py_round (shelter_ratio_value cfg ds) 3 = shelter_ratio_value cfg ds.
Proof.
  intros Hdiv.
  apply (py_round_exact _
           (1000 - Z.of_nat (V2.count_true (map (V2.is_sheltered cfg) ds))
                   * per_point)%Z).
  unfold shelter_ratio_value.
  assert (Hn : INR (List.length ds) * IZR per_point = 1000).
  { rewrite INR_IZR_INZ, <- mult_IZR, Hdiv. reflexivity. }
  assert (Hne : INR (List.length ds) <> 0).
  { intros E. rewrite E in Hn. lra. }
  rewrite minus_IZR, mult_IZR, <- INR_IZR_INZ.
  replace (IZR per_point) with (1000 / INR (List.length ds))
    by (rewrite <- Hn; field; exact Hne).
  simpl pow. field. exact Hne.
Qed.

End ThresholdFacts.

(** C7, amended.  A per-point raw distance counts as sheltered exactly when
    it is <= the threshold.  For every direction, with [ds] the raw
    measurements of the sample points, the score of the model is
    1 - sheltered_count / sample_count, and the score stored in the
    signature is that value rounded to 3 decimals: a multiple of 0.001 at
    most 0.0005 away from it, the value itself when the sample count
    divides 1000 (as the shipped 50 does); it is 0 when every measurement
    is <= the threshold and 1 when none is.  The distance stored alongside
    is the median of the range-capped measurements rounded to 2 decimals:
    a multiple of 0.01 at most 0.005 away from the median; it does not
    depend on the threshold. *)
Theorem threshold_shelter_model (cfg : V2.Config)
  (wgs84_to_utm : R -> R -> PlanarPoint) (land_geom : LandMask)
  (id origin_slug dest_slug : string) (origin dest : Port) :
  ports_get (V2.PORTS cfg) origin_slug = Ok origin ->
  ports_get (V2.PORTS cfg) dest_slug = Ok dest ->
  (1 <= V2.SAMPLE_POINTS_PER_ROUTE cfg)%Z ->
  whole_numbers (V2.RAY_STEP_M cfg) (V2.MAX_RAY_KM cfg) ->
  (forall dist,
     V2.is_sheltered cfg dist = true <-> dist <= V2.SHELTER_THRESHOLD_KM cfg) /\
  exists points sig,
    sample_route_points wgs84_to_utm origin dest
      (V2.SAMPLE_POINTS_PER_ROUTE cfg) = Ok points /\
    V2.compute_shelter_signature cfg wgs84_to_utm id origin_slug dest_slug
      land_geom = Ok sig /\
    forall dir deg, In (dir, deg) COMPASS_DIRECTIONS ->
    exists ds score fetch,
      for_each
        (fun p => cast_ray_to_land (V2.RAY_STEP_M cfg) p deg land_geom
                    (V2.MAX_RAY_KM cfg * 1000)) points = Ok ds /\
      List.length ds = Z.to_nat (V2.SAMPLE_POINTS_PER_ROUTE cfg) /\
      let sheltered_count :=
        V2.count_true (map (V2.is_sheltered cfg) ds) in
      let ratio := 1 - INR sheltered_count / INR (List.length ds) in
      let capped := map (fun x => Rmin x (V2.MAX_RAY_KM cfg)) ds in
      V2.shelter_ratio_of cfg ds = Ok ratio /\
      dict_get Compass.eqb (V2.shelter_ratio_by_dir sig) dir = Some score /\
      nearest_decimal 3 ratio score /\
      (forall per_point : Z,
         (V2.SAMPLE_POINTS_PER_ROUTE cfg * per_point = 1000)%Z ->
         score = ratio) /\
      ((forall x, In x ds -> x <= V2.SHELTER_THRESHOLD_KM cfg) ->
       ratio = 0 /\ score = 0) /\
      ((forall x, In x ds -> ~ x <= V2.SHELTER_THRESHOLD_KM cfg) ->
       ratio = 1 /\ score = 1) /\
      V2.effective_fetch_of cfg ds = Ok (median_value capped) /\
      dict_get Compass.eqb (V2.effective_open_fetch_km_by_dir sig) dir
      = Some fetch /\
      nearest_decimal 2 (median_value capped) fetch /\
      (forall cfg' : V2.Config,
         V2.MAX_RAY_KM cfg' = V2.MAX_RAY_KM cfg ->
         V2.effective_fetch_of cfg' ds = V2.effective_fetch_of cfg ds).
Proof.
  intros Ho Hd Hn Hw.
  assert (Hstep : V2.RAY_STEP_M cfg <> 0).
  { destruct (whole_numbers_shelter cfg Hw) as [H _]. lra. }
  split; [apply is_sheltered_spec |].
  set (points := sample_points_of wgs84_to_utm origin dest
                   (V2.SAMPLE_POINTS_PER_ROUTE cfg)).
  exists points, (signature_of cfg land_geom id origin_slug dest_slug points).
  split; [now apply sample_route_points_ok |].
  split; [now apply compute_shelter_signature_ok |].
  intros dir deg Hin.
  set (ds := shelter_distances cfg land_geom points deg).
  assert (Hlen : List.length ds = Z.to_nat (V2.SAMPLE_POINTS_PER_ROUTE cfg)).
  { unfold ds, shelter_distances, ray_distances.
    rewrite length_map. apply sample_points_of_length. }
  assert (Hne : ds <> []).
  { intros E. rewrite E in Hlen. simpl in Hlen. lia. }
  assert (Hcap : map (fun x => py_min x (V2.MAX_RAY_KM cfg)) ds
                 = map (fun x => Rmin x (V2.MAX_RAY_KM cfg)) ds).
  { apply map_ext. intros x. apply py_min_Rmin. }
  exists ds, (py_round (shelter_ratio_value cfg ds) 3),
         (py_round (effective_fetch_value cfg ds) 2).
  split; [unfold ds, shelter_distances; now apply for_each_cast |].
  split; [exact Hlen |].
  cbv zeta. fold (shelter_ratio_value cfg ds).
  split; [now apply shelter_ratio_of_ok |].
  split.
  { cbn [signature_of V2.shelter_ratio_by_dir]. unfold shelter_ratio_dict.
    now rewrite (dir_dict_get _ dir deg Hin). }
  split; [apply py_round_nearest |].
  split.
  { intros per_point Hdiv. apply (shelter_ratio_round_exact cfg ds per_point).
    rewrite Hlen, Z2Nat.id by lia. exact Hdiv. }
  split.
  { intros Hall. rewrite (shelter_ratio_all_sheltered cfg ds Hne Hall).
    split; [reflexivity | apply py_round_0]. }
  split.
  { intros Hall. rewrite (shelter_ratio_none_sheltered cfg ds Hall).
    split; [reflexivity | apply py_round_1]. }
  split.
  { rewrite effective_fetch_of_ok by exact Hne.
    unfold effective_fetch_value. now rewrite Hcap. }
  split.
  { cbn [signature_of V2.effective_open_fetch_km_by_dir].
    unfold effective_fetch_dict.
    now rewrite (dir_dict_get _ dir deg Hin). }
  split.
  { unfold effective_fetch_value. rewrite Hcap. apply py_round_nearest. }
  intros cfg' Hmax. unfold V2.effective_fetch_of. now rewrite Hmax.
Qed.

(* ================================================================== *)
(** * Reversing a route *)

Lemma seq_rev (k : nat) :
  rev (seq 0 k) = map (fun i => (k - 1 - i)%nat) (seq 0 k).
Proof.
  induction k as [| k IH].
  - reflexivity.
  - rewrite seq_S at 1. rewrite rev_app_distr. simpl rev. simpl app.
    rewrite IH. simpl seq. simpl map.
    f_equal; [lia |].
    rewrite <- seq_shift, map_map. apply map_ext_in.
    intros i Hi. lia.
Qed.

Lemma py_range_rev (n : Z) :
  rev (py_range n) = map (fun i : Z => (n - 1 - i)%Z) (py_range n).
Proof.
  unfold py_range. rewrite <- map_rev, seq_rev, !map_map.
  apply map_ext_in. intros i Hi. apply in_seq in Hi. lia.
Qed.

Lemma interpolate_reverse (p1 p2 : PlanarPoint) (n i : Z) :
  (1 <= n)%Z ->
  interpolate p2 p1 ((IZR i + 0.5) / IZR n)
  = interpolate p1 p2 ((IZR (n - 1 - i) + 0.5) / IZR n).
Proof.
  intros Hn. assert (Hn0 : IZR n <> 0) by (apply not_0_IZR; lia).
  unfold interpolate. rewrite !minus_IZR.
  replace 0.5 with (1 / 2) by lra.
  f_equal; field; exact Hn0.
Qed.

Lemma sample_points_of_reverse (wgs84_to_utm : R -> R -> PlanarPoint)
  (origin dest : Port) (n : Z) :
  sample_points_of wgs84_to_utm dest origin n
  = rev (sample_points_of wgs84_to_utm origin dest n).
Proof.
  unfold sample_points_of. rewrite <- map_rev, py_range_rev, map_map.
  apply map_ext_in. intros i Hi. apply py_range_In in Hi.
  apply interpolate_reverse. lia.
Qed.

(** ** A signature depends on the sample points as a multiset *)

Lemma ray_distances_perm (step : R) (land_geom : LandMask) (max_m : R)
  (points points' : list PlanarPoint) (deg : R) :
  Permutation points points' ->
  Permutation (ray_distances step land_geom max_m points deg)
    (ray_distances step land_geom max_m points' deg).
Proof. intros H. unfold ray_distances. now apply Permutation_map. Qed.

Lemma shelter_ratio_value_perm (cfg : V2.Config) (ds ds' : list R) :
  Permutation ds ds' ->
  shelter_ratio_value cfg ds = shelter_ratio_value cfg ds'.
Proof.
  intros H. unfold shelter_ratio_value.
  rewrite (Permutation_length H).
  rewrite (count_true_permutation_invariant
             (map (V2.is_sheltered cfg) ds)
             (map (V2.is_sheltered cfg) ds')).
  - reflexivity.
  - now apply Permutation_map.
Qed.

Lemma effective_fetch_value_perm (cfg : V2.Config) (ds ds' : list R) :
  Permutation ds ds' ->
  effective_fetch_value cfg ds = effective_fetch_value cfg ds'.
Proof.
  intros H. unfold effective_fetch_value.
  apply median_value_permutation_invariant. now apply Permutation_map.
Qed.

Lemma dir_dict_ext {V : Type} (f g : R -> V) :
  (forall deg, f deg = g deg) -> dir_dict f = dir_dict g.
Proof.
  intros H. unfold dir_dict. apply map_ext. intros [dir deg]. simpl.
  now rewrite H.
Qed.

Section Reordered.
Variable land_geom : LandMask.
Variables points points' : list PlanarPoint.
Hypothesis reordered : Permutation points points'.

Lemma shelter_ratio_dict_perm (cfg : V2.Config) :
  shelter_ratio_dict cfg land_geom points
  = shelter_ratio_dict cfg land_geom points'.
Proof.
  apply dir_dict_ext. intros deg. unfold shelter_distances. f_equal.
  apply shelter_ratio_value_perm, ray_distances_perm, reordered.
Qed.

Lemma effective_fetch_dict_perm (cfg : V2.Config) :
  effective_fetch_dict cfg land_geom points
  = effective_fetch_dict cfg land_geom points'.
Proof.
  apply dir_dict_ext. intros deg. unfold shelter_distances. f_equal.
  apply effective_fetch_value_perm, ray_distances_perm, reordered.
Qed.

Lemma exposure_dict_perm (cfg : V1.Config) :
  exposure_dict cfg land_geom points = exposure_dict cfg land_geom points'.
Proof.
  apply dir_dict_ext. intros deg. unfold fetch_distances. do 2 f_equal.
  apply median_value_permutation_invariant, ray_distances_perm, reordered.
Qed.

Lemma fetch_km_dict_perm (cfg : V1.Config) :
  fetch_km_dict cfg land_geom points = fetch_km_dict cfg land_geom points'.
Proof.
  apply dir_dict_ext. intros deg. unfold fetch_distances. do 2 f_equal.
  apply median_value_permutation_invariant, ray_distances_perm, reordered.
Qed.

End Reordered.

(** The body of a signature: everything but the route id and the slugs. *)
Definition same_shelter_body (s1 s2 : V2.Signature) : Prop :=
  V2.shelter_ratio_by_dir s1 = V2.shelter_ratio_by_dir s2 /\
  V2.effective_open_fetch_km_by_dir s1 = V2.effective_open_fetch_km_by_dir s2 /\
  V2.mean_shelter_ratio s1 = V2.mean_shelter_ratio s2 /\
  V2.top_exposure_dirs s1 = V2.top_exposure_dirs s2.

Definition same_exposure_body (e1 e2 : V1.Exposure) : Prop :=
  V1.exposure_by_dir e1 = V1.exposure_by_dir e2 /\
  V1.fetch_km_by_dir e1 = V1.fetch_km_by_dir e2 /\
  V1.avg_exposure e1 = V1.avg_exposure e2 /\
  V1.top_exposure_dirs e1 = V1.top_exposure_dirs e2.

(** C10, amended.  A signature depends on the sample points of its route
    as a multiset only.  When the sample sequence of (dest, origin) is a
    reordering of the sequence of (origin, dest), as its reverse is, the
    measurements of each direction are the same up to order, and the two
    routes get the same per-direction scores, per-direction distances,
    aggregate score and top-3 list, in v2 and in v1. *)
Theorem reordered_samples_same_signature
  (wgs84_to_utm : R -> R -> PlanarPoint) (land_geom : LandMask)
  (origin_slug dest_slug id id' : string) (origin dest : Port) (n : Z)
  (points points' : list PlanarPoint) :
  (1 <= n)%Z ->
  sample_route_points wgs84_to_utm origin dest n = Ok points ->
  sample_route_points wgs84_to_utm dest origin n = Ok points' ->
  Permutation points points' ->
  (forall step max_km deg,
     whole_numbers step max_km ->
     exists ds ds',
       for_each
         (fun p => cast_ray_to_land step p deg land_geom (max_km * 1000))
         points = Ok ds /\
       for_each
         (fun p => cast_ray_to_land step p deg land_geom (max_km * 1000))
         points' = Ok ds' /\
       Permutation ds ds') /\
  (forall cfg : V2.Config,
     V2.SAMPLE_POINTS_PER_ROUTE cfg = n ->
     whole_numbers (V2.RAY_STEP_M cfg) (V2.MAX_RAY_KM cfg) ->
     ports_get (V2.PORTS cfg) origin_slug = Ok origin ->
     ports_get (V2.PORTS cfg) dest_slug = Ok dest ->
     exists sig sig',
       V2.compute_shelter_signature cfg wgs84_to_utm id origin_slug dest_slug
         land_geom = Ok sig /\
       V2.compute_shelter_signature cfg wgs84_to_utm id' dest_slug origin_slug
         land_geom = Ok sig' /\
       same_shelter_body sig sig') /\
  (forall cfg : V1.Config,
     V1.SAMPLE_POINTS_PER_ROUTE cfg = n ->
     whole_numbers (V1.RAY_STEP_M cfg) (V1.MAX_FETCH_KM cfg) ->
     ports_get (V1.PORTS cfg) origin_slug = Ok origin ->
     ports_get (V1.PORTS cfg) dest_slug = Ok dest ->
     exists e e',
       V1.compute_route_exposure cfg wgs84_to_utm id origin_slug dest_slug
         land_geom = Ok e /\
       V1.compute_route_exposure cfg wgs84_to_utm id' dest_slug origin_slug
         land_geom = Ok e' /\
       same_exposure_body e e').
Proof.
  intros Hn Hpts Hpts' Hperm.
  rewrite sample_route_points_ok in Hpts, Hpts' by exact Hn.
  injection Hpts as Hpts. injection Hpts' as Hpts'.
  split; [| split].
  - intros step max_km deg (s & M & Hs & _ & -> & _).
    assert (Hstep : IZR s <> 0) by (apply not_0_IZR; lia).
    eexists. eexists.
    split; [now apply for_each_cast |].
    split; [now apply for_each_cast |].
    now apply ray_distances_perm.
  - intros cfg Hcfg Hw Ho Hd. subst n.
    destruct (whole_numbers_shelter cfg Hw) as [Hstep _].
    eexists. eexists.
    split; [apply (compute_shelter_signature_ok cfg wgs84_to_utm
                     land_geom id origin_slug dest_slug origin dest);
            try assumption; lra |].
    split; [apply (compute_shelter_signature_ok cfg wgs84_to_utm
                     land_geom id' dest_slug origin_slug dest origin);
            try assumption; lra |].
    rewrite Hpts, Hpts'.
    unfold same_shelter_body.
    cbn [signature_of V2.shelter_ratio_by_dir
         V2.effective_open_fetch_km_by_dir V2.mean_shelter_ratio
         V2.top_exposure_dirs].
    rewrite (shelter_ratio_dict_perm land_geom points points' Hperm cfg),
            (effective_fetch_dict_perm land_geom points points' Hperm cfg).
    auto.
  - intros cfg Hcfg Hw Ho Hd. subst n.
    destruct (whole_numbers_exposure cfg Hw) as [Hstep Hmax].
    assert (Hmax0 : 0 < V1.MAX_FETCH_KM cfg) by lra.
    eexists. eexists.
    split; [now apply (compute_route_exposure_ok cfg wgs84_to_utm Hstep Hmax0
                         land_geom id origin_slug dest_slug origin dest) |].
    split; [now apply (compute_route_exposure_ok cfg wgs84_to_utm Hstep Hmax0
                         land_geom id' dest_slug origin_slug dest origin) |].
    rewrite Hpts, Hpts'.
    unfold same_exposure_body.
    cbn [exposure_of V1.exposure_by_dir V1.fetch_km_by_dir V1.avg_exposure
         V1.top_exposure_dirs].
    rewrite (exposure_dict_perm land_geom points points' Hperm cfg),
            (fetch_km_dict_perm land_geom points points' Hperm cfg).
    auto.
Qed.

(** The statement at a route whose sample points binary64 holds exactly
    (16 points, ports a quarter of a degree apart), over the staircase:
    there the sequence of the reversed route is the reverse also in
    doubles. *)
Lemma reordered_samples_same_signature_witness :
  exists points points' sig sig',
    (1 <= 16)%Z /\
    sample_route_points flat_projection port_a port_q 16 = Ok points /\
    sample_route_points flat_projection port_q port_a 16 = Ok points' /\
    Permutation points points' /\
    V2.compute_shelter_signature dyadic_scenario flat_projection "a-q"
      "a" "q" staircase = Ok sig /\
    V2.compute_shelter_signature dyadic_scenario flat_projection "q-a"
      "q" "a" staircase = Ok sig' /\
    same_shelter_body sig sig'.
Proof.
  set (points := sample_points_of flat_projection port_a port_q 16).
  assert (Hn : (1 <= 16)%Z) by lia.
  assert (Hp : sample_route_points flat_projection port_a port_q 16
               = Ok points) by (now apply sample_route_points_ok).
  assert (Hp' : sample_route_points flat_projection port_q port_a 16
                = Ok (rev points)).
  { unfold points. rewrite <- sample_points_of_reverse.
    now apply sample_route_points_ok. }
  assert (Hperm : Permutation points (rev points)) by apply Permutation_rev.
  destruct (reordered_samples_same_signature flat_projection staircase
              "a" "q" "a-q" "q-a" port_a port_q 16 points (rev points)
              Hn Hp Hp' Hperm) as (_ & H2 & _).
  destruct (H2 dyadic_scenario) as (sig & sig' & Hs & Hs' & Hbody).
  - reflexivity.
  - exists 50%Z, 30%Z.
    cbn [V2.RAY_STEP_M V2.MAX_RAY_KM dyadic_scenario].
    repeat split; try lia; lra.
  - reflexivity.
  - reflexivity.
  - exists points, (rev points), sig, sig'.
    repeat (split; [assumption |]). exact Hbody.
Defined.

(* ================================================================== *)
(** * The log-fetch score in the exposure record (v1) *)

Lemma exposure_entries (cfg : V1.Config)
  (wgs84_to_utm : R -> R -> PlanarPoint) (land_geom : LandMask)
  (id origin_slug dest_slug : string) (origin dest : Port) :
  0 < V1.RAY_STEP_M cfg ->
  0 < V1.MAX_FETCH_KM cfg ->
  ports_get (V1.PORTS cfg) origin_slug = Ok origin ->
  ports_get (V1.PORTS cfg) dest_slug = Ok dest ->
  (1 <= V1.SAMPLE_POINTS_PER_ROUTE cfg)%Z ->
  exists points e,
    sample_route_points wgs84_to_utm origin dest
      (V1.SAMPLE_POINTS_PER_ROUTE cfg) = Ok points /\
    V1.compute_route_exposure cfg wgs84_to_utm id origin_slug dest_slug
      land_geom = Ok e /\
    forall dir deg, In (dir, deg) COMPASS_DIRECTIONS ->
    exists ds median_fetch score,
      for_each
        (fun p => V1.compute_fetch_distance cfg p deg land_geom
                    (V1.MAX_FETCH_KM cfg * 1000)) points = Ok ds /\
      np_median ds = Ok median_fetch /\
      0 <= median_fetch /\
      V1.log_fetch_exposure cfg median_fetch = Ok score /\
      dict_get Compass.eqb (V1.exposure_by_dir e) dir
      = Some (py_round score 3) /\
      dict_get Compass.eqb (V1.fetch_km_by_dir e) dir
      = Some (Finite (py_round median_fetch 2)).
Proof.
  intros Hstep Hmax Ho Hd Hn.
  set (points := sample_points_of wgs84_to_utm origin dest
                   (V1.SAMPLE_POINTS_PER_ROUTE cfg)).
  assert (Hne : points <> []).
  { intros E. apply (f_equal (@List.length PlanarPoint)) in E.
    unfold points in E. rewrite sample_points_of_length in E. simpl in E. lia. }
  exists points, (exposure_of cfg land_geom id origin_slug dest_slug points).
  split; [now apply sample_route_points_ok |].
  split; [now apply compute_route_exposure_ok |].
  intros dir deg Hin.
  assert (Hm : 0 <= median_value (fetch_distances cfg land_geom points deg))
    by (apply fetch_median_nonneg; assumption).
  exists (fetch_distances cfg land_geom points deg),
         (median_value (fetch_distances cfg land_geom points deg)),
         (exposure_value cfg
            (median_value (fetch_distances cfg land_geom points deg))).
  split.
  { unfold V1.compute_fetch_distance, fetch_distances.
    apply for_each_cast. lra. }
  split.
  { apply np_median_ok. unfold fetch_distances, ray_distances.
    destruct points; [contradiction | discriminate]. }
  split; [exact Hm |].
  split; [apply log_fetch_exposure_ok; [exact Hmax | lra] |].
  split.
  - cbn [exposure_of V1.exposure_by_dir]. unfold exposure_dict.
    now rewrite (dir_dict_get _ dir deg Hin).
  - cbn [exposure_of V1.fetch_km_by_dir]. unfold fetch_km_dict.
    now rewrite (dir_dict_get _ dir deg Hin).
Qed.

(** C6.  The log-fetch model computes
    clamp01 (ln (distance + 1) / ln (maxFetch + 1)) of the representative
    (median) distance; it is 0 at distance 0, 1 at distance maxFetch, and
    non-decreasing in the distance.  The score stored per direction is this
    value rounded to 3 decimals, which has the same three properties. *)
Theorem log_fetch_exposure_model (cfg : V1.Config) :
  0 < V1.MAX_FETCH_KM cfg ->
  (forall d, 0 <= d ->
     V1.log_fetch_exposure cfg d
     = Ok (clamp01 (ln (d + 1) / ln (V1.MAX_FETCH_KM cfg + 1)))) /\
  V1.log_fetch_exposure cfg 0 = Ok 0 /\
  V1.log_fetch_exposure cfg (V1.MAX_FETCH_KM cfg) = Ok 1 /\
  (forall d1 d2, 0 <= d1 <= d2 ->
     exists s1 s2,
       V1.log_fetch_exposure cfg d1 = Ok s1 /\
       V1.log_fetch_exposure cfg d2 = Ok s2 /\
       s1 <= s2 /\
       py_round s1 3 <= py_round s2 3) /\
  py_round 0 3 = 0 /\ py_round 1 3 = 1 /\
  (forall wgs84_to_utm land_geom id origin_slug dest_slug origin dest,
     0 < V1.RAY_STEP_M cfg ->
     ports_get (V1.PORTS cfg) origin_slug = Ok origin ->
     ports_get (V1.PORTS cfg) dest_slug = Ok dest ->
     (1 <= V1.SAMPLE_POINTS_PER_ROUTE cfg)%Z ->
     exists points e,
       sample_route_points wgs84_to_utm origin dest
         (V1.SAMPLE_POINTS_PER_ROUTE cfg) = Ok points /\
       V1.compute_route_exposure cfg wgs84_to_utm id origin_slug dest_slug
         land_geom = Ok e /\
       forall dir deg, In (dir, deg) COMPASS_DIRECTIONS ->
       exists ds median_fetch score,
         for_each
           (fun p => V1.compute_fetch_distance cfg p deg land_geom
                       (V1.MAX_FETCH_KM cfg * 1000)) points = Ok ds /\
         np_median ds = Ok median_fetch /\
         0 <= median_fetch /\
         V1.log_fetch_exposure cfg median_fetch = Ok score /\
         dict_get Compass.eqb (V1.exposure_by_dir e) dir
         = Some (py_round score 3) /\
         dict_get Compass.eqb (V1.fetch_km_by_dir e) dir
         = Some (Finite (py_round median_fetch 2))).
Proof.
  intros Hmax. pose proof (ln_max_fetch_pos cfg Hmax) as Hl.
  split; [intros d Hd; apply log_fetch_exposure_ok; lra |].
  split.
  { rewrite log_fetch_exposure_ok by lra. f_equal.
    replace (0 + 1) with 1 by lra. rewrite ln_1.
    unfold Rdiv. rewrite Rmult_0_l. apply clamp01_id. lra. }
  split.
  { rewrite log_fetch_exposure_ok by lra. f_equal.
    replace (ln (V1.MAX_FETCH_KM cfg + 1) / ln (V1.MAX_FETCH_KM cfg + 1))
      with 1 by (field; lra).
    apply clamp01_id. lra. }
  split.
  { intros d1 d2 [H1 H12].
    exists (clamp01 (ln (d1 + 1) / ln (V1.MAX_FETCH_KM cfg + 1))),
           (clamp01 (ln (d2 + 1) / ln (V1.MAX_FETCH_KM cfg + 1))).
    split; [apply log_fetch_exposure_ok; lra |].
    split; [apply log_fetch_exposure_ok; lra |].
    assert (Hle : clamp01 (ln (d1 + 1) / ln (V1.MAX_FETCH_KM cfg + 1))
                  <= clamp01 (ln (d2 + 1) / ln (V1.MAX_FETCH_KM cfg + 1))).
    { apply clamp01_mono, log_fetch_ratio_mono; lra. }
    split; [exact Hle | now apply py_round_mono]. }
  split; [apply py_round_0 |]. split; [apply py_round_1 |].
  intros wgs land id o d po pd Hstep Ho Hd Hn.
  now apply exposure_entries.
Qed.

Lemma log_fetch_exposure_model_witness :
  0 < V1.MAX_FETCH_KM V1.shipped /\
  V1.log_fetch_exposure V1.shipped 0 = Ok 0 /\
  V1.log_fetch_exposure V1.shipped (V1.MAX_FETCH_KM V1.shipped) = Ok 1.
Proof.
  assert (H : 0 < V1.MAX_FETCH_KM V1.shipped) by (simpl; lra).
  split; [exact H |].
  destruct (log_fetch_exposure_model V1.shipped H) as (_ & H0 & H1 & _).
  split; [exact H0 | exact H1].
Defined.

(* ================================================================== *)
(** * Runs in binary64 *)

Section DoubleRuns.
Import PrimFloat.
Local Open Scope float_scope.
Local Set Warnings "-inexact-float".

(** A range of two steps of 99.9 m: [2 * 99.9] and [199.8] are the same
    double, the quotient that [np.arange] takes its length from is a
    little more than 2, and the loop probes a third time, at 299.7 m, past
    the range.  Land there is returned as 0.2997 km, which open water
    (0.1998 km) is not. *)
Lemma np_arange_one_probe_more :
  2 * 99.9 = 199.8 /\
  Binary64.np_arange 99.9 (199.8 + 99.9) 99.9
  = Ok [99.9; 199.8; 299.70000000000005] /\
  Binary64.cast_ray_to_land 99.9 (0, 0) 0 1 (Binary64.land_north_of 250)
    199.8 = Ok 0.2997 /\
  Binary64.cast_ray_to_land 99.9 (0, 0) 0 1 (fun _ => false) 199.8
  = Ok 0.1998.
Proof. repeat split; vm_compute; reflexivity. Qed.

(** With the steps and the range of the two scripts the probes are the
    exact multiples: 500 of 100 m, and 600 of 50 m. *)
Lemma np_arange_shipped :
  Binary64.np_arange 100 (50.0 * 1000 + 100) 100
  = Ok (map (fun k : nat => Binary64.of_int (Z.of_nat k * 100)) (seq 1 500)) /\
  Binary64.np_arange 50 (30.0 * 1000 + 50) 50
  = Ok (map (fun k : nat => Binary64.of_int (Z.of_nat k * 50)) (seq 1 600)).
Proof. split; vm_compute; reflexivity. Qed.

(** Sixteen points between two ports a quarter of a degree apart: every
    product and sum of the interpolation is exact, and the sequence of the
    reversed route is the reverse. *)
Lemma dyadic_samples_reverse :
  exists forward,
    Binary64.sample_route_points Binary64.flat_projection
      Binary64.port_a {| Binary64.lat := 0; Binary64.lon := 0.25 |} 16
    = Ok forward /\
    Binary64.sample_route_points Binary64.flat_projection
      {| Binary64.lat := 0; Binary64.lon := 0.25 |} Binary64.port_a 16
    = Ok (rev forward).
Proof.
  eexists. split; [vm_compute; reflexivity |]. vm_compute. reflexivity.
Qed.

(** C10, as the claim states it, fails in the arithmetic the scripts
    compute in.  For the two ports of the scenario, a tenth of a degree
    apart, and 50 points, the first point of a -> b is at
    x = 111.32000000000001 and the last point of b -> a at
    x = 111.31999999999971: the sequence of the reversed route is not the
    reverse.  With the constants of v2 and land west of x = 111.32, a ray
    to the north (sine 0, cosine 1) from the former is on land at its first
    probe, and from the latter never: the score of direction N is 1 for
    a -> b and 0.98 for b -> a. *)
Lemma reversed_route_differs_in_doubles :
  exists forward backward,
    Binary64.sample_route_points Binary64.flat_projection
      Binary64.port_a Binary64.port_b 50 = Ok forward /\
    Binary64.sample_route_points Binary64.flat_projection
      Binary64.port_b Binary64.port_a 50 = Ok backward /\
    nth_error forward 0 = Some (111.32000000000001, 0) /\
    nth_error (rev backward) 0 = Some (111.31999999999971, 0) /\
    backward <> rev forward /\
    Binary64.direction_shelter_ratio 50 30.0 3.0
      (Binary64.land_west_of 111.32) forward 0 1 = Ok 1 /\
    Binary64.direction_shelter_ratio 50 30.0 3.0
      (Binary64.land_west_of 111.32) backward 0 1 = Ok 0.98 /\
    (0.98 <? 1) = true.
Proof.
  eexists. eexists.
  split; [vm_compute; reflexivity |].
  split; [vm_compute; reflexivity |].
  split; [vm_compute; reflexivity |].
  split; [vm_compute; reflexivity |].
  split.
  { intros E.
    apply (f_equal
             (fun l : list Binary64.PlanarPoint =>
                match rev l with
                | p :: _ => fst p <? 111.32
                | [] => false
                end)) in E.
    vm_compute in E. discriminate E. }
  split; [vm_compute; reflexivity |].
  split; vm_compute; reflexivity.
Qed.

End DoubleRuns.

(* ================================================================== *)
(** * The scenario: a route along the equator *)

Lemma INR_const (n : nat) : INR n = IZR (Z.of_nat n).
Proof. apply INR_IZR_INZ. Qed.

Lemma cos_PI8_bound : cos (PI / 8) < 0.93.
Proof.
  pose proof PI_RGT_0 as Hpi.
  assert (c4pos : 0 < cos (PI / 4)) by (apply cos_gt_0; lra).
  assert (c8pos : 0 < cos (PI / 8)) by (apply cos_gt_0; lra).
  assert (H2 : cos (2 * (PI / 4)) = 2 * cos (PI / 4) * cos (PI / 4) - 1)
    by apply cos_2a_cos.
  assert (H4 : cos (2 * (PI / 8)) = 2 * cos (PI / 8) * cos (PI / 8) - 1)
    by apply cos_2a_cos.
  replace (2 * (PI / 4)) with (PI / 2) in H2 by field.
  replace (2 * (PI / 8)) with (PI / 4) in H4 by field.
  rewrite cos_PI2 in H2.
  assert (Hc4 : cos (PI / 4) < 0.72) by nra.
  nra.
Qed.

Lemma cos_away_from_north (theta : R) :
  PI / 8 <= theta <= 15 * PI / 8 -> cos theta <= cos (PI / 8).
Proof.
  intros [Hlo Hhi]. pose proof PI_RGT_0 as Hpi.
  destruct (Rle_dec theta PI) as [Hle | Hgt].
  - apply cos_decr_1; lra.
  - replace (cos theta) with (cos (2 * PI - theta)).
    + apply cos_decr_1; lra.
    + rewrite cos_minus, cos_2PI, sin_2PI. ring.
Qed.

Lemma cos_off_north (deg : R) :
  22.5 <= deg <= 337.5 -> cos (math_radians deg) < 0.93.
Proof.
  intros H. pose proof PI_RGT_0 as Hpi.
  eapply Rle_lt_trans; [| exact cos_PI8_bound].
  apply cos_away_from_north. unfold math_radians. split; nra.
Qed.

Lemma compass_north_or_off (dir : CompassDirection) (deg : R) :
  In (dir, deg) COMPASS_DIRECTIONS ->
  (dir = Compass.N /\ deg = 0) \/ 22.5 <= deg <= 337.5.
Proof.
  intros H. unfold COMPASS_DIRECTIONS in H. cbn [In] in H.
  destruct H as [H | H]; [left; injection H as <- <-; auto |].
  right.
  repeat (destruct H as [H | H]; [injection H as _ <-; lra |]).
  destruct H.
Qed.

Definition scenario_points : list PlanarPoint :=
  sample_points_of flat_projection port_a port_b 50.

Lemma scenario_point_coordinates (p : PlanarPoint) :
  In p scenario_points ->
  snd p = 0 /\
  exists i : Z, (0 <= i < 50)%Z /\ fst p = (IZR i + 0.5) * 222.64.
Proof.
  unfold scenario_points, sample_points_of. intros H.
  apply in_map_iff in H. destruct H as (i & <- & Hi).
  apply py_range_In in Hi.
  unfold interpolate, flat_projection, port_a, port_b; simpl.
  split; [lra |]. exists i. split; [exact Hi | lra].
Qed.

Section ScenarioRays.
Variable land_geom : LandMask.
Variable p : PlanarPoint.
Hypothesis on_axis : snd p = 0.

Lemma shipped_range_steps : 30.0 * 1000 = INR 600 * 50.
Proof. rewrite INR_const. simpl Z.of_nat. lra. Qed.

Lemma probe_north (k : nat) :
  probe 50 p 0 land_geom k = land_geom (fst p, INR k * 50).
Proof.
  unfold probe. rewrite math_radians_0, sin_0, cos_0, on_axis.
  f_equal. f_equal; lra.
Qed.

(** A ray to the north from a point of the route: the first step on land. *)
Lemma ray_north (k : nat) :
  (1 <= k <= 600)%nat ->
  (forall j, (1 <= j < k)%nat -> land_geom (fst p, INR j * 50) = false) ->
  land_geom (fst p, INR k * 50) = true ->
  ray_km 50 p 0 land_geom (30.0 * 1000) = INR k * 50 / 1000.
Proof.
  intros Hk Hbefore Hhit. unfold ray_km.
  rewrite shipped_range_steps.
  rewrite (cast_first_hit 50 p 0 land_geom 600 ltac:(lra) k Hk).
  - reflexivity.
  - now rewrite probe_north.
  - intros j Hj. rewrite probe_north. now apply Hbefore.
Qed.

End ScenarioRays.

Lemma INR_le_const (j k : nat) : (j <= k)%nat -> INR j <= IZR (Z.of_nat k).
Proof. intros H. rewrite <- INR_const. now apply le_INR. Qed.

Lemma INR_ge_const (j k : nat) : (k <= j)%nat -> IZR (Z.of_nat k) <= INR j.
Proof. intros H. rewrite <- INR_const. now apply le_INR. Qed.

(** ** Land north of y = 2975: only the rays to the north are sheltered *)

Lemma north_ray_to_2975 (p : PlanarPoint) :
  snd p = 0 -> ray_km 50 p 0 (land_north_of 2975) (30.0 * 1000) = 3.
Proof.
  intros Hp. rewrite (ray_north _ p Hp 60).
  - rewrite INR_const. simpl Z.of_nat. lra.
  - lia.
  - intros j Hj. unfold land_north_of. cbn [snd].
    pose proof (INR_le_const j 59 ltac:(lia)) as H. simpl Z.of_nat in H.
    apply Rle_bool_false. lra.
  - unfold land_north_of. cbn [snd]. rewrite INR_const. simpl Z.of_nat.
    apply Rle_bool_true. lra.
Qed.

Lemma off_north_ray_to_2975 (p : PlanarPoint) (deg : R) :
  snd p = 0 -> 22.5 <= deg <= 337.5 ->
  3 < ray_km 50 p deg (land_north_of 2975) (30.0 * 1000).
Proof.
  intros Hp Hdeg. pose proof (cos_off_north deg Hdeg) as Hcos.
  unfold ray_km. rewrite shipped_range_steps.
  destruct (cast_cases 50 p deg (land_north_of 2975) 600 ltac:(lra))
    as [[Heq _] | (k & Hk & Heq & Hhit & _)]; rewrite Heq.
  - rewrite INR_const. simpl Z.of_nat. lra.
  - unfold probe, land_north_of in Hhit. cbn [snd] in Hhit.
    apply Rle_bool_spec in Hhit. rewrite Hp in Hhit.
    pose proof (INR_ge_const k 1 ltac:(lia)) as Hk1. simpl Z.of_nat in Hk1.
    set (x := INR k * 50) in *.
    assert (Hx : 50 <= x) by (unfold x; lra).
    assert (Hcx : cos (math_radians deg) * x <= 0.93 * x) by nra.
    lra.
Qed.

Lemma scenario_ratio_north :
  shelter_ratio_value shelter_scenario
    (shelter_distances shelter_scenario (land_north_of 2975)
       scenario_points 0) = 0.
Proof.
  apply shelter_ratio_all_sheltered.
  - discriminate.
  - intros x Hx. unfold shelter_distances, ray_distances in Hx.
    apply in_map_iff in Hx. destruct Hx as (p & <- & Hp).
    apply scenario_point_coordinates in Hp. destruct Hp as [Hp _].
    simpl. rewrite (north_ray_to_2975 p Hp). lra.
Qed.

Lemma scenario_ratio_off_north (deg : R) :
  22.5 <= deg <= 337.5 ->
  shelter_ratio_value shelter_scenario
    (shelter_distances shelter_scenario (land_north_of 2975)
       scenario_points deg) = 1.
Proof.
  intros Hdeg. apply shelter_ratio_none_sheltered.
  intros x Hx. unfold shelter_distances, ray_distances in Hx.
  apply in_map_iff in Hx. destruct Hx as (p & <- & Hp).
  apply scenario_point_coordinates in Hp. destruct Hp as [Hp _].
  simpl. pose proof (off_north_ray_to_2975 p deg Hp Hdeg). lra.
Qed.

Lemma scenario_signature (land_geom : LandMask) :
  V2.compute_shelter_signature shelter_scenario flat_projection
    "a-b" "a" "b" land_geom
  = Ok (signature_of shelter_scenario land_geom "a-b" "a" "b" scenario_points).
Proof.
  apply compute_shelter_signature_ok; try reflexivity.
  - simpl. lia.
  - simpl. lra.
Qed.

Lemma scenario_ratios_2975 :
  dict_values
    (shelter_ratio_dict shelter_scenario (land_north_of 2975) scenario_points)
  = 0 :: repeat 1 15.
Proof.
  unfold shelter_ratio_dict. rewrite dir_dict_values.
  unfold COMPASS_DIRECTIONS, dict_values. cbn [map snd].
  rewrite scenario_ratio_north, py_round_0.
  rewrite !scenario_ratio_off_north by lra.
  rewrite py_round_1. reflexivity.
Qed.

Lemma round_15_16 : py_round (15 / 16) 3 = 938 / 1000.
Proof.
  unfold py_round.
  replace (15 / 16 * 10 ^ 3) with (IZR 937 + 1 / 2) by (simpl; lra).
  rewrite round_half_even_tie. simpl. lra.
Qed.

(** C9, as the claim states it, fails.  With land everywhere north of
    y = 2975 m and the route along y = 0, the 50 rays to the north meet land
    at 3 km and all other rays meet none within 3 km: the 16 scores are 0
    and fifteen times 1, their mean is 0.9375, and the aggregate stored in
    the signature is 0.938. *)
Lemma aggregate_differs_from_mean :
  exists sig,
    V2.compute_shelter_signature shelter_scenario flat_projection
      "a-b" "a" "b" (land_north_of 2975) = Ok sig /\
    dict_values (V2.shelter_ratio_by_dir sig) = 0 :: repeat 1 15 /\
    py_sum (dict_values (V2.shelter_ratio_by_dir sig)) / 16 = 9375 / 10000 /\
    V2.mean_shelter_ratio sig = 938 / 1000 /\
    V2.mean_shelter_ratio sig
    <> py_sum (dict_values (V2.shelter_ratio_by_dir sig)) / 16.
Proof.
  eexists. split; [apply scenario_signature |].
  cbn [signature_of V2.shelter_ratio_by_dir V2.mean_shelter_ratio].
  rewrite scenario_ratios_2975.
  assert (Hsum : py_sum (0 :: repeat 1 15) / 16 = 15 / 16)
    by (unfold py_sum; simpl; lra).
  rewrite Hsum, round_15_16.
  repeat split; lra.
Qed.

(** ** The staircase: the median of the rays to the north is 0.125 km *)

Lemma repeat_blocks_sorted (a b : R) (m n : nat) :
  a <= b -> StronglySorted Rle (repeat a m ++ repeat b n).
Proof.
  intros Hab. induction m as [| m IH]; simpl.
  - induction n as [| n IHn]; simpl; constructor; [exact IHn |].
    apply Forall_forall. intros x Hx. apply repeat_spec in Hx. subst. lra.
  - constructor; [exact IH |].
    apply Forall_forall. intros x Hx. apply in_app_or in Hx.
    destruct Hx as [Hx | Hx]; apply repeat_spec in Hx; subst; lra.
Qed.

Lemma median_of_two_blocks (a b : R) :
  a <= b -> median_value (repeat a 25 ++ repeat b 25) = (a + b) / 2.
Proof.
  intros Hab. unfold median_value.
  rewrite sort_asc_of_sorted by now apply repeat_blocks_sorted.
  reflexivity.
Qed.

Lemma range_in_two_blocks (a b : R) :
  map (fun i : Z => if (i <? 25)%Z then a else b) (py_range 50)
  = repeat a 25 ++ repeat b 25.
Proof. reflexivity. Qed.

Lemma north_ray_staircase (p : PlanarPoint) :
  snd p = 0 ->
  ray_km 50 p 0 staircase (30.0 * 1000)
  = if Rlt_bool (fst p) 5566 then 100 / 1000 else 150 / 1000.
Proof.
  intros Hp. unfold staircase.
  destruct (Rlt_bool (fst p) 5566) eqn:Hx.
  - rewrite (ray_north _ p Hp 2).
    + rewrite INR_const. simpl Z.of_nat. lra.
    + lia.
    + intros j Hj. cbn [fst snd]. rewrite Hx.
      pose proof (INR_le_const j 1 ltac:(lia)) as H. simpl Z.of_nat in H.
      apply Rle_bool_false. lra.
    + cbn [fst snd]. rewrite Hx. rewrite INR_const. simpl Z.of_nat.
      apply Rle_bool_true. lra.
  - rewrite (ray_north _ p Hp 3).
    + rewrite INR_const. simpl Z.of_nat. lra.
    + lia.
    + intros j Hj. cbn [fst snd]. rewrite Hx.
      pose proof (INR_le_const j 2 ltac:(lia)) as H. simpl Z.of_nat in H.
      apply Rle_bool_false. lra.
    + cbn [fst snd]. rewrite Hx. rewrite INR_const. simpl Z.of_nat.
      apply Rle_bool_true. lra.
Qed.

Lemma staircase_north_distances :
  shelter_distances shelter_scenario staircase scenario_points 0
  = repeat (100 / 1000) 25 ++ repeat (150 / 1000) 25.
Proof.
  rewrite <- range_in_two_blocks.
  unfold shelter_distances, ray_distances, scenario_points, sample_points_of.
  rewrite map_map. apply map_ext_in. intros i Hi.
  apply py_range_In in Hi.
  set (p := interpolate _ _ _).
  assert (Hp : In p scenario_points).
  { unfold scenario_points, sample_points_of. apply in_map_iff.
    exists i. split; [reflexivity | now apply py_range_In]. }
  assert (Hsnd : snd p = 0).
  { unfold p, interpolate, flat_projection, port_a, port_b; simpl. lra. }
  assert (Hfst : fst p = (IZR i + 0.5) * 222.64).
  { unfold p, interpolate, flat_projection, port_a, port_b; simpl. lra. }
  change (V2.RAY_STEP_M shelter_scenario) with 50.
  change (V2.MAX_RAY_KM shelter_scenario) with 30.0.
  rewrite (north_ray_staircase p Hsnd), Hfst.
  destruct (Z.ltb_spec i 25) as [Hlt | Hge].
  - assert (IZR i <= 24) by (apply IZR_le; lia).
    rewrite Rlt_bool_true by lra. reflexivity.
  - assert (25 <= IZR i) by (apply IZR_le; lia).
    rewrite Rlt_bool_false by lra. reflexivity.
Qed.

Lemma staircase_north_median :
  effective_fetch_value shelter_scenario
    (shelter_distances shelter_scenario staircase scenario_points 0)
  = 125 / 1000.
Proof.
  unfold effective_fetch_value. rewrite staircase_north_distances.
  rewrite map_app, !map_repeat.
  change (V2.MAX_RAY_KM shelter_scenario) with 30.0.
  unfold py_min. rbool.
  rewrite median_of_two_blocks by lra. lra.
Qed.

Lemma round_0125 : py_round (125 / 1000) 2 = 12 / 100.
Proof.
  unfold py_round.
  replace (125 / 1000 * 10 ^ 2) with (IZR 12 + 1 / 2) by (simpl; lra).
  rewrite round_half_even_tie. simpl. lra.
Qed.

(** C7, as the claim states it, fails on the reported distance.  Over the
    staircase the 50 rays to the north measure 0.1 km (25 points) and
    0.15 km (25 points): the median of the capped measurements is 0.125 km
    and the signature reports 0.12 km. *)
Lemma reported_fetch_differs_from_median :
  exists sig points ds,
    V2.compute_shelter_signature shelter_scenario flat_projection
      "a-b" "a" "b" staircase = Ok sig /\
    sample_route_points flat_projection port_a port_b 50 = Ok points /\
    for_each (fun p => cast_ray_to_land 50 p 0 staircase (30.0 * 1000))
      points = Ok ds /\
    V2.effective_fetch_of shelter_scenario ds = Ok (125 / 1000) /\
    dict_get Compass.eqb (V2.effective_open_fetch_km_by_dir sig) Compass.N
    = Some (12 / 100) /\
    12 / 100 <> 125 / 1000.
Proof.
  exists (signature_of shelter_scenario staircase "a-b" "a" "b" scenario_points),
         scenario_points,
         (shelter_distances shelter_scenario staircase scenario_points 0).
  split; [apply scenario_signature |].
  split; [apply sample_route_points_ok; lia |].
  split; [apply (for_each_cast 50); lra |].
  split.
  { rewrite effective_fetch_of_ok.
    - now rewrite staircase_north_median.
    - rewrite staircase_north_distances. discriminate. }
  split.
  { cbn [signature_of V2.effective_open_fetch_km_by_dir].
    unfold effective_fetch_dict.
    rewrite (dir_dict_get _ Compass.N 0) by (left; reflexivity).
    now rewrite staircase_north_median, round_0125. }
  lra.
Qed.

Lemma threshold_shelter_model_witness :
  ports_get (V2.PORTS shelter_scenario) "a" = Ok port_a /\
  ports_get (V2.PORTS shelter_scenario) "b" = Ok port_b /\
  (1 <= V2.SAMPLE_POINTS_PER_ROUTE shelter_scenario)%Z /\
  whole_numbers (V2.RAY_STEP_M shelter_scenario)
    (V2.MAX_RAY_KM shelter_scenario) /\
  exists sig fetch,
    V2.compute_shelter_signature shelter_scenario flat_projection
      "a-b" "a" "b" staircase = Ok sig /\
    dict_get Compass.eqb (V2.effective_open_fetch_km_by_dir sig) Compass.N
    = Some fetch /\
    Rabs (fetch - 125 / 1000) <= 1 / (2 * 10 ^ 2).
Proof.
  assert (Ha : ports_get (V2.PORTS shelter_scenario) "a" = Ok port_a)
    by reflexivity.
  assert (Hb : ports_get (V2.PORTS shelter_scenario) "b" = Ok port_b)
    by reflexivity.
  assert (Hn : (1 <= V2.SAMPLE_POINTS_PER_ROUTE shelter_scenario)%Z)
    by (simpl; lia).
  assert (Hw : whole_numbers (V2.RAY_STEP_M shelter_scenario)
                 (V2.MAX_RAY_KM shelter_scenario))
    by exact (proj1 shelter_scenario_whole_steps).
  repeat (split; [assumption |]).
  destruct (threshold_shelter_model shelter_scenario flat_projection
              staircase "a-b" "a" "b" port_a port_b Ha Hb Hn Hw)
    as (_ & points & sig & Hpts & Hsig & Hdir).
  destruct (Hdir Compass.N 0 ltac:(left; reflexivity))
    as (ds & score & fetch & Hds & _ & _ & _ & _ & _ & _ & _ & Hmed & Hget
        & Hnear & _).
  exists sig, fetch. split; [exact Hsig |]. split; [exact Hget |].
  rewrite sample_route_points_ok in Hpts by lia. injection Hpts as <-.
  change (V2.RAY_STEP_M shelter_scenario) with 50 in Hds.
  rewrite (for_each_cast 50) in Hds by lra. injection Hds as <-.
  destruct Hnear as [_ Hnear].
  replace (median_value _) with (125 / 1000) in Hnear; [exact Hnear |].
  rewrite <- staircase_north_median. unfold effective_fetch_value.
  f_equal. apply map_ext. intros x. apply py_min_Rmin.
Defined.

(* ================================================================== *)
(** * The process: what [main] prints and writes *)

Section ProgFacts.
Context {Output A B : Type}.

Lemma for_each_prog_ext (f g : A -> Prog Output B) (l : list A) (w : World Output) :
  (forall a w', f a w' = g a w') ->
  for_each_prog f l w = for_each_prog g l w.
Proof.
  intros H. revert w. induction l as [| a l IH]; intros w; simpl.
  - reflexivity.
  - unfold pbind. rewrite H. destruct (g a w) as [[b | e] w']; [| reflexivity].
    now rewrite IH.
Qed.

(** A loop whose body runs a pure computation and prints its result: the
    loop returns what the pure loop returns and touches nothing but the
    standard output. *)
Lemma for_each_prog_pure (F : A -> Prog Output B) (f : A -> Result B)
  (ev : A -> B -> Event) :
  (forall a w,
     F a w = match f a with
             | Ok b => (Ok b, {| stdout := stdout w ++ [ev a b];
                                 output_file := output_file w |})
             | Raise e => (Raise e, w)
             end) ->
  forall (l : list A) (w : World Output),
  exists evs,
    for_each_prog F l w
    = (for_each f l,
       {| stdout := stdout w ++ evs; output_file := output_file w |}) /\
    (forall bs, for_each f l = Ok bs ->
       evs = map (fun ab => ev (fst ab) (snd ab)) (combine l bs)).
Proof.
  intros HF. induction l as [| a l IH]; intros w.
  - exists []. split.
    + simpl. unfold pret. rewrite app_nil_r. now destruct w.
    + intros bs H. reflexivity.
  - cbn [for_each_prog for_each]. unfold pbind. rewrite HF.
    destruct (f a) as [b | e] eqn:Hfa; cbn [bind].
    + destruct (IH {| stdout := stdout w ++ [ev a b];
                      output_file := output_file w |}) as (evs & Hrun & Hevs).
      rewrite Hrun. cbn [stdout output_file].
      exists (ev a b :: evs). split.
      * destruct (for_each f l) as [bs | e]; cbn [bind]; unfold pret;
          now rewrite <- app_assoc.
      * intros bs' Hbs'. destruct (for_each f l) as [bs | e]; cbn [bind] in Hbs';
          [| discriminate].
        injection Hbs' as <-. cbn [combine map fst snd]. f_equal.
        now apply Hevs.
    + exists []. split.
      * rewrite app_nil_r. now destruct w.
      * intros bs H. discriminate.
Qed.

End ProgFacts.

(** ** The distance check of v2 *)

Definition pair_within_window (cfg : V2.Config)
  (item : string * string * V2.Window) : Prop :=
  exists p1 p2 dist,
    ports_get (V2.PORTS cfg) (fst (fst item)) = Ok p1 /\
    ports_get (V2.PORTS cfg) (snd (fst item)) = Ok p2 /\
    V2.haversine_km (lat p1) (lon p1) (lat p2) (lon p2) = Ok dist /\
    V2.min_km (snd item) <= dist <= V2.max_km (snd item).

Definition distance_step (cfg : V2.Config) (all_pass : bool)
  (item : string * string * V2.Window) : Result bool :=
  let '((origin, dest), expected) := item in
  p1 <- ports_get (V2.PORTS cfg) origin ;;
  p2 <- ports_get (V2.PORTS cfg) dest ;;
  dist <- V2.haversine_km (lat p1) (lon p1) (lat p2) (lon p2) ;;
  Ok (if V2.in_window expected dist then all_pass else false).

Lemma validate_route_distances_unfold (cfg : V2.Config) :
  V2.validate_route_distances cfg
  = for_fold (distance_step cfg) (V2.EXPECTED_DISTANCES cfg) true.
Proof. reflexivity. Qed.

Lemma in_window_spec (w : V2.Window) (dist : R) :
  V2.in_window w dist = true <-> V2.min_km w <= dist <= V2.max_km w.
Proof.
  unfold V2.in_window. rewrite andb_true_iff, !Rle_bool_spec. tauto.
Qed.

Lemma distance_step_true (cfg : V2.Config) (all_pass : bool)
  (item : string * string * V2.Window) :
  distance_step cfg all_pass item = Ok true <->
  all_pass = true /\ pair_within_window cfg item.
Proof.
  destruct item as [[o d] win]. unfold distance_step, pair_within_window.
  cbn [fst snd].
  destruct (ports_get (V2.PORTS cfg) o) as [p1 | e1]; cbn [bind].
  2:{ split; [discriminate | intros (_ & ? & ? & ? & H & _); discriminate]. }
  destruct (ports_get (V2.PORTS cfg) d) as [p2 | e2]; cbn [bind].
  2:{ split; [discriminate | intros (_ & ? & ? & ? & _ & H & _); discriminate]. }
  destruct (V2.haversine_km (lat p1) (lon p1) (lat p2) (lon p2))
    as [dist | e3] eqn:Hh; cbn [bind].
  2:{ split; [discriminate |].
      intros (_ & q1 & q2 & ? & H1 & H2 & H3 & _).
      injection H1 as <-. injection H2 as <-. rewrite Hh in H3. discriminate. }
  split.
  - intros H. injection H as H.
    destruct (V2.in_window win dist) eqn:Hw; [| discriminate].
    split; [exact H |]. exists p1, p2, dist.
    repeat split; try reflexivity; try exact Hh; now apply in_window_spec.
  - intros (-> & q1 & q2 & dist' & H1 & H2 & H3 & Hw).
    injection H1 as <-. injection H2 as <-. rewrite Hh in H3.
    injection H3 as <-.
    apply in_window_spec in Hw. now rewrite Hw.
Qed.

Lemma distance_fold_true (cfg : V2.Config)
  (items : list (string * string * V2.Window)) (all_pass : bool) :
  for_fold (distance_step cfg) items all_pass = Ok true <->
  all_pass = true /\ forall item, In item items -> pair_within_window cfg item.
Proof.
  revert all_pass. induction items as [| item items IH]; intros all_pass; simpl.
  - split.
    + intros H. injection H as ->. split; [reflexivity | intros ? []].
    + intros [-> _]. reflexivity.
  - destruct (distance_step cfg all_pass item) as [b | e] eqn:Hs; cbn [bind].
    + rewrite IH. split.
      * intros [-> Hrest].
        apply distance_step_true in Hs. destruct Hs as [-> Hitem].
        split; [reflexivity |]. intros it [<- | Hin]; auto.
      * intros [-> Hall].
        assert (Hb : distance_step cfg true item = Ok true).
        { apply distance_step_true. split; [reflexivity |].
          apply Hall. now left. }
        rewrite Hb in Hs. injection Hs as <-.
        split; [reflexivity |]. intros it Hin. apply Hall. now right.
    + split; [discriminate |]. intros [-> Hall].
      assert (Hb : distance_step cfg true item = Ok true).
      { apply distance_step_true. split; [reflexivity |].
        apply Hall. now left. }
      rewrite Hb in Hs. discriminate.
Qed.

Lemma validate_route_distances_true (cfg : V2.Config) :
  V2.validate_route_distances cfg = Ok true <->
  forall item, In item (V2.EXPECTED_DISTANCES cfg) ->
               pair_within_window cfg item.
Proof.
  rewrite validate_route_distances_unfold, distance_fold_true. tauto.
Qed.

(** ** [main] of v2 *)

Definition no_route_event (evs : list Event) : Prop :=
  forall route mean, ~ In (PrintRoute route mean) evs.

Lemma main_stops_at_distance_check (cfg : V2.Config)
  (wgs84_to_utm : R -> R -> PlanarPoint) (load : Result LandMask)
  (now : string) (w : World V2.Output) :
  V2.validate_route_distances cfg <> Ok true ->
  exists e evs,
    V2.main cfg wgs84_to_utm load now w
    = (Raise e,
       {| stdout := stdout w ++ evs; output_file := output_file w |}) /\
    no_route_event evs /\
    (V2.validate_route_distances cfg = Ok false -> e = SystemExit 1) /\
    (forall load' now',
       V2.main cfg wgs84_to_utm load' now' w
       = V2.main cfg wgs84_to_utm load now w).
Proof.
  intros Hv. unfold V2.main, pbind, print, lift, sys_exit.
  destruct (V2.validate_route_distances cfg) as [[|] | e].
  - contradiction.
  - exists (SystemExit 1),
      [PrintBanner; PrintDistanceReport false;
       PrintError "Route distance validation failed!"].
    simpl. rewrite <- !app_assoc. simpl.
    repeat split; try reflexivity.
    intros route mean [H | [H | [H | []]]]; discriminate.
  - exists e, [PrintBanner]. simpl.
    repeat split; try reflexivity.
    + intros route mean [H | []]; discriminate.
    + intros H. discriminate.
Qed.

(** C2.  [validate_route_distances] passes exactly when every pair of
    [EXPECTED_DISTANCES] has both ports and a haversine distance inside its
    window; when some configured pair has not, [main] of v2 ends with an
    exception (exit status 1 when the validator returned False) before the
    land mask is looked at: nothing is computed for any route, nothing is
    written, and the outcome does not depend on the land mask. *)
Theorem distance_check_precedes_ray_casting (cfg : V2.Config)
  (wgs84_to_utm : R -> R -> PlanarPoint)
  (item : string * string * V2.Window) :
  In item (V2.EXPECTED_DISTANCES cfg) ->
  ~ pair_within_window cfg item ->
  (V2.validate_route_distances cfg = Ok true <->
   forall it, In it (V2.EXPECTED_DISTANCES cfg) -> pair_within_window cfg it) /\
  forall (load : Result LandMask) (now : string) (w : World V2.Output),
  exists e evs,
    V2.main cfg wgs84_to_utm load now w
    = (Raise e,
       {| stdout := stdout w ++ evs; output_file := output_file w |}) /\
    no_route_event evs /\
    (V2.validate_route_distances cfg = Ok false -> e = SystemExit 1) /\
    (forall load' now',
       V2.main cfg wgs84_to_utm load' now' w
       = V2.main cfg wgs84_to_utm load now w).
Proof.
  intros Hin Hout.
  split; [apply validate_route_distances_true |].
  intros load now w. apply main_stops_at_distance_check.
  intros Hv.
  pose proof (proj1 (validate_route_distances_true cfg) Hv) as Hall.
  apply Hout, Hall, Hin.
Qed.

(** ** The haversine distance along the equator *)

Lemma haversine_on_equator (lon1 lon2 : R) :
  0 <= lon2 - lon1 < 180 ->
  V2.haversine_km 0 lon1 0 lon2 = Ok (6371 * math_radians (lon2 - lon1)).
Proof.
  intros Hlon. pose proof PI_RGT_0 as Hpi.
  unfold V2.haversine_km. cbv zeta.
  replace (math_radians (0 - 0)) with 0 by (unfold math_radians; lra).
  rewrite math_radians_0.
  replace (0 / 2) with 0 by lra. rewrite sin_0, cos_0.
  set (h := math_radians (lon2 - lon1) / 2).
  assert (Hh : 0 <= h < PI / 2).
  { unfold h, math_radians. split; nra. }
  assert (Hsin : 0 <= sin h) by (apply sin_ge_0; lra).
  assert (Hcos : 0 < cos h) by (apply cos_gt_0; lra).
  replace (0 ^ 2 + 1 * 1 * sin h ^ 2) with (sin h ^ 2) by ring.
  assert (H1a : 1 - sin h ^ 2 = cos h ^ 2).
  { pose proof (sin2_cos2 h) as H. unfold Rsqr in H. simpl. lra. }
  rewrite H1a.
  unfold math_sqrt.
  rewrite (Rle_bool_true 0 (sin h ^ 2)) by apply pow2_ge_0.
  cbn [bind].
  rewrite (Rle_bool_true 0 (cos h ^ 2)) by apply pow2_ge_0.
  cbn [bind].
  rewrite !sqrt_pow2 by lra.
  unfold math_atan2. rewrite Rlt_bool_true by exact Hcos.
  change (sin h / cos h) with (tan h).
  rewrite atan_tan by lra.
  f_equal. unfold h. lra.
Qed.

Lemma misplaced_pair_outside_window :
  ~ pair_within_window misplaced_scenario
      (("a", "b")%string,
       {| V2.min_km := 40; V2.max_km := 48; V2.expected_km := 44 |}).
Proof.
  intros (p1 & p2 & dist & H1 & H2 & Hd & Hw).
  cbn in H1, H2. injection H1 as <-. injection H2 as <-.
  cbn [lat lon port_a port_b] in Hd.
  rewrite haversine_on_equator in Hd by lra.
  injection Hd as <-.
  cbn [snd V2.min_km V2.max_km] in Hw.
  pose proof PI_4 as Hpi. pose proof PI_RGT_0.
  unfold math_radians in Hw. lra.
Qed.

Lemma distance_check_precedes_ray_casting_witness :
  In (("a", "b")%string,
      {| V2.min_km := 40; V2.max_km := 48; V2.expected_km := 44 |})
     (V2.EXPECTED_DISTANCES misplaced_scenario) /\
  exists evs,
    V2.main misplaced_scenario flat_projection (Ok open_water) "t"
      {| stdout := []; output_file := None |}
    = (Raise (SystemExit 1), {| stdout := evs; output_file := None |}).
Proof.
  assert (Hin : In (("a", "b")%string,
                    {| V2.min_km := 40; V2.max_km := 48; V2.expected_km := 44 |})
                   (V2.EXPECTED_DISTANCES misplaced_scenario))
    by (left; reflexivity).
  split; [exact Hin |].
  destruct (distance_check_precedes_ray_casting misplaced_scenario
              flat_projection _ Hin misplaced_pair_outside_window)
    as (Hiff & Hmain).
  destruct (Hmain (Ok open_water) "t"%string
              {| stdout := []; output_file := None |})
    as (e & evs & Hrun & _ & Hexit & _).
  exists evs. rewrite Hrun. simpl.
  rewrite Hexit; [reflexivity |].
  rewrite validate_route_distances_unfold. cbn [for_fold V2.EXPECTED_DISTANCES misplaced_scenario].
  unfold distance_step.
  replace (ports_get (V2.PORTS misplaced_scenario) "a") with (Ok port_a)
    by reflexivity.
  replace (ports_get (V2.PORTS misplaced_scenario) "b") with (Ok port_b)
    by reflexivity.
  cbn [bind lat lon port_a port_b].
  rewrite haversine_on_equator by lra. cbn [bind].
  unfold V2.in_window. cbn [V2.min_km V2.max_km].
  pose proof PI_4 as Hpi. pose proof PI_RGT_0.
  rewrite Rle_bool_false by (unfold math_radians; lra).
  reflexivity.
Defined.

(** ** Running [main] step by step *)

Section ProgSteps.
Context {Output A B : Type}.

Lemma pbind_print (e : Event) (k : unit -> Prog Output B) (w : World Output) :
  pbind (print e) k w
  = k tt {| stdout := stdout w ++ [e]; output_file := output_file w |}.
Proof. reflexivity. Qed.

Lemma pbind_lift_ok (a : A) (k : A -> Prog Output B) (w : World Output) :
  pbind (lift (Ok a)) k w = k a w.
Proof. reflexivity. Qed.

Lemma pbind_ok (c : Prog Output A) (k : A -> Prog Output B)
  (w w' : World Output) (a : A) :
  c w = (Ok a, w') -> pbind c k w = k a w'.
Proof. intros H. unfold pbind. now rewrite H. Qed.

End ProgSteps.

Lemma for_each_total {A B : Type} (f : A -> Result B) (l : list A) :
  (forall a, In a l -> is_ok (f a)) -> is_ok (for_each f l).
Proof.
  induction l as [| a l IH]; intros H; simpl.
  - now exists [].
  - destruct (H a ltac:(now left)) as (b & ->). cbn [bind].
    destruct IH as (bs & ->); [intros; apply H; now right |].
    now exists (b :: bs).
Qed.

Lemma dir_lookup_ok (d : DirDict) (k : CompassDirection) :
  In k (dict_keys d) -> is_ok (dir_lookup d k).
Proof.
  unfold dir_lookup. induction d as [| [k' v] d IH]; simpl; [intros [] |].
  intros [-> | Hin].
  - assert (E : Compass.eqb k k = true) by now apply compass_eqb_eq.
    rewrite E. now exists v.
  - destruct (Compass.eqb k k'); [now exists v | now apply IH].
Qed.

Lemma table_lookups_ok (d : DirDict) :
  dict_keys d = all_directions ->
  is_ok (for_each (dir_lookup d) all_directions).
Proof.
  intros Hk. apply for_each_total. intros k Hin.
  apply dir_lookup_ok. now rewrite Hk.
Qed.

(** The pure part of one turn of the loop over [ROUTES]. *)
Definition route_signature (cfg : V2.Config)
  (wgs84_to_utm : R -> R -> PlanarPoint) (land_geom : LandMask)
  (route : Route) : Result V2.Signature :=
  V2.compute_shelter_signature cfg wgs84_to_utm (route_id route)
    (origin route) (dest route) land_geom.

Definition route_exposure (cfg : V1.Config)
  (wgs84_to_utm : R -> R -> PlanarPoint) (land_geom : LandMask)
  (route : Route) : Result V1.Exposure :=
  V1.compute_route_exposure cfg wgs84_to_utm (route_id route)
    (origin route) (dest route) land_geom.

Lemma shelter_route_step_eval (cfg : V2.Config)
  (wgs84_to_utm : R -> R -> PlanarPoint) (land_geom : LandMask)
  (route : Route) (w : World V2.Output) :
  V2.route_step cfg wgs84_to_utm land_geom route w
  = match route_signature cfg wgs84_to_utm land_geom route with
    | Ok sig =>
        (Ok sig,
         {| stdout := stdout w
                      ++ [PrintRoute (route_id route)
                            (V2.mean_shelter_ratio sig)];
            output_file := output_file w |})
    | Raise e => (Raise e, w)
    end.
Proof.
  destruct route as [id o d]. unfold V2.route_step, route_signature.
  cbn [route_id origin dest]. unfold pbind, lift, print, pret.
  destruct (V2.compute_shelter_signature cfg wgs84_to_utm id o d land_geom);
    reflexivity.
Qed.

Lemma exposure_route_step_eval (cfg : V1.Config)
  (wgs84_to_utm : R -> R -> PlanarPoint) (land_geom : LandMask)
  (route : Route) (w : World V1.Output) :
  V1.route_step cfg wgs84_to_utm land_geom route w
  = match route_exposure cfg wgs84_to_utm land_geom route with
    | Ok e =>
        (Ok e,
         {| stdout := stdout w
                      ++ [PrintRoute (route_id route) (V1.avg_exposure e)];
            output_file := output_file w |})
    | Raise e => (Raise e, w)
    end.
Proof.
  destruct route as [id o d]. unfold V1.route_step, route_exposure.
  cbn [route_id origin dest]. unfold pbind, lift, print, pret.
  destruct (V1.compute_route_exposure cfg wgs84_to_utm id o d land_geom);
    reflexivity.
Qed.

Lemma shelter_tables_ok (results : list V2.Signature) :
  (forall sig, In sig results ->
     dict_keys (V2.shelter_ratio_by_dir sig) = all_directions) ->
  V2.print_exposure_tables results = Ok tt.
Proof.
  intros Hkeys. unfold V2.print_exposure_tables.
  rewrite (for_each_ok_map _ (fun _ => tt)); [reflexivity |].
  intros id _. unfold py_next.
  destruct (find _ results) as [result |] eqn:Hf; [| reflexivity].
  apply find_some in Hf. destruct Hf as [Hin _].
  destruct (table_lookups_ok _ (Hkeys _ Hin)) as (vs & ->). reflexivity.
Qed.

Lemma exposure_tables_ok (results : list V1.Exposure) :
  (forall e, In e results ->
     dict_keys (V1.exposure_by_dir e) = all_directions) ->
  V1.print_tables results = Ok tt.
Proof.
  intros Hkeys. unfold V1.print_tables.
  rewrite (for_each_ok_map _ (fun _ => tt)); [reflexivity |].
  intros id _. unfold py_next.
  destruct (find _ results) as [result |] eqn:Hf; [| reflexivity].
  apply find_some in Hf. destruct Hf as [Hin _].
  destruct (table_lookups_ok _ (Hkeys _ Hin)) as (vs & ->). reflexivity.
Qed.

Lemma computed_signatures_keys (cfg : V2.Config)
  (wgs84_to_utm : R -> R -> PlanarPoint) (land_geom : LandMask)
  (routes : list Route) (results : list V2.Signature) :
  for_each (route_signature cfg wgs84_to_utm land_geom) routes = Ok results ->
  forall sig, In sig results ->
    dict_keys (V2.shelter_ratio_by_dir sig) = all_directions.
Proof.
  intros H. apply for_each_inv in H.
  induction H as [| route sig routes results Hrs _ IH]; intros s Hin.
  - destruct Hin.
  - destruct Hin as [<- | Hin]; [| now apply IH].
    unfold route_signature in Hrs.
    now destruct (shelter_signature_invariant _ _ _ _ _ _ _ Hrs) as (K & _).
Qed.

Lemma computed_exposures_keys (cfg : V1.Config)
  (wgs84_to_utm : R -> R -> PlanarPoint) (land_geom : LandMask)
  (routes : list Route) (results : list V1.Exposure) :
  for_each (route_exposure cfg wgs84_to_utm land_geom) routes = Ok results ->
  forall e, In e results ->
    dict_keys (V1.exposure_by_dir e) = all_directions.
Proof.
  intros H. apply for_each_inv in H.
  induction H as [| route e routes results Hrs _ IH]; intros s Hin.
  - destruct Hin.
  - destruct Hin as [<- | Hin]; [| now apply IH].
    unfold route_exposure in Hrs.
    now destruct (exposure_invariant _ _ _ _ _ _ _ Hrs) as (K & _).
Qed.

(** The file [main] of v2 writes for [results]. *)
Definition shelter_output (cfg : V2.Config) (now : string)
  (results : list V2.Signature) : V2.Output :=
  {| V2.version := "2.0";
     V2.algorithm := "shelter_signature";
     V2.computed_at := now;
     V2.sample_points := V2.SAMPLE_POINTS_PER_ROUTE cfg;
     V2.max_ray_km := V2.MAX_RAY_KM cfg;
     V2.shelter_threshold_km := V2.SHELTER_THRESHOLD_KM cfg;
     V2.ray_step_m := V2.RAY_STEP_M cfg;
     V2.compass_buckets := 16;
     V2.routes := V2.routes_dict results |}.

(** The file [main] of v1 writes for [results]. *)
Definition exposure_output (cfg : V1.Config) (now : string)
  (results : list V1.Exposure) : V1.Output :=
  {| V1.version := "1.0";
     V1.computed_at := now;
     V1.sample_points := V1.SAMPLE_POINTS_PER_ROUTE cfg;
     V1.max_fetch_km := V1.MAX_FETCH_KM cfg;
     V1.ray_step_m := V1.RAY_STEP_M cfg;
     V1.routes := V1.routes_dict results |}.

Lemma shelter_main_run (cfg : V2.Config)
  (wgs84_to_utm : R -> R -> PlanarPoint) (land_geom : LandMask)
  (now : string) (w : World V2.Output) (results : list V2.Signature) :
  V2.validate_route_distances cfg = Ok true ->
  for_each (route_signature cfg wgs84_to_utm land_geom) (V2.ROUTES cfg)
  = Ok results ->
  exists evs,
    V2.main cfg wgs84_to_utm (Ok land_geom) now w
    = if V2.validate_exposure_ordering results
      then (Ok tt,
            {| stdout := stdout w ++ evs
                         ++ [PrintOrderingReport true; PrintOutputWritten];
               output_file := Some (shelter_output cfg now results) |})
      else (Raise (SystemExit 1),
            {| stdout := stdout w ++ evs
                         ++ [PrintOrderingReport false;
                             PrintError "Exposure ordering validation failed!"];
               output_file := output_file w |}).
Proof.
  intros Hv Hres.
  destruct (for_each_prog_pure
              (V2.route_step cfg wgs84_to_utm land_geom)
              (route_signature cfg wgs84_to_utm land_geom)
              (fun route sig =>
                 PrintRoute (route_id route) (V2.mean_shelter_ratio sig))
              (shelter_route_step_eval cfg wgs84_to_utm land_geom)
              (V2.ROUTES cfg)
              {| stdout := ((stdout w ++ [PrintBanner])
                            ++ [PrintDistanceReport true])
                           ++ [PrintLandMaskLoaded];
                 output_file := output_file w |})
    as (evs & Hrun & _).
  rewrite Hres in Hrun. cbn [stdout output_file] in Hrun.
  exists ([PrintBanner; PrintDistanceReport true; PrintLandMaskLoaded]
          ++ evs ++ [PrintExposureTables]).
  unfold V2.main.
  rewrite pbind_print, Hv, pbind_lift_ok, pbind_print. cbn [negb].
  rewrite pbind_print. cbn [stdout output_file].
  rewrite (pbind_ok _ _ _ _ _ Hrun).
  rewrite (shelter_tables_ok results
             (computed_signatures_keys _ _ _ _ _ Hres)).
  rewrite pbind_lift_ok, pbind_print. cbv zeta.
  rewrite pbind_print. cbn [stdout output_file].
  destruct (V2.validate_exposure_ordering results); cbn [negb].
  - unfold pbind, write_output, print, pret. cbn [stdout output_file].
    unfold shelter_output. f_equal. f_equal.
    rewrite <- !app_assoc. reflexivity.
  - rewrite pbind_print. unfold sys_exit. cbn [stdout output_file].
    f_equal. f_equal. rewrite <- !app_assoc. reflexivity.
Qed.

(** C1, amended to the v2 script.  When the distance check has passed, the
    land mask is loaded and the signatures of all routes are computed, then
    for every result set on which [validate_exposure_ordering] returns
    False, [main] leaves with exit status 1 and the output file is what it
    was; on a result set on which it returns True the file is written. *)
Theorem ordering_failure_blocks_output (cfg : V2.Config)
  (wgs84_to_utm : R -> R -> PlanarPoint) (land_geom : LandMask)
  (now : string) (w : World V2.Output) (results : list V2.Signature) :
  V2.validate_route_distances cfg = Ok true ->
  for_each (route_signature cfg wgs84_to_utm land_geom) (V2.ROUTES cfg)
  = Ok results ->
  (V2.validate_exposure_ordering results = false ->
   exists evs,
     V2.main cfg wgs84_to_utm (Ok land_geom) now w
     = (Raise (SystemExit 1),
        {| stdout := stdout w ++ evs; output_file := output_file w |})) /\
  (V2.validate_exposure_ordering results = true ->
   exists evs,
     V2.main cfg wgs84_to_utm (Ok land_geom) now w
     = (Ok tt,
        {| stdout := stdout w ++ evs;
           output_file := Some (shelter_output cfg now results) |})).
Proof.
  intros Hv Hres.
  destruct (shelter_main_run cfg wgs84_to_utm land_geom now w results Hv Hres)
    as (evs & Hrun).
  split; intros Hcheck; rewrite Hcheck in Hrun; eexists; exact Hrun.
Qed.

(* ================================================================== *)
(** * Open water: every route is scored alike *)

Lemma ray_over_open_water (step : R) (p : PlanarPoint) (deg max_m : R) :
  step <> 0 -> ray_km step p deg open_water max_m = max_m / 1000.
Proof.
  intros Hstep. unfold ray_km, cast_ray_to_land, np_arange.
  destruct p as [x y]. rewrite Req_bool_false by exact Hstep. cbn [bind].
  rewrite first_land_none; [reflexivity |]. intros d _. reflexivity.
Qed.

Lemma distances_over_open_water (step : R) (max_m : R)
  (points : list PlanarPoint) (deg : R) :
  step <> 0 ->
  forall x, In x (ray_distances step open_water max_m points deg) ->
            x = max_m / 1000.
Proof.
  intros Hstep x Hx. unfold ray_distances in Hx.
  apply in_map_iff in Hx. destruct Hx as (p & <- & _).
  now apply ray_over_open_water.
Qed.

Lemma shipped_lookups (route : Route) :
  In route ROUTES_table ->
  ports_get PORTS_table (origin route) = Ok (shipped_port (origin route)) /\
  ports_get PORTS_table (dest route) = Ok (shipped_port (dest route)).
Proof.
  intros H. unfold ROUTES_table in H. cbn [In] in H.
  repeat (destruct H as [<- | H]; [split; reflexivity |]).
  destruct H.
Qed.

Lemma py_sum_repeat_1 : py_sum (repeat 1 16) / 16 = 1.
Proof. unfold py_sum. simpl. lra. Qed.

Lemma dir_dict_constant_values (c : R) :
  dict_values (dir_dict (fun _ => c)) = repeat c 16.
Proof. reflexivity. Qed.

(** ** v2 *)

Lemma open_water_shelter_dict (points : list PlanarPoint) :
  shelter_ratio_dict unwindowed open_water points = dir_dict (fun _ => 1).
Proof.
  apply dir_dict_ext. intros deg.
  rewrite shelter_ratio_none_sheltered; [apply py_round_1 |].
  intros x Hx. unfold shelter_distances in Hx.
  apply distances_over_open_water in Hx; [| simpl; lra].
  subst x. simpl. lra.
Qed.

Lemma open_water_mean_ratio (id o d : string) (points : list PlanarPoint) :
  V2.mean_shelter_ratio (signature_of unwindowed open_water id o d points) = 1.
Proof.
  cbn [signature_of V2.mean_shelter_ratio].
  rewrite open_water_shelter_dict, dir_dict_constant_values, py_sum_repeat_1.
  apply py_round_1.
Qed.

Definition open_water_signature (route : Route) : V2.Signature :=
  signature_of unwindowed open_water (route_id route) (origin route)
    (dest route)
    (sample_points_of flat_projection (shipped_port (origin route))
       (shipped_port (dest route)) 50).

Lemma open_water_signatures :
  for_each (route_signature unwindowed flat_projection open_water)
    (V2.ROUTES unwindowed)
  = Ok (map open_water_signature ROUTES_table).
Proof.
  apply for_each_ok_map. intros route Hin.
  destruct (shipped_lookups route Hin) as [Ho Hd].
  unfold route_signature, open_water_signature.
  apply (compute_shelter_signature_ok unwindowed); try assumption.
  - simpl. lia.
  - simpl. lra.
Qed.

Lemma find_map {A B : Type} (p : B -> bool) (g : A -> B) (l : list A) :
  find p (map g l) = option_map g (find (fun a => p (g a)) l).
Proof.
  induction l as [| a l IH]; simpl; [reflexivity |].
  destruct (p (g a)); [reflexivity | exact IH].
Qed.

Lemma open_water_ordering_fails :
  V2.validate_exposure_ordering (map open_water_signature ROUTES_table)
  = false.
Proof.
  unfold V2.validate_exposure_ordering, py_next. rewrite !find_map.
  replace (find _ ROUTES_table)
    with (Some (mkRoute "hy-nan-ssa" "hyannis" "nantucket")) by reflexivity.
  cbn [option_map].
  replace (find _ ROUTES_table)
    with (Some (mkRoute "wh-vh-ssa" "woods-hole" "vineyard-haven"))
    by reflexivity.
  cbn [option_map]. unfold open_water_signature.
  rewrite !open_water_mean_ratio. apply Rle_bool_false. lra.
Qed.

Lemma ordering_failure_blocks_output_witness :
  V2.validate_route_distances unwindowed = Ok true /\
  for_each (route_signature unwindowed flat_projection open_water)
    (V2.ROUTES unwindowed)
  = Ok (map open_water_signature ROUTES_table) /\
  V2.validate_exposure_ordering (map open_water_signature ROUTES_table)
  = false /\
  exists evs,
    V2.main unwindowed flat_projection (Ok open_water) "t"
      (fresh_world V2.Output)
    = (Raise (SystemExit 1), {| stdout := evs; output_file := None |}).
Proof.
  assert (Hv : V2.validate_route_distances unwindowed = Ok true)
    by reflexivity.
  split; [exact Hv |].
  split; [exact open_water_signatures |].
  split; [exact open_water_ordering_fails |].
  destruct (ordering_failure_blocks_output unwindowed flat_projection
              open_water "t" (fresh_world V2.Output)
              (map open_water_signature ROUTES_table)
              Hv open_water_signatures) as (Hfail & _).
  destruct (Hfail open_water_ordering_fails) as (evs & Hrun).
  exists evs. exact Hrun.
Defined.

(** ** v1 *)

Section DictFacts.
Context {K V : Type}.
Variable eqb : K -> K -> bool.
Hypothesis eqb_spec : forall a b, eqb a b = true <-> a = b.

Lemma dict_get_set (d : list (K * V)) (k k' : K) (v : V) :
  dict_get eqb (dict_set eqb d k v) k'
  = if eqb k' k then Some v else dict_get eqb d k'.
Proof.
  induction d as [| [k0 v0] d IH]; simpl.
  - reflexivity.
  - destruct (eqb k k0) eqn:Ek; simpl.
    + apply eqb_spec in Ek. subst k0.
      destruct (eqb k' k); reflexivity.
    + rewrite IH. destruct (eqb k' k0) eqn:E0; [| reflexivity].
      destruct (eqb k' k) eqn:E1; [| reflexivity].
      apply eqb_spec in E0, E1. subst.
      assert (Hkk : eqb k0 k0 = true) by now apply eqb_spec.
      rewrite Hkk in Ek. discriminate.
Qed.

(** After a loop of assignments [d[key(r)] = value(r)], a key that some
    item has holds the value of one of the items with that key. *)
Lemma fold_dict_set_get {A : Type} (key : A -> K) (value : A -> V)
  (l : list A) (k : K) :
  (exists r, In r l /\ key r = k) ->
  exists r,
    In r l /\ key r = k /\
    dict_get eqb
      (fold_left (fun d r => dict_set eqb d (key r) (value r)) l []) k
    = Some (value r).
Proof.
  induction l as [| x l IH] using rev_ind; intros (r & Hin & Hk).
  - destruct Hin.
  - rewrite fold_left_app. simpl. rewrite dict_get_set.
    destruct (eqb k (key x)) eqn:E.
    + apply eqb_spec in E. exists x. repeat split; auto.
      apply in_or_app. right. now left.
    + apply in_app_or in Hin. destruct Hin as [Hin | [<- | []]].
      * destruct IH as (r' & Hin' & Hk' & Hget); [now exists r |].
        exists r'. repeat split; auto. apply in_or_app. now left.
      * assert (Hkk : eqb k (key x) = true) by (apply eqb_spec; auto).
        rewrite Hkk in E. discriminate.
Qed.

End DictFacts.

Lemma pair_eqb_spec (a b : string * string) : pair_eqb a b = true <-> a = b.
Proof.
  destruct a as [a1 a2], b as [b1 b2]. unfold pair_eqb. simpl.
  rewrite andb_true_iff, !String.eqb_eq. split.
  - intros [-> ->]. reflexivity.
  - intros H. injection H as -> ->. auto.
Qed.

Lemma route_exposures_uniform (results : list V1.Exposure) (c : R)
  (key : string * string) :
  (forall e, In e results -> V1.avg_exposure e = c) ->
  (exists e, In e results /\
             (V1.origin_port e, V1.destination_port e) = key) ->
  V1.get_or_zero (V1.route_exposures results) key = c.
Proof.
  intros Hall Hex.
  destruct (fold_dict_set_get pair_eqb pair_eqb_spec
              (fun e => (V1.origin_port e, V1.destination_port e))
              V1.avg_exposure results key Hex) as (e & Hin & _ & Hget).
  unfold V1.get_or_zero, V1.route_exposures. rewrite Hget. now apply Hall.
Qed.

Lemma exposure_main_run (cfg : V1.Config)
  (wgs84_to_utm : R -> R -> PlanarPoint) (land_geom : LandMask)
  (now : string) (w : World V1.Output) (results : list V1.Exposure)
  (check1 : bool) :
  for_each (route_exposure cfg wgs84_to_utm land_geom) (V1.ROUTES cfg)
  = Ok results ->
  V1.validate_results results = Ok check1 ->
  exists evs,
    V1.main cfg wgs84_to_utm (Ok land_geom) now w
    = (Ok tt,
       {| stdout := stdout w ++ evs
                    ++ [PrintOrderingReport check1; PrintOutputWritten];
          output_file := Some (exposure_output cfg now results) |}).
Proof.
  intros Hres Hcheck.
  destruct (for_each_prog_pure
              (V1.route_step cfg wgs84_to_utm land_geom)
              (route_exposure cfg wgs84_to_utm land_geom)
              (fun route e => PrintRoute (route_id route) (V1.avg_exposure e))
              (exposure_route_step_eval cfg wgs84_to_utm land_geom)
              (V1.ROUTES cfg)
              {| stdout := (stdout w ++ [PrintBanner]) ++ [PrintLandMaskLoaded];
                 output_file := output_file w |})
    as (evs & Hrun & _).
  rewrite Hres in Hrun. cbn [stdout output_file] in Hrun.
  exists ([PrintBanner; PrintLandMaskLoaded] ++ evs).
  unfold V1.main.
  rewrite pbind_print, pbind_print. cbn [stdout output_file].
  rewrite (pbind_ok _ _ _ _ _ Hrun).
  rewrite Hcheck, pbind_lift_ok, pbind_print.
  unfold pbind, write_output, print, pret. cbn [stdout output_file].
  unfold exposure_output. f_equal. f_equal.
  rewrite <- !app_assoc. reflexivity.
Qed.

Lemma open_water_exposure_dict (points : list PlanarPoint) :
  points <> [] ->
  exposure_dict V1.shipped open_water points = dir_dict (fun _ => 1).
Proof.
  intros Hne. apply dir_dict_ext. intros deg.
  rewrite (median_value_constant _ (50.0 * 1000 / 1000)).
  - unfold exposure_value.
    replace (ln (50.0 * 1000 / 1000 + 1) / ln (V1.MAX_FETCH_KM V1.shipped + 1))
      with 1.
    + rewrite clamp01_id by lra. apply py_round_1.
    + simpl V1.MAX_FETCH_KM.
      replace (50.0 * 1000 / 1000 + 1) with (50.0 + 1) by lra.
      assert (Hl : 0 < ln (50.0 + 1)).
      { rewrite <- ln_1. apply ln_increasing; lra. }
      field. lra.
  - unfold fetch_distances, ray_distances.
    destruct points; [contradiction | discriminate].
  - intros x Hx. unfold fetch_distances in Hx.
    apply distances_over_open_water in Hx; [exact Hx | simpl; lra].
Qed.

Lemma open_water_avg_exposure (id o d : string) (points : list PlanarPoint) :
  points <> [] ->
  V1.avg_exposure (exposure_of V1.shipped open_water id o d points) = 1.
Proof.
  intros Hne. cbn [exposure_of V1.avg_exposure].
  rewrite open_water_exposure_dict by exact Hne.
  rewrite dir_dict_constant_values, py_sum_repeat_1.
  apply py_round_1.
Qed.

Definition open_water_exposure (route : Route) : V1.Exposure :=
  exposure_of V1.shipped open_water (route_id route) (origin route)
    (dest route)
    (sample_points_of flat_projection (shipped_port (origin route))
       (shipped_port (dest route)) 10).

Lemma open_water_exposures :
  for_each (route_exposure V1.shipped flat_projection open_water)
    (V1.ROUTES V1.shipped)
  = Ok (map open_water_exposure ROUTES_table).
Proof.
  apply for_each_ok_map. intros route Hin.
  destruct (shipped_lookups route Hin) as [Ho Hd].
  unfold route_exposure, open_water_exposure.
  apply (compute_route_exposure_ok V1.shipped); try assumption.
  - simpl. lra.
  - simpl. lra.
  - simpl. lia.
Qed.

Lemma open_water_exposure_avg (e : V1.Exposure) :
  In e (map open_water_exposure ROUTES_table) -> V1.avg_exposure e = 1.
Proof.
  intros H. apply in_map_iff in H. destruct H as (route & <- & _).
  unfold open_water_exposure. apply open_water_avg_exposure.
  intros E. apply (f_equal (@List.length PlanarPoint)) in E.
  rewrite sample_points_of_length in E. discriminate.
Qed.

Lemma open_water_validation_fails :
  V1.validate_results (map open_water_exposure ROUTES_table) = Ok false.
Proof.
  unfold V1.validate_results.
  rewrite (route_exposures_uniform _ 1 ("hyannis", "nantucket")%string).
  2:{ exact open_water_exposure_avg. }
  2:{ exists (open_water_exposure (mkRoute "hy-nan-ssa" "hyannis" "nantucket")).
      split; [| reflexivity].
      apply in_map. unfold ROUTES_table. simpl. tauto. }
  rewrite (route_exposures_uniform _ 1
             ("woods-hole", "vineyard-haven")%string).
  2:{ exact open_water_exposure_avg. }
  2:{ exists (open_water_exposure
               (mkRoute "wh-vh-ssa" "woods-hole" "vineyard-haven")).
      split; [| reflexivity].
      apply in_map. unfold ROUTES_table. simpl. tauto. }
  rewrite exposure_tables_ok.
  - cbn [bind]. now rewrite Rlt_bool_false by lra.
  - apply (computed_exposures_keys V1.shipped flat_projection open_water
             (V1.ROUTES V1.shipped)).
    exact open_water_exposures.
Qed.

(** C1, as the claim states it, fails in the v1 script.  Over open water
    every route of the shipped table has average exposure 1, so
    [validate_results] returns False (the reference route is not more
    exposed than the other), and [main] writes the output file all the
    same. *)
Lemma v1_writes_after_failed_ordering_check :
  exists results evs,
    for_each (route_exposure V1.shipped flat_projection open_water)
      (V1.ROUTES V1.shipped) = Ok results /\
    V1.validate_results results = Ok false /\
    V1.main V1.shipped flat_projection (Ok open_water) "t"
      (fresh_world V1.Output)
    = (Ok tt,
       {| stdout := evs;
          output_file := Some (exposure_output V1.shipped "t" results) |}).
Proof.
  exists (map open_water_exposure ROUTES_table).
  destruct (exposure_main_run V1.shipped flat_projection open_water "t"
              (fresh_world V1.Output) _ false open_water_exposures
              open_water_validation_fails) as (evs & Hrun).
  eexists. split; [exact open_water_exposures |].
  split; [exact open_water_validation_fails |]. exact Hrun.
Qed.

(** ** Signatures are produced *)

(** A v2 signature over the staircase and a v1 record with land north of
    the Woods Hole - Vineyard Haven route. *)
Lemma signature_directions_and_scores_witness :
  (exists sig,
     V2.compute_shelter_signature shelter_scenario flat_projection
       "a-b" "a" "b" staircase = Ok sig /\
     dict_keys (V2.shelter_ratio_by_dir sig) = all_directions /\
     forall dir score,
       In (dir, score) (V2.shelter_ratio_by_dir sig) -> 0 <= score <= 1) /\
  (exists e,
     V1.compute_route_exposure V1.shipped flat_projection "wh-vh-ssa"
       "woods-hole" "vineyard-haven" (land_north_of 4600000) = Ok e /\
     dict_keys (V1.exposure_by_dir e) = all_directions /\
     forall dir score,
       In (dir, score) (V1.exposure_by_dir e) -> 0 <= score <= 1).
Proof.
  destruct signature_directions_and_scores
    as (_ & _ & _ & Hv2 & _ & Hv1 & _).
  split.
  - apply (Hv2 shelter_scenario flat_projection "a-b"%string "a"%string
             "b"%string staircase port_a port_b).
    + reflexivity.
    + reflexivity.
    + simpl. lia.
    + exact (proj1 shelter_scenario_whole_steps).
  - apply (Hv1 V1.shipped flat_projection "wh-vh-ssa"%string
             "woods-hole"%string "vineyard-haven"%string
             (land_north_of 4600000) woods_hole vineyard_haven).
    + reflexivity.
    + reflexivity.
    + exact (proj1 shipped_exposure_whole_steps).
Defined.

Lemma aggregate_is_rounded_mean_and_top3_witness :
  (exists sig,
     V2.compute_shelter_signature shelter_scenario flat_projection
       "a-b" "a" "b" staircase = Ok sig /\
     mean_and_top3 (V2.shelter_ratio_by_dir sig) (V2.mean_shelter_ratio sig)
       (V2.top_exposure_dirs sig)) /\
  (exists e,
     V1.compute_route_exposure V1.shipped flat_projection "wh-vh-ssa"
       "woods-hole" "vineyard-haven" (land_north_of 4600000) = Ok e /\
     mean_and_top3 (V1.exposure_by_dir e) (V1.avg_exposure e)
       (V1.top_exposure_dirs e)).
Proof.
  destruct aggregate_is_rounded_mean_and_top3 as (_ & _ & Hv2 & Hv1).
  split.
  - apply (Hv2 shelter_scenario flat_projection "a-b"%string "a"%string
             "b"%string staircase port_a port_b).
    + reflexivity.
    + reflexivity.
    + simpl. lia.
    + exact (proj1 shelter_scenario_whole_steps).
  - apply (Hv1 V1.shipped flat_projection "wh-vh-ssa"%string
             "woods-hole"%string "vineyard-haven"%string
             (land_north_of 4600000) woods_hole vineyard_haven).
    + reflexivity.
    + reflexivity.
    + exact (proj1 shipped_exposure_whole_steps).
Defined.

(* ================================================================== *)
(** * The great-circle distance (v2) *)

(** The quantity [a] of [haversine_km]. *)
Definition haversine_a (lat1 lon1 lat2 lon2 : R) : R :=
  sin (math_radians (lat2 - lat1) / 2) ^ 2
  + cos (math_radians lat1) * cos (math_radians lat2)
    * sin (math_radians (lon2 - lon1) / 2) ^ 2.

Lemma haversine_km_unfold (lat1 lon1 lat2 lon2 : R) :
  V2.haversine_km lat1 lon1 lat2 lon2
  = (root_a <- math_sqrt (haversine_a lat1 lon1 lat2 lon2) ;;
     root_1a <- math_sqrt (1 - haversine_a lat1 lon1 lat2 lon2) ;;
     Ok (6371 * (2 * math_atan2 root_a root_1a))).
Proof. reflexivity. Qed.

Lemma sin_half_sq (x : R) : sin (x / 2) ^ 2 = (1 - cos x) / 2.
Proof.
  replace x with (2 * (x / 2)) at 2 by lra.
  rewrite cos_2a_sin. simpl. lra.
Qed.

Lemma math_radians_minus (x y : R) :
  math_radians (x - y) = math_radians x - math_radians y.
Proof. unfold math_radians. lra. Qed.

(** [a] is half of one minus the cosine of the central angle. *)
Lemma haversine_a_central (lat1 lon1 lat2 lon2 : R) :
  haversine_a lat1 lon1 lat2 lon2
  = (1 - (sin (math_radians lat1) * sin (math_radians lat2)
          + cos (math_radians lat1) * cos (math_radians lat2)
            * cos (math_radians (lon2 - lon1)))) / 2.
Proof.
  unfold haversine_a. rewrite !sin_half_sq.
  rewrite math_radians_minus, cos_minus. lra.
Qed.

Lemma haversine_a_unit (lat1 lon1 lat2 lon2 : R) :
  0 <= haversine_a lat1 lon1 lat2 lon2 <= 1.
Proof.
  rewrite haversine_a_central.
  set (s1 := sin (math_radians lat1)). set (s2 := sin (math_radians lat2)).
  set (c1 := cos (math_radians lat1)). set (c2 := cos (math_radians lat2)).
  set (C := cos (math_radians (lon2 - lon1))).
  assert (H1 : s1 * s1 + c1 * c1 = 1).
  { pose proof (sin2_cos2 (math_radians lat1)) as H. unfold Rsqr in H. exact H. }
  assert (H2 : s2 * s2 + c2 * c2 = 1).
  { pose proof (sin2_cos2 (math_radians lat2)) as H. unfold Rsqr in H. exact H. }
  assert (HC : -1 <= C <= 1) by apply COS_bound.
  assert (HCC : 0 <= c2 * c2 * (1 - C * C)).
  { apply Rmult_le_pos; [nra | nra]. }
  assert (Hm : 2 * (1 - (s1 * s2 + c1 * c2 * C))
               = (s1 - s2) * (s1 - s2) + (c1 - C * c2) * (c1 - C * c2)
                 + c2 * c2 * (1 - C * C)) by nra.
  assert (Hp : 2 * (1 + (s1 * s2 + c1 * c2 * C))
               = (s1 + s2) * (s1 + s2) + (c1 + C * c2) * (c1 + C * c2)
                 + c2 * c2 * (1 - C * C)) by nra.
  pose proof (Rle_0_sqr (s1 - s2)) as Q1. pose proof (Rle_0_sqr (c1 - C * c2)) as Q2.
  pose proof (Rle_0_sqr (s1 + s2)) as Q3. pose proof (Rle_0_sqr (c1 + C * c2)) as Q4.
  unfold Rsqr in *. split; lra.
Qed.

(** [math.atan2] of two non-negative numbers lies in the first quadrant. *)
Lemma math_atan2_first_quadrant (y x : R) :
  0 <= y -> 0 <= x -> 0 <= math_atan2 y x <= PI / 2.
Proof.
  intros Hy Hx. pose proof PI_RGT_0 as Hpi. unfold math_atan2.
  destruct (Rlt_dec 0 x) as [Hpos | Hnpos].
  - rewrite Rlt_bool_true by exact Hpos.
    assert (Hq : 0 <= y / x) by (apply Rle_mult_inv_pos; assumption).
    pose proof (atan_bound (y / x)) as Hb.
    split; [| lra].
    rewrite <- atan_0.
    destruct Hq as [Hq | <-]; [left; now apply atan_increasing | right; reflexivity].
  - rewrite Rlt_bool_false by lra. rewrite Rlt_bool_false by lra.
    destruct (Rlt_dec 0 y).
    + rewrite Rlt_bool_true by assumption. lra.
    + rewrite Rlt_bool_false by lra. rewrite Rlt_bool_false by lra. lra.
Qed.

(** The value of the distance: both square roots are defined. *)
Lemma haversine_km_value (lat1 lon1 lat2 lon2 : R) :
  V2.haversine_km lat1 lon1 lat2 lon2
  = Ok (6371
        * (2 * math_atan2 (sqrt (haversine_a lat1 lon1 lat2 lon2))
                 (sqrt (1 - haversine_a lat1 lon1 lat2 lon2)))).
Proof.
  rewrite haversine_km_unfold.
  pose proof (haversine_a_unit lat1 lon1 lat2 lon2) as Ha.
  unfold math_sqrt.
  rewrite (Rle_bool_true 0 (haversine_a lat1 lon1 lat2 lon2)) by lra.
  cbn [bind].
  rewrite (Rle_bool_true 0 (1 - haversine_a lat1 lon1 lat2 lon2)) by lra.
  reflexivity.
Qed.

(** Two points whose latitudes lie in [-90, 90] and whose latitudes and
    longitudes each differ by 90 degrees or less. *)
Definition within_quarter_turn (lat1 lon1 lat2 lon2 : R) : Prop :=
  -90 <= lat1 <= 90 /\ -90 <= lat2 <= 90 /\
  Rabs (lat2 - lat1) <= 90 /\ Rabs (lon2 - lon1) <= 90.

Lemma cos_radians_nonneg (deg : R) :
  Rabs deg <= 90 -> 0 <= cos (math_radians deg).
Proof.
  intros H. pose proof PI_RGT_0 as Hpi.
  assert (Hd : -90 <= deg <= 90).
  { unfold Rabs in H. destruct (Rcase_abs deg); lra. }
  apply cos_ge_0; unfold math_radians; nra.
Qed.

(** For such points [a] stays a quarter below 1, which is where the second
    square root would fail. *)
Lemma haversine_a_quarter_turn (lat1 lon1 lat2 lon2 : R) :
  within_quarter_turn lat1 lon1 lat2 lon2 ->
  0 <= haversine_a lat1 lon1 lat2 lon2 <= 3 / 4.
Proof.
  intros (Hl1 & Hl2 & Hdl & Hdo).
  split; [apply haversine_a_unit |].
  rewrite haversine_a_central.
  assert (Hc1 : 0 <= cos (math_radians lat1)).
  { apply cos_radians_nonneg. apply Rabs_le. lra. }
  assert (Hc2 : 0 <= cos (math_radians lat2)).
  { apply cos_radians_nonneg. apply Rabs_le. lra. }
  assert (HC : 0 <= cos (math_radians (lon2 - lon1)))
    by now apply cos_radians_nonneg.
  assert (Hd : 0 <= cos (math_radians (lat2 - lat1)))
    by now apply cos_radians_nonneg.
  rewrite math_radians_minus, cos_minus in Hd.
  pose proof (COS_bound (math_radians lat2 + math_radians lat1)) as [_ Hs].
  rewrite cos_plus in Hs.
  assert (Hcc : 0 <= cos (math_radians lat1) * cos (math_radians lat2)
                     * cos (math_radians (lon2 - lon1))).
  { apply Rmult_le_pos; [apply Rmult_le_pos |]; assumption. }
  lra.
Qed.

(** X1.  For two points within a quarter turn of each other (latitudes in
    [-90, 90], latitudes and longitudes 90 degrees or less apart) the
    quantity [a] lies in [0, 3/4], the two square roots see no negative
    argument, and [haversine_km] returns a distance between 0 and half the
    circumference of the sphere. *)
Theorem haversine_km_total_and_bounded (lat1 lon1 lat2 lon2 : R) :
  within_quarter_turn lat1 lon1 lat2 lon2 ->
  0 <= haversine_a lat1 lon1 lat2 lon2 <= 3 / 4 /\
  exists d,
    V2.haversine_km lat1 lon1 lat2 lon2 = Ok d /\
    0 <= d <= 6371 * PI.
Proof.
  intros Hq.
  pose proof (haversine_a_quarter_turn lat1 lon1 lat2 lon2 Hq) as Ha.
  split; [exact Ha |].
  rewrite haversine_km_unfold. unfold math_sqrt.
  rewrite (Rle_bool_true 0 (haversine_a lat1 lon1 lat2 lon2)) by lra.
  cbn [bind].
  rewrite (Rle_bool_true 0 (1 - haversine_a lat1 lon1 lat2 lon2)) by lra.
  eexists. split; [reflexivity |].
  pose proof (math_atan2_first_quadrant
                (sqrt (haversine_a lat1 lon1 lat2 lon2))
                (sqrt (1 - haversine_a lat1 lon1 lat2 lon2))
                (sqrt_pos _) (sqrt_pos _)) as Hb.
  lra.
Qed.

(** The distance between Woods Hole and Nantucket. *)
Lemma haversine_km_total_and_bounded_witness :
  within_quarter_turn 41.5234 (-70.6693) 41.2835 (-70.0995) /\
  exists d,
    V2.haversine_km 41.5234 (-70.6693) 41.2835 (-70.0995) = Ok d /\
    0 <= d <= 6371 * PI.
Proof.
  assert (Hq : within_quarter_turn 41.5234 (-70.6693) 41.2835 (-70.0995)).
  { unfold within_quarter_turn.
    repeat split; try lra; apply Rabs_le; lra. }
  split; [exact Hq |].
  exact (proj2 (haversine_km_total_and_bounded _ _ _ _ Hq)).
Defined.

Lemma haversine_a_symmetric (lat1 lon1 lat2 lon2 : R) :
  haversine_a lat1 lon1 lat2 lon2 = haversine_a lat2 lon2 lat1 lon1.
Proof.
  rewrite !haversine_a_central.
  replace (math_radians (lon1 - lon2)) with (- math_radians (lon2 - lon1))
    by (unfold math_radians; lra).
  rewrite cos_neg. lra.
Qed.

Lemma math_atan2_0_1 : math_atan2 0 1 = 0.
Proof.
  unfold math_atan2. rewrite Rlt_bool_true by lra.
  replace (0 / 1) with 0 by lra. apply atan_0.
Qed.

(** X2.  The distance does not depend on the order of the two points, and a
    point is at distance 0 from itself. *)
Theorem haversine_km_symmetric :
  (forall lat1 lon1 lat2 lon2 : R,
     V2.haversine_km lat1 lon1 lat2 lon2
     = V2.haversine_km lat2 lon2 lat1 lon1) /\
  (forall lat lon : R, V2.haversine_km lat lon lat lon = Ok 0).
Proof.
  split.
  - intros lat1 lon1 lat2 lon2. rewrite !haversine_km_unfold.
    now rewrite (haversine_a_symmetric lat1 lon1 lat2 lon2).
  - intros lat lon. rewrite haversine_km_unfold.
    assert (Ha : haversine_a lat lon lat lon = 0).
    { unfold haversine_a. rewrite !Rminus_diag.
      replace (math_radians 0 / 2) with 0 by (unfold math_radians; lra).
      rewrite sin_0. ring. }
    rewrite Ha. unfold math_sqrt.
    rewrite Rle_bool_true by lra. cbn [bind].
    rewrite Rle_bool_true by lra. cbn [bind].
    rewrite Rminus_0_r, sqrt_0, sqrt_1, math_atan2_0_1. f_equal. ring.
Qed.

(** The central angle when [a] is the squared sine of half of it. *)
Lemma central_angle_of_half (a h : R) :
  0 <= h <= PI / 2 ->
  a = sin h ^ 2 ->
  (root_a <- math_sqrt a ;;
   root_1a <- math_sqrt (1 - a) ;;
   Ok (6371 * (2 * math_atan2 root_a root_1a)))
  = Ok (6371 * (2 * h)).
Proof.
  intros Hh ->. pose proof PI_RGT_0 as Hpi.
  assert (Hsin : 0 <= sin h) by (apply sin_ge_0; lra).
  assert (Hcos : 0 <= cos h) by (apply cos_ge_0; lra).
  assert (H1a : 1 - sin h ^ 2 = cos h ^ 2).
  { pose proof (sin2_cos2 h) as H. unfold Rsqr in H. simpl. lra. }
  rewrite H1a. unfold math_sqrt.
  rewrite (Rle_bool_true 0 (sin h ^ 2)) by apply pow2_ge_0. cbn [bind].
  rewrite (Rle_bool_true 0 (cos h ^ 2)) by apply pow2_ge_0. cbn [bind].
  rewrite !sqrt_pow2 by assumption.
  f_equal. f_equal. f_equal.
  destruct (Req_dec h (PI / 2)) as [-> | Hne].
  - rewrite sin_PI2, cos_PI2. unfold math_atan2.
    rewrite !(Rlt_bool_false _ 0) by lra.
    now rewrite Rlt_bool_true by lra.
  - assert (Hc : 0 < cos h) by (apply cos_gt_0; lra).
    unfold math_atan2. rewrite Rlt_bool_true by exact Hc.
    change (sin h / cos h) with (tan h).
    apply atan_tan. lra.
Qed.

Lemma sin_sq_abs (x : R) : sin x ^ 2 = sin (Rabs x) ^ 2.
Proof.
  unfold Rabs. destruct (Rcase_abs x); [| reflexivity].
  rewrite sin_neg. ring.
Qed.

(** X3.  Along a meridian, and along the equator, the distance is the arc:
    6371 km times the difference of the angles in radians, for a difference
    of at most 180 degrees. *)
Theorem haversine_km_along_meridian_and_equator (lat1 lat2 lon1 lon2 : R) :
  Rabs (lat2 - lat1) <= 180 ->
  Rabs (lon2 - lon1) <= 180 ->
  V2.haversine_km lat1 lon1 lat2 lon1
  = Ok (6371 * math_radians (Rabs (lat2 - lat1))) /\
  V2.haversine_km 0 lon1 0 lon2
  = Ok (6371 * math_radians (Rabs (lon2 - lon1))).
Proof.
  intros Hlat Hlon. pose proof PI_RGT_0 as Hpi.
  assert (Hhalf : forall x, Rabs x <= 180 ->
            0 <= math_radians (Rabs x) / 2 <= PI / 2).
  { intros x Hx. pose proof (Rabs_pos x). unfold math_radians. split; nra. }
  assert (Habs : forall x, Rabs (math_radians x / 2) = math_radians (Rabs x) / 2).
  { intros x. unfold math_radians.
    replace (x * PI / 180 / 2) with (x * (PI / 360)) by lra.
    rewrite Rabs_mult, (Rabs_right (PI / 360)) by lra. lra. }
  split.
  - rewrite haversine_km_unfold.
    rewrite (central_angle_of_half _ (math_radians (Rabs (lat2 - lat1)) / 2)).
    + f_equal. lra.
    + now apply Hhalf.
    + unfold haversine_a. rewrite Rminus_diag.
      replace (math_radians 0 / 2) with 0 by (unfold math_radians; lra).
      rewrite sin_0, sin_sq_abs, Habs. ring.
  - rewrite haversine_km_unfold.
    rewrite (central_angle_of_half _ (math_radians (Rabs (lon2 - lon1)) / 2)).
    + f_equal. lra.
    + now apply Hhalf.
    + unfold haversine_a. rewrite Rminus_diag.
      replace (math_radians 0 / 2) with 0 by (unfold math_radians; lra).
      rewrite math_radians_0, sin_0, cos_0, sin_sq_abs, Habs. ring.
Qed.

Lemma haversine_km_along_meridian_and_equator_witness :
  V2.haversine_km 41 (-70) 42 (-70) = Ok (6371 * math_radians (Rabs (42 - 41))) /\
  V2.haversine_km 0 (-70) 0 (-69) = Ok (6371 * math_radians (Rabs (-69 - -70))).
Proof.
  apply (haversine_km_along_meridian_and_equator 41 42 (-70) (-69)).
  - replace (42 - 41) with 1 by lra. rewrite Rabs_R1. lra.
  - replace (-69 - -70) with 1 by lra. rewrite Rabs_R1. lra.
Defined.

(* ================================================================== *)
(** * The spacing of the sample points *)

Lemma sample_points_of_nth (wgs84_to_utm : R -> R -> PlanarPoint)
  (origin dest : Port) (n i : Z) :
  (0 <= i < n)%Z ->
  nth_error (sample_points_of wgs84_to_utm origin dest n) (Z.to_nat i)
  = Some (interpolate (wgs84_to_utm (lon origin) (lat origin))
            (wgs84_to_utm (lon dest) (lat dest))
            ((IZR i + 0.5) / IZR n)).
Proof.
  intros Hi. unfold sample_points_of.
  now rewrite nth_error_map, py_range_nth by assumption.
Qed.

(** X4.  The sample points are evenly spaced and centred.  For n >= 1,
    consecutive points differ by one n-th of the route vector; the i-th
    point and the (n - 1 - i)-th are mirror images about the middle of the
    route; and a route whose two ports project to one point is sampled at
    that point only. *)
Theorem sample_route_points_evenly_spaced
  (wgs84_to_utm : R -> R -> PlanarPoint) (origin dest : Port) (n : Z) :
  (1 <= n)%Z ->
  let p1 := wgs84_to_utm (lon origin) (lat origin) in
  let p2 := wgs84_to_utm (lon dest) (lat dest) in
  exists points,
    sample_route_points wgs84_to_utm origin dest n = Ok points /\
    (forall i : Z, (0 <= i)%Z -> (i + 1 < n)%Z ->
       exists a b,
         nth_error points (Z.to_nat i) = Some a /\
         nth_error points (Z.to_nat (i + 1)) = Some b /\
         fst b - fst a = (fst p2 - fst p1) / IZR n /\
         snd b - snd a = (snd p2 - snd p1) / IZR n) /\
    (forall i : Z, (0 <= i < n)%Z ->
       exists a b,
         nth_error points (Z.to_nat i) = Some a /\
         nth_error points (Z.to_nat (n - 1 - i)) = Some b /\
         fst a + fst b = fst p1 + fst p2 /\
         snd a + snd b = snd p1 + snd p2) /\
    (p1 = p2 -> forall p, In p points -> p = p1).
Proof.
  intros Hn p1 p2.
  assert (Hnz : IZR n <> 0) by (apply not_0_IZR; lia).
  exists (sample_points_of wgs84_to_utm origin dest n).
  split; [now apply sample_route_points_ok |].
  split; [| split].
  - intros i Hi0 Hi1. do 2 eexists.
    rewrite (sample_points_of_nth _ _ _ n i) by lia.
    rewrite (sample_points_of_nth _ _ _ n (i + 1)) by lia.
    split; [reflexivity |]. split; [reflexivity |].
    fold p1 p2. unfold interpolate. cbn [fst snd]. rewrite plus_IZR.
    split; field; exact Hnz.
  - intros i Hi. do 2 eexists.
    rewrite (sample_points_of_nth _ _ _ n i) by lia.
    rewrite (sample_points_of_nth _ _ _ n (n - 1 - i)) by lia.
    split; [reflexivity |]. split; [reflexivity |].
    fold p1 p2. unfold interpolate. cbn [fst snd]. rewrite !minus_IZR.
    replace 0.5 with (1 / 2) by lra.
    split; field; exact Hnz.
  - intros Heq p Hp. unfold sample_points_of in Hp.
    apply in_map_iff in Hp. destruct Hp as (i & <- & _).
    fold p1 p2. rewrite <- Heq. unfold interpolate.
    destruct p1 as [x y]. cbn [fst snd]. f_equal; ring.
Qed.

Lemma sample_route_points_evenly_spaced_witness :
  exists points,
    sample_route_points flat_projection woods_hole vineyard_haven 10
    = Ok points /\
    exists a b,
      nth_error points (Z.to_nat 0) = Some a /\
      nth_error points (Z.to_nat (0 + 1)) = Some b /\
      fst b - fst a
      = (fst (flat_projection (lon vineyard_haven) (lat vineyard_haven))
         - fst (flat_projection (lon woods_hole) (lat woods_hole)))
        / IZR 10.
Proof.
  destruct (sample_route_points_evenly_spaced flat_projection woods_hole
              vineyard_haven 10 ltac:(lia)) as (points & H & Hstep & _).
  exists points. split; [exact H |].
  destruct (Hstep 0%Z ltac:(lia) ltac:(lia)) as (a & b & Ha & Hb & Hx & _).
  exists a, b. repeat split; assumption.
Defined.

(* ================================================================== *)
(** * Ray casting beyond the grid-aligned range *)

(** The number of increments [np.arange(step_m, max_distance_m + step_m,
    step_m)] yields. *)
Definition steps_in_range (step max_distance_m : R) : nat :=
  Z.to_nat (Zceil (max_distance_m / step)).

Lemma np_arange_steps (step max_distance_m : R) :
  0 < step ->
  np_arange step (max_distance_m + step) step
  = Ok (map (fun k : nat => INR k * step)
          (seq 1 (steps_in_range step max_distance_m))).
Proof.
  intros Hstep. unfold np_arange, steps_in_range.
  rewrite Req_bool_false by lra.
  replace ((max_distance_m + step - step) / step)
    with (max_distance_m / step) by (field; lra).
  f_equal. rewrite <- seq_shift, map_map. apply map_ext.
  intros i. rewrite S_INR. ring.
Qed.

Lemma steps_in_range_bounds (step max_distance_m : R) :
  0 < step -> 0 < max_distance_m ->
  (1 <= steps_in_range step max_distance_m)%nat /\
  max_distance_m <= INR (steps_in_range step max_distance_m) * step
  < max_distance_m + step.
Proof.
  intros Hstep Hmax. unfold steps_in_range.
  pose proof (Zceil_bound (max_distance_m / step)) as [Hlo Hhi].
  set (z := Zceil (max_distance_m / step)) in *.
  assert (Hq : 0 < max_distance_m / step) by (apply Rdiv_lt_0_compat; lra).
  assert (Hz : (1 <= z)%Z).
  { assert (0 < IZR z) by lra. apply lt_IZR in H. lia. }
  assert (HN : INR (Z.to_nat z) = IZR z).
  { rewrite INR_IZR_INZ, Z2Nat.id by lia. reflexivity. }
  rewrite HN. split; [lia |].
  assert (Hm : max_distance_m = max_distance_m / step * step)
    by (field; lra).
  split; nra.
Qed.

Lemma steps_in_range_nonpos (step max_distance_m : R) :
  0 < step -> max_distance_m <= 0 ->
  steps_in_range step max_distance_m = 0%nat.
Proof.
  intros Hstep Hmax. unfold steps_in_range.
  pose proof (Zceil_bound (max_distance_m / step)) as [Hlo Hhi].
  assert (Hq : max_distance_m / step <= 0).
  { unfold Rdiv. assert (0 < / step) by now apply Rinv_0_lt_compat. nra. }
  assert (Hz : (Zceil (max_distance_m / step) <= 0)%Z).
  { apply Z.lt_succ_r. apply lt_IZR. rewrite succ_IZR. lra. }
  destruct (Zceil (max_distance_m / step)); try reflexivity; lia.
Qed.

Section AnyRange.
Variable step : R.
Variable point : PlanarPoint.
Variable deg : R.
Variable land_geom : LandMask.
Variable max_distance_m : R.
Hypothesis step_pos : 0 < step.

Lemma cast_unfold_any :
  cast_ray_to_land step point deg land_geom max_distance_m
  = match first_land land_geom (fst point) (snd point)
            (sin (math_radians deg)) (cos (math_radians deg))
            (map (fun k : nat => INR k * step)
               (seq 1 (steps_in_range step max_distance_m))) with
    | Some dist => Ok (dist / 1000)
    | None => Ok (max_distance_m / 1000)
    end.
Proof.
  unfold cast_ray_to_land. destruct point as [px py]. simpl fst; simpl snd.
  rewrite np_arange_steps by exact step_pos. reflexivity.
Qed.

(** The outcome of the loop over [N] increments in terms of the tests. *)
Lemma first_probe_cases (N : nat) :
  (first_land land_geom (fst point) (snd point)
     (sin (math_radians deg)) (cos (math_radians deg))
     (map (fun k : nat => INR k * step) (seq 1 N)) = None /\
   forall k, (1 <= k <= N)%nat -> probe step point deg land_geom k = false)
  \/
  (exists k, (1 <= k <= N)%nat /\
     first_land land_geom (fst point) (snd point)
       (sin (math_radians deg)) (cos (math_radians deg))
       (map (fun k : nat => INR k * step) (seq 1 N)) = Some (INR k * step) /\
     probe step point deg land_geom k = true /\
     forall j, (1 <= j < k)%nat -> probe step point deg land_geom j = false).
Proof.
  destruct (first_land_cases land_geom (fst point) (snd point)
              (sin (math_radians deg)) (cos (math_radians deg))
              (map (fun k : nat => INR k * step) (seq 1 N)))
    as [[Hn Hall] | (before & d & after & Hsplit & Hs & Hd & Hb)].
  - left. split; [exact Hn |].
    intros k Hk. apply (Hall (INR k * step)).
    apply in_map_iff. exists k. split; [reflexivity |]. apply in_seq. lia.
  - right.
    assert (Hlen : (List.length before < N)%nat).
    { apply (f_equal (@List.length R)) in Hsplit.
      rewrite length_map, length_seq, length_app in Hsplit.
      simpl in Hsplit. lia. }
    assert (Hnth : forall i, (i < N)%nat ->
              nth i (map (fun k : nat => INR k * step) (seq 1 N)) 0
              = INR (S i) * step).
    { intros i Hi. now rewrite nth_map_seq. }
    assert (Hd_eq : d = INR (S (List.length before)) * step).
    { rewrite <- Hnth by assumption. rewrite Hsplit.
      rewrite app_nth2 by lia. now rewrite Nat.sub_diag. }
    exists (S (List.length before)).
    split; [lia |]. split; [| split].
    + rewrite Hs, Hd_eq. reflexivity.
    + unfold probe. rewrite <- Hd_eq. exact Hd.
    + intros j Hj. unfold probe. apply Hb.
      replace (INR j * step) with
        (nth (j - 1) (map (fun k : nat => INR k * step) (seq 1 N)) 0).
      2:{ rewrite Hnth by lia. repeat f_equal. lia. }
      rewrite Hsplit, app_nth1 by lia. apply nth_In. lia.
Qed.

End AnyRange.

(** X5.  For a step and a range of whole numbers of metres, the range a
    multiple of the step or not, the caster tests the first
    [ceil(range / step)] multiples of the step; the last of them lies less
    than one step beyond the range.  It returns the range when none is on
    land, else the first one on land, so the value is positive and exceeds
    the range by less than one step (in kilometres). *)
Theorem cast_ray_to_land_any_range (step_m range_m : Z)
  (point : PlanarPoint) (deg : R) (land_geom : LandMask) :
  (0 < step_m)%Z ->
  (0 < range_m)%Z ->
  (range_m + step_m <= 9007199254740992)%Z ->
  let step := IZR step_m in
  let max_distance_m := IZR range_m in
  (1 <= steps_in_range step max_distance_m)%nat /\
  max_distance_m <= INR (steps_in_range step max_distance_m) * step
  < max_distance_m + step /\
  ((cast_ray_to_land step point deg land_geom max_distance_m
    = Ok (max_distance_m / 1000) /\
    forall k, (1 <= k <= steps_in_range step max_distance_m)%nat ->
              probe step point deg land_geom k = false)
   \/
   (exists k, (1 <= k <= steps_in_range step max_distance_m)%nat /\
      cast_ray_to_land step point deg land_geom max_distance_m
      = Ok (INR k * step / 1000) /\
      probe step point deg land_geom k = true /\
      forall j, (1 <= j < k)%nat ->
                probe step point deg land_geom j = false)) /\
  exists r,
    cast_ray_to_land step point deg land_geom max_distance_m = Ok r /\
    0 < r < (max_distance_m + step) / 1000.
Proof.
  intros Hs Hm _ step max_distance_m.
  assert (Hstep : 0 < step) by (apply IZR_lt; exact Hs).
  assert (Hmax : 0 < max_distance_m) by (apply IZR_lt; exact Hm).
  destruct (steps_in_range_bounds step max_distance_m Hstep Hmax)
    as (HN & Hlo & Hhi).
  split; [exact HN |]. split; [split; assumption |].
  rewrite (cast_unfold_any step point deg land_geom max_distance_m Hstep).
  destruct (first_probe_cases step point deg land_geom
              (steps_in_range step max_distance_m))
    as [[Hn Hall] | (k & Hk & Hsome & Hhit & Hbefore)].
  - rewrite Hn. split.
    + left. split; [reflexivity | exact Hall].
    + eexists. split; [reflexivity |]. lra.
  - rewrite Hsome. split.
    + right. exists k. repeat split; try assumption; lia.
    + eexists. split; [reflexivity |].
      assert (H1 : 1 <= INR k) by (apply (le_INR 1); lia).
      assert (H2 : INR k <= INR (steps_in_range step max_distance_m))
        by (apply le_INR; lia).
      split; nra.
Qed.

Lemma cast_ray_to_land_any_range_witness :
  exists r,
    cast_ray_to_land 100 (0, 0) 0 all_land 250 = Ok r /\
    0 < r < (250 + 100) / 1000.
Proof.
  apply (cast_ray_to_land_any_range 100 250 (0, 0) 0 all_land); lia.
Defined.

(** X6.  A range of zero or less tests nothing: whatever the land mask, the
    caster returns the range itself (in kilometres). *)
Theorem cast_ray_to_land_empty_range (step : R) (point : PlanarPoint)
  (deg : R) (land_geom : LandMask) (max_distance_m : R) :
  0 < step ->
  max_distance_m <= 0 ->
  cast_ray_to_land step point deg land_geom max_distance_m
  = Ok (max_distance_m / 1000).
Proof.
  intros Hstep Hmax.
  rewrite (cast_unfold_any step point deg land_geom max_distance_m Hstep).
  now rewrite steps_in_range_nonpos.
Qed.

Lemma cast_ray_to_land_empty_range_witness :
  cast_ray_to_land 50 (0, 0) 90 all_land 0 = Ok (0 / 1000).
Proof.
  apply (cast_ray_to_land_empty_range 50 (0, 0) 90 all_land 0); lra.
Defined.

(** Over a range of whole steps, more land gives a shorter measurement. *)
Lemma ray_km_more_land (step : R) (point : PlanarPoint) (deg : R)
  (land1 land2 : LandMask) (K : nat) :
  0 < step ->
  (forall q, land1 q = true -> land2 q = true) ->
  ray_km step point deg land2 (INR K * step)
  <= ray_km step point deg land1 (INR K * step).
Proof.
  intros Hstep Hsub.
  assert (Hprobe : forall k, probe step point deg land1 k = true ->
                             probe step point deg land2 k = true).
  { intros k. unfold probe. apply Hsub. }
  unfold ray_km.
  destruct (cast_cases step point deg land2 K Hstep)
    as [[H2 Hall2] | (k2 & Hk2 & H2 & Hhit2 & Hbefore2)];
  destruct (cast_cases step point deg land1 K Hstep)
    as [[H1 Hall1] | (k1 & Hk1 & H1 & Hhit1 & Hbefore1)];
  rewrite H1, H2.
  - lra.
  - apply Hprobe in Hhit1. rewrite (Hall2 k1 Hk1) in Hhit1. discriminate.
  - assert (INR k2 <= INR K) by (apply le_INR; lia). nra.
  - assert (Hle : (k2 <= k1)%nat).
    { destruct (Nat.le_gt_cases k2 k1) as [Hle | Hgt]; [exact Hle |].
      apply Hprobe in Hhit1. rewrite Hbefore2 in Hhit1 by lia.
      discriminate. }
    assert (INR k2 <= INR k1) by (apply le_INR; lia). nra.
Qed.

(** X7.  More land never lengthens a ray.  For a step of a whole number
    of metres and a range of whole steps, when every point of one mask is a
    point of a second mask, the distance over the second is at most the
    distance over the first. *)
Theorem cast_ray_to_land_more_land (step_m : Z) (point : PlanarPoint)
  (deg : R) (land1 land2 : LandMask) (K : nat) :
  (0 < step_m)%Z ->
  (Z.of_nat K * step_m + step_m <= 9007199254740992)%Z ->
  (forall q, land1 q = true -> land2 q = true) ->
  exists r1 r2,
    cast_ray_to_land (IZR step_m) point deg land1 (INR K * IZR step_m)
    = Ok r1 /\
    cast_ray_to_land (IZR step_m) point deg land2 (INR K * IZR step_m)
    = Ok r2 /\
    r2 <= r1.
Proof.
  intros Hs _ Hsub.
  assert (Hstep : 0 < IZR step_m) by (apply IZR_lt; exact Hs).
  exists (ray_km (IZR step_m) point deg land1 (INR K * IZR step_m)),
         (ray_km (IZR step_m) point deg land2 (INR K * IZR step_m)).
  split; [apply cast_ray_to_land_total; lra |].
  split; [apply cast_ray_to_land_total; lra |].
  now apply ray_km_more_land.
Qed.

Lemma cast_ray_to_land_more_land_witness :
  exists r1 r2,
    cast_ray_to_land 50 (0, 0) 0 (land_north_of 500) (INR 600 * 50) = Ok r1 /\
    cast_ray_to_land 50 (0, 0) 0 (land_north_of 200) (INR 600 * 50) = Ok r2 /\
    r2 <= r1.
Proof.
  apply (cast_ray_to_land_more_land 50 (0, 0) 0
           (land_north_of 500) (land_north_of 200) 600).
  - lia.
  - lia.
  - intros q. unfold land_north_of. rewrite !Rle_bool_spec. lra.
Defined.

(* ================================================================== *)
(** * The bearing of a ray *)

(** Land is every point whose coordinate along the direction [(a, b)] is
    at least [c]. *)
Definition land_beyond (a b c : R) : LandMask :=
  fun q => Rle_bool c (a * fst q + b * snd q).

(** Land at or east of [x = x0], at or south of [y = y0], at or west of
    [x = x0]. *)
Definition land_east_of (x0 : R) : LandMask := fun p => Rle_bool x0 (fst p).
Definition land_south_of (y0 : R) : LandMask := fun p => Rle_bool (snd p) y0.
Definition land_west_of (x0 : R) : LandMask := fun p => Rle_bool (fst p) x0.

Lemma Rle_bool_shift (a c d : R) : Rle_bool (a + c) (a + d) = Rle_bool c d.
Proof.
  unfold Rle_bool.
  destruct (Rle_dec (a + c) (a + d)); destruct (Rle_dec c d);
    try reflexivity; exfalso; lra.
Qed.

(** A ray over a mask that the k-th test meets first. *)
Lemma cast_meets_at (step : R) (point : PlanarPoint) (deg : R)
  (land_geom : LandMask) (K k : nat) (c : R) :
  0 < step ->
  (1 <= k <= K)%nat ->
  INR k * step - step < c <= INR k * step ->
  (forall j, probe step point deg land_geom j
             = Rle_bool c (INR j * step)) ->
  cast_ray_to_land step point deg land_geom (INR K * step)
  = Ok (INR k * step / 1000).
Proof.
  intros Hstep Hk Hc Hprobe.
  apply cast_first_hit; [exact Hstep | exact Hk | |].
  - rewrite Hprobe. apply Rle_bool_true. lra.
  - intros j Hj. rewrite Hprobe. apply Rle_bool_false.
    assert (INR j <= INR k - 1).
    { replace (INR k - 1) with (INR (k - 1)).
      - apply le_INR. lia.
      - rewrite minus_INR by lia. simpl. lra. }
    nra.
Qed.

(** X8.  For every bearing, land that begins [c] metres straight ahead (a
    half-plane whose edge is perpendicular to the bearing) is met at the
    first multiple of the step that is at least [c]. *)
Theorem ray_meets_land_ahead (step : R) (point : PlanarPoint) (deg : R)
  (K k : nat) (c : R) :
  0 < step ->
  (1 <= k <= K)%nat ->
  INR k * step - step < c <= INR k * step ->
  cast_ray_to_land step point deg
    (land_beyond (sin (math_radians deg)) (cos (math_radians deg))
       (sin (math_radians deg) * fst point
        + cos (math_radians deg) * snd point + c))
    (INR K * step)
  = Ok (INR k * step / 1000).
Proof.
  intros Hstep Hk Hc.
  apply (cast_meets_at step point deg _ K k c Hstep Hk Hc).
  intros j. unfold probe, land_beyond. cbn [fst snd].
  set (s := sin (math_radians deg)). set (co := cos (math_radians deg)).
  assert (H1 : s * s + co * co = 1).
  { pose proof (sin2_cos2 (math_radians deg)) as H. unfold Rsqr in H.
    exact H. }
  assert (E : s * (fst point + s * (INR j * step))
               + co * (snd point + co * (INR j * step))
               = s * fst point + co * snd point + INR j * step).
  { transitivity (s * fst point + co * snd point
                  + (s * s + co * co) * (INR j * step)); [ring |].
    rewrite H1. ring. }
  rewrite E. apply Rle_bool_shift.
Qed.

Lemma ray_meets_land_ahead_witness :
  cast_ray_to_land 50 (0, 0) 45
    (land_beyond (sin (math_radians 45)) (cos (math_radians 45))
       (sin (math_radians 45) * fst (0, 0)
        + cos (math_radians 45) * snd (0, 0) + 120))
    (INR 600 * 50)
  = Ok (INR 3 * 50 / 1000).
Proof.
  apply (ray_meets_land_ahead 50 (0, 0) 45 600 3 120).
  - lra.
  - lia.
  - simpl. lra.
Defined.

Lemma math_radians_90 : math_radians 90 = PI / 2.
Proof. unfold math_radians. lra. Qed.

Lemma math_radians_180 : math_radians 180 = PI.
Proof. unfold math_radians. lra. Qed.

Lemma math_radians_270 : math_radians 270 = PI / 2 + PI.
Proof. unfold math_radians. lra. Qed.

(** X9.  The compass convention.  Bearing 0 looks along +y (north), 90
    along +x (east), 180 along -y (south) and 270 along -x (west): land
    that begins [c] metres away on that side is met at the first multiple
    of the step that is at least [c], and a ray looking north does not see
    land that lies at or south of its starting point. *)
Theorem cardinal_bearings (step x y : R) (K k : nat) (c : R) :
  0 < step ->
  (1 <= k <= K)%nat ->
  INR k * step - step < c <= INR k * step ->
  cast_ray_to_land step (x, y) 0 (land_north_of (y + c)) (INR K * step)
  = Ok (INR k * step / 1000) /\
  cast_ray_to_land step (x, y) 90 (land_east_of (x + c)) (INR K * step)
  = Ok (INR k * step / 1000) /\
  cast_ray_to_land step (x, y) 180 (land_south_of (y - c)) (INR K * step)
  = Ok (INR k * step / 1000) /\
  cast_ray_to_land step (x, y) 270 (land_west_of (x - c)) (INR K * step)
  = Ok (INR k * step / 1000) /\
  cast_ray_to_land step (x, y) 0 (land_south_of y) (INR K * step)
  = Ok (INR K * step / 1000).
Proof.
  intros Hstep Hk Hc.
  split; [| split; [| split; [| split]]].
  - apply (cast_meets_at step (x, y) 0 _ K k c Hstep Hk Hc).
    intros j. unfold probe, land_north_of. cbn [fst snd].
    rewrite math_radians_0, cos_0, Rmult_1_l. apply Rle_bool_shift.
  - apply (cast_meets_at step (x, y) 90 _ K k c Hstep Hk Hc).
    intros j. unfold probe, land_east_of. cbn [fst snd].
    rewrite math_radians_90, sin_PI2, Rmult_1_l. apply Rle_bool_shift.
  - apply (cast_meets_at step (x, y) 180 _ K k c Hstep Hk Hc).
    intros j. unfold probe, land_south_of. cbn [fst snd].
    rewrite math_radians_180, cos_PI.
    unfold Rle_bool.
    destruct (Rle_dec _ _); destruct (Rle_dec c _); try reflexivity;
      exfalso; lra.
  - apply (cast_meets_at step (x, y) 270 _ K k c Hstep Hk Hc).
    intros j. unfold probe, land_west_of. cbn [fst snd].
    rewrite math_radians_270, neg_sin, sin_PI2.
    unfold Rle_bool.
    destruct (Rle_dec _ _); destruct (Rle_dec c _); try reflexivity;
      exfalso; lra.
  - apply cast_no_land; [exact Hstep |].
    intros j Hj. unfold probe, land_south_of. cbn [fst snd].
    rewrite math_radians_0, cos_0, Rmult_1_l. apply Rle_bool_false.
    assert (1 <= INR j) by (apply (le_INR 1); lia). nra.
Qed.

Lemma cardinal_bearings_witness :
  cast_ray_to_land 50 (0, 0) 90 (land_east_of (0 + 120)) (INR 600 * 50)
  = Ok (INR 3 * 50 / 1000).
Proof.
  apply (cardinal_bearings 50 0 0 600 3 120).
  - lra.
  - lia.
  - simpl. lra.
Defined.

(* ================================================================== *)
(** * Signatures: errors *)

Lemma ports_get_missing (ports : PortTable) (slug : string) :
  dict_get String.eqb ports slug = None ->
  ports_get ports slug = Raise (KeyError slug).
Proof. unfold ports_get. now intros ->. Qed.

Lemma ports_get_present (ports : PortTable) (slug : string) (p : Port) :
  dict_get String.eqb ports slug = Some p -> ports_get ports slug = Ok p.
Proof. unfold ports_get. now intros ->. Qed.

(** X10.  A route that names a port absent from [PORTS] makes the signature
    computer raise [KeyError] with that slug, the origin being looked up
    before the destination; no ray is cast.  So in v1 and in v2. *)
Theorem signature_unknown_port :
  (forall cfg wgs84_to_utm id origin_slug dest_slug land_geom,
     dict_get String.eqb (V2.PORTS cfg) origin_slug = None ->
     V2.compute_shelter_signature cfg wgs84_to_utm id origin_slug dest_slug
       land_geom = Raise (KeyError origin_slug)) /\
  (forall cfg wgs84_to_utm id origin_slug dest_slug land_geom origin,
     dict_get String.eqb (V2.PORTS cfg) origin_slug = Some origin ->
     dict_get String.eqb (V2.PORTS cfg) dest_slug = None ->
     V2.compute_shelter_signature cfg wgs84_to_utm id origin_slug dest_slug
       land_geom = Raise (KeyError dest_slug)) /\
  (forall cfg wgs84_to_utm id origin_slug dest_slug land_geom,
     dict_get String.eqb (V1.PORTS cfg) origin_slug = None ->
     V1.compute_route_exposure cfg wgs84_to_utm id origin_slug dest_slug
       land_geom = Raise (KeyError origin_slug)) /\
  (forall cfg wgs84_to_utm id origin_slug dest_slug land_geom origin,
     dict_get String.eqb (V1.PORTS cfg) origin_slug = Some origin ->
     dict_get String.eqb (V1.PORTS cfg) dest_slug = None ->
     V1.compute_route_exposure cfg wgs84_to_utm id origin_slug dest_slug
       land_geom = Raise (KeyError dest_slug)).
Proof.
  repeat split.
  - intros cfg wgs id o d land Ho. unfold V2.compute_shelter_signature.
    now rewrite (ports_get_missing _ _ Ho).
  - intros cfg wgs id o d land po Ho Hd. unfold V2.compute_shelter_signature.
    now rewrite (ports_get_present _ _ _ Ho), (ports_get_missing _ _ Hd).
  - intros cfg wgs id o d land Ho. unfold V1.compute_route_exposure.
    now rewrite (ports_get_missing _ _ Ho).
  - intros cfg wgs id o d land po Ho Hd. unfold V1.compute_route_exposure.
    now rewrite (ports_get_present _ _ _ Ho), (ports_get_missing _ _ Hd).
Qed.

Lemma signature_unknown_port_witness :
  V2.compute_shelter_signature V2.shipped flat_projection "wh-bos"
    "woods-hole" "boston" all_land = Raise (KeyError "boston") /\
  V1.compute_route_exposure V1.shipped flat_projection "bos-wh"
    "boston" "woods-hole" all_land = Raise (KeyError "boston").
Proof.
  destruct signature_unknown_port as (_ & H2 & H1 & _).
  split.
  - apply (H2 V2.shipped flat_projection "wh-bos"%string
             "woods-hole"%string "boston"%string all_land woods_hole);
      reflexivity.
  - apply H1. reflexivity.
Defined.

Lemma sample_route_points_nonpos (wgs84_to_utm : R -> R -> PlanarPoint)
  (origin dest : Port) (n : Z) :
  (n <= 0)%Z -> sample_route_points wgs84_to_utm origin dest n = Ok [].
Proof.
  intros Hn. unfold sample_route_points. now rewrite py_range_nonpos.
Qed.

(** X11.  With a sample count of zero or less the sampler returns no point,
    and v2's signature computer then raises [ZeroDivisionError] at the
    first direction, where it divides by the number of flags. *)
Theorem shelter_signature_without_samples (cfg : V2.Config)
  (wgs84_to_utm : R -> R -> PlanarPoint) (id origin_slug dest_slug : string)
  (land_geom : LandMask) (origin dest : Port) :
  dict_get String.eqb (V2.PORTS cfg) origin_slug = Some origin ->
  dict_get String.eqb (V2.PORTS cfg) dest_slug = Some dest ->
  (V2.SAMPLE_POINTS_PER_ROUTE cfg <= 0)%Z ->
  sample_route_points wgs84_to_utm origin dest
    (V2.SAMPLE_POINTS_PER_ROUTE cfg) = Ok [] /\
  V2.compute_shelter_signature cfg wgs84_to_utm id origin_slug dest_slug
    land_geom = Raise ZeroDivisionError.
Proof.
  intros Ho Hd Hn.
  pose proof (sample_route_points_nonpos wgs84_to_utm origin dest _ Hn) as Hs.
  split; [exact Hs |].
  unfold V2.compute_shelter_signature.
  rewrite (ports_get_present _ _ _ Ho), (ports_get_present _ _ _ Hd).
  cbn [bind]. rewrite Hs. cbn [bind].
  unfold COMPASS_DIRECTIONS. cbn [for_fold].
  unfold V2.direction_step at 1. cbn [for_each bind].
  unfold V2.shelter_ratio_of. cbn [map List.length V2.count_true filter].
  unfold py_div. cbn [INR]. rewrite Req_bool_true by reflexivity.
  reflexivity.
Qed.

Lemma shelter_signature_without_samples_witness :
  V2.compute_shelter_signature
    {| V2.PORTS := PORTS_table; V2.ROUTES := ROUTES_table;
       V2.SAMPLE_POINTS_PER_ROUTE := 0; V2.MAX_RAY_KM := 30.0;
       V2.SHELTER_THRESHOLD_KM := 3.0; V2.RAY_STEP_M := 50;
       V2.EXPECTED_DISTANCES := [] |}
    flat_projection "wh-vh-ssa" "woods-hole" "vineyard-haven" open_water
  = Raise ZeroDivisionError.
Proof.
  apply (shelter_signature_without_samples _ flat_projection "wh-vh-ssa"
           "woods-hole" "vineyard-haven" open_water woods_hole
           vineyard_haven).
  - reflexivity.
  - reflexivity.
  - simpl. lia.
Defined.

(* ================================================================== *)
(** * Signatures: the remaining fields *)

Lemma py_sum_unit (l : list R) :
  Forall unit_interval l -> 0 <= py_sum l <= INR (List.length l).
Proof.
  induction 1 as [| x l [H0 H1] _ IH].
  - simpl. lra.
  - change (py_sum (x :: l)) with (x + py_sum l).
    change (List.length (x :: l)) with (S (List.length l)).
    rewrite S_INR. lra.
Qed.

Lemma mean_of_unit_scores (scores : DirDict) :
  List.length scores = 16%nat ->
  values_satisfy unit_interval scores ->
  0 <= py_round (py_sum (dict_values scores) / 16) 3 <= 1.
Proof.
  intros Hlen Hval. apply py_round_unit.
  assert (Hf : Forall unit_interval (dict_values scores)).
  { unfold dict_values, values_satisfy in *. now apply Forall_map. }
  apply py_sum_unit in Hf. unfold dict_values in Hf at 3.
  rewrite length_map, Hlen in Hf. simpl in Hf. lra.
Qed.

Lemma NoDup_firstn {A : Type} (n : nat) (l : list A) :
  NoDup l -> NoDup (firstn n l).
Proof.
  intros H. rewrite <- (firstn_skipn n l) in H.
  now apply NoDup_app_remove_r in H.
Qed.

Lemma top3_distinct (scores : DirDict) :
  dict_keys scores = all_directions ->
  List.length (map fst (firstn 3 (sorted_by_value_desc scores))) = 3%nat /\
  NoDup (map fst (firstn 3 (sorted_by_value_desc scores))).
Proof.
  intros Hk. pose proof (sorted_by_value_desc_perm scores) as Hp.
  split.
  - rewrite length_map, length_firstn, (Permutation_length Hp).
    rewrite <- (length_map fst scores). fold (dict_keys scores).
    now rewrite Hk.
  - rewrite <- firstn_map. apply NoDup_firstn.
    apply (Permutation_NoDup (l := map fst scores)).
    + apply Permutation_map. now apply Permutation_sym.
    + fold (dict_keys scores). rewrite Hk. exact all_directions_NoDup.
Qed.

Lemma dir_dict_In {V : Type} (value : R -> V) (dir : CompassDirection)
  (v : V) :
  In (dir, v) (dir_dict value) ->
  exists deg, In (dir, deg) COMPASS_DIRECTIONS /\ v = value deg.
Proof.
  unfold dir_dict. intros H. apply in_map_iff in H.
  destruct H as ([dir' deg] & E & Hin). cbn [fst snd] in E.
  injection E as <- <-. now exists deg.
Qed.

Lemma sample_points_of_nonempty (wgs84_to_utm : R -> R -> PlanarPoint)
  (origin dest : Port) (n : Z) :
  (1 <= n)%Z -> sample_points_of wgs84_to_utm origin dest n <> [].
Proof.
  intros Hn E. apply (f_equal (@List.length PlanarPoint)) in E.
  rewrite sample_points_of_length in E. simpl in E. lia.
Qed.

Lemma ray_distances_nonempty (step : R) (land_geom : LandMask) (max_m : R)
  (points : list PlanarPoint) (deg : R) :
  points <> [] -> ray_distances step land_geom max_m points deg <> [].
Proof.
  unfold ray_distances. destruct points; [contradiction | discriminate].
Qed.

Lemma ray_distances_nonneg (step : R) (land_geom : LandMask) (max_m : R)
  (points : list PlanarPoint) (deg : R) :
  0 < step -> 0 <= max_m ->
  forall d, In d (ray_distances step land_geom max_m points deg) -> 0 <= d.
Proof.
  intros Hstep Hmax d Hd. unfold ray_distances in Hd.
  apply in_map_iff in Hd. destruct Hd as (p & <- & _).
  now apply ray_km_nonneg.
Qed.

(** On a range of whole steps no measurement exceeds the range. *)
Lemma ray_km_le_range (step : R) (point : PlanarPoint) (deg : R)
  (land_geom : LandMask) (K : nat) :
  0 < step ->
  ray_km step point deg land_geom (INR K * step) <= INR K * step / 1000.
Proof.
  intros Hstep. unfold ray_km.
  destruct (cast_cases step point deg land_geom K Hstep)
    as [[-> _] | (k & Hk & -> & _)]; [lra |].
  assert (INR k <= INR K) by (apply le_INR; lia). nra.
Qed.

Lemma effective_fetch_bounds (cfg : V2.Config) (ds : list R) :
  ds <> [] -> 0 <= V2.MAX_RAY_KM cfg ->
  (forall d, In d ds -> 0 <= d) ->
  0 <= effective_fetch_value cfg ds <= V2.MAX_RAY_KM cfg.
Proof.
  intros Hne Hmax Hpos. unfold effective_fetch_value.
  apply median_value_bounds.
  - destruct ds; [contradiction | discriminate].
  - intros x Hx. apply in_map_iff in Hx. destruct Hx as (d & <- & Hd).
    rewrite py_min_Rmin. pose proof (Hpos d Hd).
    unfold Rmin. destruct (Rle_dec d (V2.MAX_RAY_KM cfg)); lra.
Qed.

(** X12.  The rest of a v2 signature.  It carries the route id and the two
    slugs it was asked for; its distances are keyed by the 16 directions
    and lie between 0 and the (rounded) maximum range, whatever the step;
    its mean ratio lies in [0, 1]; its top-3 list names three different
    directions. *)
Theorem shelter_signature_fields (cfg : V2.Config)
  (wgs84_to_utm : R -> R -> PlanarPoint) (id origin_slug dest_slug : string)
  (land_geom : LandMask) (origin dest : Port) :
  dict_get String.eqb (V2.PORTS cfg) origin_slug = Some origin ->
  dict_get String.eqb (V2.PORTS cfg) dest_slug = Some dest ->
  (1 <= V2.SAMPLE_POINTS_PER_ROUTE cfg)%Z ->
  0 < V2.RAY_STEP_M cfg ->
  0 <= V2.MAX_RAY_KM cfg ->
  exists sig,
    V2.compute_shelter_signature cfg wgs84_to_utm id origin_slug dest_slug
      land_geom = Ok sig /\
    V2.route_id sig = id /\
    V2.origin_port sig = origin_slug /\
    V2.destination_port sig = dest_slug /\
    dict_keys (V2.effective_open_fetch_km_by_dir sig) = all_directions /\
    (forall dir v,
       In (dir, v) (V2.effective_open_fetch_km_by_dir sig) ->
       0 <= v <= py_round (V2.MAX_RAY_KM cfg) 2) /\
    0 <= V2.mean_shelter_ratio sig <= 1 /\
    List.length (V2.top_exposure_dirs sig) = 3%nat /\
    NoDup (V2.top_exposure_dirs sig).
Proof.
  intros Ho Hd Hn Hstep Hmax.
  pose proof (compute_shelter_signature_ok cfg wgs84_to_utm land_geom id
                origin_slug dest_slug origin dest
                (ports_get_present _ _ _ Ho) (ports_get_present _ _ _ Hd)
                Hn ltac:(lra)) as Hsig.
  set (points := sample_points_of wgs84_to_utm origin dest
                   (V2.SAMPLE_POINTS_PER_ROUTE cfg)) in *.
  assert (Hne : points <> []) by now apply sample_points_of_nonempty.
  destruct (shelter_signature_invariant _ _ _ _ _ _ _ Hsig)
    as (Hk1 & Hk2 & Hval).
  eexists. split; [exact Hsig |].
  cbn [signature_of V2.route_id V2.origin_port V2.destination_port
       V2.effective_open_fetch_km_by_dir V2.mean_shelter_ratio
       V2.top_exposure_dirs V2.shelter_ratio_by_dir] in *.
  split; [reflexivity |]. split; [reflexivity |]. split; [reflexivity |].
  split; [exact Hk2 |].
  split.
  { intros dir v Hin. unfold effective_fetch_dict in Hin.
    apply dir_dict_In in Hin. destruct Hin as (deg & _ & ->).
    assert (Hb : 0 <= effective_fetch_value cfg
                        (shelter_distances cfg land_geom points deg)
                 <= V2.MAX_RAY_KM cfg).
    { apply effective_fetch_bounds; [| exact Hmax |].
      - now apply ray_distances_nonempty.
      - apply ray_distances_nonneg; [exact Hstep | lra]. }
    split.
    - rewrite <- (py_round_0 2). apply py_round_mono. lra.
    - apply py_round_mono. lra. }
  split.
  { apply mean_of_unit_scores; [apply dir_dict_length | exact Hval]. }
  now apply top3_distinct.
Qed.

Lemma shelter_signature_fields_witness :
  exists sig,
    V2.compute_shelter_signature V2.shipped flat_projection "wh-vh-ssa"
      "woods-hole" "vineyard-haven" all_land = Ok sig /\
    0 <= V2.mean_shelter_ratio sig <= 1.
Proof.
  destruct (shelter_signature_fields V2.shipped flat_projection "wh-vh-ssa"
              "woods-hole" "vineyard-haven" all_land woods_hole
              vineyard_haven)
    as (sig & H & _ & _ & _ & _ & _ & Hm & _).
  - reflexivity.
  - reflexivity.
  - simpl. lia.
  - simpl. lra.
  - simpl. lra.
  - exists sig. split; [exact H | exact Hm].
Defined.

(** X13.  The rest of a v1 record, in a whole-number configuration whose
    range is a whole number of steps.  It carries the route id and the two
    slugs; its fetch distances are keyed by the 16 directions; with one
    sample point or more each is a number between 0 and the maximum fetch,
    and with none each is nan; its average lies in [0, 1]; its top-3 list
    names three different directions. *)
Theorem exposure_fields (cfg : V1.Config)
  (wgs84_to_utm : R -> R -> PlanarPoint) (id origin_slug dest_slug : string)
  (land_geom : LandMask) (origin dest : Port) (K : nat) :
  dict_get String.eqb (V1.PORTS cfg) origin_slug = Some origin ->
  dict_get String.eqb (V1.PORTS cfg) dest_slug = Some dest ->
  whole_steps (V1.RAY_STEP_M cfg) (V1.MAX_FETCH_KM cfg) K ->
  exists e,
    V1.compute_route_exposure cfg wgs84_to_utm id origin_slug dest_slug
      land_geom = Ok e /\
    V1.route_id e = id /\
    V1.origin_port e = origin_slug /\
    V1.destination_port e = dest_slug /\
    dict_keys (V1.fetch_km_by_dir e) = all_directions /\
    ((1 <= V1.SAMPLE_POINTS_PER_ROUTE cfg)%Z ->
     forall dir v,
       In (dir, v) (V1.fetch_km_by_dir e) ->
       exists x, v = Finite x /\ 0 <= x <= V1.MAX_FETCH_KM cfg) /\
    ((V1.SAMPLE_POINTS_PER_ROUTE cfg <= 0)%Z ->
     forall dir v, In (dir, v) (V1.fetch_km_by_dir e) -> v = NaN) /\
    0 <= V1.avg_exposure e <= 1 /\
    List.length (V1.top_exposure_dirs e) = 3%nat /\
    NoDup (V1.top_exposure_dirs e).
Proof.
  intros Ho Hd Hw.
  destruct (whole_steps_facts _ _ _ Hw) as (Hstep & Hmax1 & Hgrid & Hround).
  assert (Hmax : 0 < V1.MAX_FETCH_KM cfg) by lra.
  apply ports_get_present in Ho, Hd.
  destruct (compute_route_exposure_returns cfg wgs84_to_utm Hstep Hmax
              land_geom id origin_slug dest_slug origin dest Ho Hd)
    as (e & He).
  destruct (exposure_invariant _ _ _ _ _ _ _ He) as (Hk1 & Hk2 & Hval).
  destruct (exposure_shape _ _ _ _ _ _ _ He) as (Havg & Htop).
  assert (Hlen : List.length (V1.exposure_by_dir e) = 16%nat).
  { rewrite <- (length_map fst). fold (dict_keys (V1.exposure_by_dir e)).
    rewrite Hk1. reflexivity. }
  exists e. split; [exact He |].
  assert (Hids : V1.route_id e = id /\ V1.origin_port e = origin_slug /\
                 V1.destination_port e = dest_slug).
  { destruct (Z_le_gt_dec 1 (V1.SAMPLE_POINTS_PER_ROUTE cfg)) as [Hn | Hn].
    - rewrite (compute_route_exposure_ok cfg wgs84_to_utm Hstep Hmax land_geom
                 id origin_slug dest_slug origin dest Ho Hd Hn) in He.
      injection He as <-. auto.
    - rewrite (compute_route_exposure_no_samples cfg wgs84_to_utm Hmax
                 land_geom id origin_slug dest_slug origin dest Ho Hd
                 ltac:(lia)) in He.
      injection He as <-. auto. }
  destruct Hids as (Hi1 & Hi2 & Hi3).
  split; [exact Hi1 |]. split; [exact Hi2 |]. split; [exact Hi3 |].
  split; [exact Hk2 |].
  split.
  { intros Hn dir v Hin.
    rewrite (compute_route_exposure_ok cfg wgs84_to_utm Hstep Hmax land_geom
               id origin_slug dest_slug origin dest Ho Hd Hn) in He.
    injection He as <-.
    set (points := sample_points_of wgs84_to_utm origin dest
                     (V1.SAMPLE_POINTS_PER_ROUTE cfg)) in *.
    assert (Hne : points <> []) by now apply sample_points_of_nonempty.
    cbn [exposure_of V1.fetch_km_by_dir] in Hin.
    unfold fetch_km_dict in Hin.
    apply dir_dict_In in Hin. destruct Hin as (deg & _ & ->).
    eexists. split; [reflexivity |].
    assert (Hb : 0 <= median_value (fetch_distances cfg land_geom points deg)
                 <= V1.MAX_FETCH_KM cfg).
    { apply median_value_bounds.
      - now apply ray_distances_nonempty.
      - intros x Hx. split.
        + revert x Hx. apply ray_distances_nonneg; [exact Hstep | lra].
        + unfold fetch_distances, ray_distances in Hx.
          apply in_map_iff in Hx. destruct Hx as (p & <- & _).
          rewrite Hgrid.
          pose proof (ray_km_le_range (V1.RAY_STEP_M cfg) p deg land_geom K
                        Hstep). lra. }
    split.
    - rewrite <- (py_round_0 2). apply py_round_mono. lra.
    - rewrite <- Hround. apply py_round_mono. lra. }
  split.
  { intros Hn dir v Hin.
    rewrite (compute_route_exposure_no_samples cfg wgs84_to_utm Hmax
               land_geom id origin_slug dest_slug origin dest Ho Hd Hn) in He.
    injection He as <-.
    cbn [exposure_without_samples V1.fetch_km_by_dir] in Hin.
    apply dir_dict_In in Hin. now destruct Hin as (deg & _ & ->). }
  split.
  { rewrite Havg, Hlen.
    replace (INR 16) with 16 by (simpl; lra).
    now apply mean_of_unit_scores. }
  rewrite Htop. now apply top3_distinct.
Qed.

(** At the constants of v1, with land north of the route (sampled fetches
    are numbers), and with a sample count of 0 (they are nan). *)
Lemma exposure_fields_witness :
  (exists e,
     V1.compute_route_exposure V1.shipped flat_projection "wh-vh-ssa"
       "woods-hole" "vineyard-haven" (land_north_of 4600000) = Ok e /\
     0 <= V1.avg_exposure e <= 1 /\
     forall dir v,
       In (dir, v) (V1.fetch_km_by_dir e) ->
       exists x, v = Finite x /\ 0 <= x <= 50.0) /\
  (exists e,
     V1.compute_route_exposure
       {| V1.PORTS := PORTS_table; V1.ROUTES := ROUTES_table;
          V1.SAMPLE_POINTS_PER_ROUTE := 0; V1.MAX_FETCH_KM := 50.0;
          V1.RAY_STEP_M := 100 |}
       flat_projection "wh-vh-ssa" "woods-hole" "vineyard-haven"
       (land_north_of 4600000) = Ok e /\
     forall dir v, In (dir, v) (V1.fetch_km_by_dir e) -> v = NaN).
Proof.
  split.
  - destruct (exposure_fields V1.shipped flat_projection "wh-vh-ssa"
                "woods-hole" "vineyard-haven" (land_north_of 4600000)
                woods_hole vineyard_haven 500)
      as (e & H & _ & _ & _ & _ & Hf & _ & Hm & _).
    + reflexivity.
    + reflexivity.
    + exact shipped_exposure_whole_steps.
    + exists e. split; [exact H |]. split; [exact Hm |].
      apply Hf. simpl. lia.
  - match goal with |- context [V1.compute_route_exposure ?c] =>
      destruct (exposure_fields c flat_projection "wh-vh-ssa"
                  "woods-hole" "vineyard-haven" (land_north_of 4600000)
                  woods_hole vineyard_haven 500)
        as (e & H & _ & _ & _ & _ & _ & Hnan & _)
    end.
    + reflexivity.
    + reflexivity.
    + exact shipped_exposure_whole_steps.
    + exists e. split; [exact H |]. apply Hnan. simpl. lia.
Defined.

(** X14.  In a whole-number configuration whose range is a whole number of
    steps, the cap [min(d, MAX_RAY_KM)] of v2 changes no measurement: the
    effective fetch is the median of the raw distances. *)
Theorem capping_changes_nothing (cfg : V2.Config) (land_geom : LandMask)
  (points : list PlanarPoint) (deg : R) (K : nat) :
  whole_steps (V2.RAY_STEP_M cfg) (V2.MAX_RAY_KM cfg) K ->
  exists ds,
    for_each
      (fun p => cast_ray_to_land (V2.RAY_STEP_M cfg) p deg land_geom
                  (V2.MAX_RAY_KM cfg * 1000)) points = Ok ds /\
    map (fun d => py_min d (V2.MAX_RAY_KM cfg)) ds = ds /\
    V2.effective_fetch_of cfg ds = np_median ds.
Proof.
  intros Hw.
  destruct (whole_steps_facts _ _ _ Hw) as (Hstep & _ & Hgrid & _).
  exists (ray_distances (V2.RAY_STEP_M cfg) land_geom
            (V2.MAX_RAY_KM cfg * 1000) points deg).
  split; [apply for_each_cast; lra |].
  assert (Hid : map (fun d => py_min d (V2.MAX_RAY_KM cfg))
                  (ray_distances (V2.RAY_STEP_M cfg) land_geom
                     (V2.MAX_RAY_KM cfg * 1000) points deg)
                = ray_distances (V2.RAY_STEP_M cfg) land_geom
                    (V2.MAX_RAY_KM cfg * 1000) points deg).
  { rewrite <- (map_id (ray_distances _ _ _ _ _)) at 2.
    apply map_ext_in. intros d Hd.
    unfold ray_distances in Hd. apply in_map_iff in Hd.
    destruct Hd as (p & <- & _). rewrite py_min_Rmin, Hgrid.
    pose proof (ray_km_le_range (V2.RAY_STEP_M cfg) p deg land_geom K Hstep).
    apply Rmin_left. lra. }
  split; [exact Hid |].
  unfold V2.effective_fetch_of. now rewrite Hid.
Qed.

Lemma capping_changes_nothing_witness :
  exists ds,
    for_each
      (fun p => cast_ray_to_land (V2.RAY_STEP_M V2.shipped) p 0
                  (land_north_of 120) (V2.MAX_RAY_KM V2.shipped * 1000))
      [(0, 0)] = Ok ds /\
    map (fun d => py_min d (V2.MAX_RAY_KM V2.shipped)) ds = ds /\
    V2.effective_fetch_of V2.shipped ds = np_median ds.
Proof.
  apply (capping_changes_nothing V2.shipped (land_north_of 120) [(0, 0)] 0
           600).
  exact shipped_shelter_whole_steps.
Defined.

(* ================================================================== *)
(** * More land, less exposure *)

(** The number of values of [l] that are at most [x]. *)
Definition count_le (x : R) (l : list R) : nat :=
  List.length (filter (fun a => Rle_bool a x) l).

Lemma count_le_cons (x a : R) (l : list R) :
  count_le x (a :: l)
  = if Rle_bool a x then S (count_le x l) else count_le x l.
Proof. unfold count_le. simpl. now destruct (Rle_bool a x). Qed.

Lemma count_le_perm (x : R) (l l' : list R) :
  Permutation l l' -> count_le x l = count_le x l'.
Proof.
  induction 1 as [| a l l' _ IH | a b l | l1 l2 l3 _ IH1 _ IH2].
  - reflexivity.
  - rewrite !count_le_cons, IH. reflexivity.
  - rewrite !count_le_cons.
    destruct (Rle_bool a x), (Rle_bool b x); reflexivity.
  - now rewrite IH1.
Qed.

Lemma count_le_above (x : R) (l : list R) :
  (forall a, In a l -> x < a) -> count_le x l = 0%nat.
Proof.
  induction l as [| a l IH]; intros H; [reflexivity |].
  rewrite count_le_cons, Rle_bool_false by (apply H; now left).
  apply IH. intros b Hb. apply H. now right.
Qed.

Lemma sorted_nth_count (x : R) (s : list R) :
  StronglySorted Rle s ->
  forall k, (k < List.length s)%nat ->
    nth k s 0 <= x <-> (k < count_le x s)%nat.
Proof.
  induction 1 as [| a t Hs IH Hall]; intros k Hk; [simpl in Hk; lia |].
  rewrite count_le_cons. rewrite Forall_forall in Hall.
  destruct (Rle_dec a x) as [Hax | Hax].
  - rewrite Rle_bool_true by exact Hax.
    destruct k as [| j]; simpl.
    + split; [lia | intros _; exact Hax].
    + simpl in Hk. rewrite (IH j) by lia. lia.
  - rewrite Rle_bool_false by lra.
    assert (Hz : count_le x t = 0%nat).
    { apply count_le_above. intros b Hb. pose proof (Hall b Hb). lra. }
    rewrite Hz. destruct k as [| j]; simpl.
    + split; [intros; lra | lia].
    + simpl in Hk. pose proof (IH j ltac:(lia)) as Hj. rewrite Hz in Hj.
      split; [intros H; apply Hj in H; lia | lia].
Qed.

Lemma count_le_mono (x : R) (l l' : list R) :
  Forall2 Rle l l' -> (count_le x l' <= count_le x l)%nat.
Proof.
  induction 1 as [| a a' l l' Ha _ IH]; [reflexivity |].
  rewrite !count_le_cons.
  destruct (Rle_dec a' x) as [H' | H'].
  - rewrite (Rle_bool_true a' x) by exact H'.
    rewrite (Rle_bool_true a x) by lra. lia.
  - rewrite (Rle_bool_false a' x) by lra.
    destruct (Rle_bool a x); lia.
Qed.

Lemma Forall2_Rle_length (l l' : list R) :
  Forall2 Rle l l' -> List.length l = List.length l'.
Proof. induction 1; simpl; congruence. Qed.

(** Every order statistic is monotone. *)
Lemma sort_asc_nth_mono (l l' : list R) (k : nat) :
  Forall2 Rle l l' ->
  (k < List.length l)%nat ->
  nth k (sort_asc l) 0 <= nth k (sort_asc l') 0.
Proof.
  intros Hle Hk. pose proof (Forall2_Rle_length _ _ Hle) as Hlen.
  apply (sorted_nth_count _ _ (sort_asc_sorted l));
    [rewrite sort_asc_length; exact Hk |].
  rewrite (count_le_perm _ _ _ (sort_asc_perm l)).
  eapply Nat.lt_le_trans; [| apply count_le_mono; exact Hle].
  rewrite <- (count_le_perm _ _ _ (sort_asc_perm l')).
  apply (sorted_nth_count _ _ (sort_asc_sorted l'));
    [rewrite sort_asc_length; lia | lra].
Qed.

Lemma median_value_mono (l l' : list R) :
  Forall2 Rle l l' -> median_value l <= median_value l'.
Proof.
  intros Hle. pose proof (Forall2_Rle_length _ _ Hle) as Hlen.
  unfold median_value. rewrite !sort_asc_length, <- Hlen.
  destruct l as [| a l0] eqn:El.
  - inversion Hle; subst. simpl. lra.
  - rewrite <- El in *.
    assert (Hpos : (0 < List.length l)%nat) by (rewrite El; simpl; lia).
    assert (Hhalf : (List.length l / 2 < List.length l)%nat)
      by (apply Nat.div_lt; lia).
    pose proof (sort_asc_nth_mono l l' (List.length l / 2) Hle Hhalf).
    pose proof (sort_asc_nth_mono l l' (List.length l / 2 - 1) Hle
                  ltac:(lia)).
    destruct (Nat.even (List.length l)); lra.
Qed.

Lemma Forall2_map_le {A : Type} (f g : A -> R) (l : list A) :
  (forall a, In a l -> f a <= g a) -> Forall2 Rle (map f l) (map g l).
Proof.
  induction l as [| a l IH]; intros H; simpl; constructor.
  - apply H. now left.
  - apply IH. intros b Hb. apply H. now right.
Qed.

Lemma Forall2_map_mono (f : R -> R) (l l' : list R) :
  (forall a b, a <= b -> f a <= f b) ->
  Forall2 Rle l l' -> Forall2 Rle (map f l) (map f l').
Proof.
  intros Hf. induction 1; simpl; constructor; auto.
Qed.

Lemma count_true_sheltered_mono (cfg : V2.Config) (l l' : list R) :
  Forall2 Rle l l' ->
  (V2.count_true (map (V2.is_sheltered cfg) l')
   <= V2.count_true (map (V2.is_sheltered cfg) l))%nat.
Proof.
  induction 1 as [| a a' l l' Ha _ IH]; [reflexivity |].
  unfold V2.count_true in *. simpl.
  destruct (V2.is_sheltered cfg a') eqn:E'.
  - apply is_sheltered_spec in E'.
    assert (E : V2.is_sheltered cfg a = true)
      by (apply is_sheltered_spec; lra).
    rewrite E. simpl. lia.
  - destruct (V2.is_sheltered cfg a); simpl; lia.
Qed.

Lemma shelter_ratio_value_mono (cfg : V2.Config) (l l' : list R) :
  l <> [] -> Forall2 Rle l l' ->
  shelter_ratio_value cfg l <= shelter_ratio_value cfg l'.
Proof.
  intros Hne Hle. unfold shelter_ratio_value.
  rewrite <- (Forall2_Rle_length _ _ Hle).
  assert (Hn : 0 < INR (List.length l)).
  { destruct l; [contradiction |]. apply lt_0_INR. simpl. lia. }
  pose proof (le_INR _ _ (count_true_sheltered_mono cfg l l' Hle)) as Hc.
  assert (Hinv : 0 < / INR (List.length l)) by now apply Rinv_0_lt_compat.
  unfold Rdiv. nra.
Qed.

Lemma py_min_mono (m a b : R) : a <= b -> py_min a m <= py_min b m.
Proof.
  intros H. rewrite !py_min_Rmin. unfold Rmin.
  destruct (Rle_dec a m), (Rle_dec b m); lra.
Qed.

Lemma effective_fetch_value_mono (cfg : V2.Config) (l l' : list R) :
  Forall2 Rle l l' ->
  effective_fetch_value cfg l <= effective_fetch_value cfg l'.
Proof.
  intros Hle. unfold effective_fetch_value.
  apply median_value_mono, Forall2_map_mono; [| exact Hle].
  intros a b. apply py_min_mono.
Qed.

Lemma py_sum_map_le (f g : R -> R) (l : list R) :
  (forall a, f a <= g a) -> py_sum (map f l) <= py_sum (map g l).
Proof.
  intros H. induction l as [| a l IH]; simpl; [lra |].
  pose proof (H a). lra.
Qed.

Lemma compass_degrees (dir : CompassDirection) :
  exists deg, In (dir, deg) COMPASS_DIRECTIONS.
Proof.
  destruct dir; eexists; unfold COMPASS_DIRECTIONS; cbn [In];
    repeat (first [left; reflexivity | right]).
Qed.

Lemma ray_distances_more_land (step : R) (land1 land2 : LandMask) (K : nat)
  (points : list PlanarPoint) (deg : R) :
  0 < step ->
  (forall q, land1 q = true -> land2 q = true) ->
  Forall2 Rle (ray_distances step land2 (INR K * step) points deg)
    (ray_distances step land1 (INR K * step) points deg).
Proof.
  intros Hstep Hsub. unfold ray_distances. apply Forall2_map_le.
  intros p _. now apply ray_km_more_land.
Qed.

(** X15.  In v2, adding land to the mask never raises a score.  In a
    whole-number configuration whose range is a whole number of steps, for
    a route sampled at one point or more and two masks of which the second
    contains the first, every direction of the signature over the second
    has a shelter ratio and an effective fetch at most those over the
    first, and so has the mean ratio. *)
Theorem more_land_less_open (cfg : V2.Config)
  (wgs84_to_utm : R -> R -> PlanarPoint) (id origin_slug dest_slug : string)
  (land1 land2 : LandMask) (origin dest : Port) (K : nat) :
  dict_get String.eqb (V2.PORTS cfg) origin_slug = Some origin ->
  dict_get String.eqb (V2.PORTS cfg) dest_slug = Some dest ->
  (1 <= V2.SAMPLE_POINTS_PER_ROUTE cfg)%Z ->
  whole_steps (V2.RAY_STEP_M cfg) (V2.MAX_RAY_KM cfg) K ->
  (forall q, land1 q = true -> land2 q = true) ->
  exists sig1 sig2,
    V2.compute_shelter_signature cfg wgs84_to_utm id origin_slug dest_slug
      land1 = Ok sig1 /\
    V2.compute_shelter_signature cfg wgs84_to_utm id origin_slug dest_slug
      land2 = Ok sig2 /\
    (forall dir, exists s1 s2 f1 f2,
       dict_get Compass.eqb (V2.shelter_ratio_by_dir sig1) dir = Some s1 /\
       dict_get Compass.eqb (V2.shelter_ratio_by_dir sig2) dir = Some s2 /\
       s2 <= s1 /\
       dict_get Compass.eqb (V2.effective_open_fetch_km_by_dir sig1) dir
       = Some f1 /\
       dict_get Compass.eqb (V2.effective_open_fetch_km_by_dir sig2) dir
       = Some f2 /\
       f2 <= f1) /\
    V2.mean_shelter_ratio sig2 <= V2.mean_shelter_ratio sig1.
Proof.
  intros Ho Hd Hn Hw Hsub.
  destruct (whole_steps_facts _ _ _ Hw) as (Hstep & _ & Hgrid & _).
  assert (Hok : forall land,
            V2.compute_shelter_signature cfg wgs84_to_utm id origin_slug
              dest_slug land
            = Ok (signature_of cfg land id origin_slug dest_slug
                    (sample_points_of wgs84_to_utm origin dest
                       (V2.SAMPLE_POINTS_PER_ROUTE cfg)))).
  { intros land. apply compute_shelter_signature_ok;
      [now apply ports_get_present | now apply ports_get_present
      | exact Hn | lra]. }
  set (points := sample_points_of wgs84_to_utm origin dest
                   (V2.SAMPLE_POINTS_PER_ROUTE cfg)) in *.
  assert (Hne : points <> []) by now apply sample_points_of_nonempty.
  assert (Hds : forall deg,
            Forall2 Rle (shelter_distances cfg land2 points deg)
              (shelter_distances cfg land1 points deg)).
  { intros deg. unfold shelter_distances. rewrite Hgrid.
    now apply ray_distances_more_land. }
  assert (Hratio : forall deg,
            py_round (shelter_ratio_value cfg
                        (shelter_distances cfg land2 points deg)) 3
            <= py_round (shelter_ratio_value cfg
                           (shelter_distances cfg land1 points deg)) 3).
  { intros deg. apply py_round_mono, shelter_ratio_value_mono;
      [now apply ray_distances_nonempty | apply Hds]. }
  eexists. eexists.
  split; [apply Hok |]. split; [apply Hok |].
  cbn [signature_of V2.shelter_ratio_by_dir V2.effective_open_fetch_km_by_dir
       V2.mean_shelter_ratio].
  split.
  - intros dir. destruct (compass_degrees dir) as (deg & Hin).
    do 4 eexists. unfold shelter_ratio_dict, effective_fetch_dict.
    rewrite !(dir_dict_get _ dir deg Hin).
    split; [reflexivity |]. split; [reflexivity |].
    split; [apply Hratio |].
    split; [reflexivity |]. split; [reflexivity |].
    apply py_round_mono, effective_fetch_value_mono, Hds.
  - apply py_round_mono. unfold shelter_ratio_dict.
    rewrite !dir_dict_values.
    pose proof (py_sum_map_le _ _ (dict_values COMPASS_DIRECTIONS) Hratio).
    lra.
Qed.

(** Land north of y = 4600000 m, and more of it: north of y = 4595000 m. *)
Lemma more_land_less_open_witness :
  exists sig1 sig2,
    V2.compute_shelter_signature V2.shipped flat_projection "wh-vh-ssa"
      "woods-hole" "vineyard-haven" (land_north_of 4600000) = Ok sig1 /\
    V2.compute_shelter_signature V2.shipped flat_projection "wh-vh-ssa"
      "woods-hole" "vineyard-haven" (land_north_of 4595000) = Ok sig2 /\
    V2.mean_shelter_ratio sig2 <= V2.mean_shelter_ratio sig1.
Proof.
  destruct (more_land_less_open V2.shipped flat_projection "wh-vh-ssa"
              "woods-hole" "vineyard-haven" (land_north_of 4600000)
              (land_north_of 4595000) woods_hole vineyard_haven 600)
    as (sig1 & sig2 & H1 & H2 & _ & Hm).
  - reflexivity.
  - reflexivity.
  - simpl. lia.
  - exact shipped_shelter_whole_steps.
  - intros q. unfold land_north_of. rewrite !Rle_bool_spec. lra.
  - exists sig1, sig2. repeat split; assumption.
Defined.

(** X16.  In v1, adding land to the mask never raises a score.  In a
    whole-number configuration whose range is a whole number of steps, for
    a route sampled at one point or more and two masks of which the second
    contains the first, every direction of the record over the second has
    an exposure and a fetch distance at most those over the first, and so
    has the average. *)
Theorem more_land_less_exposure (cfg : V1.Config)
  (wgs84_to_utm : R -> R -> PlanarPoint) (id origin_slug dest_slug : string)
  (land1 land2 : LandMask) (origin dest : Port) (K : nat) :
  dict_get String.eqb (V1.PORTS cfg) origin_slug = Some origin ->
  dict_get String.eqb (V1.PORTS cfg) dest_slug = Some dest ->
  (1 <= V1.SAMPLE_POINTS_PER_ROUTE cfg)%Z ->
  whole_steps (V1.RAY_STEP_M cfg) (V1.MAX_FETCH_KM cfg) K ->
  (forall q, land1 q = true -> land2 q = true) ->
  exists e1 e2,
    V1.compute_route_exposure cfg wgs84_to_utm id origin_slug dest_slug
      land1 = Ok e1 /\
    V1.compute_route_exposure cfg wgs84_to_utm id origin_slug dest_slug
      land2 = Ok e2 /\
    (forall dir, exists s1 s2 f1 f2,
       dict_get Compass.eqb (V1.exposure_by_dir e1) dir = Some s1 /\
       dict_get Compass.eqb (V1.exposure_by_dir e2) dir = Some s2 /\
       s2 <= s1 /\
       dict_get Compass.eqb (V1.fetch_km_by_dir e1) dir = Some (Finite f1) /\
       dict_get Compass.eqb (V1.fetch_km_by_dir e2) dir = Some (Finite f2) /\
       f2 <= f1) /\
    V1.avg_exposure e2 <= V1.avg_exposure e1.
Proof.
  intros Ho Hd Hn Hw Hsub.
  destruct (whole_steps_facts _ _ _ Hw) as (Hstep & Hmax1 & Hgrid & _).
  assert (Hmax : 0 < V1.MAX_FETCH_KM cfg) by lra.
  assert (Hok : forall land,
            V1.compute_route_exposure cfg wgs84_to_utm id origin_slug
              dest_slug land
            = Ok (exposure_of cfg land id origin_slug dest_slug
                    (sample_points_of wgs84_to_utm origin dest
                       (V1.SAMPLE_POINTS_PER_ROUTE cfg)))).
  { intros land. apply compute_route_exposure_ok;
      [exact Hstep | exact Hmax | now apply ports_get_present
      | now apply ports_get_present | exact Hn]. }
  set (points := sample_points_of wgs84_to_utm origin dest
                   (V1.SAMPLE_POINTS_PER_ROUTE cfg)) in *.
  assert (Hne : points <> []) by now apply sample_points_of_nonempty.
  assert (Hmed : forall deg,
            median_value (fetch_distances cfg land2 points deg)
            <= median_value (fetch_distances cfg land1 points deg)).
  { intros deg. apply median_value_mono. unfold fetch_distances.
    rewrite Hgrid. now apply ray_distances_more_land. }
  assert (Hexp : forall deg,
            py_round (exposure_value cfg
                        (median_value (fetch_distances cfg land2 points deg)))
              3
            <= py_round (exposure_value cfg
                           (median_value
                              (fetch_distances cfg land1 points deg))) 3).
  { intros deg. apply py_round_mono. unfold exposure_value.
    apply clamp01_mono, log_fetch_ratio_mono; [exact Hmax | | apply Hmed].
    assert (0 <= median_value (fetch_distances cfg land2 points deg))
      by (apply fetch_median_nonneg; assumption).
    lra. }
  eexists. eexists.
  split; [apply Hok |]. split; [apply Hok |].
  cbn [exposure_of V1.exposure_by_dir V1.fetch_km_by_dir V1.avg_exposure].
  split.
  - intros dir. destruct (compass_degrees dir) as (deg & Hin).
    do 4 eexists. unfold exposure_dict, fetch_km_dict.
    rewrite !(dir_dict_get _ dir deg Hin).
    split; [reflexivity |]. split; [reflexivity |].
    split; [apply Hexp |].
    split; [reflexivity |]. split; [reflexivity |].
    apply py_round_mono, Hmed.
  - apply py_round_mono. unfold exposure_dict.
    rewrite !dir_dict_values.
    pose proof (py_sum_map_le _ _ (dict_values COMPASS_DIRECTIONS) Hexp).
    lra.
Qed.

Lemma more_land_less_exposure_witness :
  exists e1 e2,
    V1.compute_route_exposure V1.shipped flat_projection "wh-vh-ssa"
      "woods-hole" "vineyard-haven" (land_north_of 4600000) = Ok e1 /\
    V1.compute_route_exposure V1.shipped flat_projection "wh-vh-ssa"
      "woods-hole" "vineyard-haven" (land_north_of 4595000) = Ok e2 /\
    V1.avg_exposure e2 <= V1.avg_exposure e1.
Proof.
  destruct (more_land_less_exposure V1.shipped flat_projection "wh-vh-ssa"
              "woods-hole" "vineyard-haven" (land_north_of 4600000)
              (land_north_of 4595000) woods_hole vineyard_haven 500)
    as (e1 & e2 & H1 & H2 & _ & Hm).
  - reflexivity.
  - reflexivity.
  - simpl. lia.
  - exact shipped_exposure_whole_steps.
  - intros q. unfold land_north_of. rewrite !Rle_bool_spec. lra.
  - exists e1, e2. repeat split; assumption.
Defined.

(* ================================================================== *)
(** * No land, and land everywhere *)

Lemma ray_over_all_land (step : R) (p : PlanarPoint) (deg max_m : R) :
  0 < step -> 0 < max_m ->
  ray_km step p deg all_land max_m = step / 1000.
Proof.
  intros Hstep Hmax. unfold ray_km.
  rewrite (cast_unfold_any step p deg all_land max_m Hstep).
  destruct (steps_in_range_bounds step max_m Hstep Hmax) as (HN & _).
  destruct (steps_in_range step max_m) as [| m]; [lia |].
  cbn [seq map first_land all_land]. simpl INR. f_equal. lra.
Qed.

Lemma distances_over_all_land (step : R) (max_m : R)
  (points : list PlanarPoint) (deg : R) :
  0 < step -> 0 < max_m ->
  forall x, In x (ray_distances step all_land max_m points deg) ->
            x = step / 1000.
Proof.
  intros Hstep Hmax x Hx. unfold ray_distances in Hx.
  apply in_map_iff in Hx. destruct Hx as (p & <- & _).
  now apply ray_over_all_land.
Qed.

(** A stable sort leaves items of one value in their order. *)
Lemma sorted_by_value_desc_constant {K : Type} (c : R) (l : list (K * R)) :
  (forall item, In item l -> snd item = c) ->
  sorted_by_value_desc l = l.
Proof.
  induction l as [| x l IH]; intros H; [reflexivity |].
  unfold sorted_by_value_desc in *. cbn [fold_right].
  rewrite IH by (intros item Hi; apply H; now right).
  destruct l as [| y l']; [reflexivity |].
  cbn [insert_desc].
  rewrite (H x) by (now left).
  rewrite (H y) by (right; now left).
  now rewrite Rlt_bool_false by lra.
Qed.

Lemma top3_of_constant (c : R) :
  map fst (firstn 3 (sorted_by_value_desc (dir_dict (fun _ => c))))
  = [Compass.N; Compass.NNE; Compass.NE].
Proof.
  rewrite (sorted_by_value_desc_constant c); [reflexivity |].
  intros item Hin. unfold dir_dict in Hin. apply in_map_iff in Hin.
  destruct Hin as (i & <- & _). reflexivity.
Qed.

Lemma mean_of_constant (c : R) :
  py_sum (dict_values (dir_dict (fun _ => c))) / 16 = c.
Proof. rewrite dir_dict_constant_values. unfold py_sum. simpl. lra. Qed.

Lemma py_round_idempotent (x : R) (k : nat) :
  py_round (py_round x k) k = py_round x k.
Proof. unfold py_round at 2 3. apply py_round_fixed. Qed.

Lemma dir_dict_constant_get {V : Type} (c : V) (dir : CompassDirection) :
  dict_get Compass.eqb (dir_dict (fun _ => c)) dir = Some c.
Proof.
  destruct (compass_degrees dir) as (deg & Hin).
  exact (dir_dict_get (fun _ => c) dir deg Hin).
Qed.

(** X17.  The two extremes of v2.  With no land at all, and a threshold
    below the range, every direction of every route is fully open: ratio 1,
    effective fetch the range, mean 1.  With land everywhere, and a step
    within the threshold, every direction is fully sheltered: ratio 0,
    effective fetch one step, mean 0.  In both, the 16 scores being equal,
    the top-3 list is N, NNE, NE. *)
Theorem shelter_signature_extremes (cfg : V2.Config)
  (wgs84_to_utm : R -> R -> PlanarPoint) (id origin_slug dest_slug : string)
  (origin dest : Port) :
  dict_get String.eqb (V2.PORTS cfg) origin_slug = Some origin ->
  dict_get String.eqb (V2.PORTS cfg) dest_slug = Some dest ->
  (1 <= V2.SAMPLE_POINTS_PER_ROUTE cfg)%Z ->
  0 < V2.RAY_STEP_M cfg ->
  0 < V2.MAX_RAY_KM cfg ->
  (V2.SHELTER_THRESHOLD_KM cfg < V2.MAX_RAY_KM cfg ->
   exists sig,
     V2.compute_shelter_signature cfg wgs84_to_utm id origin_slug dest_slug
       open_water = Ok sig /\
     (forall dir,
        dict_get Compass.eqb (V2.shelter_ratio_by_dir sig) dir = Some 1 /\
        dict_get Compass.eqb (V2.effective_open_fetch_km_by_dir sig) dir
        = Some (py_round (V2.MAX_RAY_KM cfg) 2)) /\
     V2.mean_shelter_ratio sig = 1 /\
     V2.top_exposure_dirs sig = [Compass.N; Compass.NNE; Compass.NE]) /\
  (V2.RAY_STEP_M cfg / 1000 <= V2.SHELTER_THRESHOLD_KM cfg ->
   exists sig,
     V2.compute_shelter_signature cfg wgs84_to_utm id origin_slug dest_slug
       all_land = Ok sig /\
     (forall dir,
        dict_get Compass.eqb (V2.shelter_ratio_by_dir sig) dir = Some 0 /\
        dict_get Compass.eqb (V2.effective_open_fetch_km_by_dir sig) dir
        = Some (py_round
                  (py_min (V2.RAY_STEP_M cfg / 1000) (V2.MAX_RAY_KM cfg)) 2))
     /\
     V2.mean_shelter_ratio sig = 0 /\
     V2.top_exposure_dirs sig = [Compass.N; Compass.NNE; Compass.NE]).
Proof.
  intros Ho Hd Hn Hstep Hmax.
  assert (Hok : forall land,
            V2.compute_shelter_signature cfg wgs84_to_utm id origin_slug
              dest_slug land
            = Ok (signature_of cfg land id origin_slug dest_slug
                    (sample_points_of wgs84_to_utm origin dest
                       (V2.SAMPLE_POINTS_PER_ROUTE cfg)))).
  { intros land. apply compute_shelter_signature_ok;
      [now apply ports_get_present | now apply ports_get_present
      | exact Hn | lra]. }
  set (points := sample_points_of wgs84_to_utm origin dest
                   (V2.SAMPLE_POINTS_PER_ROUTE cfg)) in *.
  assert (Hne : points <> []) by now apply sample_points_of_nonempty.
  split; intros Hthr.
  - assert (Hds : forall deg x,
              In x (shelter_distances cfg open_water points deg) ->
              x = V2.MAX_RAY_KM cfg).
    { intros deg x Hx. unfold shelter_distances in Hx.
      apply distances_over_open_water in Hx; [| lra]. subst x. field. }
    assert (Hr : shelter_ratio_dict cfg open_water points
                 = dir_dict (fun _ => 1)).
    { apply dir_dict_ext. intros deg.
      rewrite shelter_ratio_none_sheltered; [apply py_round_1 |].
      intros x Hx. rewrite (Hds deg x Hx). lra. }
    assert (Hf : effective_fetch_dict cfg open_water points
                 = dir_dict (fun _ => py_round (V2.MAX_RAY_KM cfg) 2)).
    { apply dir_dict_ext. intros deg. f_equal.
      unfold effective_fetch_value. apply median_value_constant.
      - pose proof (ray_distances_nonempty (V2.RAY_STEP_M cfg) open_water
                      (V2.MAX_RAY_KM cfg * 1000) points deg Hne) as H.
        fold (shelter_distances cfg open_water points deg) in H.
        destruct (shelter_distances cfg open_water points deg);
          [contradiction | discriminate].
      - intros x Hx. apply in_map_iff in Hx. destruct Hx as (d0 & <- & Hd0).
        rewrite (Hds deg d0 Hd0), py_min_Rmin. apply Rmin_left. lra. }
    eexists. split; [apply Hok |].
    cbn [signature_of V2.shelter_ratio_by_dir
         V2.effective_open_fetch_km_by_dir V2.mean_shelter_ratio
         V2.top_exposure_dirs].
    rewrite Hr, Hf. split; [| split].
    + intros dir. split; apply dir_dict_constant_get.
    + rewrite mean_of_constant. apply py_round_1.
    + apply top3_of_constant.
  - assert (Hds : forall deg x,
              In x (shelter_distances cfg all_land points deg) ->
              x = V2.RAY_STEP_M cfg / 1000).
    { intros deg x Hx. unfold shelter_distances in Hx.
      apply distances_over_all_land in Hx; [exact Hx | lra | lra]. }
    assert (Hnonempty : forall deg,
              shelter_distances cfg all_land points deg <> []).
    { intros deg. unfold shelter_distances.
      now apply ray_distances_nonempty. }
    assert (Hr : shelter_ratio_dict cfg all_land points
                 = dir_dict (fun _ => 0)).
    { apply dir_dict_ext. intros deg.
      rewrite shelter_ratio_all_sheltered; [apply py_round_0 | apply Hnonempty |].
      intros x Hx. rewrite (Hds deg x Hx). lra. }
    assert (Hf : effective_fetch_dict cfg all_land points
                 = dir_dict (fun _ =>
                     py_round (py_min (V2.RAY_STEP_M cfg / 1000)
                                 (V2.MAX_RAY_KM cfg)) 2)).
    { apply dir_dict_ext. intros deg. f_equal.
      unfold effective_fetch_value. apply median_value_constant.
      - pose proof (Hnonempty deg) as H.
        destruct (shelter_distances cfg all_land points deg);
          [contradiction | discriminate].
      - intros x Hx. apply in_map_iff in Hx. destruct Hx as (d0 & <- & Hd0).
        now rewrite (Hds deg d0 Hd0). }
    eexists. split; [apply Hok |].
    cbn [signature_of V2.shelter_ratio_by_dir
         V2.effective_open_fetch_km_by_dir V2.mean_shelter_ratio
         V2.top_exposure_dirs].
    rewrite Hr, Hf. split; [| split].
    + intros dir. split; apply dir_dict_constant_get.
    + rewrite mean_of_constant. apply py_round_0.
    + apply top3_of_constant.
Qed.

Lemma shelter_signature_extremes_witness :
  exists sig,
    V2.compute_shelter_signature V2.shipped flat_projection "hy-nan-ssa"
      "hyannis" "nantucket" open_water = Ok sig /\
    V2.mean_shelter_ratio sig = 1 /\
    V2.top_exposure_dirs sig = [Compass.N; Compass.NNE; Compass.NE].
Proof.
  destruct (shelter_signature_extremes V2.shipped flat_projection
              "hy-nan-ssa" "hyannis" "nantucket"
              (shipped_port "hyannis") (shipped_port "nantucket"))
    as (Hopen & _).
  - reflexivity.
  - reflexivity.
  - simpl. lia.
  - simpl. lra.
  - simpl. lra.
  - destruct Hopen as (sig & H & _ & Hm & Ht); [simpl; lra |].
    exists sig. repeat split; assumption.
Defined.

(** X18.  The two extremes of v1.  With no land at all every direction has
    exposure 1 and the maximum fetch, and the average is 1.  With land
    everywhere every ray stops at its first step, so every direction has
    the log-fetch score of one step, which is positive before rounding:
    the model's score 0 belongs to distance 0, which no ray measures.  In
    both, the 16 scores being equal, the top-3 list is N, NNE, NE. *)
Theorem exposure_extremes (cfg : V1.Config)
  (wgs84_to_utm : R -> R -> PlanarPoint) (id origin_slug dest_slug : string)
  (origin dest : Port) :
  dict_get String.eqb (V1.PORTS cfg) origin_slug = Some origin ->
  dict_get String.eqb (V1.PORTS cfg) dest_slug = Some dest ->
  (1 <= V1.SAMPLE_POINTS_PER_ROUTE cfg)%Z ->
  0 < V1.RAY_STEP_M cfg ->
  0 < V1.MAX_FETCH_KM cfg ->
  (exists e,
     V1.compute_route_exposure cfg wgs84_to_utm id origin_slug dest_slug
       open_water = Ok e /\
     (forall dir,
        dict_get Compass.eqb (V1.exposure_by_dir e) dir = Some 1 /\
        dict_get Compass.eqb (V1.fetch_km_by_dir e) dir
        = Some (Finite (py_round (V1.MAX_FETCH_KM cfg) 2))) /\
     V1.avg_exposure e = 1 /\
     V1.top_exposure_dirs e = [Compass.N; Compass.NNE; Compass.NE]) /\
  (V1.RAY_STEP_M cfg / 1000 <= V1.MAX_FETCH_KM cfg ->
   0 < ln (V1.RAY_STEP_M cfg / 1000 + 1) / ln (V1.MAX_FETCH_KM cfg + 1) /\
   exists e,
     V1.compute_route_exposure cfg wgs84_to_utm id origin_slug dest_slug
       all_land = Ok e /\
     (forall dir,
        dict_get Compass.eqb (V1.exposure_by_dir e) dir
        = Some (py_round
                  (ln (V1.RAY_STEP_M cfg / 1000 + 1)
                   / ln (V1.MAX_FETCH_KM cfg + 1)) 3) /\
        dict_get Compass.eqb (V1.fetch_km_by_dir e) dir
        = Some (Finite (py_round (V1.RAY_STEP_M cfg / 1000) 2))) /\
     V1.avg_exposure e
     = py_round
         (ln (V1.RAY_STEP_M cfg / 1000 + 1) / ln (V1.MAX_FETCH_KM cfg + 1))
         3 /\
     V1.top_exposure_dirs e = [Compass.N; Compass.NNE; Compass.NE]).
Proof.
  intros Ho Hd Hn Hstep Hmax.
  pose proof (ln_max_fetch_pos cfg Hmax) as Hl.
  assert (Hok : forall land,
            V1.compute_route_exposure cfg wgs84_to_utm id origin_slug
              dest_slug land
            = Ok (exposure_of cfg land id origin_slug dest_slug
                    (sample_points_of wgs84_to_utm origin dest
                       (V1.SAMPLE_POINTS_PER_ROUTE cfg)))).
  { intros land. apply compute_route_exposure_ok;
      [exact Hstep | exact Hmax | now apply ports_get_present
      | now apply ports_get_present | exact Hn]. }
  set (points := sample_points_of wgs84_to_utm origin dest
                   (V1.SAMPLE_POINTS_PER_ROUTE cfg)) in *.
  assert (Hne : points <> []) by now apply sample_points_of_nonempty.
  split.
  - assert (Hmed : forall deg,
              median_value (fetch_distances cfg open_water points deg)
              = V1.MAX_FETCH_KM cfg).
    { intros deg. apply median_value_constant.
      - unfold fetch_distances. now apply ray_distances_nonempty.
      - intros x Hx. unfold fetch_distances in Hx.
        apply distances_over_open_water in Hx; [| lra]. subst x. field. }
    assert (He : exposure_dict cfg open_water points = dir_dict (fun _ => 1)).
    { apply dir_dict_ext. intros deg. rewrite Hmed. unfold exposure_value.
      replace (ln (V1.MAX_FETCH_KM cfg + 1) / ln (V1.MAX_FETCH_KM cfg + 1))
        with 1 by (field; lra).
      rewrite clamp01_id by lra. apply py_round_1. }
    assert (Hf : fetch_km_dict cfg open_water points
                 = dir_dict
                     (fun _ => Finite (py_round (V1.MAX_FETCH_KM cfg) 2))).
    { apply dir_dict_ext. intros deg. now rewrite Hmed. }
    eexists. split; [apply Hok |].
    cbn [exposure_of V1.exposure_by_dir V1.fetch_km_by_dir V1.avg_exposure
         V1.top_exposure_dirs].
    rewrite He, Hf. split; [| split].
    + intros dir. split; apply dir_dict_constant_get.
    + rewrite mean_of_constant. apply py_round_1.
    + apply top3_of_constant.
  - intros Hle.
    assert (Hpos : 0 < ln (V1.RAY_STEP_M cfg / 1000 + 1)).
    { rewrite <- ln_1. apply ln_increasing; lra. }
    assert (Hratio : 0 < ln (V1.RAY_STEP_M cfg / 1000 + 1)
                         / ln (V1.MAX_FETCH_KM cfg + 1) <= 1).
    { split; [apply Rdiv_lt_0_compat; assumption |].
      apply Rmult_le_reg_r with (ln (V1.MAX_FETCH_KM cfg + 1)); [exact Hl |].
      unfold Rdiv. rewrite Rmult_assoc, Rinv_l, Rmult_1_r, Rmult_1_l by lra.
      apply ln_le; lra. }
    split; [apply Hratio |].
    assert (Hmed : forall deg,
              median_value (fetch_distances cfg all_land points deg)
              = V1.RAY_STEP_M cfg / 1000).
    { intros deg. apply median_value_constant.
      - unfold fetch_distances. now apply ray_distances_nonempty.
      - intros x Hx. unfold fetch_distances in Hx.
        apply distances_over_all_land in Hx; [exact Hx | lra | lra]. }
    set (score := py_round
                    (ln (V1.RAY_STEP_M cfg / 1000 + 1)
                     / ln (V1.MAX_FETCH_KM cfg + 1)) 3).
    assert (He : exposure_dict cfg all_land points
                 = dir_dict (fun _ => score)).
    { apply dir_dict_ext. intros deg. rewrite Hmed. unfold exposure_value.
      rewrite clamp01_id by lra. reflexivity. }
    assert (Hf : fetch_km_dict cfg all_land points
                 = dir_dict
                     (fun _ => Finite (py_round (V1.RAY_STEP_M cfg / 1000) 2))).
    { apply dir_dict_ext. intros deg. now rewrite Hmed. }
    eexists. split; [apply Hok |].
    cbn [exposure_of V1.exposure_by_dir V1.fetch_km_by_dir V1.avg_exposure
         V1.top_exposure_dirs].
    rewrite He, Hf. split; [| split].
    + intros dir. split; apply dir_dict_constant_get.
    + rewrite mean_of_constant. apply py_round_idempotent.
    + apply top3_of_constant.
Qed.

Lemma exposure_extremes_witness :
  exists e,
    V1.compute_route_exposure V1.shipped flat_projection "hy-nan-ssa"
      "hyannis" "nantucket" open_water = Ok e /\
    V1.avg_exposure e = 1 /\
    V1.top_exposure_dirs e = [Compass.N; Compass.NNE; Compass.NE].
Proof.
  destruct (exposure_extremes V1.shipped flat_projection
              "hy-nan-ssa" "hyannis" "nantucket"
              (shipped_port "hyannis") (shipped_port "nantucket"))
    as (Hopen & _).
  - reflexivity.
  - reflexivity.
  - simpl. lia.
  - simpl. lra.
  - simpl. lra.
  - destruct Hopen as (e & H & _ & Hm & Ht).
    exists e. repeat split; assumption.
Defined.

(* ================================================================== *)
(** * Dictionaries built in a loop *)

Section DictLoop.
Context {K V A : Type}.
Variable eqb : K -> K -> bool.
Hypothesis eqb_spec : forall a b, eqb a b = true <-> a = b.
Variable key : A -> K.
Variable value : A -> V.

(** [d = {}; for r in l: d[key(r)] = value(r)]. *)
Definition dict_of (l : list A) : list (K * V) :=
  fold_left (fun d r => dict_set eqb d (key r) (value r)) l [].

Lemma eqb_neq (a b : K) : a <> b -> eqb a b = false.
Proof.
  intros H. destruct (eqb a b) eqn:E; [| reflexivity].
  apply eqb_spec in E. contradiction.
Qed.

(** A key holds the value of the last item that has it. *)
Lemma dict_of_last (l : list A) (k : K) :
  dict_get eqb (dict_of l) k
  = option_map value (find (fun r => eqb k (key r)) (rev l)).
Proof.
  unfold dict_of. induction l as [| x l IH] using rev_ind.
  - reflexivity.
  - rewrite fold_left_app, rev_app_distr. cbn [fold_left rev app find].
    rewrite (dict_get_set eqb eqb_spec).
    destruct (eqb k (key x)); [reflexivity | exact IH].
Qed.

Lemma fold_dict_set_fresh (l : list A) (acc : list (K * V)) :
  NoDup (map key l) ->
  (forall r, In r l -> ~ In (key r) (dict_keys acc)) ->
  fold_left (fun d r => dict_set eqb d (key r) (value r)) l acc
  = acc ++ map (fun r => (key r, value r)) l.
Proof.
  revert acc. induction l as [| x l IH]; intros acc Hnd Hacc.
  - simpl. now rewrite app_nil_r.
  - cbn [fold_left map]. inversion Hnd as [| ? ? Hx Hnd']; subst.
    rewrite dict_set_fresh.
    + rewrite IH; [now rewrite <- app_assoc | exact Hnd' |].
      intros r Hr Hin. unfold dict_keys in Hin.
      rewrite map_app in Hin. apply in_app_or in Hin.
      destruct Hin as [Hin | [Hin | []]].
      * apply (Hacc r); [now right | exact Hin].
      * cbn [fst] in Hin. apply Hx. rewrite Hin.
        now apply in_map.
    + intros k' Hk'. apply eqb_neq. intros E. rewrite <- E in Hk'.
      apply (Hacc x); [now left | exact Hk'].
Qed.

(** When no two items share a key the dictionary lists the items in
    their order. *)
Lemma dict_of_unique (l : list A) :
  NoDup (map key l) -> dict_of l = map (fun r => (key r, value r)) l.
Proof.
  intros Hnd. unfold dict_of. rewrite fold_dict_set_fresh; auto.
Qed.

Lemma dict_set_keys (d : list (K * V)) (k : K) (v : V) :
  dict_keys (dict_set eqb d k v)
  = if existsb (eqb k) (dict_keys d) then dict_keys d
    else dict_keys d ++ [k].
Proof.
  induction d as [| [k0 v0] d IH]; [reflexivity |].
  cbn [dict_set dict_keys map fst existsb].
  destruct (eqb k k0) eqn:E; cbn [orb map fst]; [reflexivity |].
  fold (dict_keys d). fold (dict_keys (dict_set eqb d k v)).
  rewrite IH. destruct (existsb (eqb k) (dict_keys d)); reflexivity.
Qed.

Lemma dict_of_keys_NoDup (l : list A) : NoDup (dict_keys (dict_of l)).
Proof.
  unfold dict_of. induction l as [| x l IH] using rev_ind.
  - constructor.
  - rewrite fold_left_app. cbn [fold_left]. rewrite dict_set_keys.
    destruct (existsb (eqb (key x)) _) eqn:E; [exact IH |].
    apply NoDup_app; [exact IH | constructor; [intros [] | constructor] |].
    intros k Hk [<- | []].
    assert (Ht : existsb (eqb (key x))
                   (dict_keys
                      (fold_left
                         (fun d r => dict_set eqb d (key r) (value r)) l []))
                 = true).
    { apply existsb_exists. exists (key x). split; [exact Hk |].
      now apply eqb_spec. }
    rewrite Ht in E. discriminate.
Qed.

End DictLoop.

Lemma string_eqb_spec (a b : string) : String.eqb a b = true <-> a = b.
Proof. apply String.eqb_eq. Qed.

(* ================================================================== *)
(** * The [routes] object of the output file *)

(** X19.  The [routes] object [{r['route_id']: r for r in results}] has no
    key twice and maps a route id to the last result that carries it; when
    the results carry pairwise different ids it lists every result once,
    in the order of the results.  So in v1 and in v2. *)
Theorem routes_dict_entries :
  (forall results : list V2.Signature,
     NoDup (dict_keys (V2.routes_dict results)) /\
     (forall id,
        dict_get String.eqb (V2.routes_dict results) id
        = find (fun r => String.eqb id (V2.route_id r)) (rev results)) /\
     (NoDup (map V2.route_id results) ->
      V2.routes_dict results
      = map (fun r => (V2.route_id r, r)) results)) /\
  (forall results : list V1.Exposure,
     NoDup (dict_keys (V1.routes_dict results)) /\
     (forall id,
        dict_get String.eqb (V1.routes_dict results) id
        = find (fun r => String.eqb id (V1.route_id r)) (rev results)) /\
     (NoDup (map V1.route_id results) ->
      V1.routes_dict results
      = map (fun r => (V1.route_id r, r)) results)).
Proof.
  split; intros results.
  - change (V2.routes_dict results)
      with (dict_of String.eqb V2.route_id (fun r => r) results).
    split; [apply dict_of_keys_NoDup, string_eqb_spec |].
    split.
    + intros id. rewrite (dict_of_last _ string_eqb_spec).
      now destruct (find _ (rev results)).
    + apply dict_of_unique, string_eqb_spec.
  - change (V1.routes_dict results)
      with (dict_of String.eqb V1.route_id (fun r => r) results).
    split; [apply dict_of_keys_NoDup, string_eqb_spec |].
    split.
    + intros id. rewrite (dict_of_last _ string_eqb_spec).
      now destruct (find _ (rev results)).
    + apply dict_of_unique, string_eqb_spec.
Qed.

Lemma shipped_route_ids_NoDup : NoDup (map route_id ROUTES_table).
Proof.
  unfold ROUTES_table. cbn [map route_id].
  repeat (constructor; [cbn [In]; intros H;
    repeat (destruct H as [H | H]; [discriminate |]); destruct H |]).
  constructor.
Qed.

Lemma routes_dict_entries_witness :
  V2.routes_dict (map open_water_signature ROUTES_table)
  = map (fun r => (V2.route_id r, r))
      (map open_water_signature ROUTES_table).
Proof.
  destruct routes_dict_entries as (H2 & _).
  destruct (H2 (map open_water_signature ROUTES_table)) as (_ & _ & H).
  apply H. rewrite map_map. exact shipped_route_ids_NoDup.
Defined.

(* ================================================================== *)
(** * The verdict of [validate_results] (v1) *)

(** The average of the last result that runs from [origin_slug] to
    [dest_slug]; 0 when there is none. *)
Definition last_average (results : list V1.Exposure)
  (origin_slug dest_slug : string) : R :=
  match find (fun r => pair_eqb (origin_slug, dest_slug)
                         (V1.origin_port r, V1.destination_port r))
          (rev results) with
  | Some r => V1.avg_exposure r
  | None => 0
  end.

Lemma get_or_zero_last (results : list V1.Exposure)
  (origin_slug dest_slug : string) :
  V1.get_or_zero (V1.route_exposures results) (origin_slug, dest_slug)
  = last_average results origin_slug dest_slug.
Proof.
  unfold V1.get_or_zero, last_average.
  change (V1.route_exposures results)
    with (dict_of pair_eqb
            (fun r => (V1.origin_port r, V1.destination_port r))
            V1.avg_exposure results).
  rewrite (dict_of_last _ pair_eqb_spec).
  now destruct (find _ (rev results)).
Qed.

Lemma validate_results_value (results : list V1.Exposure) :
  (forall e, In e results ->
     dict_keys (V1.exposure_by_dir e) = all_directions) ->
  V1.validate_results results
  = Ok (Rlt_bool (last_average results "woods-hole" "vineyard-haven")
          (last_average results "hyannis" "nantucket")).
Proof.
  intros Hkeys. unfold V1.validate_results.
  rewrite (exposure_tables_ok results Hkeys). cbn [bind].
  now rewrite !get_or_zero_last.
Qed.

(** X20.  [validate_results] compares, for the two port pairs it names, the
    average of the last result with that origin and destination, a pair
    without result counting as 0; so it returns False on no results at
    all.  It raises nothing on results that carry the 16 directions. *)
Theorem validate_results_verdict :
  V1.validate_results [] = Ok false /\
  forall results : list V1.Exposure,
    (forall e, In e results ->
       dict_keys (V1.exposure_by_dir e) = all_directions) ->
    V1.validate_results results
    = Ok (Rlt_bool (last_average results "woods-hole" "vineyard-haven")
            (last_average results "hyannis" "nantucket")).
Proof.
  split; [| exact validate_results_value].
  rewrite validate_results_value by (intros e []).
  unfold last_average. cbn [rev find]. f_equal. apply Rlt_bool_false. lra.
Qed.

(* ================================================================== *)
(** * Every run of [main] *)

Lemma pbind_raise {Output A B : Type} (c : Prog Output A)
  (k : A -> Prog Output B) (w w' : World Output) (e : PyExn) :
  c w = (Raise e, w') -> pbind c k w = (Raise e, w').
Proof. intros H. unfold pbind. now rewrite H. Qed.

(** X21.  Every run of v2's [main].  Either the distance check passes, the
    land mask loads, every route is computed and the ordering check
    passes: then [main] returns normally and the file holds the computed
    signatures.  Or [main] ends with an exception and the file is what it
    was: v2 never returns normally without writing, and never writes what
    it has not validated.  A missing land mask is exit status 1. *)
Theorem shelter_main_outcomes (cfg : V2.Config)
  (wgs84_to_utm : R -> R -> PlanarPoint) (load : Result LandMask)
  (now : string) (w : World V2.Output) :
  (exists land_geom results evs,
     load = Ok land_geom /\
     V2.validate_route_distances cfg = Ok true /\
     for_each (route_signature cfg wgs84_to_utm land_geom) (V2.ROUTES cfg)
     = Ok results /\
     V2.validate_exposure_ordering results = true /\
     V2.main cfg wgs84_to_utm load now w
     = (Ok tt,
        {| stdout := stdout w ++ evs;
           output_file := Some (shelter_output cfg now results) |}))
  \/
  (exists e evs,
     V2.main cfg wgs84_to_utm load now w
     = (Raise e,
        {| stdout := stdout w ++ evs; output_file := output_file w |}) /\
     (V2.validate_route_distances cfg = Ok true ->
      load = Raise FileNotFoundError -> e = SystemExit 1)).
Proof.
  destruct (V2.validate_route_distances cfg) as [[|] | e0] eqn:Hv.
  - destruct load as [land_geom | e].
    + destruct (for_each (route_signature cfg wgs84_to_utm land_geom)
                  (V2.ROUTES cfg)) as [results | e] eqn:Hres.
      * destruct (shelter_main_run cfg wgs84_to_utm land_geom now w results
                    Hv Hres) as (evs & Hrun).
        rewrite Hrun.
        destruct (V2.validate_exposure_ordering results) eqn:Hord.
        -- left. exists land_geom, results. eexists.
           repeat split; try reflexivity; assumption.
        -- right. do 2 eexists. split; [reflexivity | discriminate].
      * right.
        destruct (for_each_prog_pure
                    (V2.route_step cfg wgs84_to_utm land_geom)
                    (route_signature cfg wgs84_to_utm land_geom)
                    (fun route sig =>
                       PrintRoute (route_id route)
                         (V2.mean_shelter_ratio sig))
                    (shelter_route_step_eval cfg wgs84_to_utm land_geom)
                    (V2.ROUTES cfg)
                    {| stdout := ((stdout w ++ [PrintBanner])
                                  ++ [PrintDistanceReport true])
                                 ++ [PrintLandMaskLoaded];
                       output_file := output_file w |})
          as (evs & Hrun & _).
        rewrite Hres in Hrun. cbn [stdout output_file] in Hrun.
        exists e,
          ([PrintBanner; PrintDistanceReport true; PrintLandMaskLoaded]
           ++ evs).
        split; [| discriminate].
        unfold V2.main.
        rewrite pbind_print, Hv, pbind_lift_ok, pbind_print. cbn [negb].
        rewrite pbind_print. cbn [stdout output_file].
        rewrite (pbind_raise _ _ _ _ _ Hrun).
        f_equal. f_equal. rewrite <- !app_assoc. reflexivity.
    + right.
      assert (Hcases :
        exists e' evs,
          V2.main cfg wgs84_to_utm (Raise e) now w
          = (Raise e',
             {| stdout := stdout w ++ evs; output_file := output_file w |}) /\
          (e = FileNotFoundError -> e' = SystemExit 1)).
      { unfold V2.main.
        rewrite pbind_print, Hv, pbind_lift_ok, pbind_print. cbn [negb].
        destruct e;
          try (exists (SystemExit 1); eexists; split;
               [rewrite pbind_print; unfold sys_exit;
                cbn [stdout output_file]; rewrite <- !app_assoc; reflexivity
               | reflexivity]);
          (eexists; eexists; split;
           [unfold lift; cbn [stdout output_file];
            rewrite <- !app_assoc; reflexivity
           | discriminate]). }
      destruct Hcases as (e' & evs & Hrun & Hexit).
      exists e', evs. split; [exact Hrun |].
      intros _ H. injection H as ->. now apply Hexit.
  - right.
    destruct (main_stops_at_distance_check cfg wgs84_to_utm load now w)
      as (e & evs & Hrun & _).
    { rewrite Hv. discriminate. }
    exists e, evs. split; [exact Hrun | discriminate].
  - right.
    destruct (main_stops_at_distance_check cfg wgs84_to_utm load now w)
      as (e & evs & Hrun & _).
    { rewrite Hv. discriminate. }
    exists e, evs. split; [exact Hrun | discriminate].
Qed.

(** X22.  Every run of v1's [main].  A missing land mask prints an error and
    [main] returns normally, writing nothing.  When the mask loads and
    every route is computed, [main] writes the file, whatever
    [validate_results] returned.  Otherwise [main] ends with the exception
    of the failed step and the file is what it was. *)
Theorem exposure_main_outcomes (cfg : V1.Config)
  (wgs84_to_utm : R -> R -> PlanarPoint) (load : Result LandMask)
  (now : string) (w : World V1.Output) :
  (load = Raise FileNotFoundError /\
   V1.main cfg wgs84_to_utm load now w
   = (Ok tt,
      {| stdout := stdout w
                   ++ [PrintBanner; PrintError "land mask not found"];
         output_file := output_file w |}))
  \/
  (exists land_geom results evs,
     load = Ok land_geom /\
     for_each (route_exposure cfg wgs84_to_utm land_geom) (V1.ROUTES cfg)
     = Ok results /\
     V1.main cfg wgs84_to_utm load now w
     = (Ok tt,
        {| stdout := stdout w ++ evs;
           output_file := Some (exposure_output cfg now results) |}))
  \/
  (exists e evs,
     V1.main cfg wgs84_to_utm load now w
     = (Raise e,
        {| stdout := stdout w ++ evs; output_file := output_file w |})).
Proof.
  destruct load as [land_geom | e].
  - destruct (for_each (route_exposure cfg wgs84_to_utm land_geom)
                (V1.ROUTES cfg)) as [results | e] eqn:Hres.
    + right. left.
      pose proof (validate_results_value results
                    (computed_exposures_keys _ _ _ _ _ Hres)) as Hcheck.
      destruct (exposure_main_run cfg wgs84_to_utm land_geom now w results
                  _ Hres Hcheck) as (evs & Hrun).
      exists land_geom, results. eexists.
      split; [reflexivity |]. split; [exact Hres |]. exact Hrun.
    + right. right.
      destruct (for_each_prog_pure
                  (V1.route_step cfg wgs84_to_utm land_geom)
                  (route_exposure cfg wgs84_to_utm land_geom)
                  (fun route e0 =>
                     PrintRoute (route_id route) (V1.avg_exposure e0))
                  (exposure_route_step_eval cfg wgs84_to_utm land_geom)
                  (V1.ROUTES cfg)
                  {| stdout := (stdout w ++ [PrintBanner])
                               ++ [PrintLandMaskLoaded];
                     output_file := output_file w |})
        as (evs & Hrun & _).
      rewrite Hres in Hrun. cbn [stdout output_file] in Hrun.
      exists e, ([PrintBanner; PrintLandMaskLoaded] ++ evs).
      unfold V1.main.
      rewrite pbind_print, pbind_print. cbn [stdout output_file].
      rewrite (pbind_raise _ _ _ _ _ Hrun).
      f_equal. f_equal. rewrite <- !app_assoc. reflexivity.
  - destruct e;
      try (left; split; [reflexivity |];
           unfold V1.main; rewrite !pbind_print; unfold pret;
           cbn [stdout output_file]; rewrite <- !app_assoc; reflexivity);
      (right; right; eexists; exists [PrintBanner];
       unfold V1.main; rewrite pbind_print; unfold lift;
       cbn [stdout output_file]; reflexivity).
Qed.

(* ================================================================== *)
(** * The distance check (v2): every outcome *)

(** Both ports of a window are in [PORTS]. *)
Definition ports_known (cfg : V2.Config)
  (item : string * string * V2.Window) : Prop :=
  (exists p, dict_get String.eqb (V2.PORTS cfg) (fst (fst item)) = Some p) /\
  (exists p, dict_get String.eqb (V2.PORTS cfg) (snd (fst item)) = Some p).

Lemma distance_step_defined (cfg : V2.Config) (all_pass : bool)
  (item : string * string * V2.Window) :
  ports_known cfg item -> exists b, distance_step cfg all_pass item = Ok b.
Proof.
  destruct item as [[o d] win]. intros [(p1 & H1) (p2 & H2)].
  cbn [fst snd] in H1, H2. unfold distance_step.
  rewrite (ports_get_present _ _ _ H1), (ports_get_present _ _ _ H2).
  cbn [bind].
  rewrite haversine_km_value. cbn [bind]. eexists. reflexivity.
Qed.

Lemma distance_fold_defined (cfg : V2.Config)
  (items : list (string * string * V2.Window)) :
  (forall item, In item items -> ports_known cfg item) ->
  forall all_pass,
    exists b, for_fold (distance_step cfg) items all_pass = Ok b.
Proof.
  induction items as [| item items IH]; intros Hk all_pass.
  - now exists all_pass.
  - cbn [for_fold].
    destruct (distance_step_defined cfg all_pass item) as (b & ->);
      [apply Hk; now left |].
    cbn [bind]. apply IH. intros it Hin. apply Hk. now right.
Qed.

Lemma for_fold_app {A St : Type} (body : St -> A -> Result St)
  (l1 l2 : list A) (s : St) :
  for_fold body (l1 ++ l2) s
  = (s' <- for_fold body l1 s ;; for_fold body l2 s').
Proof.
  revert s. induction l1 as [| a l1 IH]; intros s; [reflexivity |].
  cbn [app for_fold]. destruct (body s a); cbn [bind]; [apply IH | reflexivity].
Qed.

(** Both ports of a window are in [PORTS], within a quarter turn of each
    other. *)
Definition ports_nearby (cfg : V2.Config)
  (item : string * string * V2.Window) : Prop :=
  exists p1 p2,
    dict_get String.eqb (V2.PORTS cfg) (fst (fst item)) = Some p1 /\
    dict_get String.eqb (V2.PORTS cfg) (snd (fst item)) = Some p2 /\
    within_quarter_turn (lat p1) (lon p1) (lat p2) (lon p2).

Lemma ports_nearby_known (cfg : V2.Config)
  (item : string * string * V2.Window) :
  ports_nearby cfg item -> ports_known cfg item.
Proof. intros (p1 & p2 & H1 & H2 & _). split; eauto. Qed.

(** X23.  Every outcome of [validate_route_distances] on windows between
    ports within a quarter turn of each other (where both square roots of
    the haversine formula are defined).  When every window names two such
    ports of [PORTS] it returns a verdict and raises nothing, the verdict
    being True exactly when every pair lies in its window.  At the first
    window that names a port absent from [PORTS] it raises [KeyError] with
    that slug, the origin being looked up first. *)
Theorem distance_check_outcomes (cfg : V2.Config) :
  ((forall item, In item (V2.EXPECTED_DISTANCES cfg) ->
                 ports_nearby cfg item) ->
   exists verdict,
     V2.validate_route_distances cfg = Ok verdict /\
     (verdict = true <->
      forall item, In item (V2.EXPECTED_DISTANCES cfg) ->
                   pair_within_window cfg item)) /\
  (forall before origin_slug dest_slug expected after,
     V2.EXPECTED_DISTANCES cfg
     = before ++ ((origin_slug, dest_slug), expected) :: after ->
     (forall item, In item before -> ports_nearby cfg item) ->
     (dict_get String.eqb (V2.PORTS cfg) origin_slug = None ->
      V2.validate_route_distances cfg = Raise (KeyError origin_slug)) /\
     (forall origin,
        dict_get String.eqb (V2.PORTS cfg) origin_slug = Some origin ->
        dict_get String.eqb (V2.PORTS cfg) dest_slug = None ->
        V2.validate_route_distances cfg = Raise (KeyError dest_slug))).
Proof.
  split.
  - intros Hk.
    destruct (distance_fold_defined cfg (V2.EXPECTED_DISTANCES cfg)
                (fun item Hin => ports_nearby_known cfg item (Hk item Hin))
                true) as (b & Hb).
    exists b. rewrite validate_route_distances_unfold. split; [exact Hb |].
    rewrite <- validate_route_distances_true,
            validate_route_distances_unfold, Hb.
    split; [now intros -> | now intros [= ->]].
  - intros before o d win after Hsplit Hk.
    rewrite validate_route_distances_unfold, Hsplit, for_fold_app.
    destruct (distance_fold_defined cfg before
                (fun item Hin => ports_nearby_known cfg item (Hk item Hin))
                true) as (b & ->).
    cbn [bind for_fold]. split.
    + intros Ho. unfold distance_step at 1.
      now rewrite (ports_get_missing _ _ Ho).
    + intros po Ho Hd. unfold distance_step at 1.
      now rewrite (ports_get_present _ _ _ Ho), (ports_get_missing _ _ Hd).
Qed.

(** A window between Woods Hole and Vineyard Haven, then one that names
    a port that [PORTS] does not hold. *)
Lemma distance_check_outcomes_witness :
  V2.validate_route_distances
    {| V2.PORTS := PORTS_table; V2.ROUTES := ROUTES_table;
       V2.SAMPLE_POINTS_PER_ROUTE := 50; V2.MAX_RAY_KM := 30.0;
       V2.SHELTER_THRESHOLD_KM := 3.0; V2.RAY_STEP_M := 50;
       V2.EXPECTED_DISTANCES :=
         [(("woods-hole", "vineyard-haven")%string,
           {| V2.min_km := 8; V2.max_km := 12; V2.expected_km := 10 |});
          (("woods-hole", "boston")%string,
           {| V2.min_km := 80; V2.max_km := 120; V2.expected_km := 100 |})]
    |}
  = Raise (KeyError "boston").
Proof.
  match goal with |- V2.validate_route_distances ?c = _ =>
    destruct (distance_check_outcomes c) as (_ & H) end.
  destruct (H [(("woods-hole", "vineyard-haven")%string,
                {| V2.min_km := 8; V2.max_km := 12; V2.expected_km := 10 |})]
              "woods-hole"%string "boston"%string
              {| V2.min_km := 80; V2.max_km := 120; V2.expected_km := 100 |}
              [] eq_refl) as (_ & H2).
  - intros item [<- | []].
    exists woods_hole, vineyard_haven.
    split; [reflexivity |]. split; [reflexivity |].
    unfold within_quarter_turn, woods_hole, vineyard_haven. cbn [lat lon].
    repeat split; try lra; apply Rabs_le; lra.
  - apply (H2 woods_hole); reflexivity.
Defined.

(* ================================================================== *)
(** * The distance check on the shipped tables

    The four distances are enclosed with [PI] between 3.07 and 3.22, the
    sine between [x - x^3 / 6] and [x], and the cosine from below by
    [1 - x^2 / 2]. *)

Lemma PI_upper : PI <= 3.22.
Proof.
  pose proof (PI_ineq 6) as [_ H].
  unfold tg_alt, PI_tg in H. simpl in H. lra.
Qed.

Lemma sin_lower (x : R) : 0 <= x <= PI -> x - x ^ 3 / 6 <= sin x.
Proof.
  intros [H0 H1]. pose proof (sin_bound x 0 H0 H1) as [H _].
  unfold sin_approx, sin_term in H. simpl in H. lra.
Qed.

Lemma sin_sq_le (x : R) : sin x ^ 2 <= x ^ 2.
Proof.
  pose proof (SIN_bound x) as Hb. pose proof PI2_1 as Hpi.
  destruct (Rle_dec 1 (Rabs x)) as [H1 | H1].
  - assert (1 <= x ^ 2).
    { rewrite <- (pow2_abs x). simpl. nra. }
    simpl in *. nra.
  - apply Rnot_le_lt in H1. apply Rabs_def2 in H1.
    destruct (Rtotal_order x 0) as [H | [-> | H]].
    + pose proof (sin_gt_x x H).
      pose proof (sin_lt_0_var x ltac:(lra) H). simpl. nra.
    + rewrite sin_0. simpl. lra.
    + pose proof (sin_lt_x x H).
      pose proof (sin_gt_0 x H ltac:(lra)). simpl. nra.
Qed.

Lemma cos_product (x y : R) :
  cos x * cos y = (cos (x - y) + cos (x + y)) / 2.
Proof. rewrite cos_minus, cos_plus. lra. Qed.

Lemma cos_le_complement (x : R) : x <= PI / 2 -> cos x <= PI / 2 - x.
Proof.
  intros H. rewrite <- sin_shift.
  destruct (Req_dec (PI / 2 - x) 0) as [-> | Hne].
  - rewrite sin_0. lra.
  - left. apply sin_lt_x. lra.
Qed.

Lemma atan_lt_small (t T : R) :
  0 < T <= 1 -> t < T - T ^ 3 / 6 -> atan t < T.
Proof.
  intros HT Ht. pose proof PI2_1 as Hpi.
  rewrite <- (atan_tan T) by lra.
  apply atan_increasing.
  pose proof (sin_lower T ltac:(lra)) as Hs.
  assert (Hc : 0 < cos T) by (apply cos_gt_0; lra).
  pose proof (COS_bound T) as Hcb.
  assert (Hsin : 0 < sin T) by (apply sin_gt_0; lra).
  unfold tan.
  apply Rlt_le_trans with (sin T); [lra |].
  apply Rmult_le_reg_r with (cos T); [exact Hc |].
  unfold Rdiv. rewrite Rmult_assoc, Rinv_l by lra. nra.
Qed.

(** An upper bound [A] of [a] bounds the distance by the arc of the
    half-angle [T], when [A / (1 - A)] is below the squared tangent of [T]
    (here: below the square of [T - T^3 / 6]). *)
Lemma haversine_below (lat1 lon1 lat2 lon2 A T : R) :
  haversine_a lat1 lon1 lat2 lon2 <= A ->
  0 < T <= 1 ->
  A < 1 ->
  A < (T - T ^ 3 / 6) ^ 2 * (1 - A) ->
  exists d,
    V2.haversine_km lat1 lon1 lat2 lon2 = Ok d /\ d < 6371 * (2 * T).
Proof.
  intros Ha HT HA1 HA. rewrite haversine_km_unfold.
  pose proof (haversine_a_unit lat1 lon1 lat2 lon2) as [Ha0 _].
  set (a := haversine_a lat1 lon1 lat2 lon2) in *.
  unfold math_sqrt.
  rewrite (Rle_bool_true 0 a) by lra. cbn [bind].
  rewrite (Rle_bool_true 0 (1 - a)) by lra. cbn [bind].
  eexists. split; [reflexivity |].
  assert (Hsa : sqrt a * sqrt a = a) by (apply sqrt_sqrt; lra).
  assert (Hsb : sqrt (1 - a) * sqrt (1 - a) = 1 - a)
    by (apply sqrt_sqrt; lra).
  assert (Hsa0 : 0 <= sqrt a) by apply sqrt_pos.
  assert (Hsb0 : 0 < sqrt (1 - a)) by (apply sqrt_lt_R0; lra).
  unfold math_atan2. rewrite Rlt_bool_true by exact Hsb0.
  set (B := T - T ^ 3 / 6) in *.
  assert (HB : 0 < B).
  { unfold B. simpl. assert (T * T <= 1) by nra. nra. }
  assert (Ht : sqrt a / sqrt (1 - a) < B).
  { apply Rmult_lt_reg_r with (sqrt (1 - a)); [exact Hsb0 |].
    unfold Rdiv. rewrite Rmult_assoc, Rinv_l, Rmult_1_r by lra.
    destruct (Rlt_dec (sqrt a) (B * sqrt (1 - a))) as [H | H]; [exact H |].
    exfalso. apply Rnot_lt_le in H.
    assert (B * sqrt (1 - a) * (B * sqrt (1 - a)) <= sqrt a * sqrt a).
    { apply Rmult_le_compat; nra. }
    assert (HB2 : B * sqrt (1 - a) * (B * sqrt (1 - a)) = B ^ 2 * (1 - a)).
    { transitivity (B ^ 2 * (sqrt (1 - a) * sqrt (1 - a))); [ring |].
      now rewrite Hsb. }
    assert (B ^ 2 * (1 - A) <= B ^ 2 * (1 - a)).
    { apply Rmult_le_compat_l; [apply pow2_ge_0 | lra]. }
    lra. }
  pose proof (atan_lt_small _ T HT Ht). lra.
Qed.

Lemma PI_lower : 3.07 <= PI.
Proof.
  pose proof (PI_ineq 6) as [H _].
  unfold tg_alt, PI_tg in H. simpl in H. lra.
Qed.

Lemma cos_lower (x : R) : 1 - x ^ 2 / 2 <= cos x.
Proof.
  replace x with (2 * (x / 2)) at 2 by lra. rewrite cos_2a_sin.
  pose proof (sin_sq_le (x / 2)) as H. simpl in *. nra.
Qed.

Lemma sin_sq_lower (x : R) :
  0 <= x <= 1 -> (x - x ^ 3 / 6) ^ 2 <= sin x ^ 2.
Proof.
  intros Hx. pose proof PI2_1 as Hpi.
  pose proof (sin_lower x ltac:(lra)) as Hs.
  assert (0 <= x - x ^ 3 / 6).
  { simpl. assert (x * x <= 1) by nra. nra. }
  simpl in *. nra.
Qed.

Lemma tan_upper (L : R) : 0 < L <= 1 -> tan L <= L / (1 - L ^ 2 / 2).
Proof.
  intros HL. pose proof PI2_1 as Hpi.
  pose proof (cos_lower L) as Hc.
  assert (Hc0 : 0 < 1 - L ^ 2 / 2) by (simpl; nra).
  assert (Hs : sin L < L) by (apply sin_lt_x; lra).
  assert (Hs0 : 0 < sin L) by (apply sin_gt_0; lra).
  unfold tan.
  apply Rmult_le_reg_r with (cos L); [lra |].
  unfold Rdiv at 1. rewrite Rmult_assoc, Rinv_l, Rmult_1_r by lra.
  apply Rle_trans with (L / (1 - L ^ 2 / 2) * (1 - L ^ 2 / 2)).
  - unfold Rdiv. rewrite Rmult_assoc, Rinv_l, Rmult_1_r by lra. lra.
  - apply Rmult_le_compat_l; [| exact Hc].
    apply Rle_mult_inv_pos; lra.
Qed.

Lemma sin_le_x (x : R) : 0 <= x -> sin x <= x.
Proof.
  intros [H | <-]; [left; now apply sin_lt_x | rewrite sin_0; lra].
Qed.

(** A lower bound [A] of [a] bounds the distance from below by the arc of
    the half-angle [L], when [A / (1 - A)] is at least the squared tangent
    of [L] (here: at least the square of [L / (1 - L^2 / 2)]). *)
Lemma haversine_above_tan (lat1 lon1 lat2 lon2 A L : R) :
  A <= haversine_a lat1 lon1 lat2 lon2 ->
  0 <= A < 1 ->
  0 < L <= 1 ->
  (L / (1 - L ^ 2 / 2)) ^ 2 * (1 - A) <= A ->
  exists d,
    V2.haversine_km lat1 lon1 lat2 lon2 = Ok d /\ 6371 * (2 * L) <= d.
Proof.
  intros Ha HA HL Hcond. rewrite haversine_km_unfold.
  pose proof (haversine_a_unit lat1 lon1 lat2 lon2) as [Ha0 Ha1].
  pose proof PI2_1 as Hpi.
  set (a := haversine_a lat1 lon1 lat2 lon2) in *.
  unfold math_sqrt.
  rewrite (Rle_bool_true 0 a) by lra. cbn [bind].
  rewrite (Rle_bool_true 0 (1 - a)) by lra. cbn [bind].
  eexists. split; [reflexivity |].
  assert (Hsa : sqrt a * sqrt a = a) by (apply sqrt_sqrt; lra).
  assert (Hsa0 : 0 <= sqrt a) by apply sqrt_pos.
  set (C := L / (1 - L ^ 2 / 2)) in *.
  assert (Hc0 : 0 < 1 - L ^ 2 / 2) by (simpl; nra).
  assert (HC : 0 < C) by (unfold C; apply Rdiv_lt_0_compat; lra).
  assert (Hatan : L <= atan C).
  { rewrite <- (atan_tan L) at 1 by lra.
    pose proof (tan_upper L HL) as Ht. fold C in Ht.
    destruct Ht as [Ht | ->]; [left; now apply atan_increasing | right; reflexivity]. }
  destruct (Req_dec a 1) as [E1 | N1].
  - rewrite E1, Rminus_diag, sqrt_0, sqrt_1. unfold math_atan2.
    rewrite !(Rlt_bool_false _ 0) by lra. rewrite Rlt_bool_true by lra.
    nra.
  - assert (Hsb : sqrt (1 - a) * sqrt (1 - a) = 1 - a)
      by (apply sqrt_sqrt; lra).
    assert (Hsb0 : 0 < sqrt (1 - a)) by (apply sqrt_lt_R0; lra).
    unfold math_atan2. rewrite Rlt_bool_true by exact Hsb0.
    assert (Ht : C <= sqrt a / sqrt (1 - a)).
    { apply Rmult_le_reg_r with (sqrt (1 - a)); [exact Hsb0 |].
      unfold Rdiv. rewrite Rmult_assoc, Rinv_l, Rmult_1_r by lra.
      destruct (Rle_dec (C * sqrt (1 - a)) (sqrt a)) as [H | H]; [exact H |].
      exfalso. apply Rnot_le_lt in H.
      assert (sqrt a * sqrt a < C * sqrt (1 - a) * (C * sqrt (1 - a))).
      { apply Rmult_le_0_lt_compat; lra. }
      assert (HB2 : C * sqrt (1 - a) * (C * sqrt (1 - a)) = C ^ 2 * (1 - a)).
      { transitivity (C ^ 2 * (sqrt (1 - a) * sqrt (1 - a))); [ring |].
        now rewrite Hsb. }
      assert (C ^ 2 * (1 - a) <= C ^ 2 * (1 - A)).
      { apply Rmult_le_compat_l; [apply pow2_ge_0 | lra]. }
      lra. }
    assert (atan C <= atan (sqrt a / sqrt (1 - a))).
    { destruct Ht as [Ht | <-]; [left; now apply atan_increasing | right; reflexivity]. }
    lra.
Qed.

Lemma haversine_above (lat1 lon1 lat2 lon2 A L : R) :
  A <= haversine_a lat1 lon1 lat2 lon2 ->
  0 <= A < 1 ->
  0 < L <= 1 ->
  L ^ 2 * (1 - A) <= A * (1 - L ^ 2 / 2) ^ 2 ->
  exists d,
    V2.haversine_km lat1 lon1 lat2 lon2 = Ok d /\ 6371 * (2 * L) <= d.
Proof.
  intros Ha HA HL Hcond.
  apply (haversine_above_tan lat1 lon1 lat2 lon2 A L Ha HA HL).
  assert (Hc0 : 0 < 1 - L ^ 2 / 2) by (simpl; nra).
  replace ((L / (1 - L ^ 2 / 2)) ^ 2)
    with (L ^ 2 / (1 - L ^ 2 / 2) ^ 2) by (field; lra).
  assert (Hq : 0 < (1 - L ^ 2 / 2) ^ 2) by (apply pow_lt; exact Hc0).
  apply Rmult_le_reg_r with ((1 - L ^ 2 / 2) ^ 2); [exact Hq |].
  replace (L ^ 2 / (1 - L ^ 2 / 2) ^ 2 * (1 - A) * (1 - L ^ 2 / 2) ^ 2)
    with (L ^ 2 * (1 - A)) by (field; lra).
  exact Hcond.
Qed.

(** An enclosure of [a] by polynomials of the three angles. *)
Lemma haversine_a_enclosure (lat1 lon1 lat2 lon2 x1 x2 y : R) :
  x1 = Rabs (math_radians (lat2 - lat1) / 2) ->
  x2 = Rabs (math_radians (lon2 - lon1) / 2) ->
  y = PI / 2 - (math_radians lat1 + math_radians lat2) ->
  x1 <= 1 -> x2 <= 1 -> 0 <= y <= 1 ->
  0 <= 1 - 2 * x1 ^ 2 + (y - y ^ 3 / 6) ->
  (x1 - x1 ^ 3 / 6) ^ 2
  + (1 - 2 * x1 ^ 2 + (y - y ^ 3 / 6)) / 2 * (x2 - x2 ^ 3 / 6) ^ 2
  <= haversine_a lat1 lon1 lat2 lon2
  <= x1 ^ 2 + (1 + y) / 2 * x2 ^ 2.
Proof.
  intros E1 E2 Ey H1 H2 Hy HP. pose proof PI2_1 as Hpi.
  assert (H10 : 0 <= x1) by (rewrite E1; apply Rabs_pos).
  assert (H20 : 0 <= x2) by (rewrite E2; apply Rabs_pos).
  unfold haversine_a.
  rewrite (sin_sq_abs (math_radians (lat2 - lat1) / 2)), <- E1.
  rewrite (sin_sq_abs (math_radians (lon2 - lon1) / 2)), <- E2.
  pose proof (sin_sq_le x1) as U1. pose proof (sin_sq_le x2) as U2.
  pose proof (sin_sq_lower x1 ltac:(lra)) as L1.
  pose proof (sin_sq_lower x2 ltac:(lra)) as L2.
  set (P := cos (math_radians lat1) * cos (math_radians lat2)).
  assert (HPb : (1 - 2 * x1 ^ 2 + (y - y ^ 3 / 6)) / 2 <= P <= (1 + y) / 2).
  { unfold P. rewrite cos_product.
    pose proof (COS_bound (math_radians lat1 - math_radians lat2)) as [_ Hc].
    pose proof (cos_lower (math_radians lat1 - math_radians lat2)) as Hl.
    assert (Hsq : (math_radians lat1 - math_radians lat2) ^ 2 = 4 * x1 ^ 2).
    { rewrite E1, pow2_abs. unfold math_radians. simpl. field. }
    rewrite Hsq in Hl.
    rewrite <- (sin_shift (math_radians lat1 + math_radians lat2)), <- Ey.
    pose proof (sin_le_x y ltac:(lra)).
    pose proof (sin_lower y ltac:(lra)).
    lra. }
  assert (S2 : 0 <= sin x2 ^ 2) by apply pow2_ge_0.
  assert (Q2 : 0 <= (x2 - x2 ^ 3 / 6) ^ 2) by apply pow2_ge_0.
  split.
  - apply Rplus_le_compat; [exact L1 |].
    apply Rle_trans with (P * (x2 - x2 ^ 3 / 6) ^ 2).
    + apply Rmult_le_compat_r; lra.
    + apply Rmult_le_compat_l; lra.
  - apply Rplus_le_compat; [exact U1 |].
    apply Rle_trans with ((1 + y) / 2 * sin x2 ^ 2).
    + apply Rmult_le_compat_r; lra.
    + apply Rmult_le_compat_l; lra.
Qed.

(** The distance lies in [lo, hi] when rational enclosures of the three
    angles (half the difference of the latitudes, half the difference of
    the longitudes, and the complement of the sum of the latitudes, all in
    radians) give enclosures of [a] that fit the two ends. *)
Lemma haversine_in_window
  (lat1 lon1 lat2 lon2 x1l x1u x2l x2u yl yu lo hi : R) :
  x1l <= Rabs (math_radians (lat2 - lat1) / 2) <= x1u ->
  x2l <= Rabs (math_radians (lon2 - lon1) / 2) <= x2u ->
  yl <= PI / 2 - (math_radians lat1 + math_radians lat2) <= yu ->
  0 <= x1l -> x1u <= 1 -> 0 <= x2l -> x2u <= 1 -> 0 <= yl -> yu <= 1 ->
  0 <= x1l - x1u ^ 3 / 6 ->
  0 <= x2l - x2u ^ 3 / 6 ->
  0 <= 1 - 2 * x1u ^ 2 + (yl - yu ^ 3 / 6) ->
  0 < lo -> lo <= hi -> hi <= 12742 ->
  (lo / 12742) ^ 2
  * (1 - ((x1l - x1u ^ 3 / 6) ^ 2
          + (1 - 2 * x1u ^ 2 + (yl - yu ^ 3 / 6)) / 2
            * (x2l - x2u ^ 3 / 6) ^ 2))
  <= ((x1l - x1u ^ 3 / 6) ^ 2
      + (1 - 2 * x1u ^ 2 + (yl - yu ^ 3 / 6)) / 2
        * (x2l - x2u ^ 3 / 6) ^ 2)
     * (1 - (lo / 12742) ^ 2 / 2) ^ 2 ->
  x1u ^ 2 + (1 + yu) / 2 * x2u ^ 2
  < (hi / 12742 - (hi / 12742) ^ 3 / 6) ^ 2
    * (1 - (x1u ^ 2 + (1 + yu) / 2 * x2u ^ 2)) ->
  x1u ^ 2 + (1 + yu) / 2 * x2u ^ 2 < 1 ->
  exists d,
    V2.haversine_km lat1 lon1 lat2 lon2 = Ok d /\ lo <= d < hi.
Proof.
  intros B1 B2 By H1l H1u H2l H2u Hyl Hyu Hc1 Hc2 Hcp Hlo Hlohi Hhi
         Hlow Hupp Hlt1.
  set (x1 := Rabs (math_radians (lat2 - lat1) / 2)) in *.
  set (x2 := Rabs (math_radians (lon2 - lon1) / 2)) in *.
  set (y := PI / 2 - (math_radians lat1 + math_radians lat2)) in *.
  assert (P1 : x1 ^ 3 <= x1u ^ 3) by (apply pow_incr; lra).
  assert (P2 : x2 ^ 3 <= x2u ^ 3) by (apply pow_incr; lra).
  assert (Py : y ^ 3 <= yu ^ 3) by (apply pow_incr; lra).
  assert (U1 : x1 ^ 2 <= x1u ^ 2) by (apply pow_incr; lra).
  assert (U2 : x2 ^ 2 <= x2u ^ 2) by (apply pow_incr; lra).
  destruct (haversine_a_enclosure lat1 lon1 lat2 lon2 x1 x2 y
              eq_refl eq_refl eq_refl) as [Ha_lo Ha_hi]; try lra.
  assert (C1 : x1l - x1u ^ 3 / 6 <= x1 - x1 ^ 3 / 6) by lra.
  assert (C2 : x2l - x2u ^ 3 / 6 <= x2 - x2 ^ 3 / 6) by lra.
  assert (CP : 1 - 2 * x1u ^ 2 + (yl - yu ^ 3 / 6)
               <= 1 - 2 * x1 ^ 2 + (y - y ^ 3 / 6)) by lra.
  set (c1 := x1l - x1u ^ 3 / 6) in *.
  set (c2 := x2l - x2u ^ 3 / 6) in *.
  set (cp := 1 - 2 * x1u ^ 2 + (yl - yu ^ 3 / 6)) in *.
  assert (S1 : c1 ^ 2 <= (x1 - x1 ^ 3 / 6) ^ 2)
    by (apply pow_incr; lra).
  assert (S2 : c2 ^ 2 <= (x2 - x2 ^ 3 / 6) ^ 2)
    by (apply pow_incr; lra).
  assert (Alo : c1 ^ 2 + cp / 2 * c2 ^ 2
                <= haversine_a lat1 lon1 lat2 lon2).
  { eapply Rle_trans; [| exact Ha_lo].
    apply Rplus_le_compat; [exact S1 |].
    apply Rmult_le_compat;
      [lra | apply pow2_ge_0 | lra | exact S2]. }
  assert (Ahi : haversine_a lat1 lon1 lat2 lon2
                <= x1u ^ 2 + (1 + yu) / 2 * x2u ^ 2).
  { eapply Rle_trans; [exact Ha_hi |].
    apply Rplus_le_compat; [exact U1 |].
    apply Rmult_le_compat; [lra | apply pow2_ge_0 | lra | exact U2]. }
  assert (A0 : 0 <= c1 ^ 2 + cp / 2 * c2 ^ 2).
  { pose proof (pow2_ge_0 c1). pose proof (pow2_ge_0 c2).
    assert (0 <= cp / 2 * c2 ^ 2) by (apply Rmult_le_pos; lra). lra. }
  assert (HL : 0 < lo / 12742 <= 1).
  { split; [apply Rdiv_lt_0_compat; lra |].
    apply Rmult_le_reg_r with 12742; [lra |].
    unfold Rdiv. rewrite Rmult_assoc, Rinv_l by lra. lra. }
  assert (HT : 0 < hi / 12742 <= 1).
  { split; [apply Rdiv_lt_0_compat; lra |].
    apply Rmult_le_reg_r with 12742; [lra |].
    unfold Rdiv. rewrite Rmult_assoc, Rinv_l by lra. lra. }
  destruct (haversine_above lat1 lon1 lat2 lon2 _ (lo / 12742) Alo)
    as (d & Hd & Hge); [lra | exact HL | exact Hlow |].
  destruct (haversine_below lat1 lon1 lat2 lon2 _ (hi / 12742) Ahi)
    as (d' & Hd' & Hlt); [exact HT | exact Hlt1 | exact Hupp |].
  rewrite Hd in Hd'. injection Hd' as <-.
  exists d. split; [exact Hd |].
  replace (6371 * (2 * (lo / 12742))) with lo in Hge by field.
  replace (6371 * (2 * (hi / 12742))) with hi in Hlt by field.
  lra.
Qed.

(** The four pairs of [EXPECTED_DISTANCES]. *)
Lemma woods_hole_vineyard_haven_km :
  exists d,
    V2.haversine_km 41.5234 (-70.6693) 41.4535 (-70.6036) = Ok d /\
    8 <= d < 12.
Proof.
  pose proof PI_upper as Hub. pose proof PI_lower as Hlb.
  apply (haversine_in_window _ _ _ _
           (596 / 1000000) (626 / 1000000) (560 / 1000000) (588 / 1000000)
           (119 / 1000) (126 / 1000));
    try (simpl; lra).
  - unfold math_radians. rewrite Rabs_left by lra. lra.
  - unfold math_radians. rewrite Rabs_right by lra. lra.
  - unfold math_radians. lra.
Qed.

Lemma woods_hole_oak_bluffs_km :
  exists d,
    V2.haversine_km 41.5234 (-70.6693) 41.4571 (-70.5566) = Ok d /\
    8 <= d < 14.
Proof.
  pose proof PI_upper as Hub. pose proof PI_lower as Hlb.
  apply (haversine_in_window _ _ _ _
           (565 / 1000000) (594 / 1000000) (961 / 1000000) (1009 / 1000000)
           (119 / 1000) (126 / 1000));
    try (simpl; lra).
  - unfold math_radians. rewrite Rabs_left by lra. lra.
  - unfold math_radians. rewrite Rabs_right by lra. lra.
  - unfold math_radians. lra.
Qed.

Lemma hyannis_nantucket_km :
  exists d,
    V2.haversine_km 41.6362 (-70.2826) 41.2835 (-70.0995) = Ok d /\
    40 <= d < 48.
Proof.
  pose proof PI_upper as Hub. pose proof PI_lower as Hlb.
  apply (haversine_in_window _ _ _ _
           (300 / 100000) (316 / 100000) (156 / 100000) (164 / 100000)
           (120 / 1000) (127 / 1000));
    try (simpl; lra).
  - unfold math_radians. rewrite Rabs_left by lra. lra.
  - unfold math_radians. rewrite Rabs_right by lra. lra.
  - unfold math_radians. lra.
Qed.

Lemma hyannis_vineyard_haven_km :
  exists d,
    V2.haversine_km 41.6362 (-70.2826) 41.4535 (-70.6036) = Ok d /\
    32 <= d < 35.
Proof.
  pose proof PI_upper as Hub. pose proof PI_lower as Hlb.
  apply (haversine_in_window _ _ _ _
           (1558 / 1000000) (1635 / 1000000) (2737 / 1000000)
           (2872 / 1000000) (117 / 1000) (124 / 1000));
    try (simpl; lra).
  - unfold math_radians. rewrite Rabs_left by lra. lra.
  - unfold math_radians. rewrite Rabs_left by lra. lra.
  - unfold math_radians. lra.
Qed.

Lemma shipped_windows_known (item : string * string * V2.Window) :
  In item (V2.EXPECTED_DISTANCES V2.shipped) -> ports_known V2.shipped item.
Proof.
  cbn [V2.EXPECTED_DISTANCES V2.shipped V2.EXPECTED_DISTANCES_table In].
  intros H.
  repeat (destruct H as [<- | H];
          [split; eexists; reflexivity |]).
  destruct H.
Qed.

Lemma shipped_pair_within (origin_slug dest_slug : string)
  (origin dest : Port) (expected : V2.Window) :
  ports_get PORTS_table origin_slug = Ok origin ->
  ports_get PORTS_table dest_slug = Ok dest ->
  (exists d,
     V2.haversine_km (lat origin) (lon origin) (lat dest) (lon dest) = Ok d /\
     V2.min_km expected <= d < V2.max_km expected) ->
  pair_within_window V2.shipped ((origin_slug, dest_slug), expected).
Proof.
  intros Ho Hd (d & Hh & Hw).
  exists origin, dest, d. cbn [fst snd V2.PORTS V2.shipped].
  repeat split; try assumption; lra.
Qed.

Lemma hyannis_vineyard_haven_outside :
  ~ pair_within_window V2.shipped
      (("hyannis", "vineyard-haven")%string,
       {| V2.min_km := 35; V2.max_km := 45; V2.expected_km := 40 |}).
Proof.
  intros (p1 & p2 & dist & H1 & H2 & Hd & Hlo & _).
  cbn [fst snd] in *.
  change (ports_get (V2.PORTS V2.shipped) "hyannis")
    with (Ok {| lat := 41.6362; lon := -70.2826; name := "Hyannis" |})
    in H1.
  change (ports_get (V2.PORTS V2.shipped) "vineyard-haven")
    with (Ok {| lat := 41.4535; lon := -70.6036;
                name := "Vineyard Haven" |}) in H2.
  injection H1 as <-. injection H2 as <-. cbn [lat lon] in Hd.
  destruct hyannis_vineyard_haven_km as (d & Hd' & _ & Hlt).
  rewrite Hd' in Hd. injection Hd as <-. cbn [V2.min_km] in Hlo. lra.
Qed.

(** X24.  The distance report on the tables the script ships.  Of the four
    windows of [EXPECTED_DISTANCES] three are met by the script's own
    [haversine_km]; the fourth is not: Hyannis and Vineyard Haven are
    between 32 and 35 km apart, and their window is 35 to 45 km. *)
Theorem shipped_distance_report :
  (exists d,
     V2.haversine_km 41.6362 (-70.2826) 41.4535 (-70.6036) = Ok d /\
     32 <= d < 35) /\
  forall item,
    In item (V2.EXPECTED_DISTANCES V2.shipped) ->
    (pair_within_window V2.shipped item <->
     fst item <> ("hyannis", "vineyard-haven")%string).
Proof.
  split; [exact hyannis_vineyard_haven_km |].
  cbn [V2.EXPECTED_DISTANCES V2.shipped V2.EXPECTED_DISTANCES_table In].
  intros item [<- | [<- | [<- | [<- | []]]]]; cbn [fst].
  - split; [discriminate | intros _].
    apply (shipped_pair_within _ _
             {| lat := 41.5234; lon := -70.6693; name := "Woods Hole" |}
             {| lat := 41.4535; lon := -70.6036; name := "Vineyard Haven" |});
      [reflexivity | reflexivity |].
    exact woods_hole_vineyard_haven_km.
  - split; [discriminate | intros _].
    apply (shipped_pair_within _ _
             {| lat := 41.5234; lon := -70.6693; name := "Woods Hole" |}
             {| lat := 41.4571; lon := -70.5566; name := "Oak Bluffs" |});
      [reflexivity | reflexivity |].
    exact woods_hole_oak_bluffs_km.
  - split; [discriminate | intros _].
    apply (shipped_pair_within _ _
             {| lat := 41.6362; lon := -70.2826; name := "Hyannis" |}
             {| lat := 41.2835; lon := -70.0995; name := "Nantucket" |});
      [reflexivity | reflexivity |].
    exact hyannis_nantucket_km.
  - split; [intros H | intros H; now contradiction H].
    now apply hyannis_vineyard_haven_outside in H.
Qed.

(** X25.  As shipped, v2 stops at its own distance check.
    [validate_route_distances] raises nothing and returns False, the
    Hyannis to Vineyard Haven window being missed.  So every run of
    [main], whatever the projection, the land mask and the clock, ends
    with exit status 1 after the distance report: no land mask is loaded,
    no route is computed and the output file is what it was. *)
Theorem shipped_distance_check_fails :
  V2.validate_route_distances V2.shipped = Ok false /\
  forall (wgs84_to_utm : R -> R -> PlanarPoint) (load : Result LandMask)
         (now : string) (w : World V2.Output),
    V2.main V2.shipped wgs84_to_utm load now w
    = (Raise (SystemExit 1),
       {| stdout := stdout w
                    ++ [PrintBanner; PrintDistanceReport false;
                        PrintError "Route distance validation failed!"];
          output_file := output_file w |}).
Proof.
  assert (Hv : V2.validate_route_distances V2.shipped = Ok false).
  { rewrite validate_route_distances_unfold.
    destruct (distance_fold_defined V2.shipped _ shipped_windows_known true)
      as ([|] & Hb); [| exact Hb].
    exfalso. rewrite <- validate_route_distances_unfold in Hb.
    pose proof (proj1 (validate_route_distances_true V2.shipped) Hb) as Hall.
    apply hyannis_vineyard_haven_outside, Hall.
    cbn [V2.EXPECTED_DISTANCES V2.shipped V2.EXPECTED_DISTANCES_table In].
    do 3 right. left. reflexivity. }
  split; [exact Hv |].
  intros wgs load now w. unfold V2.main.
  rewrite pbind_print, Hv, pbind_lift_ok, pbind_print. cbn [negb].
  rewrite pbind_print. unfold sys_exit. cbn [stdout output_file].
  now rewrite <- !app_assoc.
Qed.

(* ================================================================== *)
(** * v1 on the shipped tables *)

(** The record of a shipped route over [land_geom]. *)
Definition shipped_exposure (wgs84_to_utm : R -> R -> PlanarPoint)
  (land_geom : LandMask) (route : Route) : V1.Exposure :=
  exposure_of V1.shipped land_geom (route_id route) (origin route)
    (dest route)
    (sample_points_of wgs84_to_utm (shipped_port (origin route))
       (shipped_port (dest route)) 10).

Lemma shipped_exposures (wgs84_to_utm : R -> R -> PlanarPoint)
  (land_geom : LandMask) :
  for_each (route_exposure V1.shipped wgs84_to_utm land_geom)
    (V1.ROUTES V1.shipped)
  = Ok (map (shipped_exposure wgs84_to_utm land_geom) ROUTES_table).
Proof.
  apply for_each_ok_map. intros route Hin.
  destruct (shipped_lookups route Hin) as [Ho Hd].
  unfold route_exposure, shipped_exposure.
  apply (compute_route_exposure_ok V1.shipped); try assumption.
  - simpl. lra.
  - simpl. lra.
  - simpl. lia.
Qed.

(** X26.  As shipped, v1 needs nothing but the land mask.  Every route of
    [ROUTES] names ports of [PORTS], so once the mask is loaded, whatever
    it holds, [main] computes all ten routes, returns normally and writes
    the file; its [routes] object lists the ten records under their route
    ids, in the order of [ROUTES]. *)
Theorem shipped_exposure_run :
  forall (wgs84_to_utm : R -> R -> PlanarPoint) (land_geom : LandMask)
         (now : string) (w : World V1.Output),
  exists results evs,
    for_each (route_exposure V1.shipped wgs84_to_utm land_geom)
      (V1.ROUTES V1.shipped) = Ok results /\
    map V1.route_id results = map route_id ROUTES_table /\
    V1.main V1.shipped wgs84_to_utm (Ok land_geom) now w
    = (Ok tt,
       {| stdout := stdout w ++ evs;
          output_file := Some (exposure_output V1.shipped now results) |}) /\
    V1.routes (exposure_output V1.shipped now results)
    = map (fun r => (V1.route_id r, r)) results.
Proof.
  intros wgs land now w.
  pose proof (shipped_exposures wgs land) as Hres.
  set (results := map (shipped_exposure wgs land) ROUTES_table) in *.
  assert (Hids : map V1.route_id results = map route_id ROUTES_table).
  { unfold results. rewrite map_map. reflexivity. }
  pose proof (validate_results_value results
                (computed_exposures_keys _ _ _ _ _ Hres)) as Hcheck.
  destruct (exposure_main_run V1.shipped wgs land now w results _ Hres
              Hcheck) as (evs & Hrun).
  exists results. eexists.
  split; [exact Hres |]. split; [exact Hids |]. split; [exact Hrun |].
  cbn [exposure_output V1.routes].
  change (V1.routes_dict results)
    with (dict_of String.eqb V1.route_id (fun r => r) results).
  apply dict_of_unique; [exact string_eqb_spec |].
  rewrite Hids. exact shipped_route_ids_NoDup.
Qed.

(* ================================================================== *)
(** * The shelter threshold (v2) *)

(** [cfg] with another [SHELTER_THRESHOLD_KM]. *)
Definition with_threshold (cfg : V2.Config) (threshold_km : R)
  : V2.Config :=
  {| V2.PORTS := V2.PORTS cfg;
     V2.ROUTES := V2.ROUTES cfg;
     V2.SAMPLE_POINTS_PER_ROUTE := V2.SAMPLE_POINTS_PER_ROUTE cfg;
     V2.MAX_RAY_KM := V2.MAX_RAY_KM cfg;
     V2.SHELTER_THRESHOLD_KM := threshold_km;
     V2.RAY_STEP_M := V2.RAY_STEP_M cfg;
     V2.EXPECTED_DISTANCES := V2.EXPECTED_DISTANCES cfg |}.

Lemma count_true_threshold_mono (cfg : V2.Config) (t1 t2 : R)
  (ds : list R) :
  t1 <= t2 ->
  (V2.count_true (map (V2.is_sheltered (with_threshold cfg t1)) ds)
   <= V2.count_true (map (V2.is_sheltered (with_threshold cfg t2)) ds))%nat.
Proof.
  intros Ht. induction ds as [| d ds IH]; [reflexivity |].
  unfold V2.count_true in *. cbn [map filter].
  destruct (V2.is_sheltered (with_threshold cfg t1) d) eqn:E1.
  - apply is_sheltered_spec in E1. cbn [with_threshold
      V2.SHELTER_THRESHOLD_KM] in E1.
    assert (E2 : V2.is_sheltered (with_threshold cfg t2) d = true).
    { apply is_sheltered_spec. cbn [with_threshold V2.SHELTER_THRESHOLD_KM].
      lra. }
    rewrite E2. simpl. lia.
  - destruct (V2.is_sheltered (with_threshold cfg t2) d); simpl; lia.
Qed.

Lemma shelter_ratio_threshold_mono (cfg : V2.Config) (t1 t2 : R)
  (ds : list R) :
  ds <> [] -> t1 <= t2 ->
  shelter_ratio_value (with_threshold cfg t2) ds
  <= shelter_ratio_value (with_threshold cfg t1) ds.
Proof.
  intros Hne Ht. unfold shelter_ratio_value.
  assert (Hn : 0 < INR (List.length ds)).
  { destruct ds; [contradiction |]. apply lt_0_INR. simpl. lia. }
  pose proof (le_INR _ _ (count_true_threshold_mono cfg t1 t2 ds Ht)) as Hc.
  assert (Hinv : 0 < / INR (List.length ds)) by now apply Rinv_0_lt_compat.
  unfold Rdiv. nra.
Qed.

(** X27.  The threshold acts on the ratios only, and in one direction.  Of
    two configurations that differ in [SHELTER_THRESHOLD_KM] alone, the
    one with the larger threshold gives, for every route, land mask and
    direction, a shelter ratio that is at most the other's, the same
    effective fetch, and a mean ratio that is at most the other's. *)
Theorem larger_threshold_more_shelter (cfg : V2.Config)
  (wgs84_to_utm : R -> R -> PlanarPoint) (id origin_slug dest_slug : string)
  (land_geom : LandMask) (origin dest : Port) (t1 t2 : R) :
  dict_get String.eqb (V2.PORTS cfg) origin_slug = Some origin ->
  dict_get String.eqb (V2.PORTS cfg) dest_slug = Some dest ->
  (1 <= V2.SAMPLE_POINTS_PER_ROUTE cfg)%Z ->
  0 < V2.RAY_STEP_M cfg ->
  t1 <= t2 ->
  exists sig1 sig2,
    V2.compute_shelter_signature (with_threshold cfg t1) wgs84_to_utm id
      origin_slug dest_slug land_geom = Ok sig1 /\
    V2.compute_shelter_signature (with_threshold cfg t2) wgs84_to_utm id
      origin_slug dest_slug land_geom = Ok sig2 /\
    (forall dir, exists s1 s2,
       dict_get Compass.eqb (V2.shelter_ratio_by_dir sig1) dir = Some s1 /\
       dict_get Compass.eqb (V2.shelter_ratio_by_dir sig2) dir = Some s2 /\
       s2 <= s1) /\
    V2.effective_open_fetch_km_by_dir sig2
    = V2.effective_open_fetch_km_by_dir sig1 /\
    V2.mean_shelter_ratio sig2 <= V2.mean_shelter_ratio sig1.
Proof.
  intros Ho Hd Hn Hstep Ht.
  assert (Hok : forall t,
            V2.compute_shelter_signature (with_threshold cfg t) wgs84_to_utm
              id origin_slug dest_slug land_geom
            = Ok (signature_of (with_threshold cfg t) land_geom id
                    origin_slug dest_slug
                    (sample_points_of wgs84_to_utm origin dest
                       (V2.SAMPLE_POINTS_PER_ROUTE cfg)))).
  { intros t.
    apply (compute_shelter_signature_ok (with_threshold cfg t));
      cbn [with_threshold V2.PORTS V2.SAMPLE_POINTS_PER_ROUTE V2.RAY_STEP_M];
      [now apply ports_get_present | now apply ports_get_present
      | exact Hn | lra]. }
  set (points := sample_points_of wgs84_to_utm origin dest
                   (V2.SAMPLE_POINTS_PER_ROUTE cfg)) in *.
  assert (Hne : points <> []) by now apply sample_points_of_nonempty.
  assert (Hratio : forall deg,
            py_round (shelter_ratio_value (with_threshold cfg t2)
                        (shelter_distances (with_threshold cfg t2)
                           land_geom points deg)) 3
            <= py_round (shelter_ratio_value (with_threshold cfg t1)
                           (shelter_distances (with_threshold cfg t1)
                              land_geom points deg)) 3).
  { intros deg. apply py_round_mono.
    change (shelter_distances (with_threshold cfg t2) land_geom points deg)
      with (shelter_distances (with_threshold cfg t1) land_geom points deg).
    apply shelter_ratio_threshold_mono; [| exact Ht].
    unfold shelter_distances. now apply ray_distances_nonempty. }
  eexists. eexists.
  split; [apply Hok |]. split; [apply Hok |].
  cbn [signature_of V2.shelter_ratio_by_dir V2.effective_open_fetch_km_by_dir
       V2.mean_shelter_ratio].
  split; [| split].
  - intros dir. destruct (compass_degrees dir) as (deg & Hin).
    do 2 eexists. unfold shelter_ratio_dict.
    rewrite !(dir_dict_get _ dir deg Hin).
    split; [reflexivity |]. split; [reflexivity |]. apply Hratio.
  - reflexivity.
  - apply py_round_mono. unfold shelter_ratio_dict.
    rewrite !dir_dict_values.
    pose proof (py_sum_map_le _ _ (dict_values COMPASS_DIRECTIONS) Hratio).
    lra.
Qed.

Lemma larger_threshold_more_shelter_witness :
  exists sig1 sig2,
    V2.compute_shelter_signature (with_threshold V2.shipped 3)
      flat_projection "wh-vh-ssa" "woods-hole" "vineyard-haven"
      (land_north_of 4600000) = Ok sig1 /\
    V2.compute_shelter_signature (with_threshold V2.shipped 5)
      flat_projection "wh-vh-ssa" "woods-hole" "vineyard-haven"
      (land_north_of 4600000) = Ok sig2 /\
    V2.mean_shelter_ratio sig2 <= V2.mean_shelter_ratio sig1.
Proof.
  destruct (larger_threshold_more_shelter V2.shipped flat_projection
              "wh-vh-ssa" "woods-hole" "vineyard-haven"
              (land_north_of 4600000) woods_hole vineyard_haven 3 5)
    as (sig1 & sig2 & H1 & H2 & _ & _ & Hm).
  - reflexivity.
  - reflexivity.
  - simpl. lia.
  - simpl. lra.
  - lra.
  - exists sig1, sig2. repeat split; assumption.
Defined.
